(* ===== verification/_CoqProject ===== *)
-Q . S2P
Prelude.v
Jenkins.v
Hash.v
BipBuffer.v
Heap.v
Assoc.v
Decimal.v
PrefixStats.v
Settings.v
Slabs.v
Items.v
Store.v
StoreInv.v
StoreSpec.v
StoreOps.v
Rebalance.v
Mover.v
Relocate.v
PageMove.v
MoverSpec.v
Automove.v
Dispatch.v
ObjCache.v
Conn.v
Iov.v
Machine.v
Serve.v
Commands.v
CommandLaws.v
Binary.v
BinaryLaws.v
