(* ===== verification/Prelude.v ===== *)
(** * A verification development of memcached

    The repository studies memcached 1.5 in one directory per subject; the
    directories overlap, and a function that appears in several of them is modelled
    once, from the directory named at the head of its file.  This development
    models the item store and what is around it (src/slabs_curd, src/memory_lru),
    and the network side (src/network, src/thread), as functions on explicit state.

    ** Parts and files

    - [Prelude]: machine integers ([wrap], [u32], ...), byte lists, the result
      type [res] (a value, a failed assert or an access the language leaves
      undefined, or fuel exhausted), the state-and-error monad [M] with its
      lemmas, the hints.
    - [Jenkins], [Hash] (jenkins_hash.c, murmur3_hash.c, hash.c): the two hash
      functions; the class [HashFunction] is what the hash table relies on.
    - [BipBuffer] (bipbuffer.c): the ring buffer between workers and LRU threads.
    - [Heap] (struct item of memcached.h): items in memory and the theory of the
      doubly linked lists and chains threaded through them.
    - [Assoc] (assoc.c): the hash table and its incremental expansion.
    - [Decimal] (util.c): decimal conversions, safe_strtoull.
    - [PrefixStats] (thread/stats.c): statistics by key prefix.
    - [Settings] (memcached.h, memcached.c): settings and statistics.
    - [Slabs] (slabs.c): the slab allocator: classes, pages, free lists, requests
      to move a page.
    - [Items] (items.c): items and the LRU queues over all of the above: link,
      unlink, replace, release, allocation with eviction, LRU pulls, lookup, touch.
    - [Store] (memcached.c of slabs_curd): do_store_item, do_add_delta.
    - [StoreInv]: the store's invariant (table, queues, free lists, reference
      counts, the chunks the page mover holds) and what each operation of [Items]
      does to it.
    - [StoreSpec]: the store as a map with reference counts, and the refinement.
    - [StoreOps]: what the storage commands answer and leave in the map.
    - [Rebalance] (memory_lru/slabs.c): the page mover; its laws are in [Mover],
      [Relocate] and [PageMove], the theorems on runs in [MoverSpec].
    - [Automove] (slab_automove.c, slab_automove_extstore.c): which page to move.
    - [Dispatch] (network/thread.c): handing connections to the workers, every
      interleaving of the critical sections as a step relation.
    - [ObjCache] (network/cache.c): the object cache with its red zones.
    - [Conn], [Iov], [Machine], [Serve] (thread/memcached.c and
      network/memcached.c): connections, the gathering of a response, the state
      machine drive_machine, and its theorems over the life of a connection.
    - [Commands], [CommandLaws] (thread/memcached.c): the ASCII protocol over an
      interface to the store, and its place in the state machine.
    - [Binary], [BinaryLaws] (thread/memcached.c, protocol_binary.h): the binary
      protocol and its SASL commands; the packets they answer with.

    ** How the parts meet

    A request's bytes enter through [Machine.try_read_network]; a line goes to the
    commands through the class [Machine.Handlers], a value through
    [Machine.complete_nread]; the laws a handler must keep are the class [Lawful],
    which [CommandLaws] discharges for the ASCII commands.  The commands use the
    store through a record of operations ([Commands.Cache]).  [Items] calls [Slabs]
    and [Assoc] on its own state; a callback of the code (the clock, libevent,
    malloc, the sockets, a trylock's success) is an argument or a field of the
    state.  Locks: each definition is a critical section, so a sequence of calls
    is an interleaving; where the interleaving itself matters ([Assoc], [Dispatch],
    [MoverSpec]) it is a sequence of steps chosen freely.

    ** What the theorems show

    Of the store: it refines a map with reference counts under every sequence of
    calls ([StoreSpec.store_refines_map]); the storage commands do what the
    protocol says ([StoreOps]); the allocator never hands a chunk out twice, loses
    one or overruns a page list ([Slabs.slab_allocator_sound]); the hash table is
    a map at every stage of an expansion, and an expansion ends ([Assoc]).  Of the
    network side: the stream is cut where the protocol says and no byte is lost
    ([Serve.stream_framed]), the event handler of an accepted connection of the
    ASCII protocol returns ([Serve.drive_machine_returns]), with the real ASCII
    commands as its handlers as long as memory comes back
    ([CommandLaws.ascii_commands_lawful]; a get need not return when it stays missing,
    [CommandLaws.get_retries_forever]), a response is gathered in order within the
    limits of a message when memory is at hand ([Iov]: msg_iov is a pointer into the
    array of buffers c->iov is at the time, and a realloc of the array leaves it
    dangling until the messages are pointed into the new one), every connection handed over is handled once and
    in order ([Dispatch]); a request of the binary protocol is answered with one
    whole packet, and room is made for it without losing what was read
    ([BinaryLaws]: with memory at hand, since the handlers do not ask whether
    add_iov succeeded).  Of the automovers: they decide what a specification written from the
    statistics and the samples of the window says ([Automove]).  Of the utilities:
    round trips, bounds and equivalences with reference definitions.

    ** Fuel and bounds

    A loop whose end is not structural takes a counter: the number of chunks of a
    page, of buckets, of items in memory plus one, or the tries the code itself
    counts; the theorems show that the operations return [Ok] with the counters
    the definitions choose, so that the fuel suffices.  Memory is bounded by [cap]
    pages ([page_cap] of [StoreInv.bound]) so that the 32-bit counters of chunks
    do not wrap.

    ** The page mover

    [Rebalance] follows memory_lru/slabs.c function by function.  Between two turns
    of the mover the chunks it has cleared are nobody's but its own; [StoreInv]
    carries them as [moved].  [Mover] shows what one chunk's change of hands does
    to the whole store; [Relocate] what one turn of the loop of
    slab_rebalance_move does, whatever is in the chunk under slab_pos (free, an
    item copied into another chunk of its class, an item evicted, one in use, one
    whose lock is taken); [Rebalance.hand_over_inv] that giving the page to its new
    class or to the global pool leaves the allocator sound; [PageMove] what a pass
    over the page, the start and the hand-over do to the store.  [MoverSpec] puts
    the mover among the clients: [mover_refines_map] lets its steps and the
    clients' operations alternate, with the page the mover is at, how far it got and
    the chunks it holds as the invariant [phase].  A call of one of the mover's
    functions is one step: slab_rebalance_move lets go of slabs_lock while it copies
    or unlinks an item (slabs.c:860 and 927-984), and what other threads do to the
    allocator in that window is not modelled.  Two things the code leaves to chance
    are hypotheses of the theorem ([sys_ok]), and findings: room in the list of the
    new class, and a page of the global pool that is still there at the end;
    [finish_without_room] is the run where there is no room.
    [page_gets_cleared] bounds the calls it takes: one pass may find what was busy
    earlier, one what it evicts itself, the last finds nothing.  The theorems are
    about stores without chunked items, as [StoreSpec] is; the chunked branches of
    the mover are modelled but have no theorem.

    ** Not modelled

    The statistics commands of both protocols; the SASL library's callbacks
    (thread/sasl_defs.c); the sockets, the command line, the clock and the
    idle-timeout thread (network/memcached.c main and server_socket); external
    storage (exstore); the LRU maintainer and the crawler (memory_lru/items.c,
    crawler.c).  The copies in
    memory_init, memory_hash and memory_rebalance repeat functions modelled here.
    Logging, dtrace and debugging lines have no effect on the state modelled. *)

From stdpp Require Export base numbers list gmap strings sorting.
From Stdlib Require Export ZArith Lia.

#[global] Open Scope Z_scope.
#[global] Set Default Goal Selector "!".
#[global] Unset Mangle Names.

Declare Scope memcached_scope.
Delimit Scope memcached_scope with mc.

(** ** Fixed-width integers

    A [w]-bit unsigned integer is a [Z] in [0, 2^w); C's unsigned arithmetic is
    the operation on [Z] followed by [wrap w]; a conversion to a [w]-bit signed
    type is [sint w] (two's complement, as gcc and clang define it). *)

Definition wrap (w x : Z) : Z := x mod 2 ^ w.
Definition sint (w x : Z) : Z :=
  let y := wrap w x in if decide (y < 2 ^ (w - 1)) then y else y - 2 ^ w.

Abbreviation u8 := (wrap 8).
Abbreviation u16 := (wrap 16).
Abbreviation u32 := (wrap 32).
Abbreviation u64 := (wrap 64).
Abbreviation s32 := (sint 32).
Abbreviation s64 := (sint 64).

Definition in_u (w x : Z) : Prop := 0 <= x < 2 ^ w.

Lemma wrap_range w x : 0 <= w -> in_u w (wrap w x).
Proof. intros. apply Z.mod_pos_bound. lia. Qed.

Lemma wrap_small w x : in_u w x -> wrap w x = x.
Proof. apply Z.mod_small. Qed.

Lemma wrap_wrap w x : 0 <= w -> wrap w (wrap w x) = wrap w x.
Proof. intros. by apply wrap_small, wrap_range. Qed.

Lemma wrap_add_l w x y : wrap w (wrap w x + y) = wrap w (x + y).
Proof. apply Zplus_mod_idemp_l. Qed.

Lemma wrap_add_r w x y : wrap w (x + wrap w y) = wrap w (x + y).
Proof. apply Zplus_mod_idemp_r. Qed.

Lemma wrap_sub_l w x y : wrap w (wrap w x - y) = wrap w (x - y).
Proof. apply Zminus_mod_idemp_l. Qed.

Lemma wrap_sub_r w x y : wrap w (x - wrap w y) = wrap w (x - y).
Proof. apply Zminus_mod_idemp_r. Qed.

Lemma wrap_mul_l w x y : wrap w (wrap w x * y) = wrap w (x * y).
Proof. apply Zmult_mod_idemp_l. Qed.

Lemma wrap_mul_r w x y : wrap w (x * wrap w y) = wrap w (x * y).
Proof. apply Zmult_mod_idemp_r. Qed.

Lemma wrap_add_l2 w x y z : wrap w (wrap w x + y + z) = wrap w (x + y + z).
Proof. rewrite <- !Z.add_assoc. apply wrap_add_l. Qed.

Lemma wrap_add_l3 w x y z t : wrap w (wrap w x + y + z + t) = wrap w (x + y + z + t).
Proof. rewrite <- !Z.add_assoc. apply wrap_add_l. Qed.

Create HintDb wrap.
Create Rewrite HintDb wrap.
#[export] Hint Rewrite wrap_add_l wrap_add_r wrap_sub_l wrap_sub_r
  wrap_mul_l wrap_mul_r wrap_add_l2 wrap_add_l3 : wrap.

Lemma sint_small w x : 0 < w -> 0 <= x < 2 ^ (w - 1) -> sint w x = x.
Proof.
  intros Hw Hx. unfold sint.
  assert (2 ^ w = 2 * 2 ^ (w - 1)) as E
    by (rewrite <- Z.pow_succ_r by lia; f_equal; lia).
  rewrite wrap_small by (unfold in_u; lia).
  by rewrite decide_True by lia.
Qed.

(** [norm_pow2] evaluates the literal powers of two, for [lia]. *)
Ltac is_pos_literal p :=
  lazymatch p with xH => idtac | xO ?q => is_pos_literal q | xI ?q => is_pos_literal q end.
Ltac norm_pow2 :=
  repeat match goal with
  | |- context [2 ^ Z.pos ?p] =>
      is_pos_literal p; let v := eval vm_compute in (2 ^ Z.pos p) in
      change (2 ^ Z.pos p) with v
  | H : context [2 ^ Z.pos ?p] |- _ =>
      is_pos_literal p; let v := eval vm_compute in (2 ^ Z.pos p) in
      change (2 ^ Z.pos p) with v in H
  end.

(** Linear arithmetic with literal divisors and moduli. *)
Ltac mod_lia := norm_pow2; Z.div_mod_to_equations; lia.

(** ** Bits of non-negative integers *)

Lemma testbit_above w x i : 0 <= w -> in_u w x -> w <= i -> Z.testbit x i = false.
Proof.
  intros Hw [Hx1 Hx2] Hi.
  rewrite <- (Z.mod_small x (2 ^ w)) by lia.
  apply Z.mod_pow2_bits_high. lia.
Qed.

Lemma in_u_bits w x : 0 <= w -> 0 <= x ->
  (forall i, w <= i -> Z.testbit x i = false) -> in_u w x.
Proof.
  intros Hw Hx Hb. split; [done|].
  assert (x mod 2 ^ w = x) as E.
  { apply Z.bits_inj'. intros i Hi. destruct (decide (i < w)) as [Hl|Hl].
    - by rewrite Z.mod_pow2_bits_low by lia.
    - rewrite Z.mod_pow2_bits_high by lia. symmetry. apply Hb. lia. }
  rewrite <- E. apply Z.mod_pos_bound. lia.
Qed.

Lemma in_u_lxor w x y : 0 <= w -> in_u w x -> in_u w y -> in_u w (Z.lxor x y).
Proof.
  intros Hw Hx Hy. apply in_u_bits; [done| |].
  - apply Z.lxor_nonneg. unfold in_u in *. lia.
  - intros i Hi. rewrite Z.lxor_spec, !(testbit_above w) by done. done.
Qed.

Lemma in_u_lor w x y : 0 <= w -> in_u w x -> in_u w y -> in_u w (Z.lor x y).
Proof.
  intros Hw Hx Hy. apply in_u_bits; [done| |].
  - apply Z.lor_nonneg. unfold in_u in *. lia.
  - intros i Hi. rewrite Z.lor_spec, !(testbit_above w) by done. done.
Qed.

Lemma in_u_shiftr w x k : 0 <= k -> in_u w x -> in_u w (Z.shiftr x k).
Proof.
  intros Hk [Hx1 Hx2]. unfold in_u. rewrite Z.shiftr_div_pow2 by lia.
  assert (0 < 2 ^ k) by lia.
  split; [by apply Z.div_pos|]. apply Z.div_lt_upper_bound; nia.
Qed.

#[export] Hint Resolve in_u_lxor in_u_lor in_u_shiftr wrap_range : wrap.

(** Masking with [2^n - 1] keeps the low [n] bits. *)
Lemma land_mask x n : 0 <= n -> Z.land x (2 ^ n - 1) = x mod 2 ^ n.
Proof.
  intros. replace (2 ^ n - 1) with (Z.ones n) by (rewrite Z.ones_equiv; lia).
  by apply Z.land_ones.
Qed.

(** Masking a [w]-bit word with [2^w - 2^n] clears the low [n] bits. *)
Lemma land_high_mask w x n : 0 <= n <= w -> in_u w x ->
  Z.land x (2 ^ w - 2 ^ n) = x - x mod 2 ^ n.
Proof.
  intros Hn Hx.
  replace (2 ^ w - 2 ^ n) with (Z.shiftl (Z.ones (w - n)) n)
    by (rewrite Z.shiftl_mul_pow2, Z.ones_equiv by lia;
        rewrite <- Z.sub_1_r, Z.mul_sub_distr_r, <- Z.pow_add_r by lia;
        f_equal; [f_equal|]; lia).
  assert (x - x mod 2 ^ n = Z.shiftl (Z.shiftr x n) n) as ->.
  { rewrite Z.shiftl_mul_pow2, Z.shiftr_div_pow2 by lia.
    rewrite (Z.div_mod x (2 ^ n)) at 1 by lia. lia. }
  apply Z.bits_inj'. intros i Hi. rewrite Z.land_spec, !Z.shiftl_spec by lia.
  destruct (decide (i < n)).
  { rewrite !(Z.testbit_neg_r _ (i - n)) by lia. apply andb_false_r. }
  rewrite Z.shiftr_spec, Z.sub_add, Z.testbit_ones_nonneg by lia.
  destruct (Z.ltb_spec (i - n) (w - n)); [apply andb_true_r|].
  rewrite (testbit_above w) by (auto; lia). done.
Qed.

(** ** Bytes *)

(** A byte string: a list of integers in [0, 256). *)
Definition bytes_ok (l : list Z) : Prop := Forall (in_u 8) l.

(** [byte k i] is the byte [k[i]] of memory starting at [k]. *)
Definition byte (k : list Z) (i : nat) : Z := nth i k 0.

Lemma byte_range k i : bytes_ok k -> in_u 8 (byte k i).
Proof.
  intros Hk. unfold byte. destruct (nth_in_or_default i k 0) as [H| ->].
  - rewrite <- list_elem_of_In in H. by eapply Forall_forall in H.
  - done.
Qed.

Lemma byte_drop k n i : byte (drop n k) i = byte k (n + i).
Proof.
  unfold byte. revert n. induction k as [|x k IH]; intros [|n]; simpl; try done.
  by destruct i.
Qed.

Lemma bytes_ok_drop k n : bytes_ok k -> bytes_ok (drop n k).
Proof. apply Forall_drop. Qed.

#[export] Hint Resolve byte_range bytes_ok_drop : wrap.

(** Loads of native words at byte offset [o]. *)
Definition le16 (k : list Z) (o : nat) : Z := byte k o + byte k (o + 1) * 2 ^ 8.
Definition le32 (k : list Z) (o : nat) : Z :=
  byte k o + byte k (o + 1) * 2 ^ 8 + byte k (o + 2) * 2 ^ 16 + byte k (o + 3) * 2 ^ 24.
Definition be32 (k : list Z) (o : nat) : Z :=
  byte k o * 2 ^ 24 + byte k (o + 1) * 2 ^ 16 + byte k (o + 2) * 2 ^ 8 + byte k (o + 3).

(** ** Arrays of bytes *)

(** [write_bytes l o bs] is memcpy(l + o, bs, |bs|) into an array that is long
    enough. *)
Definition write_bytes (l : list Z) (o : nat) (bs : list Z) : list Z :=
  take o l ++ bs ++ drop (o + length bs) l.

(** memcpy into memory whose first bytes are [l], and zeroes after them. *)
Definition poke (l : list Z) (o : nat) (bs : list Z) : list Z :=
  write_bytes (resize (Nat.max (length l) (o + length bs)) 0 l) o bs.

(** The bytes [l[a .. b)]. *)
Definition slice (l : list Z) (a b : nat) : list Z := take (b - a) (drop a l).

Lemma write_bytes_length l o bs : (o + length bs <= length l)%nat ->
  length (write_bytes l o bs) = length l.
Proof.
  intros. unfold write_bytes. rewrite !length_app, length_take, length_drop. lia.
Qed.

Lemma slice_length l a b : (a <= b <= length l)%nat -> length (slice l a b) = (b - a)%nat.
Proof. intros. unfold slice. rewrite length_take, length_drop. lia. Qed.

Lemma slice_app l a b c : (a <= b <= c)%nat -> slice l a b ++ slice l b c = slice l a c.
Proof.
  intros H. unfold slice.
  replace (c - a)%nat with ((b - a) + (c - b))%nat by lia.
  rewrite <- take_take_drop, drop_drop.
  do 3 f_equal. lia.
Qed.

Lemma slice_nil l a : slice l a a = [].
Proof. unfold slice. by rewrite Nat.sub_diag. Qed.

(** Writing leaves the slices before and after it alone and fills its own. *)
Lemma slice_write_before l o bs a b : (b <= o <= length l)%nat ->
  slice (write_bytes l o bs) a b = slice l a b.
Proof.
  intros H. unfold slice, write_bytes.
  destruct (decide (b <= a)%nat).
  { replace (b - a)%nat with 0%nat by lia. by rewrite !take_0. }
  rewrite drop_app_le by (rewrite length_take; lia).
  rewrite take_app_le by (rewrite length_drop, length_take; lia).
  rewrite skipn_firstn_comm, take_take. f_equal. lia.
Qed.

Lemma slice_write_same l o bs : (o <= length l)%nat ->
  slice (write_bytes l o bs) o (o + length bs) = bs.
Proof.
  intros H. unfold slice, write_bytes.
  rewrite drop_app_length' by (rewrite length_take; lia).
  rewrite take_app_length' by lia. done.
Qed.

Lemma slice_write_after l o bs a b : (o + length bs <= a)%nat -> (o <= length l)%nat ->
  slice (write_bytes l o bs) a b = slice l a b.
Proof.
  intros H Hl. unfold slice, write_bytes. f_equal.
  rewrite app_assoc, drop_app_ge by (rewrite length_app, length_take; lia).
  rewrite length_app, length_take, drop_drop. f_equal. lia.
Qed.

(** ** Results

    A C function that ends in a failed assert() or in exit() has the result
    [Abort]; a loop whose fuel ran out has the result [NoFuel].  The theorems
    show which of the three an operation returns. *)

Inductive res (A : Type) : Type :=
| Ok (a : A)
| Abort
| NoFuel.
Arguments Ok {A} a.
Arguments Abort {A}.
Arguments NoFuel {A}.

#[export] Instance res_ret : MRet res := @Ok.
#[export] Instance res_bind : MBind res := fun A B f m =>
  match m with Ok a => f a | Abort => Abort | NoFuel => NoFuel end.

(** assert(b) *)
Definition assertb (b : bool) : res unit := if b then Ok tt else Abort.

Lemma bind_ok {A B} (m : res A) (f : A -> res B) r :
  m ≫= f = Ok r <-> exists a, m = Ok a /\ f a = Ok r.
Proof.
  destruct m as [a| |]; split; [by exists a|intros (?&?&?); by simplify_eq|..];
    first [done | by intros (?&?&?)].
Qed.

(** ** State

    [M S A]: a computation over the state [S] that may abort. *)

Definition M (S A : Type) : Type := S -> res (A * S).

#[export] Instance M_ret {S} : MRet (M S) := fun A a s => Ok (a, s).
#[export] Instance M_bind {S} : MBind (M S) := fun A B f m s =>
  match m s with Ok (a, s) => f a s | Abort => Abort | NoFuel => NoFuel end.

Definition gets {S A} (f : S -> A) : M S A := fun s => Ok (f s, s).
Definition modify {S} (f : S -> S) : M S unit := fun s => Ok (tt, f s).
Definition massert {S} (b : bool) : M S unit := fun s => if b then Ok (tt, s) else Abort.
Definition nofuel {S A} : M S A := fun _ => NoFuel.
Definition when {S} (b : bool) (m : M S unit) : M S unit := if b then m else mret tt.

Lemma M_bind_ok {S A B} (m : M S A) (f : A -> M S B) s a s' :
  m s = Ok (a, s') -> (m ≫= f) s = f a s'.
Proof. unfold mbind, M_bind. by intros ->. Qed.

(** The equations of the monad, by which a computation is run in a proof. *)
Lemma gets_bind {S A B} (f : S -> A) (k : A -> M S B) s : (gets f ≫= k) s = k (f s) s.
Proof. done. Qed.
Lemma modify_bind {S B} (f : S -> S) (k : unit -> M S B) s : (modify f ≫= k) s = k tt (f s).
Proof. done. Qed.
Lemma mret_bind {S A B} (a : A) (k : A -> M S B) s : (mret a ≫= k) s = k a s.
Proof. done. Qed.
Lemma massert_bind {S B} b (k : unit -> M S B) s : b = true -> (massert b ≫= k) s = k tt s.
Proof. by intros ->. Qed.
Lemma when_bind_true {S B} b (m : M S unit) (k : unit -> M S B) s :
  b = true -> (when b m ≫= k) s = (m ≫= k) s.
Proof. by intros ->. Qed.
Lemma when_bind_false {S B} b (m : M S unit) (k : unit -> M S B) s :
  b = false -> (when b m ≫= k) s = k tt s.
Proof. by intros ->. Qed.
Lemma when_true {S} b (m : M S unit) s : b = true -> when b m s = m s.
Proof. by intros ->. Qed.
Lemma when_false {S} b (m : M S unit) s : b = false -> when b m s = Ok (tt, s).
Proof. by intros ->. Qed.
Lemma bind_assoc {S A B C} (m : M S A) (f : A -> M S B) (g : B -> M S C) s :
  ((m ≫= f) ≫= g) s = (m ≫= fun a => f a ≫= g) s.
Proof. unfold mbind, M_bind. by destruct (m s) as [[a s']| |]. Qed.

(** [runs P m s Q]: from [s] the computation [m] ends (its fuel is enough) in an
    answer and a state that satisfy [Q], or it aborts and [P] holds.  With [P]
    false it is total correctness. *)
Definition runs {S A} (P : Prop) (m : M S A) (s : S) (Q : A -> S -> Prop) : Prop :=
  match m s with Ok (a, s') => Q a s' | Abort => P | NoFuel => False end.

Lemma runs_bind {S A B} P (m : M S A) (f : A -> M S B) s Q :
  runs P m s (fun a s' => runs P (f a) s' Q) -> runs P (m ≫= f) s Q.
Proof. unfold runs, mbind, M_bind. by destruct (m s) as [[a s']| |]. Qed.
Lemma runs_mono {S A} P (m : M S A) s (Q Q' : A -> S -> Prop) :
  runs P m s Q -> (forall a s', Q a s' -> Q' a s') -> runs P m s Q'.
Proof. unfold runs. destruct (m s) as [[a s']| |]; auto. Qed.
Lemma runs_ret {S A} P (a : A) (s : S) (Q : A -> S -> Prop) : Q a s -> runs P (mret a) s Q.
Proof. done. Qed.
Lemma runs_gets {S A} P (f : S -> A) s (Q : A -> S -> Prop) : Q (f s) s -> runs P (gets f) s Q.
Proof. done. Qed.
Lemma runs_modify {S} P (f : S -> S) s (Q : unit -> S -> Prop) : Q tt (f s) -> runs P (modify f) s Q.
Proof. done. Qed.
Lemma runs_massert {S} P b s (Q : unit -> S -> Prop) : b = true -> Q tt s -> runs P (massert b) s Q.
Proof. by intros ->. Qed.
Lemma runs_when {S} P (b : bool) (m : M S unit) s (Q : unit -> S -> Prop) :
  (b = true -> runs P m s Q) -> (b = false -> Q tt s) -> runs P (when b m) s Q.
Proof. intros H1 H2. destruct b; [by apply H1|by apply H2]. Qed.
Lemma runs_ok {S A} P (m : M S A) s a s' (Q : A -> S -> Prop) : m s = Ok (a, s') -> runs P m s Q -> Q a s'.
Proof. unfold runs. by intros ->. Qed.

(** Lexicographic orders on a measure and then another order. *)
Lemma lex_wf {A} (f : A -> nat) (R : A -> A -> Prop) :
  well_founded R -> well_founded (fun x y => (f x < f y)%nat \/ (f x = f y /\ R x y)).
Proof.
  intros WR. assert (forall n x, f x = n -> Acc (fun x y => (f x < f y)%nat \/ (f x = f y /\ R x y)) x) as H by
    (intros n; induction n as [n IHn] using lt_wf_ind; intros x; induction (WR x) as [x _ IHx]; intros E;
     constructor; intros y [Hy|[Ey Hy]]; [apply (IHn (f y)); lia|apply IHx; [done|congruence]]).
  intros x. by apply (H (f x)).
Qed.

(** ** Record update: [r <| f := v |>] and [r <| f ::= g |>]

    A record type with an [Eta] instance, the identity written with every
    field, gets an updater for each of its projections. *)

Class Eta (R : Type) := eta : R -> R.
Class Updater {R T : Type} (proj : R -> T) := update : (T -> T) -> R -> R.
#[export] Hint Mode Updater ! ! ! : typeclass_instances.

Ltac derive_updater proj :=
  lazymatch type of proj with
  | ?R -> ?T =>
      let inst := constr:(_ : Eta R) in
      let e := eval red in inst in
      match eval pattern proj in e with
      | ?shape _ =>
          let u := constr:(fun (f : T -> T) (r : R) => shape (fun x => f (proj x)) r) in
          let u := eval cbv beta in u in exact u
      end
  end.
#[export] Hint Extern 1 (Updater ?proj) => derive_updater proj : typeclass_instances.

Declare Scope update_scope.
Open Scope update_scope.
Notation "r <| f ::= g |>" := (update (proj := f) g r)
  (at level 1, f at next level, left associativity) : update_scope.
Notation "r <| f := v |>" := (update (proj := f) (fun _ => v) r)
  (at level 1, f at next level, left associativity) : update_scope.
