(* ===== verification/Jenkins.v ===== *)
(** * Bob Jenkins' hash (src/slabs_curd/jenkins_hash.c)

    Both builds of [jenkins_hash] are modelled: the little-endian one
    ([Module Little], lines 125-297) with its three alignment branches, and the
    big-endian one ([Module Big], lines 299-428) with its two, each with the
    plain and the [VALGRIND] tail switch.  A key is the memory [k : list Z] that
    starts at the key's address, of which the first [len] bytes are the key:
    the word-sized loads of the aligned branches read past the end of the key,
    and the theorems show that what they read there does not matter. *)

From S2P Require Import Prelude.

(** The internal state [(a, b, c)] of the hash. *)
Definition abc : Type := Z * Z * Z.

Definition adda (x : Z) (s : abc) : abc := let '(a, b, c) := s in (u32 (a + x), b, c).
Definition addb (x : Z) (s : abc) : abc := let '(a, b, c) := s in (a, u32 (b + x), c).
Definition addc (x : Z) (s : abc) : abc := let '(a, b, c) := s in (a, b, u32 (c + x)).

(** #define rot(x,k) (((x)<<(k)) ^ ((x)>>(32-(k)))) on uint32_t *)
Definition rot (x k : Z) : Z := Z.lxor (u32 (Z.shiftl x k)) (Z.shiftr x (32 - k)).

Definition mix (s : abc) : abc :=
  let '(a, b, c) := s in
  let a := u32 (a - c) in let a := Z.lxor a (rot c 4) in let c := u32 (c + b) in
  let b := u32 (b - a) in let b := Z.lxor b (rot a 6) in let a := u32 (a + c) in
  let c := u32 (c - b) in let c := Z.lxor c (rot b 8) in let b := u32 (b + a) in
  let a := u32 (a - c) in let a := Z.lxor a (rot c 16) in let c := u32 (c + b) in
  let b := u32 (b - a) in let b := Z.lxor b (rot a 19) in let a := u32 (a + c) in
  let c := u32 (c - b) in let c := Z.lxor c (rot b 4) in let b := u32 (b + a) in
  (a, b, c).

Definition final (s : abc) : abc :=
  let '(a, b, c) := s in
  let c := Z.lxor c b in let c := u32 (c - rot b 14) in
  let a := Z.lxor a c in let a := u32 (a - rot c 11) in
  let b := Z.lxor b a in let b := u32 (b - rot a 25) in
  let c := Z.lxor c b in let c := u32 (c - rot b 16) in
  let a := Z.lxor a c in let a := u32 (a - rot c 4) in
  let b := Z.lxor b a in let b := u32 (b - rot a 14) in
  let c := Z.lxor c b in let c := u32 (c - rot b 24) in
  (a, b, c).

(** The shape shared by every branch: [while (length > 12)], reading twelve
    bytes with [rd] and mixing, then the tail switch ([None] is its
    [case 0: return c]) and the final mixing. *)
Fixpoint blocks (rd : list Z -> abc -> abc) (fuel : nat) (k : list Z) (len : nat)
    (s : abc) : list Z * nat * abc :=
  match fuel with
  | O => (k, len, s)
  | S fuel =>
      if decide (12 < len)%nat
      then blocks rd fuel (drop 12 k) (len - 12) (mix (rd k s))
      else (k, len, s)
  end.

Definition hash_with (rd : list Z -> abc -> abc)
    (tail : list Z -> nat -> abc -> option abc) (k : list Z) (len : nat) : Z :=
  let i := u32 (0xdeadbeef + u32 (Z.of_nat len) + 0) in
  let '(k, len, s) := blocks rd len k len (i, i, i) in
  match tail k len s with
  | None => s.2
  | Some s => (final s).2
  end.

(** ** The little-endian build *)
Module Little.
(** 32-bit aligned key *)
Definition rd32 (k : list Z) (s : abc) : abc :=
  addc (le32 k 8) (addb (le32 k 4) (adda (le32 k 0) s)).

Definition tail32 (k : list Z) (len : nat) (s : abc) : option abc :=
  let k0 := le32 k 0 in let k1 := le32 k 4 in let k2 := le32 k 8 in
  match len with
  | 12%nat => Some (adda k0 (addb k1 (addc k2 s)))
  | 11%nat => Some (adda k0 (addb k1 (addc (Z.land k2 0xffffff) s)))
  | 10%nat => Some (adda k0 (addb k1 (addc (Z.land k2 0xffff) s)))
  | 9%nat => Some (adda k0 (addb k1 (addc (Z.land k2 0xff) s)))
  | 8%nat => Some (adda k0 (addb k1 s))
  | 7%nat => Some (adda k0 (addb (Z.land k1 0xffffff) s))
  | 6%nat => Some (adda k0 (addb (Z.land k1 0xffff) s))
  | 5%nat => Some (adda k0 (addb (Z.land k1 0xff) s))
  | 4%nat => Some (adda k0 s)
  | 3%nat => Some (adda (Z.land k0 0xffffff) s)
  | 2%nat => Some (adda (Z.land k0 0xffff) s)
  | 1%nat => Some (adda (Z.land k0 0xff) s)
  | 0%nat => None
  | _ => Some s
  end.

(** the same switch compiled with VALGRIND: bytes past the key are not read *)
Definition tail32_valgrind (k : list Z) (len : nat) (s : abc) : option abc :=
  let k0 := le32 k 0 in let k1 := le32 k 4 in let k2 := le32 k 8 in
  let case8 s := adda k0 (addb k1 s) in
  let case9 s := case8 (addc (byte k 8) s) in
  let case10 s := case9 (addc (Z.shiftl (byte k 9) 8) s) in
  let case11 s := case10 (addc (Z.shiftl (byte k 10) 16) s) in
  let case4 s := adda k0 s in
  let case5 s := case4 (addb (byte k 4) s) in
  let case6 s := case5 (addb (Z.shiftl (byte k 5) 8) s) in
  let case7 s := case6 (addb (Z.shiftl (byte k 6) 16) s) in
  let case1 s := adda (byte k 0) s in
  let case2 s := case1 (adda (Z.shiftl (byte k 1) 8) s) in
  let case3 s := case2 (adda (Z.shiftl (byte k 2) 16) s) in
  match len with
  | 12%nat => Some (adda k0 (addb k1 (addc k2 s)))
  | 11%nat => Some (case11 s) | 10%nat => Some (case10 s) | 9%nat => Some (case9 s)
  | 8%nat => Some (case8 s) | 7%nat => Some (case7 s) | 6%nat => Some (case6 s)
  | 5%nat => Some (case5 s) | 4%nat => Some (case4 s) | 3%nat => Some (case3 s)
  | 2%nat => Some (case2 s) | 1%nat => Some (case1 s)
  | 0%nat => None
  | _ => Some s
  end.

(** 16-bit aligned key *)
Definition w16 (k : list Z) (o : nat) : Z := le16 k o + u32 (Z.shiftl (le16 k (o + 2)) 16).

Definition rd16 (k : list Z) (s : abc) : abc :=
  addc (w16 k 8) (addb (w16 k 4) (adda (w16 k 0) s)).

Definition tail16 (k : list Z) (len : nat) (s : abc) : option abc :=
  let case8 s := adda (w16 k 0) (addb (w16 k 4) s) in
  let case10 s := adda (w16 k 0) (addb (w16 k 4) (addc (le16 k 8) s)) in
  let case6 s := adda (w16 k 0) (addb (le16 k 4) s) in
  let case4 s := adda (w16 k 0) s in
  let case2 s := adda (le16 k 0) s in
  match len with
  | 12%nat => Some (adda (w16 k 0) (addb (w16 k 4) (addc (w16 k 8) s)))
  | 11%nat => Some (case10 (addc (Z.shiftl (byte k 10) 16) s))
  | 10%nat => Some (case10 s)
  | 9%nat => Some (case8 (addc (byte k 8) s))
  | 8%nat => Some (case8 s)
  | 7%nat => Some (case6 (addb (Z.shiftl (byte k 6) 16) s))
  | 6%nat => Some (case6 s)
  | 5%nat => Some (case4 (addb (byte k 4) s))
  | 4%nat => Some (case4 s)
  | 3%nat => Some (case2 (adda (Z.shiftl (byte k 2) 16) s))
  | 2%nat => Some (case2 s)
  | 1%nat => Some (adda (byte k 0) s)
  | 0%nat => None
  | _ => Some s
  end.

(** unaligned key: one byte at a time *)
Definition rd8 (k : list Z) (s : abc) : abc :=
  let s := adda (byte k 0) s in
  let s := adda (Z.shiftl (byte k 1) 8) s in
  let s := adda (Z.shiftl (byte k 2) 16) s in
  let s := adda (u32 (Z.shiftl (byte k 3) 24)) s in
  let s := addb (byte k 4) s in
  let s := addb (Z.shiftl (byte k 5) 8) s in
  let s := addb (Z.shiftl (byte k 6) 16) s in
  let s := addb (u32 (Z.shiftl (byte k 7) 24)) s in
  let s := addc (byte k 8) s in
  let s := addc (Z.shiftl (byte k 9) 8) s in
  let s := addc (Z.shiftl (byte k 10) 16) s in
  addc (u32 (Z.shiftl (byte k 11) 24)) s.

Definition tail8 (k : list Z) (len : nat) (s : abc) : option abc :=
  let case1 s := adda (byte k 0) s in
  let case2 s := case1 (adda (Z.shiftl (byte k 1) 8) s) in
  let case3 s := case2 (adda (Z.shiftl (byte k 2) 16) s) in
  let case4 s := case3 (adda (u32 (Z.shiftl (byte k 3) 24)) s) in
  let case5 s := case4 (addb (byte k 4) s) in
  let case6 s := case5 (addb (Z.shiftl (byte k 5) 8) s) in
  let case7 s := case6 (addb (Z.shiftl (byte k 6) 16) s) in
  let case8 s := case7 (addb (u32 (Z.shiftl (byte k 7) 24)) s) in
  let case9 s := case8 (addc (byte k 8) s) in
  let case10 s := case9 (addc (Z.shiftl (byte k 9) 8) s) in
  let case11 s := case10 (addc (Z.shiftl (byte k 10) 16) s) in
  let case12 s := case11 (addc (u32 (Z.shiftl (byte k 11) 24)) s) in
  match len with
  | 12%nat => Some (case12 s) | 11%nat => Some (case11 s) | 10%nat => Some (case10 s)
  | 9%nat => Some (case9 s) | 8%nat => Some (case8 s) | 7%nat => Some (case7 s)
  | 6%nat => Some (case6 s) | 5%nat => Some (case5 s) | 4%nat => Some (case4 s)
  | 3%nat => Some (case3 s) | 2%nat => Some (case2 s) | 1%nat => Some (case1 s)
  | 0%nat => None
  | _ => Some s
  end.

(** [u.i & 0x3], [u.i & 0x1] on the key's address select the branch;
    [valgrind] is the preprocessor symbol. *)
Definition jenkins_hash (valgrind : bool) (addr : Z) (k : list Z) (len : nat) : Z :=
  if decide (Z.land addr 3 = 0)
  then hash_with rd32 (if valgrind then tail32_valgrind else tail32) k len
  else if decide (Z.land addr 1 = 0) then hash_with rd16 tail16 k len
  else hash_with rd8 tail8 k len.
End Little.

(** ** The big-endian build

    [ld] is the machine's load of a 32-bit word: [be32] on the big-endian
    machines the branch is written for. *)
Module Big.
Section ld.
Context (ld : list Z -> nat -> Z).

Definition rd32 (k : list Z) (s : abc) : abc :=
  addc (ld k 8) (addb (ld k 4) (adda (ld k 0) s)).

Definition tail32 (k : list Z) (len : nat) (s : abc) : option abc :=
  let k0 := ld k 0 in let k1 := ld k 4 in let k2 := ld k 8 in
  match len with
  | 12%nat => Some (adda k0 (addb k1 (addc k2 s)))
  | 11%nat => Some (adda k0 (addb k1 (addc (Z.land k2 0xffffff00) s)))
  | 10%nat => Some (adda k0 (addb k1 (addc (Z.land k2 0xffff0000) s)))
  | 9%nat => Some (adda k0 (addb k1 (addc (Z.land k2 0xff000000) s)))
  | 8%nat => Some (adda k0 (addb k1 s))
  | 7%nat => Some (adda k0 (addb (Z.land k1 0xffffff00) s))
  | 6%nat => Some (adda k0 (addb (Z.land k1 0xffff0000) s))
  | 5%nat => Some (adda k0 (addb (Z.land k1 0xff000000) s))
  | 4%nat => Some (adda k0 s)
  | 3%nat => Some (adda (Z.land k0 0xffffff00) s)
  | 2%nat => Some (adda (Z.land k0 0xffff0000) s)
  | 1%nat => Some (adda (Z.land k0 0xff000000) s)
  | 0%nat => None
  | _ => Some s
  end.

Definition tail32_valgrind (k : list Z) (len : nat) (s : abc) : option abc :=
  let k0 := ld k 0 in let k1 := ld k 4 in let k2 := ld k 8 in
  let case8 s := adda k0 (addb k1 s) in
  let case9 s := case8 (addc (u32 (Z.shiftl (byte k 8) 24)) s) in
  let case10 s := case9 (addc (Z.shiftl (byte k 9) 16) s) in
  let case11 s := case10 (addc (Z.shiftl (byte k 10) 8) s) in
  let case4 s := adda k0 s in
  let case5 s := case4 (addb (u32 (Z.shiftl (byte k 4) 24)) s) in
  let case6 s := case5 (addb (Z.shiftl (byte k 5) 16) s) in
  let case7 s := case6 (addb (Z.shiftl (byte k 6) 8) s) in
  let case1 s := adda (u32 (Z.shiftl (byte k 0) 24)) s in
  let case2 s := case1 (adda (Z.shiftl (byte k 1) 16) s) in
  let case3 s := case2 (adda (Z.shiftl (byte k 2) 8) s) in
  match len with
  | 12%nat => Some (adda k0 (addb k1 (addc k2 s)))
  | 11%nat => Some (case11 s) | 10%nat => Some (case10 s) | 9%nat => Some (case9 s)
  | 8%nat => Some (case8 s) | 7%nat => Some (case7 s) | 6%nat => Some (case6 s)
  | 5%nat => Some (case5 s) | 4%nat => Some (case4 s) | 3%nat => Some (case3 s)
  | 2%nat => Some (case2 s) | 1%nat => Some (case1 s)
  | 0%nat => None
  | _ => Some s
  end.
End ld.

Definition rd8 (k : list Z) (s : abc) : abc :=
  let s := adda (u32 (Z.shiftl (byte k 0) 24)) s in
  let s := adda (Z.shiftl (byte k 1) 16) s in
  let s := adda (Z.shiftl (byte k 2) 8) s in
  let s := adda (byte k 3) s in
  let s := addb (u32 (Z.shiftl (byte k 4) 24)) s in
  let s := addb (Z.shiftl (byte k 5) 16) s in
  let s := addb (Z.shiftl (byte k 6) 8) s in
  let s := addb (byte k 7) s in
  let s := addc (u32 (Z.shiftl (byte k 8) 24)) s in
  let s := addc (Z.shiftl (byte k 9) 16) s in
  let s := addc (Z.shiftl (byte k 10) 8) s in
  addc (byte k 11) s.

Definition tail8 (k : list Z) (len : nat) (s : abc) : option abc :=
  let case1 s := adda (u32 (Z.shiftl (byte k 0) 24)) s in
  let case2 s := case1 (adda (Z.shiftl (byte k 1) 16) s) in
  let case3 s := case2 (adda (Z.shiftl (byte k 2) 8) s) in
  let case4 s := case3 (adda (byte k 3) s) in
  let case5 s := case4 (addb (u32 (Z.shiftl (byte k 4) 24)) s) in
  let case6 s := case5 (addb (Z.shiftl (byte k 5) 16) s) in
  let case7 s := case6 (addb (Z.shiftl (byte k 6) 8) s) in
  let case8 s := case7 (addb (byte k 7) s) in
  let case9 s := case8 (addc (u32 (Z.shiftl (byte k 8) 24)) s) in
  let case10 s := case9 (addc (Z.shiftl (byte k 9) 16) s) in
  let case11 s := case10 (addc (Z.shiftl (byte k 10) 8) s) in
  let case12 s := case11 (addc (byte k 11) s) in
  match len with
  | 12%nat => Some (case12 s) | 11%nat => Some (case11 s) | 10%nat => Some (case10 s)
  | 9%nat => Some (case9 s) | 8%nat => Some (case8 s) | 7%nat => Some (case7 s)
  | 6%nat => Some (case6 s) | 5%nat => Some (case5 s) | 4%nat => Some (case4 s)
  | 3%nat => Some (case3 s) | 2%nat => Some (case2 s) | 1%nat => Some (case1 s)
  | 0%nat => None
  | _ => Some s
  end.

Definition jenkins_hash (ld : list Z -> nat -> Z) (valgrind : bool) (addr : Z)
    (k : list Z) (len : nat) : Z :=
  if decide (Z.land addr 3 = 0)
  then hash_with (rd32 ld) (if valgrind then tail32_valgrind ld else tail32 ld) k len
  else hash_with rd8 tail8 k len.
End Big.

(** ** Words and bytes *)

Lemma be32_range k o : bytes_ok k -> in_u 32 (be32 k o).
Proof.
  intros Hk. pose proof (byte_range k o Hk). pose proof (byte_range k (o + 1) Hk).
  pose proof (byte_range k (o + 2) Hk). pose proof (byte_range k (o + 3) Hk).
  unfold be32, in_u in *. lia.
Qed.

(** The masks of the aligned tails select exactly the bytes of the key. *)
Ltac mask_arith Hk k o :=
  pose proof (byte_range k o Hk); pose proof (byte_range k (o + 1) Hk);
  pose proof (byte_range k (o + 2) Hk); pose proof (byte_range k (o + 3) Hk);
  unfold in_u in *; mod_lia.

Lemma be32_mask24 k o : bytes_ok k -> Z.land (be32 k o) 0xff000000 = byte k o * 2 ^ 24.
Proof.
  intros Hk. change 0xff000000 with (2 ^ 32 - 2 ^ 24); rewrite (land_high_mask 32) by (auto using be32_range; lia).
  unfold be32; mask_arith Hk k o.
Qed.
Lemma be32_mask16 k o : bytes_ok k -> Z.land (be32 k o) 0xffff0000 = byte k o * 2 ^ 24 + byte k (o + 1) * 2 ^ 16.
Proof.
  intros Hk. change 0xffff0000 with (2 ^ 32 - 2 ^ 16); rewrite (land_high_mask 32) by (auto using be32_range; lia).
  unfold be32; mask_arith Hk k o.
Qed.
Lemma be32_mask8 k o : bytes_ok k -> Z.land (be32 k o) 0xffffff00 = byte k o * 2 ^ 24 + byte k (o + 1) * 2 ^ 16 + byte k (o + 2) * 2 ^ 8.
Proof.
  intros Hk. change 0xffffff00 with (2 ^ 32 - 2 ^ 8); rewrite (land_high_mask 32) by (auto using be32_range; lia).
  unfold be32; mask_arith Hk k o.
Qed.
Lemma le32_mask8 k o : bytes_ok k -> Z.land (le32 k o) 0xff = byte k o.
Proof.
  intros Hk. change 0xff with (2 ^ 8 - 1); rewrite land_mask by lia.
  unfold le32; mask_arith Hk k o.
Qed.
Lemma le32_mask16 k o : bytes_ok k -> Z.land (le32 k o) 0xffff = byte k o + byte k (o + 1) * 2 ^ 8.
Proof.
  intros Hk. change 0xffff with (2 ^ 16 - 1); rewrite land_mask by lia.
  unfold le32; mask_arith Hk k o.
Qed.
Lemma le32_mask24 k o : bytes_ok k -> Z.land (le32 k o) 0xffffff = byte k o + byte k (o + 1) * 2 ^ 8 + byte k (o + 2) * 2 ^ 16.
Proof.
  intros Hk. change 0xffffff with (2 ^ 24 - 1); rewrite land_mask by lia.
  unfold le32; mask_arith Hk k o.
Qed.

Lemma w16_le32 k o : bytes_ok k -> Little.w16 k o = le32 k o.
Proof.
  intros Hk. unfold Little.w16. rewrite wrap_small.
  - unfold le16, le32. rewrite Z.shiftl_mul_pow2 by lia.
    rewrite <- Nat.add_assoc. cbn [Nat.add]. norm_pow2. lia.
  - unfold le16. rewrite Z.shiftl_mul_pow2 by lia. rewrite <- Nat.add_assoc. cbn [Nat.add].
    mask_arith Hk k o.
Qed.

Create Rewrite HintDb masks.
#[export] Hint Rewrite w16_le32 be32_mask24 be32_mask16 be32_mask8
  le32_mask8 le32_mask16 le32_mask24 using assumption : masks.

(** Two additive readings of the same bytes agree: collapse the nested [u32]s
    and compare the sums. *)
Ltac add_eq :=
  autorewrite with masks;
  unfold adda, addb, addc, le32, be32, le16; cbn [Nat.add];
  repeat match goal with s : abc |- _ => destruct s as [[??]?] end;
  rewrite ?Z.shiftl_mul_pow2 by lia; autorewrite with wrap;
  repeat apply (f_equal2 pair); try done;
  apply (f_equal (wrap 32)); norm_pow2; lia.

(** [f] and [g] do the same on every key the [n]-byte switch can see. *)
Definition same_rd (f g : list Z -> abc -> abc) : Prop :=
  forall k s, bytes_ok k -> f k s = g k s.
Definition same_tail (f g : list Z -> nat -> abc -> option abc) : Prop :=
  forall k len s, bytes_ok k -> (len <= 12)%nat -> f k len s = g k len s.

Lemma blocks_ext f g fuel k len s : same_rd f g -> bytes_ok k ->
  blocks f fuel k len s = blocks g fuel k len s.
Proof.
  intros Hfg. revert k len s. induction fuel as [|fuel IH]; simpl; intros k len s Hk; [done|].
  case_decide; [|done]. rewrite Hfg by done. apply IH. by apply bytes_ok_drop.
Qed.

(** The loop is left with at most twelve bytes, so its fuel is enough, and it
    leaves a byte string. *)
Lemma blocks_exit rd fuel k len s k' len' s' : (len <= fuel)%nat -> bytes_ok k ->
  blocks rd fuel k len s = (k', len', s') -> (len' <= 12)%nat /\ bytes_ok k'.
Proof.
  revert k len s. induction fuel as [|fuel IH]; simpl; intros k len s Hl Hk Heq.
  { simplify_eq. split; [lia|done]. }
  case_decide.
  - eapply IH; [|by apply bytes_ok_drop|exact Heq]. lia.
  - simplify_eq. split; [lia|done].
Qed.

Lemma hash_with_ext f ft g gt k len : same_rd f g -> same_tail ft gt -> bytes_ok k ->
  hash_with f ft k len = hash_with g gt k len.
Proof.
  intros Hrd Htail Hk. unfold hash_with. cbv zeta.
  rewrite (blocks_ext f g) by done.
  destruct (blocks g _ _ _ _) as [[k' len'] s'] eqn:E.
  apply blocks_exit in E as [Hl Hk']; [|lia|done]. by rewrite Htail.
Qed.

(** Case analysis on [len <= 12], closing each case with [tac]. *)
Ltac each_length len tac :=
  let H := fresh in
  assert (In len (seq 0 13)) as H by (apply in_seq; lia); cbn in H;
  repeat (destruct H as [<- | H]; [tac|]); destruct H.

Lemma little_rd32 : same_rd Little.rd32 Little.rd8.
Proof. intros k s Hk. unfold Little.rd32, Little.rd8. cbv zeta. add_eq. Qed.
Lemma little_rd16 : same_rd Little.rd16 Little.rd8.
Proof. intros k s Hk. unfold Little.rd16, Little.rd8. cbv zeta. add_eq. Qed.
Lemma little_tail32 : same_tail Little.tail32 Little.tail8.
Proof.
  intros k len s Hk Hl. unfold Little.tail32, Little.tail8. cbv zeta.
  each_length len ltac:(first [done | f_equal; add_eq]).
Qed.
Lemma little_tail32_valgrind : same_tail Little.tail32_valgrind Little.tail8.
Proof.
  intros k len s Hk Hl. unfold Little.tail32_valgrind, Little.tail8. cbv zeta.
  each_length len ltac:(first [done | f_equal; add_eq]).
Qed.
Lemma little_tail16 : same_tail Little.tail16 Little.tail8.
Proof.
  intros k len s Hk Hl. unfold Little.tail16, Little.tail8. cbv zeta.
  each_length len ltac:(first [done | f_equal; add_eq]).
Qed.
Lemma big_rd32 : same_rd (Big.rd32 be32) Big.rd8.
Proof. intros k s Hk. unfold Big.rd32, Big.rd8. cbv zeta. add_eq. Qed.
Lemma big_tail32 : same_tail (Big.tail32 be32) Big.tail8.
Proof.
  intros k len s Hk Hl. unfold Big.tail32, Big.tail8. cbv zeta.
  each_length len ltac:(first [done | f_equal; add_eq]).
Qed.
Lemma big_tail32_valgrind : same_tail (Big.tail32_valgrind be32) Big.tail8.
Proof.
  intros k len s Hk Hl. unfold Big.tail32_valgrind, Big.tail8. cbv zeta.
  each_length len ltac:(first [done | f_equal; add_eq]).
Qed.

(** ** Only the key's own bytes matter *)

Lemma byte_take k n i : (i < n)%nat -> byte (take n k) i = byte k i.
Proof.
  unfold byte. revert n i. induction k as [|x k IH]; intros [|n] [|i] Hi; simpl; try done; try lia.
  apply IH. lia.
Qed.

Lemma bytes_ok_take k n : bytes_ok k -> bytes_ok (take n k).
Proof. apply Forall_take. Qed.

(** A reader that looks at the first twelve bytes only, a switch that looks at
    the first [len] only. *)
Definition local_rd (rd : list Z -> abc -> abc) : Prop :=
  forall k k' s, (forall i, (i < 12)%nat -> byte k i = byte k' i) -> rd k s = rd k' s.
Definition local_tail (tl : list Z -> nat -> abc -> option abc) : Prop :=
  forall k k' len s, (len <= 12)%nat ->
    (forall i, (i < len)%nat -> byte k i = byte k' i) -> tl k len s = tl k' len s.

Lemma blocks_local rd fuel k1 k2 len s : local_rd rd -> (len <= fuel)%nat ->
  (forall i, (i < len)%nat -> byte k1 i = byte k2 i) ->
  let '(k1', len1, s1) := blocks rd fuel k1 len s in
  let '(k2', len2, s2) := blocks rd fuel k2 len s in
  len1 = len2 /\ s1 = s2 /\ (len1 <= 12)%nat /\
  (forall i, (i < len1)%nat -> byte k1' i = byte k2' i).
Proof.
  intros Hrd. revert k1 k2 len s. induction fuel as [|fuel IH]; simpl; intros k1 k2 len s Hl H.
  { repeat split; [lia|done]. }
  case_decide; [|repeat split; [lia|done]].
  rewrite (Hrd k1 k2) by (intros; apply H; lia).
  apply IH; [lia|]. intros i Hi. rewrite !byte_drop. apply H. lia.
Qed.

Lemma hash_with_local rd tl k1 k2 len : local_rd rd -> local_tail tl ->
  (forall i, (i < len)%nat -> byte k1 i = byte k2 i) ->
  hash_with rd tl k1 len = hash_with rd tl k2 len.
Proof.
  intros Hrd Htl H. unfold hash_with. cbv zeta.
  set (s := u32 _). pose proof (blocks_local rd len k1 k2 len (s, s, s) Hrd ltac:(done) H) as B.
  destruct (blocks rd len k1 len _) as [[??]?], (blocks rd len k2 len _) as [[??]?].
  destruct B as (-> & -> & Hl & Hb). by erewrite Htl.
Qed.

Ltac solve_local_tail len H :=
  each_length len ltac:(cbv zeta; try done; rewrite !H by lia; done).

Lemma little_rd8_local : local_rd Little.rd8.
Proof. intros k k' s H. unfold Little.rd8. rewrite !H by lia. done. Qed.
Lemma big_rd8_local : local_rd Big.rd8.
Proof. intros k k' s H. unfold Big.rd8. rewrite !H by lia. done. Qed.
Lemma little_tail8_local : local_tail Little.tail8.
Proof. intros k k' len s Hl H. unfold Little.tail8. solve_local_tail len H. Qed.
Lemma big_tail8_local : local_tail Big.tail8.
Proof. intros k k' len s Hl H. unfold Big.tail8. solve_local_tail len H. Qed.

(** ** [mix] and [final] are reversible

    Each line of the macros is one step on the three words in rotated roles;
    every step has an inverse on 32-bit words. *)

Definition abc_ok (s : abc) : Prop :=
  let '(a, b, c) := s in in_u 32 a /\ in_u 32 b /\ in_u 32 c.

Definition rotate (s : abc) : abc := let '(x, y, z) := s in (z, x, y).
Definition unrotate (s : abc) : abc := let '(x, y, z) := s in (y, z, x).

Definition mix_step (k : Z) (s : abc) : abc :=
  let '(x, y, z) := s in (Z.lxor (u32 (x - y)) (rot y k), u32 (y + z), z).
Definition unmix_step (k : Z) (s : abc) : abc :=
  let '(x, y, z) := s in
  let y := u32 (y - z) in (u32 (Z.lxor x (rot y k) + y), y, z).

Definition final_step (k : Z) (s : abc) : abc :=
  let '(x, y, z) := s in (u32 (Z.lxor x y - rot y k), y, z).
Definition unfinal_step (k : Z) (s : abc) : abc :=
  let '(x, y, z) := s in (Z.lxor (u32 (x + rot y k)) y, y, z).

(** Run a step per constant, rotating the roles in between, and undo it. *)
Definition run (step : Z -> abc -> abc) (ks : list Z) (s : abc) : abc :=
  foldl (fun s k => rotate (step k s)) s ks.
Definition unrun (unstep : Z -> abc -> abc) (ks : list Z) (s : abc) : abc :=
  foldr (fun k s => unstep k (unrotate s)) s ks.

Definition mix_consts : list Z := [4; 6; 8; 16; 19; 4].
Definition final_consts : list Z := [14; 11; 25; 16; 4; 14; 24].

(** The inverses of the two macros. *)
Definition unmix (s : abc) : abc :=
  let '(a, b, c) := s in
  let '(a, c, b) := unrun unmix_step mix_consts (a, c, b) in (a, b, c).
Definition unfinal (s : abc) : abc :=
  let '(a, b, c) := s in
  let '(c, b, a) := unrun unfinal_step final_consts (a, c, b) in (a, b, c).

Definition undoes (unstep step : Z -> abc -> abc) : Prop :=
  forall k s, 0 <= k <= 32 -> abc_ok s -> abc_ok (step k s) /\ unstep k (step k s) = s.

Lemma rot_range x k : 0 <= k <= 32 -> in_u 32 x -> in_u 32 (rot x k).
Proof. intros. unfold rot. apply in_u_lxor; auto with wrap lia. Qed.

Lemma lxor_cancel x r : Z.lxor (Z.lxor x r) r = x.
Proof. by rewrite Z.lxor_assoc, Z.lxor_nilpotent, Z.lxor_0_r. Qed.

Lemma sub_add_u32 x y : in_u 32 x -> u32 (u32 (x - y) + y) = x.
Proof. intros. autorewrite with wrap. rewrite Z.sub_add. by apply wrap_small. Qed.

Lemma add_sub_u32 x y : in_u 32 x -> u32 (u32 (x + y) - y) = x.
Proof. intros. autorewrite with wrap. rewrite Z.add_simpl_r. by apply wrap_small. Qed.

Lemma unmix_step_undoes : undoes unmix_step mix_step.
Proof.
  intros k [[x y] z] Hk (Hx & Hy & Hz). unfold mix_step, unmix_step; simpl. split.
  - split_and!; auto with wrap lia. apply in_u_lxor; auto using rot_range with wrap lia.
  - by rewrite add_sub_u32, lxor_cancel, sub_add_u32 by done.
Qed.

Lemma unfinal_step_undoes : undoes unfinal_step final_step.
Proof.
  intros k [[x y] z] Hk (Hx & Hy & Hz). unfold final_step, unfinal_step; simpl. split.
  - split_and!; auto with wrap lia.
  - by rewrite sub_add_u32, lxor_cancel by auto with wrap lia.
Qed.

Lemma unrun_run unstep step ks s : undoes unstep step ->
  Forall (fun k => 0 <= k <= 32) ks -> abc_ok s ->
  abc_ok (run step ks s) /\ unrun unstep ks (run step ks s) = s.
Proof.
  intros Hu Hks. revert s. induction Hks as [|k ks Hk Hks IH]; intros s Hs; [done|].
  destruct (Hu k s Hk Hs) as [Hok Hun]. simpl.
  assert (abc_ok (rotate (step k s))) as Hr
    by (destruct (step k s) as [[??]?]; simpl in *; tauto).
  destruct (IH _ Hr) as [Hok' Hun']. split; [done|].
  unfold run in *. rewrite Hun'. destruct (step k s) as [[??]?] eqn:E. exact Hun.
Qed.

Lemma mix_run a b c :
  mix (a, b, c) = let '(a, c, b) := run mix_step mix_consts (a, c, b) in (a, b, c).
Proof. reflexivity. Qed.

Lemma final_run a b c :
  final (a, b, c) = let '(a, c, b) := run final_step final_consts (c, b, a) in (a, b, c).
Proof. reflexivity. Qed.

Lemma mix_ok s : abc_ok s -> abc_ok (mix s).
Proof.
  destruct s as [[a b] c]. intros Hs. rewrite mix_run.
  edestruct (unrun_run _ _ mix_consts (a, c, b) unmix_step_undoes) as [Hok _];
    [by repeat constructor|simpl in *; tauto|].
  destruct (run _ _ _) as [[??]?]. simpl in *. tauto.
Qed.

Lemma final_ok s : abc_ok s -> abc_ok (final s).
Proof.
  destruct s as [[a b] c]. intros Hs. rewrite final_run.
  edestruct (unrun_run _ _ final_consts (c, b, a) unfinal_step_undoes) as [Hok _];
    [by repeat constructor|simpl in *; tauto|].
  destruct (run _ _ _) as [[??]?]. simpl in *. tauto.
Qed.

(** C34. "mix 3 32-bit values reversibly": no information in (a, b, c) is lost
    by [mix], nor by [final]: both have a left inverse on 32-bit words. *)
Theorem mix_final_reversible s : abc_ok s ->
  abc_ok (mix s) /\ unmix (mix s) = s /\ abc_ok (final s) /\ unfinal (final s) = s.
Proof.
  intros Hs. split; [by apply mix_ok|]. split; [|split; [by apply final_ok|]];
    destruct s as [[a b] c].
  - rewrite mix_run.
    edestruct (unrun_run _ _ mix_consts (a, c, b) unmix_step_undoes) as [_ Hun];
      [by repeat constructor|simpl in *; tauto|].
    destruct (run mix_step _ _) as [[a' c'] b']. unfold unmix. by rewrite Hun.
  - rewrite final_run.
    edestruct (unrun_run _ _ final_consts (c, b, a) unfinal_step_undoes) as [_ Hun];
      [by repeat constructor|simpl in *; tauto|].
    destruct (run final_step _ _) as [[a' c'] b']. unfold unfinal. by rewrite Hun.
Qed.

Lemma mix_final_reversible_witness :
  unmix (mix (0xdeadbeef, 1, 2)) = (0xdeadbeef, 1, 2).
Proof. apply (mix_final_reversible (0xdeadbeef, 1, 2)). vm_compute. intuition discriminate. Defined.

(** ** The hash of a key *)

Lemma take_byte k1 k2 len i : take len k1 = take len k2 -> (i < len)%nat ->
  byte k1 i = byte k2 i.
Proof. intros H Hi. by rewrite <- (byte_take k1 len), <- (byte_take k2 len), H. Qed.

Lemma little_hash_rd8 vg addr k len : bytes_ok k ->
  Little.jenkins_hash vg addr k len = hash_with Little.rd8 Little.tail8 k len.
Proof.
  intros Hk. unfold Little.jenkins_hash. repeat case_decide; try done.
  - apply hash_with_ext; [apply little_rd32| |done].
    destruct vg; [apply little_tail32_valgrind|apply little_tail32].
  - apply hash_with_ext; [apply little_rd16|apply little_tail16|done].
Qed.

Lemma big_hash_rd8 vg addr k len : bytes_ok k ->
  Big.jenkins_hash be32 vg addr k len = hash_with Big.rd8 Big.tail8 k len.
Proof.
  intros Hk. unfold Big.jenkins_hash. repeat case_decide; try done.
  apply hash_with_ext; [apply big_rd32| |done].
  destruct vg; [apply big_tail32_valgrind|apply big_tail32].
Qed.

(** C32. The hash of a key is a function of the key's bytes alone: neither the
    alignment of its address (the three branches), nor the VALGRIND build, nor
    the bytes that follow the key in memory (which the masked word loads of the
    tail switch do read) change it. *)
Theorem jenkins_hash_little_key vg1 vg2 addr1 addr2 k1 k2 len :
  bytes_ok k1 -> bytes_ok k2 -> take len k1 = take len k2 ->
  Little.jenkins_hash vg1 addr1 k1 len = Little.jenkins_hash vg2 addr2 k2 len.
Proof.
  intros H1 H2 Hk. rewrite !little_hash_rd8 by done.
  apply hash_with_local; [apply little_rd8_local|apply little_tail8_local|].
  intros. by eapply take_byte.
Qed.

Lemma jenkins_hash_little_key_witness :
  Little.jenkins_hash false 0 [1; 2; 3; 4; 5; 6; 7; 77] 7 =
  Little.jenkins_hash true 3 [1; 2; 3; 4; 5; 6; 7; 99] 7.
Proof.
  apply jenkins_hash_little_key; [..|reflexivity];
    repeat constructor; vm_compute; intuition discriminate.
Defined.

(** C33. The same for the big-endian build on a big-endian machine. *)
Theorem jenkins_hash_big_key vg1 vg2 addr1 addr2 k1 k2 len :
  bytes_ok k1 -> bytes_ok k2 -> take len k1 = take len k2 ->
  Big.jenkins_hash be32 vg1 addr1 k1 len = Big.jenkins_hash be32 vg2 addr2 k2 len.
Proof.
  intros H1 H2 Hk. rewrite !big_hash_rd8 by done.
  apply hash_with_local; [apply big_rd8_local|apply big_tail8_local|].
  intros. by eapply take_byte.
Qed.

Lemma jenkins_hash_big_key_witness :
  Big.jenkins_hash be32 false 4 [1; 2; 3; 4; 5; 6; 7; 77] 7 =
  Big.jenkins_hash be32 true 1 [1; 2; 3; 4; 5; 6; 7; 99] 7.
Proof.
  apply jenkins_hash_big_key; [..|reflexivity];
    repeat constructor; vm_compute; intuition discriminate.
Defined.

(** memcached.h defines ENDIAN_BIG unconditionally: on a little-endian machine
    the word loads are [le32], and the same key hashes differently at an aligned
    and at an unaligned address. *)
Theorem jenkins_hash_big_on_little :
  Big.jenkins_hash le32 false 0 [97; 98; 99; 100] 4 <>
  Big.jenkins_hash le32 false 1 [97; 98; 99; 100] 4.
Proof. vm_compute. discriminate. Qed.

(** Published test vectors of lookup3's hashlittle. *)
Example hashlittle_empty : Little.jenkins_hash false 0 [] 0 = 0xdeadbeef.
Proof. reflexivity. Qed.
Example hashlittle_four_score :
  Little.jenkins_hash false 0
    [70; 111; 117; 114; 32; 115; 99; 111; 114; 101; 32; 97; 110; 100; 32; 115; 101;
     118; 101; 110; 32; 121; 101; 97; 114; 115; 32; 97; 103; 111] 30 = 0x17770551.
Proof. vm_compute. reflexivity. Qed.
