(* ===== verification/Hash.v ===== *)
(** * The hash functions and their selection

    [Module Murmur3] models src/slabs_curd/murmur3_hash.c; [hash_init] models
    src/slabs_curd/hash.c, which points the global [hash] at one of the two
    functions.  [HashFunction] is what the hash table and the item locks rely
    on: a 32-bit value that depends on the key's bytes alone. *)

From S2P Require Import Prelude Jenkins.

Module Murmur3.
(** rotl32(x, r) on uint32_t *)
Definition rotl32 (x r : Z) : Z := Z.lor (u32 (Z.shiftl x r)) (Z.shiftr x (32 - r)).

(** getblock32(p, i): the native (little-endian) word at byte offset [o] *)
Definition getblock32 (k : list Z) (o : nat) : Z := le32 k o.

Definition fmix32 (h : Z) : Z :=
  let h := Z.lxor h (Z.shiftr h 16) in
  let h := u32 (h * 0x85ebca6b) in
  let h := Z.lxor h (Z.shiftr h 13) in
  let h := u32 (h * 0xc2b2ae35) in
  Z.lxor h (Z.shiftr h 16).

Definition c1 : Z := 0xcc9e2d51.
Definition c2 : Z := 0x1b873593.

(** [k1 *= c1; k1 = ROTL32(k1,15); k1 *= c2;] *)
Definition scramble (k1 : Z) : Z := u32 (rotl32 (u32 (k1 * c1)) 15 * c2).

(** for (int i = -nblocks; i; i++) with [n = -i] blocks to go before [blocks] *)
Fixpoint body (k : list Z) (blocks n : nat) (h1 : Z) : Z :=
  match n with
  | O => h1
  | S n' =>
      let k1 := scramble (getblock32 k (blocks - 4 * n)) in
      let h1 := Z.lxor h1 k1 in
      let h1 := rotl32 h1 13 in
      body k blocks n' (u32 (h1 * 5 + 0xe6546b64))
  end.

(** switch(length & 3), every case falls through to [case 1] *)
Definition tail (t : list Z) (len : nat) (h1 : Z) : Z :=
  let case1 k1 := Z.lxor h1 (scramble (Z.lxor k1 (byte t 0))) in
  let case2 k1 := case1 (Z.lxor k1 (Z.shiftl (byte t 1) 8)) in
  let case3 k1 := case2 (Z.lxor k1 (Z.shiftl (byte t 2) 16)) in
  match Z.land (Z.of_nat len) 3 with
  | 3 => case3 0
  | 2 => case2 0
  | 1 => case1 0
  | _ => h1
  end.

Definition MurmurHash3_x86_32 (key : list Z) (length : nat) : Z :=
  let nblocks := (length / 4)%nat in
  let h1 := body key (nblocks * 4) nblocks 0 in
  let h1 := tail (drop (nblocks * 4) key) length h1 in
  let h1 := u32 (Z.lxor h1 (Z.of_nat length)) in
  fmix32 h1.
End Murmur3.

(** ** hash_init *)

Inductive hashfunc_type := JENKINS_HASH | MURMUR3_HASH | OTHER_HASH (n : Z).

(** A key handed to [hash]: its address, the memory there, and its length. *)
Definition hash_func : Type := Z -> list Z -> nat -> Z.

(** The two globals hash_init writes: [hash] and [settings.hash_algorithm]. *)
Record hash_globals := HashGlobals {
  hash : hash_func;
  hash_algorithm : string
}.

Section hash_init.
(** The build's [jenkins_hash]: which of the two, with which word load. *)
Context (jenkins_hash : hash_func).

Definition hash_init (type : hashfunc_type) (g : hash_globals) : Z * hash_globals :=
  match type with
  | JENKINS_HASH => (0, HashGlobals jenkins_hash "jenkins")
  | MURMUR3_HASH => (0, HashGlobals (fun _ => Murmur3.MurmurHash3_x86_32) "murmur3")
  | OTHER_HASH _ => (-1, g)
  end.
End hash_init.

(** ** The interface the table needs *)

Class HashFunction (h : hash_func) : Prop := {
  hash_range addr k len : bytes_ok k -> in_u 32 (h addr k len);
  hash_key addr1 addr2 k1 k2 len :
    bytes_ok k1 -> bytes_ok k2 -> take len k1 = take len k2 ->
    h addr1 k1 len = h addr2 k2 len
}.

(** ** Murmur3: range and locality *)

Import Murmur3.

Lemma in_u_u32 x : in_u 32 (u32 x).
Proof. by apply wrap_range. Qed.

Lemma rotl32_range x r : 0 <= r <= 32 -> in_u 32 x -> in_u 32 (rotl32 x r).
Proof. intros. unfold rotl32. apply in_u_lor; auto using in_u_u32 with wrap lia. Qed.

Lemma fmix32_range h : in_u 32 h -> in_u 32 (fmix32 h).
Proof.
  intros. unfold fmix32. cbv zeta.
  repeat first [apply in_u_lxor; [done| |] | apply in_u_shiftr; [done|] | apply in_u_u32].
Qed.

Lemma murmur3_range k len : in_u 32 (MurmurHash3_x86_32 k len).
Proof. unfold MurmurHash3_x86_32. cbv zeta. apply fmix32_range, in_u_u32. Qed.

Lemma le32_byte_ext k1 k2 o : (forall i, (i < o + 4)%nat -> byte k1 i = byte k2 i) ->
  le32 k1 o = le32 k2 o.
Proof. intros H. unfold le32. rewrite !H by lia. done. Qed.

Lemma body_ext k1 k2 b n h : (forall i, (i < b)%nat -> byte k1 i = byte k2 i) ->
  (4 * n <= b)%nat -> body k1 b n h = body k2 b n h.
Proof.
  intros H. revert h. induction n as [|n IH]; intros h Hn; [done|].
  cbn [body]. unfold getblock32.
  rewrite (le32_byte_ext k1 k2) by (intros; apply H; lia). apply IH. lia.
Qed.

Lemma land3 (len : nat) : Z.land (Z.of_nat len) 3 = Z.of_nat (len mod 4).
Proof. change 3 with (2 ^ 2 - 1). rewrite land_mask by lia. by rewrite Nat2Z.inj_mod. Qed.

Lemma tail_ext t1 t2 len h : (forall i, (i < len mod 4)%nat -> byte t1 i = byte t2 i) ->
  tail t1 len h = tail t2 len h.
Proof.
  intros H. unfold tail. rewrite land3.
  pose proof (Nat.mod_upper_bound len 4 ltac:(done)).
  destruct (len mod 4)%nat as [|[|[|[|n]]]]; try lia; simpl; rewrite ?H by lia; done.
Qed.

Lemma murmur3_key k1 k2 len : take len k1 = take len k2 ->
  MurmurHash3_x86_32 k1 len = MurmurHash3_x86_32 k2 len.
Proof.
  intros H. unfold MurmurHash3_x86_32. cbv zeta.
  assert (len = 4 * (len / 4) + len mod 4)%nat as E by (apply Nat.div_mod_eq).
  rewrite (body_ext k1 k2) by (intros; try (eapply take_byte; [done|]); lia).
  do 2 f_equal. f_equal. apply tail_ext. intros i Hi. rewrite !byte_drop.
  eapply take_byte; [done|]. lia.
Qed.

#[export] Instance murmur3_HashFunction : HashFunction (fun _ => MurmurHash3_x86_32).
Proof. split; [intros; apply murmur3_range|intros; by apply murmur3_key]. Qed.

Lemma adds_ok s x : abc_ok s -> abc_ok (adda x s) /\ abc_ok (addb x s) /\ abc_ok (addc x s).
Proof.
  destruct s as [[a b] c]. simpl. intros (?&?&?). split_and!; auto using in_u_u32.
Qed.

Lemma rd8_ok k s : abc_ok s -> abc_ok (Little.rd8 k s) /\ abc_ok (Big.rd8 k s).
Proof. intros. unfold Little.rd8, Big.rd8. cbv zeta. split; repeat apply adds_ok; done. Qed.

Lemma tail8_ok k len s s' : (len <= 12)%nat -> abc_ok s ->
  Little.tail8 k len s = Some s' \/ Big.tail8 k len s = Some s' -> abc_ok s'.
Proof.
  intros Hl Hs [H|H]; revert H; unfold Little.tail8, Big.tail8; cbv zeta;
    each_length len ltac:(intros ?; simplify_eq; repeat apply adds_ok; done).
Qed.

Lemma hash_with_range rd tl k len :
  (forall k s, abc_ok s -> abc_ok (rd k s)) ->
  (forall k len s s', (len <= 12)%nat -> abc_ok s -> tl k len s = Some s' -> abc_ok s') ->
  bytes_ok k -> in_u 32 (hash_with rd tl k len).
Proof.
  intros Hrd Htl Hk. unfold hash_with. cbv zeta.
  set (i := u32 _). assert (abc_ok (i, i, i)) as Hi by (split_and!; apply in_u_u32).
  assert (forall fuel k len s, abc_ok s -> abc_ok (blocks rd fuel k len s).2) as Hb.
  { induction fuel as [|fuel IH]; simpl; intros; [done|].
    case_decide; [|done]. apply IH, mix_ok. auto. }
  specialize (Hb len k len (i, i, i) Hi).
  destruct (blocks rd len k len (i, i, i)) as [[k' len'] s] eqn:E. simpl in Hb.
  apply blocks_exit in E as [Hl _]; [|lia|done].
  destruct (tl k' len' s) as [s'|] eqn:E'.
  - specialize (Htl _ _ _ _ Hl Hb E'). apply final_ok in Htl.
    destruct (final s') as [[??]?]. simpl in *. tauto.
  - destruct s as [[??]?]. simpl in *. tauto.
Qed.

#[export] Instance little_HashFunction vg : HashFunction (Little.jenkins_hash vg).
Proof.
  split.
  - intros addr k len Hk. rewrite little_hash_rd8 by done.
    apply hash_with_range; [intros; by apply rd8_ok|eauto using tail8_ok|done].
  - intros. rewrite !little_hash_rd8 by done.
    apply hash_with_local; [apply little_rd8_local|apply little_tail8_local|].
    intros. by eapply take_byte.
Qed.

#[export] Instance big_HashFunction vg : HashFunction (Big.jenkins_hash be32 vg).
Proof.
  split.
  - intros addr k len Hk. rewrite big_hash_rd8 by done.
    apply hash_with_range; [intros; by apply rd8_ok|eauto using tail8_ok|done].
  - intros. rewrite !big_hash_rd8 by done.
    apply hash_with_local; [apply big_rd8_local|apply big_tail8_local|].
    intros. by eapply take_byte.
Qed.

(** ** Murmur3 has no collisions between short keys of one length

    Every step of the hash is a bijection of 32-bit words: multiplication by an
    odd constant, rotation, xor-shift.  Hence the 32-bit words of keys of at
    most four bytes are hashed injectively. *)

Lemma mul_odd_inj c inv x y : u32 (c * inv) = 1 -> in_u 32 x -> in_u 32 y ->
  u32 (x * c) = u32 (y * c) -> x = y.
Proof.
  intros Hc Hx Hy H.
  assert (forall z, in_u 32 z -> u32 (u32 (z * c) * inv) = z) as Hinv.
  { intros z Hz. rewrite wrap_mul_l, <- Z.mul_assoc, <- wrap_mul_r, Hc, Z.mul_1_r.
    by apply wrap_small. }
  by rewrite <- (Hinv x), <- (Hinv y), H by done.
Qed.

Lemma lxor_inj_l a x y : Z.lxor a x = Z.lxor a y -> x = y.
Proof.
  intros H. rewrite <- (lxor_cancel x a), <- (lxor_cancel y a).
  by rewrite (Z.lxor_comm x), (Z.lxor_comm y), H.
Qed.

Lemma lxor_inj_r a x y : Z.lxor x a = Z.lxor y a -> x = y.
Proof. rewrite !(Z.lxor_comm _ a). apply lxor_inj_l. Qed.

(** h ^= h >> n for 16 <= n: undone by repeating it; for 11 <= n by two steps. *)
Lemma xorshift_inj n x y : 11 <= n <= 32 -> in_u 32 x -> in_u 32 y ->
  Z.lxor x (Z.shiftr x n) = Z.lxor y (Z.shiftr y n) -> x = y.
Proof.
  intros Hn Hx Hy H.
  assert (forall z, in_u 32 z ->
    let f := Z.lxor z (Z.shiftr z n) in
    Z.lxor (Z.lxor f (Z.shiftr f n)) (Z.shiftr f (n + n)) = z) as Hinv.
  { intros z Hz. cbv zeta. rewrite !Z.shiftr_lxor, !Z.shiftr_shiftr by lia.
    assert (Z.shiftr z (n + (n + n)) = 0) as ->.
    { rewrite Z.shiftr_div_pow2 by lia. apply Z.div_small. split; [apply Hz|].
      apply Z.lt_le_trans with (2 ^ 32); [apply Hz|]. apply Z.pow_le_mono_r; lia. }
    by rewrite Z.lxor_0_r, !Z.lxor_assoc, Z.lxor_nilpotent, Z.lxor_0_r,
      Z.lxor_nilpotent, Z.lxor_0_r. }
  rewrite <- (Hinv x), <- (Hinv y) by done. cbv zeta. by rewrite H.
Qed.

Lemma rotl32_bits x r i : 0 < r < 32 -> in_u 32 x -> 0 <= i < 32 ->
  Z.testbit (rotl32 x r) ((i + r) mod 32) = Z.testbit x i.
Proof.
  intros Hr Hx Hi. unfold rotl32, wrap. rewrite Z.lor_spec.
  destruct (decide (i + r < 32)).
  - rewrite (Z.mod_small (i + r)) by lia.
    rewrite Z.mod_pow2_bits_low, Z.shiftl_spec, Z.shiftr_spec by lia.
    rewrite (testbit_above 32 x (i + r + (32 - r))) by (auto; lia).
    rewrite orb_false_r. f_equal. lia.
  - replace ((i + r) mod 32) with (i + r - 32) by (Z.div_mod_to_equations; lia).
    rewrite Z.mod_pow2_bits_low, Z.shiftl_spec, Z.shiftr_spec by lia.
    rewrite Z.testbit_neg_r by lia. simpl. f_equal. lia.
Qed.

Lemma rotl32_inj r x y : 0 < r < 32 -> in_u 32 x -> in_u 32 y ->
  rotl32 x r = rotl32 y r -> x = y.
Proof.
  intros Hr Hx Hy H. apply Z.bits_inj'. intros i Hi. destruct (decide (i < 32)).
  - by rewrite <- (rotl32_bits x r), <- (rotl32_bits y r), H by (auto; lia).
  - by rewrite !(testbit_above 32) by (auto; lia).
Qed.

Lemma scramble_inj x y : in_u 32 x -> in_u 32 y -> scramble x = scramble y -> x = y.
Proof.
  intros Hx Hy H. unfold scramble in H.
  apply (mul_odd_inj c2 0x56ed309b) in H; [|done|by apply rotl32_range, in_u_u32..].
  apply rotl32_inj in H; [|lia|apply in_u_u32..].
  by apply (mul_odd_inj c1 0xdee13bb1) in H.
Qed.

Lemma fmix32_inj x y : in_u 32 x -> in_u 32 y -> fmix32 x = fmix32 y -> x = y.
Proof.
  intros Hx Hy H. unfold fmix32 in H. cbv zeta in H.
  assert (forall h n, 0 <= n -> in_u 32 h -> in_u 32 (Z.lxor h (Z.shiftr h n))) as Hr
    by auto with wrap lia.
  apply xorshift_inj in H; [|lia|apply in_u_u32..].
  apply (mul_odd_inj 0xc2b2ae35 0x7ed1b41d) in H;
    [|done|apply Hr; [done|apply in_u_u32]..].
  apply xorshift_inj in H; [|lia|apply in_u_u32..].
  apply (mul_odd_inj 0x85ebca6b 0xa5cb9243) in H; [|done|by apply Hr..].
  by apply xorshift_inj in H; [|lia|..].
Qed.

(** The word the hash scrambles for a key of at most four bytes, and what the
    scrambled word then goes through. *)
Definition short_word (k : list Z) (len : nat) : Z :=
  match len with
  | 4%nat => le32 k 0
  | 3%nat => Z.lxor (Z.lxor (Z.shiftl (byte k 2) 16) (Z.shiftl (byte k 1) 8)) (byte k 0)
  | 2%nat => Z.lxor (Z.shiftl (byte k 1) 8) (byte k 0)
  | 1%nat => byte k 0
  | _ => 0
  end.

Definition short_post (len : nat) (w : Z) : Z :=
  match len with
  | 4%nat => u32 (rotl32 w 13 * 5 + 0xe6546b64)
  | _ => w
  end.

Lemma murmur3_short k len : (0 < len <= 4)%nat ->
  MurmurHash3_x86_32 k len =
  fmix32 (u32 (Z.lxor (short_post len (scramble (short_word k len))) (Z.of_nat len))).
Proof. intros H. destruct len as [|[|[|[|[|]]]]]; try lia; reflexivity. Qed.

Lemma short_word_range k len : bytes_ok k -> in_u 32 (short_word k len).
Proof.
  intros Hk. assert (forall i n, 0 <= n <= 24 -> in_u 32 (Z.shiftl (byte k i) n)) as Hs.
  { intros i n Hn. pose proof (byte_range k i Hk) as Hb. unfold in_u in *.
    rewrite Z.shiftl_mul_pow2 by lia.
    assert (0 < 2 ^ n <= 2 ^ 24) by (split; [lia|apply Z.pow_le_mono_r; lia]). norm_pow2. nia. }
  assert (forall i, in_u 32 (byte k i)) as Hb.
  { intros i. pose proof (Hs i 0 ltac:(lia)) as H. by rewrite Z.shiftl_0_r in H. }
  destruct len as [|[|[|[|[|]]]]]; simpl; try done; auto.
  - apply in_u_lxor; auto with lia.
  - repeat apply in_u_lxor; auto with lia.
  - pose proof (byte_range k 0 Hk). pose proof (byte_range k 1 Hk).
    pose proof (byte_range k 2 Hk). pose proof (byte_range k 3 Hk).
    unfold le32, in_u in *. cbn [Nat.add]. norm_pow2. lia.
Qed.

(** Bytes below a shifted word do not overlap it: xor is addition. *)
Lemma lxor_add x y n : 0 <= n -> in_u n y -> Z.lxor (Z.shiftl x n) y = x * 2 ^ n + y.
Proof.
  intros Hn Hy. rewrite <- Z.shiftl_mul_pow2 by lia. symmetry.
  apply Z.add_nocarry_lxor, Z.bits_inj'. intros i Hi.
  rewrite Z.land_spec, Z.bits_0, Z.shiftl_spec by lia.
  destruct (decide (i < n)).
  - by rewrite Z.testbit_neg_r by lia.
  - rewrite (testbit_above n y) by (auto; lia). apply andb_false_r.
Qed.

Lemma short_word_inj k1 k2 len : (0 < len <= 4)%nat -> bytes_ok k1 -> bytes_ok k2 ->
  short_word k1 len = short_word k2 len ->
  forall i, (i < len)%nat -> byte k1 i = byte k2 i.
Proof.
  intros Hl H1 H2 H i Hi.
  assert (forall k, bytes_ok k -> short_word k len =
    byte k 0 + (if decide (1 < len)%nat then byte k 1 * 2 ^ 8 else 0)
    + (if decide (2 < len)%nat then byte k 2 * 2 ^ 16 else 0)
    + (if decide (3 < len)%nat then byte k 3 * 2 ^ 24 else 0)) as E.
  { intros k Hk. pose proof (byte_range k 0 Hk) as H0. pose proof (byte_range k 1 Hk) as H1'.
    destruct len as [|[|[|[|[|]]]]]; try lia; cbn [short_word];
      repeat (case_decide; [try lia|try lia]).
    - rewrite lxor_add by done. lia.
    - rewrite Z.lxor_assoc, lxor_add, lxor_add; [lia|lia|done|lia|].
      rewrite lxor_add by done. unfold in_u in *. norm_pow2. lia.
    - reflexivity. }
  rewrite !E in H by done.
  pose proof (byte_range k1 0 H1). pose proof (byte_range k2 0 H2).
  pose proof (byte_range k1 1 H1). pose proof (byte_range k2 1 H2).
  pose proof (byte_range k1 2 H1). pose proof (byte_range k2 2 H2).
  pose proof (byte_range k1 3 H1). pose proof (byte_range k2 3 H2).
  unfold in_u in *.
  destruct len as [|[|[|[|[|]]]]]; try lia;
    repeat (case_decide; [try lia|try lia]); norm_pow2;
    destruct i as [|[|[|[|]]]]; lia.
Qed.

Lemma short_post_inj len x y : (0 < len <= 4)%nat -> in_u 32 x -> in_u 32 y ->
  short_post len x = short_post len y -> x = y.
Proof.
  intros Hl Hx Hy. destruct len as [|[|[|[|[|]]]]]; try lia; simpl; try done.
  intros H. apply (rotl32_inj 13); [lia|done|done|].
  assert (forall z, u32 (u32 (z * 5 + 0xe6546b64) - 0xe6546b64) = u32 (z * 5)) as E.
  { intros z. autorewrite with wrap. f_equal. lia. }
  apply (mul_odd_inj 5 0xcccccccd); [done|by apply rotl32_range..|].
  by rewrite <- !E, H.
Qed.

Lemma short_post_range len x : in_u 32 x -> in_u 32 (short_post len x).
Proof. intros. destruct len as [|[|[|[|[|]]]]]; simpl; auto using in_u_u32. Qed.

(** C35. MurmurHash3_x86_32 never collides on two different keys of the same
    length of at most four bytes: their bucket chains are told apart by the
    hash alone. *)
Theorem murmur3_short_injective k1 k2 len i :
  bytes_ok k1 -> bytes_ok k2 -> (len <= 4)%nat ->
  MurmurHash3_x86_32 k1 len = MurmurHash3_x86_32 k2 len ->
  (i < len)%nat -> byte k1 i = byte k2 i.
Proof.
  intros H1 H2 Hl H Hi. rewrite !murmur3_short in H by lia.
  apply fmix32_inj in H; [|apply in_u_u32..].
  assert (in_u 32 (Z.of_nat len)) by (unfold in_u; norm_pow2; lia).
  assert (forall k, in_u 32 (short_post len (scramble (short_word k len))))
    by (intros; apply short_post_range, in_u_u32).
  rewrite !wrap_small in H by auto with wrap lia.
  apply lxor_inj_r, short_post_inj, scramble_inj in H;
    [|by apply short_word_range|by apply short_word_range|lia|apply in_u_u32..].
  eapply (short_word_inj k1 k2 len); [lia|done..].
Qed.

Lemma murmur3_short_injective_witness :
  MurmurHash3_x86_32 [107; 49] 2 = MurmurHash3_x86_32 [107; 49; 0] 2 /\
  byte [107; 49] 1 = byte [107; 49; 0] 1.
Proof.
  split; [reflexivity|].
  apply (murmur3_short_injective [107; 49] [107; 49; 0] 2 1);
    [repeat constructor; vm_compute; intuition discriminate..
    |lia|reflexivity|lia].
Defined.
