(* ===== verification/BipBuffer.v ===== *)
(** * The bip-buffer (src/memory_lru/bipbuffer.c)

    A bounded byte queue that hands out contiguous regions: region A is
    [data[a_start .. a_end)], region B, in use when A has reached the end of the
    array, is [data[0 .. b_end)].  The producer asks for room with
    [bipbuf_request], fills it in place and publishes it with [bipbuf_push]; the
    consumer looks at region A with [bipbuf_peek_all] and releases it with
    [bipbuf_poll].  The theorems show that the buffer is a first-in first-out
    queue of bytes, that the regions handed out never overlap unread data, and
    that every offset stays inside the array. *)

From S2P Require Import Prelude.

(** bipbuf_t; [bsize] is its field [size] (unsigned long), the cursors are
    unsigned int, [b_inuse] is int. *)
Record bipbuf_t := BipBuf {
  bsize : Z;
  a_start : Z;
  a_end : Z;
  b_end : Z;
  b_inuse : Z;
  bdata : list Z
}.

#[export] Instance bipbuf_eta : Eta bipbuf_t := fun b =>
  BipBuf (bsize b) (a_start b) (a_end b) (b_end b) (b_inuse b) (bdata b).

Definition bipbuf_unused (me : bipbuf_t) : Z :=
  if decide (1 = b_inuse me)
  then s32 (u32 (a_start me - b_end me))
  else s32 (u64 (bsize me - a_end me)).

Definition bipbuf_size (me : bipbuf_t) : Z := s32 (bsize me).

Definition bipbuf_used (me : bipbuf_t) : Z :=
  s32 (u32 (u32 (a_end me - a_start me) + b_end me)).

(** bipbuf_init on memory that holds [mem]. *)
Definition bipbuf_init (mem : list Z) (size : Z) : bipbuf_t :=
  BipBuf size 0 0 0 0 mem.

(** bipbuf_new: [mem] is the memory malloc returned, [None] when it failed. *)
Definition bipbuf_new (mem : option (list Z)) (size : Z) : option bipbuf_t :=
  match mem with
  | None => None
  | Some mem => Some (bipbuf_init mem size)
  end.

Definition bipbuf_is_empty (me : bipbuf_t) : bool := bool_decide (a_start me = a_end me).

Definition check_for_switch_to_b (me : bipbuf_t) : bipbuf_t :=
  if decide (u64 (bsize me - a_end me) < u32 (a_start me - b_end me))
  then BipBuf (bsize me) (a_start me) (a_end me) (b_end me) 1 (bdata me)
  else me.

(** The offset into [data] the caller may write at, [None] for a null pointer. *)
Definition bipbuf_request (me : bipbuf_t) (size : Z) : option Z :=
  if decide (bipbuf_unused me < size) then None
  else if decide (1 = b_inuse me) then Some (b_end me) else Some (a_end me).

(** The write the caller does through the pointer it got. *)
Definition fill (me : bipbuf_t) (off : Z) (bs : list Z) : bipbuf_t :=
  BipBuf (bsize me) (a_start me) (a_end me) (b_end me) (b_inuse me)
    (write_bytes (bdata me) (Z.to_nat off) bs).

Definition bipbuf_push (me : bipbuf_t) (size : Z) : Z * bipbuf_t :=
  if decide (bipbuf_unused me < size) then (0, me)
  else
    let me :=
      if decide (1 = b_inuse me)
      then BipBuf (bsize me) (a_start me) (a_end me) (u32 (b_end me + size)) (b_inuse me) (bdata me)
      else BipBuf (bsize me) (a_start me) (u32 (a_end me + size)) (b_end me) (b_inuse me) (bdata me) in
    (size, check_for_switch_to_b me).

(** As written: both branches copy to [data + b_end]. *)
Definition bipbuf_offer (me : bipbuf_t) (bs : list Z) (size : Z) : Z * bipbuf_t :=
  if decide (bipbuf_unused me < size) then (0, me)
  else
    let d := write_bytes (bdata me) (Z.to_nat (b_end me)) (take (Z.to_nat size) bs) in
    let me :=
      if decide (1 = b_inuse me)
      then BipBuf (bsize me) (a_start me) (a_end me) (u32 (b_end me + size)) (b_inuse me) d
      else BipBuf (bsize me) (a_start me) (u32 (a_end me + size)) (b_end me) (b_inuse me) d in
    (size, check_for_switch_to_b me).

Definition bipbuf_peek (me : bipbuf_t) (size : Z) : option Z :=
  if decide (bsize me < u32 (a_start me + size)) then None
  else if bipbuf_is_empty me then None
  else Some (a_start me).

(** The offset and the size of region A. *)
Definition bipbuf_peek_all (me : bipbuf_t) : option (Z * Z) :=
  if bipbuf_is_empty me then None
  else Some (a_start me, u32 (a_end me - a_start me)).

Definition bipbuf_poll (me : bipbuf_t) (size : Z) : option Z * bipbuf_t :=
  if bipbuf_is_empty me then (None, me)
  else if decide (bsize me < u32 (a_start me + size)) then (None, me)
  else
    let fin := a_start me in
    let me := BipBuf (bsize me) (u32 (a_start me + size)) (a_end me) (b_end me) (b_inuse me) (bdata me) in
    let me :=
      if decide (a_start me = a_end me) then
        if decide (1 = b_inuse me)
        then BipBuf (bsize me) 0 (b_end me) 0 0 (bdata me)
        else BipBuf (bsize me) 0 0 (b_end me) (b_inuse me) (bdata me)
      else me in
    (Some fin, check_for_switch_to_b me).

(** ** The invariant and the queue it represents *)

(** The bytes not yet polled, oldest first. *)
Definition contents (me : bipbuf_t) : list Z :=
  slice (bdata me) (Z.to_nat (a_start me)) (Z.to_nat (a_end me)) ++
  slice (bdata me) 0 (Z.to_nat (b_end me)).

Record wf (me : bipbuf_t) : Prop := {
  wf_size : 0 <= bsize me < 2 ^ 31;
  wf_data : Z.of_nat (length (bdata me)) = bsize me;
  wf_a : 0 <= a_start me <= a_end me;
  wf_a_end : a_end me <= bsize me;
  wf_b : 0 <= b_end me;
  wf_inuse : b_inuse me = 0 \/ b_inuse me = 1;
  wf_b_off : b_inuse me = 0 -> b_end me = 0;
  wf_b_on : b_inuse me = 1 -> b_end me <= a_start me;
  wf_empty : a_start me = a_end me -> a_start me = 0 /\ b_inuse me = 0
}.

(** A decision on a bipbuf in normal form: cases on [b_inuse], all wrap-arounds
    removed by the bounds of [wf]. *)
Ltac wf_facts H :=
  pose proof (wf_size _ H); pose proof (wf_data _ H); pose proof (wf_a _ H);
  pose proof (wf_a_end _ H); pose proof (wf_b _ H); pose proof (wf_inuse _ H);
  pose proof (wf_b_off _ H); pose proof (wf_b_on _ H); pose proof (wf_empty _ H).

Lemma u32_id x : 0 <= x < 2 ^ 32 -> u32 x = x.
Proof. apply wrap_small. Qed.
Lemma u64_id x : 0 <= x < 2 ^ 64 -> u64 x = x.
Proof. apply wrap_small. Qed.
Lemma s32_id x : 0 <= x < 2 ^ 31 -> s32 x = x.
Proof. intros. apply sint_small; [lia|]. done. Qed.

Lemma unused_eq me : wf me ->
  bipbuf_unused me =
  (if decide (1 = b_inuse me) then a_start me - b_end me else bsize me - a_end me).
Proof.
  intros H. wf_facts H. unfold bipbuf_unused.
  case_decide; [rewrite u32_id by (norm_pow2; lia)|rewrite u64_id by (norm_pow2; lia)];
    apply s32_id; norm_pow2; lia.
Qed.

Lemma switch_eq me : wf me ->
  check_for_switch_to_b me =
  BipBuf (bsize me) (a_start me) (a_end me) (b_end me)
    (if decide (bsize me - a_end me < a_start me - b_end me) then 1 else b_inuse me) (bdata me).
Proof.
  intros H. wf_facts H. unfold check_for_switch_to_b.
  assert (u64 (bsize me - a_end me) = bsize me - a_end me) as -> by (apply u64_id; norm_pow2; lia).
  assert (u32 (a_start me - b_end me) = a_start me - b_end me) as ->
    by (apply u32_id; norm_pow2; destruct (wf_inuse me H); lia).
  case_decide; [done|]. by destruct me.
Qed.

Lemma switch_wf me : wf me -> wf (check_for_switch_to_b me).
Proof.
  intros H. rewrite switch_eq by done. wf_facts H.
  split; simpl; try done; case_decide; try tauto; lia.
Qed.

Lemma switch_contents me : contents (check_for_switch_to_b me) = contents me.
Proof. unfold check_for_switch_to_b. by case_decide. Qed.

Lemma init_wf mem size : 0 <= size < 2 ^ 31 -> Z.of_nat (length mem) = size ->
  wf (bipbuf_init mem size) /\ contents (bipbuf_init mem size) = [].
Proof.
  intros Hs Hm. split; [|unfold contents; simpl; by rewrite slice_nil].
  split; simpl; try lia; tauto.
Qed.

(** ** The producer *)

(** Writing a requested region does not touch the unread bytes. *)
Lemma fill_spec me n off bs : wf me -> 0 <= n -> bipbuf_request me n = Some off ->
  Z.of_nat (length bs) = n ->
  wf (fill me off bs) /\ contents (fill me off bs) = contents me /\
  0 <= off /\ off + n <= bsize me /\
  slice (bdata (fill me off bs)) (Z.to_nat off) (Z.to_nat (off + n)) = bs.
Proof.
  intros H Hn Hreq Hbs. wf_facts H. unfold bipbuf_request in Hreq.
  rewrite unused_eq in Hreq by done.
  assert (0 <= off /\ off + n <= bsize me /\
    (b_inuse me = 1 -> off = b_end me /\ off + n <= a_start me) /\
    (b_inuse me = 0 -> off = a_end me)) as (Ho & Hon & HB & HA).
  { repeat case_decide; simplify_eq; lia. }
  split; [|split; [|split_and!; [done..|]]].
  - split; simpl; try done. rewrite write_bytes_length by lia. done.
  - unfold contents; simpl. destruct (wf_inuse me H) as [E|E].
    + rewrite HA, (wf_b_off me H) by done. rewrite slice_nil.
      by rewrite slice_write_before by lia.
    + destruct HB as [-> HB]; [done|].
      rewrite slice_write_after by lia. rewrite slice_write_before by lia. done.
  - simpl. replace (Z.to_nat (off + n)) with (Z.to_nat off + length bs)%nat by lia.
    apply slice_write_same. lia.
Qed.

Lemma push_spec me n off : wf me -> 0 <= n -> bipbuf_request me n = Some off ->
  let '(ret, me') := bipbuf_push me n in
  ret = n /\ wf me' /\
  contents me' = contents me ++ slice (bdata me) (Z.to_nat off) (Z.to_nat (off + n)).
Proof.
  intros H Hn Hreq. wf_facts H. unfold bipbuf_request in Hreq. unfold bipbuf_push.
  rewrite unused_eq in * by done.
  destruct (decide (_ < n)) as [|Hge]; [done|].
  destruct (decide (1 = b_inuse me)) as [E|E]; simplify_eq.
  - rewrite u32_id by (norm_pow2; lia).
    match goal with |- context [check_for_switch_to_b ?x] => assert (wf x) as Hw end.
    { split; simpl; try done; lia. }
    split_and!; [done|by apply switch_wf|]. rewrite switch_contents. unfold contents; simpl.
    rewrite <- app_assoc, slice_app by lia. done.
  - assert (b_inuse me = 0) as E0 by (destruct (wf_inuse me H); congruence).
    rewrite u32_id by (norm_pow2; lia).
    match goal with |- context [check_for_switch_to_b ?x] => assert (wf x) as Hw end.
    { split; simpl; try done; try lia. }
    split_and!; [done|by apply switch_wf|]. rewrite switch_contents. unfold contents; simpl.
    rewrite (wf_b_off me H), slice_nil, !app_nil_r by done.
    rewrite slice_app by lia. done.
Qed.

(** ** The consumer *)

Lemma peek_all_spec me : wf me ->
  match bipbuf_peek_all me with
  | None => contents me = []
  | Some (off, n) =>
      0 < n /\ 0 <= off /\ off + n <= bsize me /\ off = a_start me /\ n = a_end me - a_start me /\
      take (Z.to_nat n) (contents me) = slice (bdata me) (Z.to_nat off) (Z.to_nat (off + n))
  end.
Proof.
  intros H. wf_facts H. unfold bipbuf_peek_all, bipbuf_is_empty.
  case_bool_decide as E.
  - unfold contents. rewrite E, slice_nil. simpl.
    rewrite (wf_b_off me H), slice_nil; [done|]. by apply (wf_empty me H).
  - rewrite u32_id by (norm_pow2; lia). split_and!; [lia..|].
    unfold contents. rewrite take_app_le by (rewrite slice_length; lia).
    rewrite take_ge by (rewrite slice_length; lia). do 2 f_equal. lia.
Qed.

Lemma poll_spec me n : wf me -> 0 < n -> n <= a_end me - a_start me ->
  let '(ret, me') := bipbuf_poll me n in
  ret = Some (a_start me) /\ wf me' /\ contents me' = drop (Z.to_nat n) (contents me).
Proof.
  intros H Hn Hle. wf_facts H. unfold bipbuf_poll, bipbuf_is_empty.
  case_bool_decide; [lia|]. rewrite u32_id by (norm_pow2; lia).
  rewrite decide_False by lia. simpl.
  match goal with |- context [check_for_switch_to_b ?x] => set (me' := x) end.
  assert (wf me' /\ contents me' = drop (Z.to_nat n) (contents me)) as [Hw Hc];
    [|split_and!; [done|by apply switch_wf|by rewrite switch_contents]].
  assert (Hd : drop (Z.to_nat n) (contents me) =
    slice (bdata me) (Z.to_nat (a_start me + n)) (Z.to_nat (a_end me)) ++
    slice (bdata me) 0 (Z.to_nat (b_end me))).
  { unfold contents.
    rewrite <- (slice_app (bdata me) (Z.to_nat (a_start me)) (Z.to_nat (a_start me + n))
      (Z.to_nat (a_end me))) by lia.
    rewrite <- app_assoc, drop_app_length' by (rewrite slice_length; lia). done. }
  rewrite Hd. subst me'. unfold contents.
  destruct (decide (a_start me + n = a_end me)) as [E|E]; [destruct (decide (1 = b_inuse me))|]; simpl.
  - split; [split; simpl; lia|]. rewrite E, slice_nil, slice_nil, app_nil_r. done.
  - assert (b_end me = 0) as Hb by lia. rewrite Hb, E, !slice_nil.
    split; [split; simpl; lia|done].
  - split; [split; simpl; lia|done].
Qed.

(** ** Runs of a producer and a consumer *)

(** One step: what it appends to the stream of produced bytes, what it appends
    to the stream of consumed ones.  The producer fills the region it was given
    and pushes it; the consumer reads and polls up to all of region A. *)
Inductive bip_step : bipbuf_t -> list Z -> list Z -> bipbuf_t -> Prop :=
| bip_produce me off bs ret me' :
    bipbuf_request me (Z.of_nat (length bs)) = Some off ->
    bipbuf_push (fill me off bs) (Z.of_nat (length bs)) = (ret, me') ->
    bip_step me bs [] me'
| bip_refused me n :
    bipbuf_request me n = None -> bip_step me [] [] me
| bip_consume me off n m ret me' :
    bipbuf_peek_all me = Some (off, n) -> 0 < m <= n ->
    bipbuf_poll me m = (ret, me') ->
    bip_step me [] (slice (bdata me) (Z.to_nat off) (Z.to_nat (off + m))) me'
| bip_starved me :
    bipbuf_peek_all me = None -> bip_step me [] [] me.

Inductive bip_run : bipbuf_t -> list Z -> list Z -> bipbuf_t -> Prop :=
| bip_done me : bip_run me [] [] me
| bip_more me1 p1 c1 me2 p2 c2 me3 :
    bip_step me1 p1 c1 me2 -> bip_run me2 p2 c2 me3 ->
    bip_run me1 (p1 ++ p2) (c1 ++ c2) me3.

Lemma slice_take l a b m : (a <= b)%nat -> (m <= b - a)%nat ->
  take m (slice l a b) = slice l a (a + m).
Proof. intros. unfold slice. rewrite take_take. f_equal. lia. Qed.

(** A step preserves the invariant and moves bytes through the queue in order. *)
Lemma bip_step_fifo me p c me' : wf me -> bip_step me p c me' ->
  wf me' /\ contents me ++ p = c ++ contents me'.
Proof.
  intros H Hs. destruct Hs as [me off bs ret me' Hreq Hpush | | me off n m ret me' Hpk Hm Hpoll |].
  - destruct (fill_spec me (Z.of_nat (length bs)) off bs H ltac:(lia) Hreq eq_refl)
      as (Hw & Hc & _ & _ & Hsl).
    pose proof (push_spec (fill me off bs) (Z.of_nat (length bs)) off Hw ltac:(lia) Hreq) as P.
    rewrite Hpush in P. destruct P as (_ & Hw' & Hc'). split; [done|].
    by rewrite Hc', Hc, Hsl.
  - by rewrite app_nil_r.
  - pose proof (peek_all_spec me H) as P. rewrite Hpk in P.
    destruct P as (Hn & Ho & Hb & Hoff & Hne & Htk).
    pose proof (poll_spec me m H ltac:(lia) ltac:(lia)) as Q. rewrite Hpoll in Q.
    destruct Q as (_ & Hw' & Hc'). split; [done|]. rewrite app_nil_r, Hc'.
    rewrite <- (take_drop (Z.to_nat m) (contents me)) at 1. f_equal.
    replace (Z.to_nat (off + m)) with (Z.to_nat off + Z.to_nat m)%nat by lia.
    rewrite <- (slice_take _ _ (Z.to_nat (off + n))), <- Htk, take_take by lia.
    f_equal. lia.
  - by rewrite app_nil_r.
Qed.

(** C36. The bip-buffer is a first-in first-out queue: over any interleaving of
    producer and consumer steps from a fresh buffer, the bytes produced are the
    bytes consumed followed by the bytes still held, and the cursors stay inside
    the array. *)
Theorem bipbuf_fifo mem size p c me :
  0 <= size < 2 ^ 31 -> Z.of_nat (length mem) = size ->
  bip_run (bipbuf_init mem size) p c me ->
  wf me /\ p = c ++ contents me.
Proof.
  intros Hs Hm Hrun. destruct (init_wf mem size Hs Hm) as [Hw Hc].
  assert (forall me1 p c me2, bip_run me1 p c me2 -> wf me1 ->
    wf me2 /\ contents me1 ++ p = c ++ contents me2) as Hind.
  { induction 1 as [|me1 p1 c1 me2 p2 c2 me3 Hstep _ IH]; intros Hw1.
    - by rewrite app_nil_r.
    - destruct (bip_step_fifo me1 p1 c1 me2 Hw1 Hstep) as [Hw2 E].
      destruct (IH Hw2) as [Hw3 E']. split; [done|].
      by rewrite app_assoc, E, <- !app_assoc, E'. }
  destruct (Hind _ _ _ _ Hrun Hw) as [Hw' E]. split; [done|]. by rewrite Hc in E.
Qed.

Lemma bipbuf_fifo_witness :
  exists c me, bip_run (bipbuf_init [0; 0; 0; 0] 4) [1; 2; 3; 4; 5] c me /\
    wf me /\ [1; 2; 3; 4; 5] = c ++ contents me /\ b_inuse me = 1.
Proof.
  set (b0 := bipbuf_init [0; 0; 0; 0] 4).
  set (b1 := (bipbuf_push (fill b0 0 [1; 2; 3]) 3).2).
  set (b2 := (bipbuf_poll b1 2).2).
  set (b3 := (bipbuf_push (fill b2 0 [4; 5]) 2).2).
  assert (bip_run b0 ([1; 2; 3] ++ [] ++ [4; 5] ++ []) ([] ++ [1; 2] ++ [] ++ []) b3) as Hr.
  { eapply bip_more; [by eapply (bip_produce b0 0 [1; 2; 3])|].
    eapply bip_more; [by eapply (bip_consume b1 0 3 2)|].
    eapply bip_more; [by eapply (bip_produce b2 0 [4; 5])|]. apply bip_done. }
  exists [1; 2], b3. split; [exact Hr|].
  destruct (bipbuf_fifo [0; 0; 0; 0] 4 [1; 2; 3; 4; 5] [1; 2] b3) as [Hw E];
    [vm_compute; split; [intros [=]|reflexivity]|reflexivity|exact Hr|].
  split; [exact Hw|]. split; [exact E|reflexivity].
Defined.

(** bipbuf_offer copies to [data + b_end] in both branches: while region B is
    not in use the bytes land at the start of the array, over unread data. *)
Example bipbuf_offer_clobbers :
  let b := (bipbuf_offer (bipbuf_init [0; 0; 0; 0] 4) [1; 2] 2).2 in
  contents b = [1; 2] /\ contents (bipbuf_offer b [3] 1).2 = [3; 2; 0].
Proof. split; reflexivity. Qed.

(** bipbuf_poll checks the size asked for against the array only: more than
    region A holds can be polled, and the cursor passes [a_end]. *)
Example bipbuf_poll_past_region :
  let b := (bipbuf_push (fill (bipbuf_init [0; 0; 0; 0] 4) 0 [1]) 1).2 in
  bipbuf_poll b 3 = (Some 0, BipBuf 4 3 1 0 0 [1; 0; 0; 0]) /\ contents b = [1].
Proof. split; reflexivity. Qed.
