(* ===== verification/Heap.v ===== *)
(** * Items in memory

    The struct [item] of src/slabs_curd/memcached.h and its macros, the memory
    that holds the items, and the theory of the two kinds of linked lists the
    program threads through them: doubly linked lists through [next]/[prev]
    (LRU queues, slab free lists) and hash chains through [h_next].

    A pointer is a [Z], NULL is 0.  [heap] maps the address of a struct to its
    contents; memory no struct was written to reads as zeroes, which is what
    memset leaves in a fresh slab page. *)

From S2P Require Import Prelude.

(** struct item.  [cas] is [data->cas]; [body] is the memory from [ITEM_key] on.
    An item_chunk has its fields at the same offsets, so one record serves both:
    [head] is [h_next], [size] is [time], [used] is [exptime], [orig_clsid] is
    [nsuffix], [data] is [body]. *)
Record item := Item {
  next : Z;
  prev : Z;
  h_next : Z;
  time : Z;
  exptime : Z;
  nbytes : Z;
  refcount : Z;
  nsuffix : Z;
  it_flags : Z;
  slabs_clsid : Z;
  nkey : Z;
  cas : Z;
  body : list Z
}.

#[export] Instance item_eta : Eta item := fun i =>
  Item (next i) (prev i) (h_next i) (time i) (exptime i) (nbytes i) (refcount i)
    (nsuffix i) (it_flags i) (slabs_clsid i) (nkey i) (cas i) (body i).

(** The fields of struct item_chunk under their own names. *)
Abbreviation ch_head := h_next.
Abbreviation ch_size := time.
Abbreviation ch_used := exptime.
Abbreviation ch_orig_clsid := nsuffix.
Abbreviation ch_data := body.

Definition item0 : item := Item 0 0 0 0 0 0 0 0 0 0 0 0 [].

Definition sizeof_item : Z := 48.
Definition sizeof_item_chunk : Z := 48.

Definition ITEM_LINKED : Z := 1.
Definition ITEM_CAS : Z := 2.
Definition ITEM_SLABBED : Z := 4.
Definition ITEM_FETCHED : Z := 8.
Definition ITEM_ACTIVE : Z := 16.
Definition ITEM_CHUNKED : Z := 32.
Definition ITEM_CHUNK : Z := 64.

Definition HOT_LRU : Z := 0.
Definition WARM_LRU : Z := 64.
Definition COLD_LRU : Z := 128.
Definition TEMP_LRU : Z := 192.

(** it->it_flags & f *)
Definition has (i : item) (f : Z) : bool := bool_decide (Z.land (it_flags i) f <> 0).

(** x & ~f on a byte *)
Definition clear (x f : Z) : Z := Z.land x (255 - f).

Definition ITEM_get_cas (i : item) : Z := if has i ITEM_CAS then cas i else 0.
Definition ITEM_set_cas (v : Z) (i : item) : item :=
  if has i ITEM_CAS then i <| cas := v |> else i.

Definition ITEM_key (i : item) : list Z := take (Z.to_nat (nkey i)) (body i).
Definition ITEM_suffix_off (i : item) : nat := Z.to_nat (nkey i + 1).
Definition ITEM_data_off (i : item) : nat := Z.to_nat (nkey i + 1 + nsuffix i).

(** The address ITEM_data(it), where a chunked item keeps its first item_chunk. *)
Definition ITEM_data_addr (it : Z) (i : item) : Z :=
  it + sizeof_item + nkey i + 1 + nsuffix i + (if has i ITEM_CAS then 8 else 0).

Definition ITEM_ntotal (i : item) : Z :=
  u64 (sizeof_item + nkey i + 1 + nsuffix i + nbytes i + (if has i ITEM_CAS then 8 else 0)).

Definition ITEM_clsid (i : item) : Z := clear (slabs_clsid i) 192.
Definition ITEM_lruid (i : item) : Z := Z.land (slabs_clsid i) 192.

(** ** Memory *)

Abbreviation heap := (gmap Z item).

(** *p, and an assignment through p *)
Definition geti (h : heap) (p : Z) : item := default item0 (h !! p).
Definition seti (h : heap) (p : Z) (f : item -> item) : heap := <[p := f (geti h p)]> h.

Lemma geti_seti_eq h p f : geti (seti h p f) p = f (geti h p).
Proof. unfold geti, seti. by rewrite lookup_insert_eq. Qed.

Lemma geti_seti_ne h p q f : p <> q -> geti (seti h p f) q = geti h q.
Proof. intros. unfold geti at 1, seti. by rewrite lookup_insert_ne. Qed.

Lemma geti_seti h p q f :
  geti (seti h p f) q = if decide (p = q) then f (geti h q) else geti h q.
Proof.
  case_decide; [subst; apply geti_seti_eq|by apply geti_seti_ne].
Qed.

Lemma seti_dom h p f q : is_Some (h !! q) -> is_Some (seti h p f !! q).
Proof. intros. unfold seti. rewrite lookup_insert. case_decide; eauto. Qed.

Lemma seti_dom_eq h p f : is_Some (seti h p f !! p).
Proof. unfold seti. rewrite lookup_insert_eq. eauto. Qed.

#[global] Opaque geti seti.

(** Two memories that agree on a projection of the items at the addresses of a
    set: what a list through that projection needs to survive an update. *)
Definition agree {A} (pr : item -> A) (S : Z -> Prop) (h h' : heap) : Prop :=
  forall x, S x -> pr (geti h x) = pr (geti h' x).

#[export] Instance agree_refl {A} (pr : item -> A) S : Reflexive (agree pr S).
Proof. by intros h x. Qed.
#[export] Instance agree_trans {A} (pr : item -> A) S : Transitive (agree pr S).
Proof. intros h1 h2 h3 H1 H2 x Hx. by rewrite (H1 x Hx), (H2 x Hx). Qed.
#[export] Instance agree_sym {A} (pr : item -> A) S : Symmetric (agree pr S).
Proof. intros h1 h2 H x Hx. by rewrite (H x Hx). Qed.

(** ** Doubly linked lists *)

Definition links (i : item) : Z * Z := (next i, prev i).

(** [dseg h p l n]: the structs [l] are linked in this order, the first with
    [prev = p], the last with [next = n]. *)
Fixpoint dseg (h : heap) (p : Z) (l : list Z) (n : Z) : Prop :=
  match l with
  | [] => True
  | x :: l' => x <> 0 /\ links (geti h x) = (default n (head l'), p) /\ dseg h x l' n
  end.

(** A whole list, with its two end pointers. *)
Definition dll (h : heap) (hd tl : Z) (l : list Z) : Prop :=
  dseg h 0 l 0 /\ hd = default 0 (head l) /\ tl = default 0 (last l) /\ NoDup l.

Lemma dseg_frame h h' p l n : agree links (fun x => x ∈ l) h h' ->
  dseg h p l n -> dseg h' p l n.
Proof.
  revert p. induction l as [|x l IH]; intros p Hag; simpl; [done|].
  intros (Hx & Hl & Hs). split; [done|]. split.
  - rewrite <- (Hag x); [done|set_solver].
  - apply IH; [|done]. intros y Hy. apply Hag. set_solver.
Qed.

Lemma dll_frame h h' hd tl l : agree links (fun x => x ∈ l) h h' ->
  dll h hd tl l -> dll h' hd tl l.
Proof. intros Hag (Hs & ? & ? & ?). split; [by eapply dseg_frame|done]. Qed.

Lemma dseg_nonzero h p l n x : dseg h p l n -> x ∈ l -> x <> 0.
Proof.
  revert p. induction l as [|y l IH]; intros p; simpl; [set_solver|].
  intros (Hy & _ & Hs) Hx. apply elem_of_cons in Hx as [->|Hx]; [done|]. by eapply IH.
Qed.

Lemma last_cons_default (d x : Z) l : default d (last (x :: l)) = default x (last l).
Proof.
  revert d x. induction l as [|y l IH]; intros d x; [done|].
  change (default d (last (y :: l)) = default x (last (y :: l))). by rewrite !IH.
Qed.

Lemma head_app_default (d : Z) l1 l2 :
  default d (head (l1 ++ l2)) = default (default d (head l2)) (head l1).
Proof. by destruct l1. Qed.

Lemma dseg_app h p l1 l2 n :
  dseg h p (l1 ++ l2) n <->
  dseg h p l1 (default n (head l2)) /\ dseg h (default p (last l1)) l2 n.
Proof.
  revert p. induction l1 as [|x l1 IH]; intros p; [simpl; tauto|].
  rewrite last_cons_default. simpl. rewrite IH, head_app_default. tauto.
Qed.

(** Where an element of a list points. *)
Lemma dseg_elem h p l1 x l2 n : dseg h p (l1 ++ x :: l2) n ->
  x <> 0 /\ next (geti h x) = default n (head l2) /\ prev (geti h x) = default p (last l1).
Proof.
  intros H. apply dseg_app in H as [_ (Hx & Hl & _)]. unfold links in Hl.
  simplify_eq. split_and!; congruence.
Qed.

(** ** Hash chains *)

(** [chain h p l]: following [h_next] from [p] visits [l] and ends at NULL. *)
Fixpoint chain (h : heap) (p : Z) (l : list Z) : Prop :=
  match l with
  | [] => p = 0
  | x :: l' => p = x /\ x <> 0 /\ is_Some (h !! x) /\ chain h (h_next (geti h x)) l'
  end.

Lemma chain_frame h h' p l : agree h_next (fun x => x ∈ l) h h' ->
  (forall x, x ∈ l -> is_Some (h' !! x)) -> chain h p l -> chain h' p l.
Proof.
  revert p. induction l as [|x l IH]; intros p Hag Hd; simpl; [done|].
  intros (-> & Hx & Hi & Hc). split_and!; [done|done|apply Hd; set_solver|].
  rewrite <- (Hag x) by set_solver. apply IH; [|intros; apply Hd; set_solver|done].
  intros y Hy. apply Hag. set_solver.
Qed.

Lemma chain_det h p l1 l2 : chain h p l1 -> chain h p l2 -> l1 = l2.
Proof.
  revert p l2. induction l1 as [|x l1 IH]; intros p [|y l2]; simpl; try done.
  - intros -> (-> & ? & _). done.
  - intros (-> & ? & _) ->. done.
  - intros (-> & _ & _ & H1) (-> & _ & _ & H2). f_equal. by eapply IH.
Qed.

Lemma chain_app h p l1 l2 : chain h p (l1 ++ l2) ->
  exists q, chain h q l2 /\
    (l1 = [] /\ q = p \/ exists l1' x, l1 = l1' ++ [x] /\ q = h_next (geti h x)).
Proof.
  revert p. induction l1 as [|x l1 IH]; intros p; simpl.
  - intros H. exists p. eauto.
  - intros (-> & _ & _ & H). apply IH in H as (q & Hq & [[-> ->]|(l1' & y & -> & ->)]).
    + eexists. split; [exact Hq|]. right. exists [], x. done.
    + eexists. split; [exact Hq|]. right. exists (x :: l1'), y. done.
Qed.

Lemma chain_NoDup h p l : chain h p l -> NoDup l.
Proof.
  revert p. induction l as [|x l IH]; intros p H; [constructor|].
  constructor; [|destruct H as (_ & _ & _ & H); by eapply IH].
  intros Hin. apply list_elem_of_split in Hin as (l1 & l2 & ->).
  assert (p = x) as -> by apply H.
  pose proof H as (_ & _ & _ & Ht). apply chain_app in Ht as (q & Hq & _).
  assert (q = x) as -> by apply Hq.
  pose proof (chain_det _ _ _ _ H Hq) as E. apply (f_equal length) in E.
  simpl in E. rewrite length_app in E. simpl in E. lia.
Qed.

Lemma chain_dom h p l x : chain h p l -> x ∈ l -> is_Some (h !! x) /\ x <> 0.
Proof.
  revert p. induction l as [|y l IH]; intros p; simpl; [set_solver|].
  intros (_ & Hy & Hi & Hc) Hx. apply elem_of_cons in Hx as [->|Hx]; [done|]. by eapply IH.
Qed.

Lemma chain_length h p l : chain h p l -> (length l <= size h)%nat.
Proof.
  intros H. rewrite <- size_dom.
  pose proof (chain_NoDup _ _ _ H) as Hnd.
  rewrite <- (size_list_to_set (C := gset Z) l) by done.
  apply subseteq_size. intros x Hx. apply elem_of_list_to_set in Hx.
  apply elem_of_dom. by eapply chain_dom.
Qed.

Lemma chain_head h p l : chain h p l -> p = default 0 (head l).
Proof. destruct l; simpl; tauto. Qed.

(** *** Insertion at the head and removal

    The updates are described by the links they leave behind, so that the
    statements apply to every place of the program that writes them out. *)

Lemma dseg_relink_next h h' p l n n' : dseg h p l n -> NoDup l ->
  (forall y, y ∈ l -> links (geti h' y) =
    (if decide (Some y = last l) then n' else next (geti h y), prev (geti h y))) ->
  dseg h' p l n'.
Proof.
  revert p. induction l as [|x l IH]; intros p; [done|].
  intros (Hx & Hl & Hs) Hnd Hag. apply NoDup_cons in Hnd as [Hnx Hnd].
  simpl. split; [done|]. unfold links in Hl. simplify_eq. split.
  - rewrite Hag by set_solver. destruct l as [|y l]; simpl.
    + by rewrite decide_True by done.
    + rewrite decide_False; [simpl in *; congruence|]. intros E. symmetry in E.
      apply last_Some_elem_of in E. done.
  - apply IH; [done|done|]. intros y Hy. rewrite Hag by set_solver.
    destruct l as [|z l]; [set_solver|]. done.
Qed.

Lemma dseg_relink_prev h h' p p' l n : dseg h p l n -> NoDup l ->
  (forall y, y ∈ l -> links (geti h' y) =
    (next (geti h y), if decide (Some y = head l) then p' else prev (geti h y))) ->
  dseg h' p' l n.
Proof.
  destruct l as [|x l]; [done|]. intros (Hx & Hl & Hs) Hnd Hag.
  apply NoDup_cons in Hnd as [Hnx Hnd]. simpl. split; [done|].
  unfold links in Hl. simplify_eq. split.
  - rewrite Hag by set_solver. simpl. rewrite decide_True by done. congruence.
  - eapply dseg_frame; [|done]. intros y Hy. rewrite Hag by set_solver.
    simpl. rewrite decide_False; [done|]. intros [= ->]. done.
Qed.

Lemma dll_push h h' hd tl l x : dll h hd tl l -> x ∉ l -> x <> 0 ->
  links (geti h' x) = (hd, 0) ->
  (forall y, y <> 0 -> y <> x -> links (geti h' y) =
    (next (geti h y), if decide (y = hd) then x else prev (geti h y))) ->
  dll h' x (if decide (tl = 0) then x else tl) (x :: l).
Proof.
  intros (Hs & -> & -> & Hnd) Hx Hx0 Hlx Hag.
  assert (Hnz : forall y, y ∈ l -> y <> 0) by eauto using dseg_nonzero.
  split; [|split; [done|split; [|by constructor]]].
  - simpl. rewrite Hlx. split_and!; [done|done|].
    eapply dseg_relink_prev; [done|done|]. intros y Hy.
    assert (y <> x) by (intros ->; done).
    rewrite Hag by auto. f_equal. destruct l as [|z l]; [set_solver|]. simpl.
    do 2 case_decide; congruence.
  - rewrite last_cons_default. destruct (last l) as [z|] eqn:E; simpl; [|done].
    rewrite decide_False; [done|]. apply Hnz. by apply last_Some_elem_of.
Qed.

Lemma dll_remove h h' hd tl l1 x l2 : dll h hd tl (l1 ++ x :: l2) ->
  let n := next (geti h x) in
  let p := prev (geti h x) in
  (forall y, y <> 0 -> y <> x -> links (geti h' y) =
    (if decide (y = p) then n else next (geti h y),
     if decide (y = n) then p else prev (geti h y))) ->
  dll h' (if decide (hd = x) then n else hd) (if decide (tl = x) then p else tl) (l1 ++ l2).
Proof.
  intros (Hs & Hhd & Htl & Hnd) n p Hag.
  destruct (dseg_elem _ _ _ _ _ _ Hs) as (Hx0 & Hn & Hp).
  assert (Hnz : forall y, y ∈ l1 ++ x :: l2 -> y <> 0) by eauto using dseg_nonzero.
  pose proof Hnd as Hnd'. apply NoDup_app in Hnd' as (Hnd1 & Hdis & Hnd2).
  apply NoDup_cons in Hnd2 as [Hx2 Hnd2].
  assert (x ∉ l1) as Hx1 by (intros Hin; apply (Hdis x Hin); set_solver).
  apply dseg_app in Hs as [Hs1 (_ & _ & Hs2)]. simpl in Hs1.
  assert (forall y, y ∈ l1 -> y ∉ l2) as Hd by (intros y Hy ?; apply (Hdis y Hy); set_solver).
  assert (forall y, y ∈ l1 -> y <> n) as H1n.
  { intros y Hy ->. destruct l2 as [|z l2]; simpl in Hn.
    - apply (Hnz n); [set_solver|done].
    - apply (Hd n Hy). unfold n. rewrite Hn. set_solver. }
  assert (forall y, y ∈ l2 -> y <> p) as H2p.
  { intros y Hy ->. destruct (last l1) as [z|] eqn:E; simpl in Hp.
    - apply last_Some_elem_of in E. apply (Hd z E). unfold p in Hy. by rewrite Hp in Hy.
    - apply (Hnz p); [set_solver|done]. }
  split; [|split; [|split]].
  - apply dseg_app. split.
    + eapply dseg_relink_next; [exact Hs1|done|]. intros y Hy.
      rewrite Hag; [|apply Hnz; set_solver|by intros ->].
      rewrite (decide_False (P := y = n)) by auto. f_equal.
      unfold p. rewrite Hp. destruct (last l1) as [z|] eqn:E; simpl.
      * unfold n. rewrite Hn. do 2 case_decide; congruence.
      * apply last_None in E. subst. set_solver.
    + eapply dseg_relink_prev; [exact Hs2|done|]. intros y Hy.
      rewrite Hag; [|apply Hnz; set_solver|by intros ->].
      rewrite (decide_False (P := y = p)) by auto. f_equal.
      unfold n. rewrite Hn. destruct l2 as [|z l2]; [set_solver|]. simpl.
      unfold p. rewrite Hp. do 2 case_decide; congruence.
  - rewrite head_app_default in Hhd |- *. simpl in Hhd. destruct l1 as [|z l1]; simpl in *.
    + by rewrite decide_True.
    + rewrite decide_False; [done|]. set_solver.
  - rewrite last_app_cons in Htl. rewrite last_cons_default in Htl.
    destruct l2 as [|z l2]; simpl in Htl.
    + rewrite app_nil_r, decide_True by done. unfold p. by rewrite Hp.
    + change (match last (z :: l2) with Some y => Some y | None => Some x end)
        with (last (x :: z :: l2)) in Htl || idtac.
      rewrite last_app_cons, last_cons_default.
      assert (tl ∈ z :: l2) as Hin.
      { rewrite last_cons_default in Htl. subst tl. destruct (last l2) as [w|] eqn:E; simpl.
        - apply last_Some_elem_of in E. set_solver.
        - set_solver. }
      rewrite decide_False by (intros ->; done). by rewrite last_cons_default in Htl.
  - apply NoDup_app. split_and!; [done|set_solver|done].
Qed.
