(* ===== verification/Assoc.v ===== *)
(** * The hash table (src/slabs_curd/assoc.c)

    A table of [hashsize(hashpower)] chains through [h_next].  When it grows, the
    old table is kept and the maintenance thread moves one bucket at a time to
    the new one; until a bucket has been moved its keys are looked up, inserted
    and deleted in the old table.

    [table_rep] relates the table to a finite map from keys to items; the
    theorems show that find, insert and delete are the map's operations whatever
    stage an expansion is in, that the steps of the expansion leave the map
    unchanged, and that an expansion ends. *)

From S2P Require Import Prelude Jenkins Hash Heap.

(** The globals of assoc.c.  A calloc'ed array of pointers is a map that reads
    as 0 where nothing was written. *)
Record assoc_t := Assoc {
  hashpower : Z;
  primary_hashtable : gmap Z Z;
  old_hashtable : gmap Z Z;
  expanding : bool;
  started_expanding : bool;
  expand_bucket : Z
}.

#[export] Instance assoc_eta : Eta assoc_t := fun a =>
  Assoc (hashpower a) (primary_hashtable a) (old_hashtable a) (expanding a)
    (started_expanding a) (expand_bucket a).

Definition HASHPOWER_DEFAULT : Z := 16.
Definition HASHPOWER_MAX : Z := 32.

(** The initial values of the globals. *)
Definition assoc_globals : assoc_t :=
  Assoc HASHPOWER_DEFAULT ∅ ∅ false false 0.

Definition hashsize (n : Z) : Z := u64 (Z.shiftl 1 n).
Definition hashmask (n : Z) : Z := u64 (hashsize n - 1).

Definition aget (t : gmap Z Z) (i : Z) : Z := default 0 (t !! i).

Section assoc.
(** The function the global [hash] points to, and whether calloc succeeds. *)
Context (hash : hash_func).

(** hash(ITEM_key(it), it->nkey) *)
Definition item_hash (h : heap) (it : Z) : Z :=
  let i := geti h it in
  hash (it + sizeof_item + (if has i ITEM_CAS then 8 else 0)) (body i) (Z.to_nat (nkey i)).

Definition assoc_init (calloc_ok : bool) (hashtable_init : Z) (a : assoc_t) : res assoc_t :=
  let a := if decide (hashtable_init <> 0) then a <| hashpower := hashtable_init |> else a in
  if calloc_ok then Ok (a <| primary_hashtable := ∅ |>) else Abort.

(** (nkey == it->nkey) && (memcmp(key, ITEM_key(it), nkey) == 0) *)
Definition key_match (key : list Z) (nkey : Z) (i : item) : bool :=
  bool_decide (nkey = Heap.nkey i) &&
  bool_decide (take (Z.to_nat nkey) key = take (Z.to_nat nkey) (body i)).

(** The bucket a hash value is looked up in: [true] for the old table. *)
Definition bucket_of (a : assoc_t) (hv : Z) : bool * Z :=
  let oldbucket := u32 (Z.land hv (hashmask (hashpower a - 1))) in
  if expanding a && bool_decide (expand_bucket a <= oldbucket)
  then (true, oldbucket)
  else (false, Z.land hv (hashmask (hashpower a))).

Definition bucket (a : assoc_t) (sl : bool * Z) : Z :=
  if sl.1 then aget (old_hashtable a) sl.2 else aget (primary_hashtable a) sl.2.

Definition set_bucket (a : assoc_t) (sl : bool * Z) (p : Z) : assoc_t :=
  if sl.1 then a <| old_hashtable ::= <[sl.2 := p]> |>
  else a <| primary_hashtable ::= <[sl.2 := p]> |>.

(** while (it) { ...; it = it->h_next; } *)
Fixpoint find_loop (fuel : nat) (h : heap) (key : list Z) (nkey it : Z) : res Z :=
  match fuel with
  | O => NoFuel
  | S fuel =>
      if decide (it = 0) then Ok 0
      else if key_match key nkey (geti h it) then Ok it
      else find_loop fuel h key nkey (h_next (geti h it))
  end.

Definition chain_fuel (h : heap) : nat := S (size h).

Definition assoc_find (key : list Z) (nkey hv : Z) (h : heap) (a : assoc_t) : res Z :=
  find_loop (chain_fuel h) h key nkey (bucket a (bucket_of a hv)).

(** An [item **]: a bucket of a table or the h_next field of an item. *)
Inductive loc := Bucket (sl : bool * Z) | HNext (it : Z).

Definition read_loc (h : heap) (a : assoc_t) (p : loc) : Z :=
  match p with Bucket sl => bucket a sl | HNext it => h_next (geti h it) end.

Definition write_loc (p : loc) (v : Z) (h : heap) (a : assoc_t) : heap * assoc_t :=
  match p with
  | Bucket sl => (h, set_bucket a sl v)
  | HNext it => (seti h it (fun i => i <| h_next := v |>), a)
  end.

Fixpoint before_loop (fuel : nat) (h : heap) (a : assoc_t) (key : list Z) (nkey : Z)
    (pos : loc) : res loc :=
  match fuel with
  | O => NoFuel
  | S fuel =>
      let it := read_loc h a pos in
      if decide (it <> 0 /\ key_match key nkey (geti h it) = false)
      then before_loop fuel h a key nkey (HNext it)
      else Ok pos
  end.

Definition _hashitem_before (key : list Z) (nkey hv : Z) (h : heap) (a : assoc_t) : res loc :=
  before_loop (chain_fuel h) h a key nkey (Bucket (bucket_of a hv)).

Definition assoc_expand (calloc_ok : bool) (a : assoc_t) : assoc_t :=
  let old := primary_hashtable a in
  if calloc_ok then
    a <| old_hashtable := old |> <| primary_hashtable := ∅ |>
      <| hashpower := u32 (hashpower a + 1) |>
      <| expanding := true |> <| expand_bucket := 0 |>
  else a <| old_hashtable := old |> <| primary_hashtable := old |>.

(** The flag returned is pthread_cond_signal(&maintenance_cond). *)
Definition assoc_start_expand (curr_items : Z) (a : assoc_t) : bool * assoc_t :=
  if started_expanding a then (false, a)
  else if decide (u64 (hashsize (hashpower a) * 3) / 2 < curr_items /\
                  hashpower a < HASHPOWER_MAX)
  then (true, a <| started_expanding := true |>)
  else (false, a).

Definition assoc_insert (it hv : Z) (h : heap) (a : assoc_t) : Z * heap * assoc_t :=
  let sl := bucket_of a hv in
  let h := seti h it (fun i => i <| h_next := bucket a sl |>) in
  (1, h, set_bucket a sl it).

Definition assoc_delete (key : list Z) (nkey hv : Z) (h : heap) (a : assoc_t) :
    res (heap * assoc_t) :=
  before ← _hashitem_before key nkey hv h a;
  let it := read_loc h a before in
  if decide (it <> 0) then
    let nxt := h_next (geti h it) in
    let h := seti h it (fun i => i <| h_next := 0 |>) in
    Ok (write_loc before nxt h a)
  else Abort.

(** *** The maintenance thread *)

(** for (it = old_hashtable[expand_bucket]; NULL != it; it = next) *)
Fixpoint move_loop (fuel : nat) (it : Z) (h : heap) (a : assoc_t) : res (heap * assoc_t) :=
  match fuel with
  | O => NoFuel
  | S fuel =>
      if decide (it = 0) then Ok (h, a)
      else
        let next := h_next (geti h it) in
        let b := u32 (Z.land (item_hash h it) (hashmask (hashpower a))) in
        let h := seti h it (fun i => i <| h_next := aget (primary_hashtable a) b |>) in
        move_loop fuel next h (a <| primary_hashtable ::= <[b := it]> |>)
  end.

(** The body of the bulk-move loop when item_trylock(expand_bucket) succeeds. *)
Definition assoc_move_bucket (h : heap) (a : assoc_t) : res (heap * assoc_t) :=
  '(h, a) ← move_loop (chain_fuel h) (aget (old_hashtable a) (expand_bucket a)) h a;
  let a := a <| old_hashtable ::= <[expand_bucket a := 0]> |> in
  let a := a <| expand_bucket := u32 (expand_bucket a + 1) |> in
  if decide (expand_bucket a = hashsize (hashpower a - 1))
  then Ok (h, a <| expanding := false |>)
  else Ok (h, a).

(** for (ii = 0; ii < hash_bulk_move && expanding; ++ii): [locks] are the
    outcomes of the hash_bulk_move trylocks. *)
Fixpoint bulk_move (locks : list bool) (h : heap) (a : assoc_t) : res (heap * assoc_t) :=
  match locks with
  | [] => Ok (h, a)
  | got :: locks =>
      if expanding a then
        '(h, a) ← (if got then assoc_move_bucket h a else Ok (h, a));
        bulk_move locks h a
      else Ok (h, a)
  end.

(** if (!expanding) started_expanding = false; the thread then waits for a
    signal, with the table in use by the workers, and runs assoc_expand. *)
Definition maintenance_idle (a : assoc_t) : assoc_t :=
  if expanding a then a else a <| started_expanding := false |>.
End assoc.

(** ** Sizes and masks *)

Lemma hashsize_eq n : 0 <= n < 64 -> hashsize n = 2 ^ n.
Proof.
  intros H. unfold hashsize. rewrite Z.shiftl_mul_pow2, Z.mul_1_l by lia.
  apply wrap_small. split; [lia|]. apply Z.pow_lt_mono_r; lia.
Qed.

Lemma hashmask_eq n : 0 <= n < 64 -> hashmask n = 2 ^ n - 1.
Proof.
  intros H. unfold hashmask. rewrite hashsize_eq by done. apply wrap_small.
  assert (2 ^ n < 2 ^ 64) by (apply Z.pow_lt_mono_r; lia). unfold in_u. lia.
Qed.

Lemma land_hashmask hv n : 0 <= n < 64 -> Z.land hv (hashmask n) = hv mod 2 ^ n.
Proof. intros H. rewrite hashmask_eq by done. apply land_mask. lia. Qed.

Lemma land_hashmask_u32 hv n : 0 <= n <= 32 ->
  u32 (Z.land hv (hashmask n)) = hv mod 2 ^ n.
Proof.
  intros H. rewrite land_hashmask by lia. apply wrap_small.
  pose proof (Z.mod_pos_bound hv (2 ^ n) ltac:(lia)).
  assert (2 ^ n <= 2 ^ 32) by (apply Z.pow_le_mono_r; lia). unfold in_u. lia.
Qed.

Lemma mod_pow2_mod_pow2 x m n : 0 <= m <= n -> (x mod 2 ^ n) mod 2 ^ m = x mod 2 ^ m.
Proof.
  intros H. apply Z.bits_inj'. intros i Hi. destruct (decide (i < m)).
  - by rewrite !Z.mod_pow2_bits_low by lia.
  - by rewrite !Z.mod_pow2_bits_high by lia.
Qed.

(** ** Keys *)

Definition ikey (h : heap) (x : Z) : list Z := ITEM_key (geti h x).

(** The item's memory holds a key of the length it says. *)
Definition item_ok (i : item) : Prop :=
  bytes_ok (body i) /\ 0 <= nkey i <= Z.of_nat (length (body i)).

(** Assignments to fields other than these leave the key alone. *)
Definition kview (i : item) : Z * list Z := (nkey i, body i).

Lemma ikey_agree h h' x : kview (geti h x) = kview (geti h' x) -> ikey h x = ikey h' x.
Proof. unfold kview, ikey, ITEM_key. intros [= -> ->]. done. Qed.

Lemma item_ok_agree i j : kview i = kview j -> item_ok i -> item_ok j.
Proof. unfold kview, item_ok. intros [= -> ->]. done. Qed.

Lemma kview_seti_h_next h p x v :
  kview (geti (seti h p (fun i => i <| h_next := v |>)) x) = kview (geti h x).
Proof. rewrite geti_seti. by case_decide. Qed.

Lemma ikey_length h x : item_ok (geti h x) -> length (ikey h x) = Z.to_nat (nkey (geti h x)).
Proof. intros [_ H]. unfold ikey, ITEM_key. rewrite length_take. lia. Qed.

Lemma key_match_spec km nk k i : item_ok i -> 0 <= nk <= Z.of_nat (length km) ->
  k = take (Z.to_nat nk) km -> key_match km nk i = true <-> ITEM_key i = k.
Proof.
  intros [_ Hi] Hnk ->. unfold key_match, ITEM_key. rewrite andb_true_iff, !bool_decide_eq_true.
  split.
  - intros [-> ->]. done.
  - intros E. assert (nk = nkey i) as En.
    { apply (f_equal length) in E. rewrite !length_take in E. lia. }
    split; [done|]. by rewrite En in E |- *.
Qed.

Section table.
Context (hash : hash_func) `{!HashFunction hash}.

(** The hash of a key, wherever it is in memory. *)
Definition khash (k : list Z) : Z := hash 0 k (length k).

Lemma item_hash_key h x : item_ok (geti h x) -> item_hash hash h x = khash (ikey h x).
Proof.
  intros Hok. unfold item_hash, khash. rewrite ikey_length by done.
  apply hash_key; [apply Hok| |].
  - apply bytes_ok_take, Hok.
  - unfold ikey, ITEM_key. rewrite take_take. f_equal. lia.
Qed.

Lemma caller_hash_key km nk : bytes_ok km -> 0 <= nk <= Z.of_nat (length km) ->
  hash 0 km (Z.to_nat nk) = khash (take (Z.to_nat nk) km).
Proof.
  intros Hb Hnk. unfold khash. rewrite length_take.
  replace (Z.to_nat nk `min` length km)%nat with (Z.to_nat nk) by lia.
  apply hash_key; [done|by apply bytes_ok_take|]. rewrite take_take. f_equal. lia.
Qed.

Lemma khash_range k : bytes_ok k -> in_u 32 (khash k).
Proof. intros. by apply hash_range. Qed.

(** ** The table as a map *)

Definition chains : Type := bool * Z -> list Z.

Record rep (h : heap) (a : assoc_t) (m : gmap (list Z) Z) (C : chains) : Prop := {
  rep_hp : 1 <= hashpower a <= 32;
  rep_eb : expanding a = true -> 0 <= expand_bucket a < 2 ^ (hashpower a - 1);
  rep_chain sl : (sl.1 = true -> expanding a = true) -> chain h (bucket a sl) (C sl);
  rep_slot sl x : x ∈ C sl -> bucket_of a (khash (ikey h x)) = sl;
  rep_ok sl x : x ∈ C sl -> item_ok (geti h x);
  rep_map k x : m !! k = Some x <-> exists sl, x ∈ C sl /\ ikey h x = k
}.

Definition table_rep (h : heap) (a : assoc_t) (m : gmap (list Z) Z) : Prop :=
  exists C, rep h a m C.

Lemma bucket_of_live a hv : (bucket_of a hv).1 = true -> expanding a = true.
Proof. unfold bucket_of. destruct (expanding a); simpl; [done|by intros]. Qed.

(** The chain of a key holds every item with that key. *)
Lemma rep_lookup h a m C k x : rep h a m C ->
  m !! k = Some x <-> x ∈ C (bucket_of a (khash k)) /\ ikey h x = k.
Proof.
  intros R. rewrite (rep_map _ _ _ _ R). split.
  - intros (sl & Hx & <-). by rewrite (rep_slot _ _ _ _ R sl).
  - intros [Hx Hk]. eauto.
Qed.

Lemma rep_unique h a m C sl1 sl2 x y : rep h a m C -> x ∈ C sl1 -> y ∈ C sl2 ->
  ikey h x = ikey h y -> x = y.
Proof.
  intros R Hx Hy E.
  assert (m !! ikey h x = Some x) as H1 by (apply (rep_map _ _ _ _ R); eauto).
  assert (m !! ikey h x = Some y) as H2 by (apply (rep_map _ _ _ _ R); eauto).
  congruence.
Qed.

Lemma rep_same_slot h a m C sl1 sl2 x : rep h a m C -> x ∈ C sl1 -> x ∈ C sl2 -> sl1 = sl2.
Proof.
  intros R H1 H2. by rewrite <- (rep_slot _ _ _ _ R sl1 x H1), (rep_slot _ _ _ _ R sl2 x H2).
Qed.

(** The table survives updates of the heap that keep the chain fields and the
    keys of its items. *)
Lemma rep_frame_key h h' a m C : rep h a m C ->
  (forall sl x, x ∈ C sl -> h_next (geti h x) = h_next (geti h' x) /\
     ikey h x = ikey h' x /\ item_ok (geti h' x) /\ is_Some (h' !! x)) ->
  rep h' a m C.
Proof.
  intros R Hf. assert (forall sl x, x ∈ C sl -> ikey h x = ikey h' x) as Hk by (intros; by eapply Hf).
  split; try apply R.
  - intros sl Hl. eapply chain_frame; [..|by apply R].
    + intros x Hx. by eapply Hf.
    + intros x Hx. by eapply Hf.
  - intros sl x Hx. rewrite <- (Hk sl) by done. by apply R.
  - intros sl x Hx. by eapply Hf.
  - intros k x. rewrite (rep_map _ _ _ _ R). split; intros (sl & Hx & <-); exists sl;
      (split; [done|]); [symmetry|]; by eapply Hk.
Qed.

Lemma rep_frame h h' a m C : rep h a m C ->
  (forall sl x, x ∈ C sl -> h_next (geti h x) = h_next (geti h' x) /\
     kview (geti h x) = kview (geti h' x) /\ is_Some (h' !! x)) ->
  rep h' a m C.
Proof.
  intros R Hf. eapply rep_frame_key; [exact R|]. intros sl x Hx. destruct (Hf sl x Hx) as (H1 & H2 & H3).
  split_and!; [done|by apply ikey_agree| |done]. eapply item_ok_agree; [exact H2|]. by eapply R.
Qed.

(** ** find *)

Lemma find_loop_spec km nk k h p l fuel :
  chain h p l -> (length l < fuel)%nat -> (forall x, x ∈ l -> item_ok (geti h x)) ->
  0 <= nk <= Z.of_nat (length km) -> k = take (Z.to_nat nk) km ->
  exists r, find_loop fuel h km nk p = Ok r /\
    (r = 0 /\ (forall x, x ∈ l -> ikey h x <> k) \/ r ∈ l /\ r <> 0 /\ ikey h r = k).
Proof.
  intros Hc Hl Hok Hnk Hk. revert p l Hc Hl Hok.
  induction fuel as [|fuel IH]; intros p l Hc Hl Hok; [lia|]. simpl.
  destruct l as [|x l]; simpl in Hc.
  { subst p. rewrite decide_True by done. exists 0. split; [done|]. left. set_solver. }
  destruct Hc as (-> & Hx & _ & Hc). rewrite decide_False by done.
  assert (item_ok (geti h x)) as Hokx by (apply Hok; set_solver).
  pose proof (key_match_spec km nk k _ Hokx Hnk Hk) as Hm.
  destruct (key_match km nk (geti h x)).
  - exists x. split; [done|]. right. split; [set_solver|]. split; [done|]. by apply Hm.
  - edestruct (IH _ l Hc) as (r & -> & Hr); [simpl in Hl; lia|intros; apply Hok; set_solver|].
    exists r. split; [done|]. destruct Hr as [[-> Hr]|[Hr Hkr]].
    + left. split; [done|]. intros y Hy. apply elem_of_cons in Hy as [->|Hy]; [|by apply Hr].
      intros E. by apply Hm in E.
    + right. set_solver.
Qed.

Lemma rep_chain_of h a m C hv : rep h a m C ->
  chain h (bucket a (bucket_of a hv)) (C (bucket_of a hv)).
Proof. intros R. apply R. apply bucket_of_live. Qed.

Lemma assoc_find_rep km nk h a m C : rep h a m C -> 0 <= nk <= Z.of_nat (length km) ->
  assoc_find km nk (khash (take (Z.to_nat nk) km)) h a =
  Ok (default 0 (m !! take (Z.to_nat nk) km)).
Proof.
  intros R Hnk. set (k := take _ km). pose proof (rep_chain_of _ _ _ _ (khash k) R) as Hc.
  unfold assoc_find. edestruct (find_loop_spec km nk k) as (r & -> & Hr);
    [exact Hc| |intros x Hx; by eapply R|done|done|].
  - unfold chain_fuel. apply chain_length in Hc. lia.
  - f_equal. destruct Hr as [[-> Hr]|(Hr & _ & Hkr)].
    + destruct (m !! k) as [x|] eqn:E; [|done].
      apply (rep_lookup _ _ _ _ _ _ R) in E as [Hx Hkx]. by apply Hr in Hx.
    + assert (m !! k = Some r) as -> by (by apply (rep_lookup _ _ _ _ _ _ R)). done.
Qed.

(** ** insert *)

Lemma bucket_set a sl sl' p :
  bucket (set_bucket a sl p) sl' = if decide (sl = sl') then p else bucket a sl'.
Proof.
  destruct sl as [[] b], sl' as [[] b']; unfold bucket, set_bucket, aget; simpl; try done.
  - rewrite lookup_insert. repeat case_decide; by simplify_eq.
  - rewrite lookup_insert. repeat case_decide; by simplify_eq.
Qed.

Lemma bucket_of_set a sl p hv : bucket_of (set_bucket a sl p) hv = bucket_of a hv.
Proof. by destruct sl as [[] b]. Qed.

(** The variables other than the two tables. *)
Definition scalars (a : assoc_t) : Z * bool * bool * Z :=
  (hashpower a, expanding a, started_expanding a, expand_bucket a).

Lemma set_bucket_scalars a sl p : scalars (set_bucket a sl p) = scalars a.
Proof. by destruct sl as [[] b]. Qed.

Lemma bucket_of_scalars a a' hv : scalars a' = scalars a -> bucket_of a' hv = bucket_of a hv.
Proof. unfold bucket_of, scalars. intros [= -> -> _ ->]. done. Qed.

(** Replace the chain of one bucket. *)
Definition put (C : chains) (sl : bool * Z) (l : list Z) : chains :=
  fun sl' => if decide (sl = sl') then l else C sl'.

Lemma assoc_insert_rep it h a m C : rep h a m C -> it <> 0 -> item_ok (geti h it) ->
  m !! ikey h it = None ->
  let '(ret, h', a') := assoc_insert it (khash (ikey h it)) h a in
  ret = 1 /\ (exists C', rep h' a' (<[ikey h it := it]> m) C') /\
  (exists v, h' = seti h it (fun i => i <| h_next := v |>)).
Proof.
  intros R Hit Hok Hnew. unfold assoc_insert. set (sl := bucket_of a _).
  split; [done|]. split; [|by eexists].
  assert (forall sl' x, x ∈ C sl' -> x <> it) as Hne.
  { intros sl' x Hx ->. assert (m !! ikey h it = Some it) by (apply (rep_map _ _ _ _ R); eauto).
    congruence. }
  set (h' := seti _ _ _).
  assert (forall x, ikey h' x = ikey h x) as Hk
    by (intros; apply ikey_agree, kview_seti_h_next).
  exists (put C sl (it :: C sl)).
  pose proof (set_bucket_scalars a sl it) as [= E1 E2 E3 E4].
  split; rewrite ?E1, ?E2, ?E3, ?E4; try apply R.
  - intros sl' Hl. rewrite bucket_set. unfold put.
    assert (forall l, chain h (bucket a sl') l -> (forall x, x ∈ l -> x <> it) ->
      chain h' (bucket a sl') l) as Hframe.
    { intros l Hc Hl'. eapply chain_frame; [..|exact Hc].
      - intros x Hx. unfold h'. rewrite geti_seti_ne; [done|]. by apply not_eq_sym, Hl'.
      - intros x Hx. apply seti_dom. by eapply chain_dom. }
    case_decide; [subst sl'|apply Hframe; [by apply R|by intros x; apply Hne]].
    simpl. split_and!; [done|done|apply seti_dom_eq|].
    unfold h' at 2. rewrite geti_seti_eq. simpl.
    apply Hframe; [by apply R|by intros x; apply Hne].
  - intros sl' x. unfold put. rewrite Hk, bucket_of_set. case_decide; [subst sl'|by apply R].
    intros [->|Hx]%elem_of_cons; [done|by apply R].
  - intros sl' x Hx. eapply item_ok_agree; [symmetry; apply kview_seti_h_next|].
    unfold put in Hx. case_decide; [|by eapply R].
    apply elem_of_cons in Hx as [->|Hx]; [done|by eapply R].
  - intros k x. rewrite lookup_insert_Some, (rep_map _ _ _ _ R). unfold put. split.
    + intros [[<- <-]|(Hne' & sl' & Hx & <-)].
      * exists sl. rewrite decide_True, Hk by done. set_solver.
      * exists sl'. rewrite Hk. case_decide; [subst|]; set_solver.
    + intros (sl' & Hx & <-). rewrite Hk.
      assert (x = it \/ x ∈ C sl') as [->|Hx'] by (case_decide; set_solver).
      * by left.
      * right. split; [|by eauto]. intros E. apply (Hne sl' x Hx').
        assert (m !! ikey h it = Some x); [|congruence].
        apply (rep_map _ _ _ _ R). eauto.
Qed.
(** ** delete *)

Lemma before_loop_spec km nk k h a pos l fuel :
  chain h (read_loc h a pos) l -> (length l < fuel)%nat ->
  (forall x, x ∈ l -> item_ok (geti h x)) ->
  0 <= nk <= Z.of_nat (length km) -> k = take (Z.to_nat nk) km ->
  exists l1 l2 pos', l = l1 ++ l2 /\ before_loop fuel h a km nk pos = Ok pos' /\
    pos' = match last l1 with None => pos | Some y => HNext y end /\
    read_loc h a pos' = default 0 (head l2) /\
    (forall x, x ∈ l1 -> ikey h x <> k) /\ (forall x, head l2 = Some x -> ikey h x = k).
Proof.
  intros Hc Hl Hok Hnk Hk. revert pos l Hc Hl Hok.
  induction fuel as [|fuel IH]; intros pos l Hc Hl Hok; [lia|]. simpl.
  destruct l as [|x l]; simpl in Hc.
  { exists [], [], pos. rewrite decide_False by naive_solver. set_solver. }
  destruct Hc as (E & Hx & _ & Hc). rewrite E.
  assert (item_ok (geti h x)) as Hokx by (apply Hok; set_solver).
  pose proof (key_match_spec km nk k _ Hokx Hnk Hk) as Hm.
  case_decide as Hd.
  - destruct (IH (HNext x) l) as (l1 & l2 & pos' & -> & Hb & Hpos & Hrd & Hn & Hs);
      [done|simpl in Hl; lia|intros; apply Hok; set_solver|].
    exists (x :: l1), l2, pos'. split_and!; [done|done| |done| |done].
    + rewrite Hpos. rewrite last_cons. by destruct (last l1).
    + intros y [->|Hy]%elem_of_cons; [|by apply Hn].
      intros Ey. apply Hm in Ey. rewrite Ey in Hd. by destruct Hd.
  - exists [], (x :: l), pos. split_and!; try done; [set_solver|].
    intros y [= <-]. apply Hm. destruct (key_match _ _ _); tauto.
Qed.

(** Unlinking [x] from a chain. *)
Lemma chain_unlink h h' p l1 x l2 : chain h p (l1 ++ x :: l2) ->
  (forall y, y ∈ l1 ++ l2 -> h_next (geti h' y) =
     if decide (Some y = last l1) then h_next (geti h x) else h_next (geti h y)) ->
  (forall y, is_Some (h !! y) -> is_Some (h' !! y)) ->
  chain h' (match l1 with [] => h_next (geti h x) | _ => p end) (l1 ++ l2).
Proof.
  intros Hc Hh Hd. pose proof (chain_NoDup _ _ _ Hc) as Hnd.
  revert p Hc Hh. induction l1 as [|y l1 IH]; intros p Hc Hh.
  - destruct Hc as (_ & _ & _ & Hc). eapply chain_frame; [| |exact Hc].
    + intros y Hy. by rewrite Hh.
    + intros y Hy. apply Hd. by eapply chain_dom.
  - destruct Hc as (-> & Hy & Hi & Hc). simpl. split_and!; [done|done|by apply Hd|].
    apply NoDup_cons in Hnd as [Hny Hnd].
    rewrite Hh by set_solver. specialize (IH Hnd _ Hc).
    destruct l1 as [|z l1].
    + rewrite decide_True by done. apply IH. intros w Hw. rewrite Hh by set_solver.
      rewrite decide_False; [done|]. intros [= ->]. set_solver.
    + rewrite decide_False.
      * apply IH. intros w Hw. rewrite Hh by set_solver. by rewrite last_cons_cons.
      * intros E. rewrite last_cons_cons in E. symmetry in E. apply last_Some_elem_of in E.
        set_solver.
Qed.

(** Memories that differ in [h_next] fields only. *)
Definition relinked (h h' : heap) : Prop := forall y,
  geti h' y = (geti h y) <| h_next := h_next (geti h' y) |> /\
  (is_Some (h !! y) -> is_Some (h' !! y)).

Lemma relinked_seti h p v : relinked h (seti h p (fun i => i <| h_next := v |>)).
Proof.
  intros y. split; [|apply seti_dom]. rewrite geti_seti. case_decide; by destruct (geti h y).
Qed.

Lemma relinked_refl h : relinked h h.
Proof. intros y. split; [|done]. by destruct (geti h y). Qed.

Lemma relinked_trans h1 h2 h3 : relinked h1 h2 -> relinked h2 h3 -> relinked h1 h3.
Proof.
  intros H1 H2 y. destruct (H1 y) as [E1 D1], (H2 y) as [E2 D2]. split; [|by auto].
  rewrite E2 at 1. rewrite E1. done.
Qed.

Lemma relinked_kview h h' x : relinked h h' -> kview (geti h x) = kview (geti h' x).
Proof. intros H. destruct (H x) as [-> _]. done. Qed.

Lemma relinked_ikey h h' x : relinked h h' -> ikey h x = ikey h' x.
Proof. intros. by apply ikey_agree, relinked_kview. Qed.

(** Replacing the chain of one bucket. *)
Lemma rep_replace h h' a a' sl p m m' C l :
  rep h a m C -> relinked h h' -> scalars a' = scalars a ->
  (forall sl', bucket a' sl' = if decide (sl = sl') then p else bucket a sl') ->
  (forall x, x ∉ C sl -> x ∉ l -> h_next (geti h' x) = h_next (geti h x)) ->
  chain h' p l ->
  (forall x, x ∈ l -> x ∈ C sl \/ bucket_of a (khash (ikey h x)) = sl /\ item_ok (geti h x)) ->
  (forall sl' x, sl' <> sl -> x ∈ C sl' -> x ∉ l) ->
  (forall k x, m' !! k = Some x <-> exists sl', x ∈ put C sl l sl' /\ ikey h x = k) ->
  rep h' a' m' (put C sl l).
Proof.
  intros R Hr Hsc Hb Hn Hc Hl Hd Hm. pose proof Hsc as [= E1 E2 E3 E4].
  assert (forall x, ikey h' x = ikey h x) as Hk by (intros; symmetry; by apply relinked_ikey).
  split; rewrite ?E1, ?E2, ?E3, ?E4; try apply R.
  - intros sl' Hlv. rewrite Hb. unfold put. case_decide; [by subst|].
    eapply chain_frame; [| |by apply R].
    + intros x Hx. symmetry. apply Hn; [|by apply (Hd sl')].
      intros Hx'. by apply (rep_same_slot _ _ _ _ _ _ _ R Hx') in Hx.
    + intros x Hx. apply Hr. eapply chain_dom; [by apply R|done].
  - intros sl' x. rewrite (bucket_of_scalars a) by done. rewrite Hk. unfold put.
    case_decide; [subst sl'|by apply R]. intros Hx. apply Hl in Hx as [Hx|[Hx _]]; [by apply R|done].
  - intros sl' x Hx. eapply item_ok_agree; [by apply relinked_kview|].
    unfold put in Hx. case_decide; [|by eapply R].
    apply Hl in Hx as [Hx|[_ Hx]]; [by eapply R|done].
  - intros k x. rewrite Hm. by setoid_rewrite Hk.
Qed.

Lemma before_split km nk h a m C x : rep h a m C -> 0 <= nk <= Z.of_nat (length km) ->
  m !! take (Z.to_nat nk) km = Some x ->
  let sl := bucket_of a (khash (take (Z.to_nat nk) km)) in
  exists l1 l2 pos, C sl = l1 ++ x :: l2 /\
    _hashitem_before km nk (khash (take (Z.to_nat nk) km)) h a = Ok pos /\
    pos = match last l1 with None => Bucket sl | Some y => HNext y end /\
    read_loc h a pos = x.
Proof.
  intros R Hnk Hx sl. apply (rep_lookup _ _ _ _ _ _ R) in Hx as [Hx Hkx].
  pose proof (rep_chain_of _ _ _ _ (khash (take (Z.to_nat nk) km)) R) as Hc.
  edestruct (before_loop_spec km nk (take (Z.to_nat nk) km) h a (Bucket sl)) as (l1 & l2 & pos & E & Hb & Hp & Hrd & Hn & Hs);
    [exact Hc|apply chain_length in Hc; unfold chain_fuel; by apply Nat.lt_succ_r|
     intros y Hy; by eapply R|done|done|].
  assert (head l2 = Some x) as Hh.
  { destruct l2 as [|y l2]; simpl in *.
    - exfalso. apply (Hn x); [|done]. rewrite app_nil_r in E. by rewrite <- E.
    - f_equal. eapply (rep_unique _ _ _ _ sl sl); [done| |exact Hx|].
      + unfold sl. rewrite E. set_solver.
      + rewrite Hkx. by apply Hs. }
  destruct l2 as [|y l2]; [done|]. injection Hh as ->. by exists l1, l2, pos.
Qed.

Lemma assoc_delete_rep km nk h a m C x : rep h a m C -> 0 <= nk <= Z.of_nat (length km) ->
  m !! take (Z.to_nat nk) km = Some x ->
  exists h' a' C', assoc_delete km nk (khash (take (Z.to_nat nk) km)) h a = Ok (h', a') /\
    rep h' a' (delete (take (Z.to_nat nk) km) m) C' /\ relinked h h' /\
    h_next (geti h' x) = 0 /\ scalars a' = scalars a.
Proof.
  intros R Hnk Hx. set (k := take _ km) in *. set (sl := bucket_of a (khash k)).
  destruct (before_split _ _ _ _ _ _ _ R Hnk Hx) as (l1 & l2 & pos & E & Hb & Hp & Hrd).
  fold k sl in E, Hb, Hp. unfold assoc_delete. rewrite Hb. simpl. rewrite Hrd.
  pose proof (rep_chain_of _ _ _ _ (khash k) R) as Hc. fold sl in Hc.
  assert (x ∈ C sl) as HxC by (rewrite E; set_solver).
  assert (ikey h x = k) as Hkx by (by apply (rep_lookup _ _ _ _ _ _ R) in Hx as [_ ?]).
  assert (x <> 0) as Hx0 by by eapply chain_dom.
  rewrite decide_True by done. rewrite E in Hc.
  pose proof (chain_NoDup _ _ _ Hc) as Hnd. apply NoDup_app in Hnd as (Hnd1 & Hdis & Hnd2).
  apply NoDup_cons in Hnd2 as [Hx2 _].
  assert (x ∉ l1) as Hx1 by (intros ?; apply (Hdis x); set_solver).
  set (nxt := h_next (geti h x)). set (h1 := seti h x _).
  assert (exists h' a', write_loc pos nxt h1 a = (h', a') /\ relinked h h' /\
      scalars a' = scalars a /\
      (forall sl', bucket a' sl' = if decide (sl = sl') then
         match l1 with [] => nxt | _ => bucket a sl end else bucket a sl') /\
      (forall y, h_next (geti h' y) = if decide (Some y = last l1) then nxt
         else if decide (y = x) then 0 else h_next (geti h y)))
      as (h' & a' & Hw & Hrl & Hsc & Hbk & Hn).
  { destruct (last l1) as [y|] eqn:El; subst pos; simpl.
    - exists (seti h1 y (fun i => i <| h_next := nxt |>)), a.
      assert (l1 <> []) by (by intros ->). split_and!; [done| |done|..].
      + eapply relinked_trans; apply relinked_seti.
      + intros sl'. case_decide; [subst sl'|done]. by destruct l1.
      + intros z. unfold h1. rewrite !geti_seti. repeat case_decide; by simplify_eq.
    - apply last_None in El as ->. exists h1, (set_bucket a sl nxt).
      split_and!; [done|apply relinked_seti|apply set_bucket_scalars|intros; by rewrite bucket_set|].
      intros z. simpl. unfold h1. rewrite geti_seti.
      repeat case_decide; by simplify_eq. }
  exists h', a', (put C sl (l1 ++ l2)). rewrite Hw. split_and!; [done| |done| |done].
  - eapply rep_replace; [exact R|done|done|exact Hbk|..].
    + intros y Hy1 Hy2. rewrite Hn. rewrite !decide_False; [done| |].
      * intros ->. done.
      * intros El. symmetry in El. apply last_Some_elem_of in El. set_solver.
    + eapply chain_unlink; [exact Hc| |intros; by apply Hrl].
      intros y Hy. rewrite Hn. case_decide; [done|]. rewrite decide_False; [done|].
      intros ->. set_solver.
    + intros y Hy. left. rewrite E. set_solver.
    + intros sl' y Hne Hy Hy'. apply Hne. eapply rep_same_slot; [exact R|exact Hy|].
      rewrite E. set_solver.
    + intros k' y. rewrite lookup_delete_Some, (rep_map _ _ _ _ R). unfold put. split.
      * intros (Hne & sl' & Hy & <-). exists sl'. split; [|done]. case_decide; [|done].
        subst sl'. rewrite E in Hy. assert (y <> x) by (by intros ->). set_solver.
      * intros (sl' & Hy & <-).
        assert (y ∈ C sl' /\ y <> x) as [HyC Hne].
        { case_decide.
          - subst sl'. rewrite E. split; [set_solver|]. intros ->. set_solver.
          - split; [done|]. intros ->. by apply (rep_same_slot _ _ _ _ sl sl' _ R) in HxC. }
        split; [|by eauto]. intros Hky. apply Hne. eapply rep_unique; [exact R|done|done|].
        by rewrite Hkx.
  - rewrite Hn, decide_False, decide_True; [done|done|].
    intros El. symmetry in El. by apply last_Some_elem_of in El.
Qed.
(** ** Expansion *)

Lemma bucket_of_eq h a m C hv : rep h a m C ->
  bucket_of a hv = if expanding a && bool_decide (expand_bucket a <= hv mod 2 ^ (hashpower a - 1))
    then (true, hv mod 2 ^ (hashpower a - 1)) else (false, hv mod 2 ^ hashpower a).
Proof.
  intros R. destruct (rep_hp _ _ _ _ R). unfold bucket_of.
  by rewrite land_hashmask_u32, land_hashmask by lia.
Qed.

Lemma assoc_expand_rep ok h a m C : rep h a m C -> expanding a = false ->
  hashpower a < HASHPOWER_MAX ->
  exists C', rep h (assoc_expand ok a) m C' /\ started_expanding (assoc_expand ok a) = started_expanding a.
Proof.
  intros R He Hhp. destruct (rep_hp _ _ _ _ R) as [Hlo _]. unfold HASHPOWER_MAX in Hhp.
  assert (forall hv, bucket_of a hv = (false, hv mod 2 ^ hashpower a)) as Hb
    by (intros; erewrite bucket_of_eq by done; by rewrite He).
  destruct ok.
  - exists (fun sl : bool * Z => if sl.1 then C (false, sl.2) else []). split; [|done].
    assert (u32 (hashpower a + 1) = hashpower a + 1) as Eh
      by (apply wrap_small; unfold in_u; norm_pow2; lia).
    assert (forall hv, bucket_of (assoc_expand true a) hv = (true, hv mod 2 ^ hashpower a)) as Hb'.
    { intros hv. unfold bucket_of. simpl. rewrite Eh, Z.add_simpl_r, land_hashmask_u32 by lia.
      rewrite bool_decide_true; [done|]. apply Z.mod_pos_bound. lia. }
    split; try done.
    + simpl. rewrite Eh. lia.
    + simpl. rewrite Eh. lia.
    + intros [[] b] _; simpl; [|done]. by apply (rep_chain _ _ _ _ R (false, b)).
    + intros [[] b] x Hx; simpl in *; [|set_solver]. rewrite Hb'.
      pose proof (rep_slot _ _ _ _ R _ _ Hx) as E. rewrite Hb in E. congruence.
    + intros [[] b] x Hx; simpl in *; [|set_solver]. by eapply R.
    + intros k x. rewrite (rep_map _ _ _ _ R). split.
      * intros (sl & Hx & <-). exists (true, sl.2). split; [|done].
        pose proof (rep_slot _ _ _ _ R _ _ Hx) as E. rewrite Hb in E. by subst sl.
      * intros ([[] b] & Hx & <-); simpl in Hx; [by eauto|set_solver].
  - exists C. split; [|done]. split; try apply R.
    intros [[] b] Hl; simpl in *; [exfalso; pose proof (Hl eq_refl); simpl in *; congruence|].
    by apply (rep_chain _ _ _ _ R (false, b)).
Qed.

Lemma move_loop_spec l fuel h a p P :
  chain h p l -> (length l < fuel)%nat -> (forall x, x ∈ l -> item_ok (geti h x)) ->
  1 <= hashpower a <= 32 ->
  (forall b, chain h (aget (primary_hashtable a) b) (P b)) ->
  (forall b x, x ∈ P b -> x ∉ l) ->
  exists h' a' P', move_loop hash fuel p h a = Ok (h', a') /\ relinked h h' /\
    scalars a' = scalars a /\ old_hashtable a' = old_hashtable a /\
    (forall b, chain h' (aget (primary_hashtable a') b) (P' b)) /\
    (forall b x, x ∈ P' b <-> x ∈ P b \/ x ∈ l /\ khash (ikey h x) mod 2 ^ hashpower a = b) /\
    (forall x, (forall b, x ∉ P' b) -> h_next (geti h' x) = h_next (geti h x)).
Proof.
  revert l h a p P. induction fuel as [|fuel IH]; intros l h a p P Hc Hl Hok Hhp HP Hd; [lia|].
  destruct l as [|x l].
  { simpl in Hc. subst p. simpl. exists h, a, P. split_and!; try done; [apply relinked_refl|].
    set_solver. }
  destruct Hc as (-> & Hx & Hi & Hc). simpl. rewrite decide_False by done.
  assert (item_ok (geti h x)) as Hokx by (apply Hok; set_solver).
  rewrite item_hash_key, land_hashmask_u32 by (done || lia).
  set (b := khash (ikey h x) mod 2 ^ hashpower a).
  set (h1 := seti h x _).
  assert (relinked h h1) as Hr1 by apply relinked_seti.
  assert (x ∉ l) as Hxl.
  { assert (chain h x (x :: l)) as Hnd by done. apply chain_NoDup, NoDup_cons in Hnd. tauto. }
  assert (forall p' l', chain h p' l' -> x ∉ l' -> chain h1 p' l') as Hfr.
  { intros p' l' Hc' Hx'. eapply chain_frame; [| |exact Hc'].
    - intros y Hy. unfold h1. rewrite geti_seti_ne; [done|]. by intros ->.
    - intros y Hy. apply Hr1. by eapply chain_dom. }
  destruct (IH l h1 (a <| primary_hashtable ::= <[b:=x]> |>) (h_next (geti h x))
    (fun b' => if decide (b = b') then x :: P b else P b')) as
    (h' & a' & P' & -> & Hr & Hs & Ho & HP' & Hmem & Hn); simpl.
  - by apply Hfr.
  - simpl in Hl. lia.
  - intros y Hy. eapply item_ok_agree; [by apply relinked_kview|]. apply Hok. set_solver.
  - done.
  - intros b'. unfold aget. rewrite lookup_insert. case_decide as E; simpl.
    + split_and!; [done|done|by apply Hr1|]. unfold h1 at 2. rewrite geti_seti_eq. simpl.
      apply Hfr; [apply HP|]. intros Hin. apply (Hd _ _ Hin). set_solver.
    + apply Hfr; [apply HP|]. intros Hin. apply (Hd _ _ Hin). set_solver.
  - intros b' y. case_decide; [|set_solver]. intros [->|Hy]%elem_of_cons; [done|set_solver].
  - exists h', a', P'. split_and!; [done|by eapply relinked_trans|done|done|done| |].
    + intros b' y. rewrite Hmem. rewrite <- (relinked_ikey _ _ y Hr1).
      rewrite elem_of_cons. case_decide as E.
      * rewrite elem_of_cons. subst b'. naive_solver.
      * naive_solver.
    + intros y Hy. rewrite Hn by done. unfold h1. rewrite geti_seti_ne; [done|].
      intros <-. apply (Hy b). rewrite Hmem, decide_True by done. set_solver.
Qed.

(** What one bucket's move does to the buckets of the keys. *)
Lemma bucket_of_next a a2 hv : 1 <= hashpower a <= 32 -> expanding a = true ->
  hashpower a2 = hashpower a -> expand_bucket a2 = expand_bucket a + 1 ->
  expanding a2 = bool_decide (expand_bucket a + 1 < 2 ^ (hashpower a - 1)) ->
  bucket_of a2 hv =
    if decide (bucket_of a hv = (true, expand_bucket a)) then (false, hv mod 2 ^ hashpower a)
    else bucket_of a hv.
Proof.
  intros Hhp He E1 E2 E3. unfold bucket_of. rewrite E1, E2, E3, He.
  rewrite land_hashmask_u32, land_hashmask by lia. simpl.
  pose proof (Z.mod_pos_bound hv (2 ^ (hashpower a - 1)) ltac:(lia)).
  set (o := hv mod _) in *. destruct (decide (o = expand_bucket a)) as [E|E].
  - rewrite (bool_decide_true (expand_bucket a <= o)), (bool_decide_false (_ + 1 <= o)) by lia.
    rewrite andb_false_r. simpl. rewrite decide_True by congruence. done.
  - assert (bool_decide (expand_bucket a + 1 < 2 ^ (hashpower a - 1)) &&
      bool_decide (expand_bucket a + 1 <= o) = bool_decide (expand_bucket a <= o)) as ->
      by (repeat case_bool_decide; (done || lia)).
    rewrite decide_False; [done|]. intros X; case_bool_decide; congruence.
Qed.

Lemma assoc_move_bucket_rep h a m C : rep h a m C -> expanding a = true ->
  exists h' a' C', assoc_move_bucket hash h a = Ok (h', a') /\ rep h' a' m C' /\ relinked h h' /\
    hashpower a' = hashpower a /\ started_expanding a' = started_expanding a /\
    expand_bucket a' = expand_bucket a + 1 /\
    expanding a' = bool_decide (expand_bucket a + 1 < 2 ^ (hashpower a - 1)).
Proof.
  intros R He. pose proof (rep_hp _ _ _ _ R) as Hhp. pose proof (rep_eb _ _ _ _ R He) as Heb.
  set (eb := expand_bucket a) in *.
  pose proof (rep_chain _ _ _ _ R (true, eb) (fun _ => He)) as Hc.
  destruct (move_loop_spec (C (true, eb)) (chain_fuel h) h a _ (fun b => C (false, b)) Hc)
    as (h' & a' & P' & Hm & Hr & Hs & Ho & HP & Hmem & Hn).
  - apply chain_length in Hc. unfold chain_fuel. lia.
  - intros x. apply R.
  - done.
  - intros b. by apply (rep_chain _ _ _ _ R (false, b)).
  - intros b x Hx Hx'. by pose proof (rep_same_slot _ _ _ _ _ _ _ R Hx Hx').
  - unfold assoc_move_bucket. fold eb. unfold bucket in Hm. cbn [fst snd] in Hm.
    rewrite Hm. cbn [mbind res_bind]. pose proof Hs as [= E1 E2 E3 E4].
    cbn. rewrite E1, E4. fold eb.
    assert (2 ^ (hashpower a - 1) <= 2 ^ 31) by (apply Z.pow_le_mono_r; lia).
    assert (u32 (eb + 1) = eb + 1) as -> by (apply wrap_small; unfold in_u; norm_pow2; lia).
    rewrite hashsize_eq by lia.
    set (C' := fun sl : bool * Z => if sl.1 then if decide (sl.2 = eb) then [] else C sl
                 else P' sl.2).
    set (a1 := a' <| old_hashtable := <[eb := 0]> (old_hashtable a') |>
                  <| expand_bucket := eb + 1 |>).
    assert (forall a2, hashpower a2 = hashpower a -> started_expanding a2 = started_expanding a ->
      primary_hashtable a2 = primary_hashtable a' ->
      old_hashtable a2 = <[eb := 0]> (old_hashtable a) -> expand_bucket a2 = eb + 1 ->
      expanding a2 = bool_decide (eb + 1 < 2 ^ (hashpower a - 1)) -> rep h' a2 m C') as Hrep.
    { clear a1 Hm. intros a2 F1 F3 Fp Fo F4 F2.
      pose proof (fun hv => bucket_of_next a a2 hv Hhp He F1 F4 F2) as Hb.
      assert (forall x, ikey h' x = ikey h x) as Hk by (intros; symmetry; by apply relinked_ikey).
      assert (forall b x, x ∈ C (true, b) -> b <> eb -> forall b', x ∉ P' b') as Hdis.
      { intros b x Hx Hne b' [Hx'|[Hx' _]]%Hmem.
        - by pose proof (rep_same_slot _ _ _ _ _ _ _ R Hx Hx').
        - pose proof (rep_same_slot _ _ _ _ _ _ _ R Hx Hx'). congruence. }
      split; rewrite ?F1; try done.
      - rewrite F2, F4, bool_decide_eq_true. lia.
      - intros [[] b] Hl; unfold C', bucket; simpl in *; [|rewrite Fp; apply HP].
        rewrite Fo. unfold aget. rewrite lookup_insert. destruct (decide (eb = b)) as [Eb|Eb].
        + by rewrite decide_True by congruence.
        + rewrite decide_False by congruence. eapply chain_frame;
            [| |by apply (rep_chain _ _ _ _ R (true, b))].
          * intros x Hx. symmetry. apply Hn. by eapply Hdis.
          * intros x Hx. apply Hr. eapply chain_dom; [|exact Hx].
            by apply (rep_chain _ _ _ _ R (true, b)).
      - intros [[] b] x; unfold C'; simpl; rewrite Hk, Hb.
        + destruct (decide (b = eb)) as [Eb|Eb]; [by intros ?%not_elem_of_nil|].
          intros Hx. rewrite (rep_slot _ _ _ _ R _ _ Hx).
          rewrite decide_False; [done|]. by intros [= ->].
        + clear F2. intros [Hx|[Hx <-]]%Hmem; rewrite (rep_slot _ _ _ _ R _ _ Hx).
          * rewrite decide_False; [done|]. intros [=].
          * by rewrite decide_True by done.
      - intros sl x Hx. eapply item_ok_agree; [by apply relinked_kview|].
        destruct sl as [[] b]; unfold C' in Hx; simpl in Hx.
        + destruct (decide (b = eb)); [by apply not_elem_of_nil in Hx|]. by eapply R.
        + apply Hmem in Hx as [Hx|[Hx _]]; by eapply R.
      - intros k x. rewrite (rep_map _ _ _ _ R). unfold C'. setoid_rewrite Hk. split.
        + intros ([[] b] & Hx & <-).
          * destruct (decide (b = eb)) as [->|Hne].
            -- eexists (false, _). split; [|done]. apply Hmem. eauto.
            -- exists (true, b). by rewrite decide_False.
          * exists (false, b). split; [|done]. apply Hmem. eauto.
        + intros ([[] b] & Hx & <-); simpl in Hx.
          * destruct (decide (b = eb)); [by apply not_elem_of_nil in Hx|]. eauto.
          * apply Hmem in Hx as [Hx|[Hx _]]; eauto. }
    destruct (decide (eb + 1 = 2 ^ (hashpower a - 1))) as [Hlast|Hlast].
    + eexists h', _, C'. split; [done|]. rewrite bool_decide_false by lia.
      split; [apply Hrep; simpl; try done|done].
      * by rewrite Ho.
      * by rewrite bool_decide_false by lia.
    + eexists h', _, C'. split; [done|]. rewrite bool_decide_true by lia.
      split; [apply Hrep; simpl; try done|].
      * by rewrite Ho.
      * rewrite bool_decide_true by lia. congruence.
      * split_and!; simpl; try done. congruence.
Qed.

(** A bulk move keeps the map and empties one bucket per lock obtained. *)
Lemma bulk_move_rep locks h a m C : rep h a m C ->
  exists h' a' C', bulk_move hash locks h a = Ok (h', a') /\ rep h' a' m C' /\ relinked h h' /\
    hashpower a' = hashpower a /\ started_expanding a' = started_expanding a /\
    (expanding a = false -> a' = a) /\
    (expanding a = true -> let n := Z.of_nat (count_occ Bool.bool_dec locks true) in
       if decide (expand_bucket a + n < 2 ^ (hashpower a - 1))
       then expanding a' = true /\ expand_bucket a' = expand_bucket a + n
       else expanding a' = false).
Proof.
  revert h a C. induction locks as [|got locks IH]; intros h a C R; simpl.
  { exists h, a, C. split_and!; try done; [apply relinked_refl|].
    intros He. pose proof (rep_eb _ _ _ _ R He). rewrite decide_True by lia. split; [done|lia]. }
  destruct (expanding a) eqn:He.
  2: { exists h, a, C. split_and!; try done. apply relinked_refl. }
  destruct got; simpl.
  - destruct (assoc_move_bucket_rep _ _ _ _ R He)
      as (h1 & a1 & C1 & -> & R1 & Hr1 & E1 & E2 & E3 & E4). simpl.
    destruct (IH _ _ _ R1) as (h2 & a2 & C2 & -> & R2 & Hr2 & F1 & F2 & F3 & F4).
    exists h2, a2, C2. split_and!; try done; try congruence; [by eapply relinked_trans|].
    intros _. rewrite E1, E3, E4 in F4. case_bool_decide as Hb.
    + specialize (F4 eq_refl). rewrite Nat2Z.inj_succ.
      set (n := Z.of_nat (count_occ _ _ _)) in *. cbv zeta in F4 |- *.
      destruct (decide (expand_bucket a + 1 + n < 2 ^ (hashpower a - 1))) as [D|D].
      * rewrite decide_True by lia.
        destruct F4. split; [done|lia].
      * by rewrite decide_False by lia.
    + rewrite decide_False by lia. rewrite F3; [|by rewrite E4]. rewrite E4. done.
  - destruct (IH _ _ _ R) as (h2 & a2 & C2 & -> & R2 & Hr2 & F1 & F2 & F3 & F4).
    exists h2, a2, C2. split_and!; try done. intros _. by apply F4.
Qed.
(** ** The table as its users see it *)

Lemma table_item h a m k x : table_rep h a m -> m !! k = Some x ->
  ikey h x = k /\ x <> 0 /\ item_ok (geti h x) /\ is_Some (h !! x).
Proof.
  intros (C & R) Hx. apply (rep_map _ _ _ _ R) in Hx as (sl & Hx & Hk).
  assert (sl.1 = true -> expanding a = true) as Hl.
  { intros Hl. rewrite <- (rep_slot _ _ _ _ R sl x Hx) in Hl. by eapply bucket_of_live. }
  destruct (chain_dom _ _ _ x (rep_chain _ _ _ _ R sl Hl) Hx).
  split_and!; try done. by eapply R.
Qed.

Lemma table_rep_frame h h' a m : table_rep h a m ->
  (forall k x, m !! k = Some x -> h_next (geti h x) = h_next (geti h' x) /\
     kview (geti h x) = kview (geti h' x) /\ is_Some (h' !! x)) -> table_rep h' a m.
Proof.
  intros (C & R) Hf. exists C. eapply rep_frame; [exact R|]. intros sl x Hx.
  apply (Hf (ikey h x)). apply (rep_map _ _ _ _ R). eauto.
Qed.

Lemma table_rep_frame_key h h' a m : table_rep h a m ->
  (forall k x, m !! k = Some x -> h_next (geti h x) = h_next (geti h' x) /\
     ikey h x = ikey h' x /\ item_ok (geti h' x) /\ is_Some (h' !! x)) -> table_rep h' a m.
Proof.
  intros (C & R) Hf. exists C. eapply rep_frame_key; [exact R|]. intros sl x Hx.
  apply (Hf (ikey h x)). apply (rep_map _ _ _ _ R). eauto.
Qed.

Lemma table_insert h a m it : table_rep h a m -> it <> 0 -> item_ok (geti h it) ->
  m !! ikey h it = None ->
  exists v a', assoc_insert it (khash (ikey h it)) h a =
      (1, seti h it (fun i => i <| h_next := v |>), a') /\
    table_rep (seti h it (fun i => i <| h_next := v |>)) a' (<[ikey h it := it]> m).
Proof.
  intros (C & R) H1 H2 H3. pose proof (assoc_insert_rep it h a m C R H1 H2 H3) as H.
  destruct (assoc_insert it (khash (ikey h it)) h a) as [[r h'] a'].
  destruct H as (-> & Hr & (v & ->)). exists v, a'. done.
Qed.

Lemma table_delete h a m km nk x : table_rep h a m -> 0 <= nk <= Z.of_nat (length km) ->
  m !! take (Z.to_nat nk) km = Some x ->
  exists h' a', assoc_delete km nk (khash (take (Z.to_nat nk) km)) h a = Ok (h', a') /\
    table_rep h' a' (delete (take (Z.to_nat nk) km) m) /\ relinked h h'.
Proof.
  intros (C & R) H1 H2. destruct (assoc_delete_rep _ _ _ _ _ _ _ R H1 H2) as (h' & a' & C' & ? & ? & ? & _).
  exists h', a'. split_and!; [done|by exists C'|done].
Qed.

Lemma table_find h a m km nk : table_rep h a m -> 0 <= nk <= Z.of_nat (length km) ->
  assoc_find km nk (khash (take (Z.to_nat nk) km)) h a = Ok (default 0 (m !! take (Z.to_nat nk) km)).
Proof. intros (C & R) H. by eapply assoc_find_rep. Qed.
End table.

(** ** The table in use

    The worker threads' operations, each atomic under its item lock, interleaved
    with the steps of the maintenance thread: the bulk move of [assoc_maintenance_thread]
    followed, when it is not expanding, by the reset of [started_expanding]; the
    call of pthread_cond_wait; and a wake-up by a signal, with the workers paused
    while assoc_expand runs. *)
Inductive phase := Running | Reset | Waiting (signalled : bool).

Record sys := Sys {
  sheap : heap;
  table : assoc_t;
  mphase : phase
}.

Inductive op :=
| Find (key : list Z) (nkey : Z)
| Insert (it : Z)
| Delete (key : list Z) (nkey : Z)
| StartExpand (curr_items : Z)
| Bulk (locks : list bool)
| Wait
| Wake (calloc_ok : bool).

Section sys.
Context (hash : hash_func).

Definition signal (p : phase) : phase := match p with Waiting _ => Waiting true | p => p end.

(** [None]: the step is not enabled.  The number is what the operation returns. *)
Definition sys_step (o : op) (s : sys) : option (res (Z * sys)) :=
  let 'Sys h a p := s in
  match o, p with
  | Find k nk, _ => Some (
      r ← assoc_find k nk (hash 0 k (Z.to_nat nk)) h a; Ok (r, s))
  | Insert it, _ => Some (
      let '(r, h, a) := assoc_insert it (item_hash hash h it) h a in Ok (r, Sys h a p))
  | Delete k nk, _ => Some (
      '(h, a) ← assoc_delete k nk (hash 0 k (Z.to_nat nk)) h a; Ok (0, Sys h a p))
  | StartExpand n, _ => Some (
      let '(b, a) := assoc_start_expand n a in
      Ok (0, Sys h a (if b then signal p else p)))
  | Bulk locks, Running => Some (
      '(h, a) ← bulk_move hash locks h a;
      Ok (0, Sys h (maintenance_idle a) (if expanding a then Running else Reset)))
  | Wait, Reset => Some (Ok (0, Sys h a (Waiting false)))
  | Wake ok, Waiting true => Some (Ok (0, Sys h (assoc_expand ok a) Running))
  | _, _ => None
  end.

(** What the map says of the same step: [None] when the caller breaks the
    contract of insert (the key is new, the item is one) or delete. *)
Definition map_step (o : op) (h : heap) (m : gmap (list Z) Z) :
    option (Z * gmap (list Z) Z) :=
  match o with
  | Find k nk => Some (default 0 (m !! take (Z.to_nat nk) k), m)
  | Insert it =>
      if decide (m !! ikey h it = None) then Some (1, <[ikey h it := it]> m) else None
  | Delete k nk =>
      if decide (is_Some (m !! take (Z.to_nat nk) k))
      then Some (0, delete (take (Z.to_nat nk) k) m) else None
  | _ => Some (0, m)
  end.

Definition op_ok (o : op) (h : heap) : Prop :=
  match o with
  | Find k nk | Delete k nk => bytes_ok k /\ 0 <= nk <= Z.of_nat (length k)
  | Insert it => it <> 0 /\ item_ok (geti h it)
  | _ => True
  end.

Definition sys_inv (s : sys) (m : gmap (list Z) Z) : Prop :=
  table_rep hash (sheap s) (table s) m /\
  (mphase s <> Running -> expanding (table s) = false) /\
  (mphase s = Waiting true -> hashpower (table s) < HASHPOWER_MAX).

End sys.

Section refinement.
Context (hash : hash_func) `{!HashFunction hash}.

Lemma sys_step_refines o r s m m' : sys_inv hash s m -> op_ok o (sheap s) ->
  map_step o (sheap s) m = Some (r, m') ->
  sys_step hash o s = None \/
  exists s', sys_step hash o s = Some (Ok (r, s')) /\ sys_inv hash s' m' /\
    relinked (sheap s) (sheap s').
Proof.
  destruct s as [h a p]. intros ((C & R) & Hp & Hw) Ho Hm. simpl in *.
  destruct o as [k nk|it|k nk|n|locks| |ok]; simpl in *.
  - right. destruct Ho. injection Hm as <- <-.
    rewrite caller_hash_key, (assoc_find_rep _ _ _ _ _ _ _ R) by done. simpl.
    eexists. split; [done|]. split; [|apply relinked_refl]. by repeat split; try exists C.
  - right. destruct Ho as [Hit Hok]. destruct (decide _) as [Hnew|]; [|done].
    injection Hm as <- <-. rewrite item_hash_key by done.
    pose proof (assoc_insert_rep hash it h a m C R Hit Hok Hnew) as H.
    pose proof (set_bucket_scalars a (bucket_of a (khash hash (ikey h it))) it) as Hs.
    unfold assoc_insert in *. destruct H as (_ & (C' & R') & _). injection Hs as E1 E2 _ _.
    eexists. split; [done|]. split; [|apply relinked_seti].
    split; [by exists C'|]. simpl. rewrite E1, E2. done.
  - right. destruct Ho as [Hb Hnk]. destruct (decide _) as [[x Hx]|]; [|done].
    injection Hm as <- <-. rewrite caller_hash_key by done.
    destruct (assoc_delete_rep _ _ _ _ _ _ _ _ R Hnk Hx) as (h' & a' & C' & -> & R' & Hr & _ & Hs).
    injection Hs as E1 E2 _ _. simpl. eexists. split; [done|]. split; [|done].
    split; [by exists C'|]. simpl. rewrite E1, E2. done.
  - right. injection Hm as <- <-. unfold assoc_start_expand.
    destruct (started_expanding a); [|destruct (decide _) as [[_ Hlt]|]];
      (eexists; split; [done|]; split; [|apply relinked_refl]);
      (split; [exists C; destruct R; by split|]; simpl; try done).
    split; [|done]. intros H. apply Hp. by destruct p.
  - injection Hm as <- <-. destruct p; [|by left..]. right.
    destruct (bulk_move_rep _ locks _ _ _ _ R) as (h' & a' & C' & -> & R' & Hr & _).
    simpl. eexists. split; [done|]. split; [|done]. unfold maintenance_idle. split; simpl.
    + exists C'. destruct (expanding a') eqn:E; [done|]. destruct R'. by split.
    + by destruct (expanding a') eqn:E.
  - injection Hm as <- <-. destruct p; try by left. right. eexists. split; [done|].
    split; [|apply relinked_refl]. split; [by exists C|]. simpl. split; [|done].
    intros _. by apply Hp.
  - injection Hm as <- <-. destruct p as [| |[]]; try by left. right. eexists. split; [done|].
    split; [|apply relinked_refl].
    destruct (assoc_expand_rep _ ok h a m C R) as (C' & R' & _); [by apply Hp|by apply Hw|].
    split; [by exists C'|done].
Qed.

Lemma map_step_relinked o h h' m : relinked h h' -> map_step o h m = map_step o h' m.
Proof. intros H. destruct o; simpl; try done. by rewrite (relinked_ikey h h' _ H). Qed.

Lemma op_ok_relinked o h h' : relinked h h' -> op_ok o h -> op_ok o h'.
Proof.
  intros H. destruct o; simpl; try done. intros [? Hok]. split; [done|].
  eapply item_ok_agree; [|exact Hok]. by apply relinked_kview.
Qed.

(** Runs: [None] when a step of the interleaving is not enabled. *)
Fixpoint sys_run (ops : list op) (s : sys) : option (res (list Z * sys)) :=
  match ops with
  | [] => Some (Ok ([], s))
  | o :: ops =>
      match sys_step hash o s with
      | Some (Ok (r, s)) =>
          match sys_run ops s with
          | Some (Ok (rs, s)) => Some (Ok (r :: rs, s))
          | x => x
          end
      | Some Abort => Some Abort
      | Some NoFuel => Some NoFuel
      | None => None
      end
  end.

Fixpoint map_run (ops : list op) (h : heap) (m : gmap (list Z) Z) :
    option (list Z * gmap (list Z) Z) :=
  match ops with
  | [] => Some ([], m)
  | o :: ops =>
      '(r, m) ← map_step o h m; '(rs, m) ← map_run ops h m; Some (r :: rs, m)
  end.

(** C11. Whatever the interleaving of finds, inserts and deletes by the workers
    with the bulk moves, waits and expansions of the maintenance thread, each
    operation that keeps its contract (insert a new key, delete one that is there)
    returns what the same operation returns on a finite map from keys to items:
    no assert fails, no loop runs out of fuel, and the table represents the map
    again at the end. *)
Theorem table_refines_map ops s m rs m' :
  sys_inv hash s m -> Forall (fun o => op_ok o (sheap s)) ops ->
  map_run ops (sheap s) m = Some (rs, m') ->
  sys_run ops s = None \/
  exists s', sys_run ops s = Some (Ok (rs, s')) /\ sys_inv hash s' m'.
Proof.
  intros Hinv Hok Hm. remember (sheap s) as h eqn:Eh.
  assert (relinked h (sheap s)) as Hr by (subst; apply relinked_refl). clear Eh.
  revert s m rs m' Hinv Hm Hr. induction Hok as [|o ops Ho Hops IH]; intros s m rs m' Hinv Hm Hr.
  { injection Hm as <- <-. right. by exists s. }
  simpl in Hm. destruct (map_step o h m) as [[r m1]|] eqn:E1; [|done]. simpl in Hm.
  destruct (map_run ops h m1) as [[rs1 m2]|] eqn:E2; [|done]. simpl in Hm. injection Hm as <- <-.
  rewrite (map_step_relinked _ _ _ _ Hr) in E1.
  destruct (sys_step_refines o r s m m1 Hinv (op_ok_relinked _ _ _ Hr Ho) E1)
    as [Hn|(s1 & Hs & Hinv1 & Hr1)]; simpl.
  { left. by rewrite Hn. }
  rewrite Hs. destruct (IH s1 m1 rs1 m2 Hinv1 E2) as [Hn|(s2 & Hs2 & Hinv2)].
  - by eapply relinked_trans.
  - left. by rewrite Hn.
  - right. exists s2. rewrite Hs2. done.
Qed.

(** C12. An expansion ends: after as many successful trylocks as the old table
    has buckets left, however many trylocks fail in between, the table has left
    the expanding state, at its new size, with the same map. *)
Theorem expansion_terminates locks h a m :
  table_rep hash h a m -> expanding a = true ->
  2 ^ (hashpower a - 1) - expand_bucket a <= Z.of_nat (count_occ Bool.bool_dec locks true) ->
  exists h' a', bulk_move hash locks h a = Ok (h', a') /\ table_rep hash h' a' m /\
    expanding a' = false /\ hashpower a' = hashpower a.
Proof.
  intros (C & R) He Hn.
  destruct (bulk_move_rep _ locks _ _ _ _ R) as (h' & a' & C' & Hb & R' & _ & E1 & _ & _ & E).
  exists h', a'. split_and!; [done|by exists C'| |done].
  specialize (E He). cbv zeta in E. rewrite decide_False in E by lia. done.
Qed.

(** C39. assoc_delete of a key that is not in the table fails its assert; it
    never unlinks another item. *)
Theorem assoc_delete_missing km nk h a m :
  table_rep hash h a m -> bytes_ok km -> 0 <= nk <= Z.of_nat (length km) ->
  m !! take (Z.to_nat nk) km = None ->
  assoc_delete km nk (hash 0 km (Z.to_nat nk)) h a = Abort.
Proof.
  intros (C & R) Hb Hnk Hm. rewrite caller_hash_key by done.
  set (k := take _ km) in *. set (sl := bucket_of a (khash hash k)).
  pose proof (rep_chain_of hash _ _ _ _ (khash hash k) R) as Hc.
  destruct (before_loop_spec hash km nk k h a (Bucket sl) (C sl) (chain_fuel h))
    as (l1 & l2 & pos & E & Hbl & Hp & Hrd & Hn & Hs); try done.
  - apply chain_length in Hc. unfold chain_fuel. by apply Nat.lt_succ_r.
  - intros x Hx. by eapply rep_ok.
  - unfold assoc_delete, _hashitem_before. fold sl. rewrite Hbl. simpl. rewrite Hrd.
    destruct l2 as [|x l2]; [done|]. exfalso.
    assert (m !! k = Some x) as ?; [|congruence].
    eapply rep_map; [exact R|]. exists sl. split; [rewrite E; set_solver|by apply Hs].
Qed.
End refinement.

(** *** The initial table, and a run *)

Lemma assoc_init_rep hash n h : 0 <= n <= 32 ->
  exists a, assoc_init true n assoc_globals = Ok a /\ table_rep hash h a ∅ /\
    hashpower a = (if decide (n = 0) then HASHPOWER_DEFAULT else n) /\
    expanding a = false /\ started_expanding a = false.
Proof.
  intros Hn. unfold assoc_init. eexists. split; [done|].
  split_and!; [|by repeat case_decide|by case_decide..].
  exists (fun _ => []). split; try set_solver.
  - case_decide; simpl; unfold HASHPOWER_DEFAULT; lia.
  - case_decide; by intros.
  - intros [[] b] _; by case_decide.
Qed.

Module Demo.
Definition mk_item (k : list Z) : item := item0 <| nkey := Z.of_nat (length k) |> <| body := k |>.
Definition h : heap := {[ 1000 := mk_item [97; 98]; 2000 := mk_item [99]; 3000 := mk_item [] ]}.
Definition a : assoc_t := assoc_globals <| hashpower := 2 |>.
Definition ops : list op :=
  [ Insert 1000; Bulk []; Wait; StartExpand 7; Wake true; Insert 2000; Find [99; 13] 1;
    Bulk [true; false; true]; Insert 3000; Find [97; 98; 32] 2; Delete [97; 98] 2;
    Bulk [true; true; true]; Find [97; 98] 2; Find [] 0; Wait ].
Definition hash : hash_func := fun _ => Murmur3.MurmurHash3_x86_32.
#[global] Instance demo_hash : HashFunction hash := murmur3_HashFunction.

Example demo_answers : exists s', sys_run hash ops (Sys h a Running) =
  Some (Ok ([1; 0; 0; 0; 0; 1; 2000; 0; 1; 1000; 0; 0; 0; 3000; 0], s')) /\
  hashpower (table s') = 3 /\ expanding (table s') = false /\ mphase s' = Waiting false.
Proof. eexists. split; [vm_compute; reflexivity|done]. Qed.

Lemma demo_inv hs `{!HashFunction hs} : sys_inv hs (Sys h a Running) ∅.
Proof.
  split; [|done]. destruct (assoc_init_rep hs 2 h ltac:(lia)) as (a' & Ha & Hr & _).
  injection Ha as <-. exact Hr.
Qed.

(** The state after the table of 4 buckets began to grow. *)
Definition a1 : assoc_t := assoc_expand true a.
Lemma demo_rep1 hs `{!HashFunction hs} : table_rep hs h a1 ∅.
Proof.
  destruct (demo_inv hs) as ((C & R) & _). simpl in R.
  destruct (assoc_expand_rep hs true h a ∅ C R) as (C' & R' & _); [done|done|]. by exists C'.
Qed.
End Demo.

Lemma table_refines_map_witness :
  sys_inv Demo.hash (Sys Demo.h Demo.a Running) ∅ /\
  (sys_run Demo.hash Demo.ops (Sys Demo.h Demo.a Running) = None \/
   exists s', sys_run Demo.hash Demo.ops (Sys Demo.h Demo.a Running) =
     Some (Ok ([1; 0; 0; 0; 0; 1; 2000; 0; 1; 1000; 0; 0; 0; 3000; 0], s')) /\
     sys_inv Demo.hash s' (list_to_map [([99], 2000); ([], 3000)])).
Proof.
  split; [exact (Demo.demo_inv _)|].
  apply (table_refines_map Demo.hash _ _ ∅).
  - exact (Demo.demo_inv _).
  - vm_compute. repeat constructor; by intros ?.
  - vm_compute. reflexivity.
Defined.

Lemma expansion_terminates_witness :
  exists h' a', bulk_move Demo.hash [true; false; true; true; false; true] Demo.h Demo.a1
      = Ok (h', a') /\
    table_rep Demo.hash h' a' ∅ /\ expanding a' = false /\ hashpower a' = 3.
Proof.
  apply (expansion_terminates Demo.hash
    [true; false; true; true; false; true] Demo.h Demo.a1 ∅).
  - exact (Demo.demo_rep1 _).
  - reflexivity.
  - vm_compute. discriminate.
Defined.

Lemma assoc_delete_missing_witness :
  assoc_delete [97; 98] 2 (Demo.hash 0 [97; 98] (Z.to_nat 2)) Demo.h Demo.a1 = Abort.
Proof.
  apply (assoc_delete_missing Demo.hash
    [97; 98] 2 Demo.h Demo.a1 ∅).
  - exact (Demo.demo_rep1 _).
  - vm_compute. repeat constructor; by intros ?.
  - split; [lia|vm_compute; discriminate].
  - reflexivity.
Defined.
