(* ===== verification/Decimal.v ===== *)
(** * Decimal numbers

    What the program uses of printf's and strtoull's decimal conversions, and
    safe_strtoull (src/slabs_curd/util.c).  A string is a list of bytes that ends
    at its first zero byte, or at the end of the list. *)

From S2P Require Import Prelude.
From Stdlib Require Ascii.

(** A string literal of the source, as bytes. *)
Definition lit (s : string) : list Z := (fun c => Z.of_nat (Ascii.nat_of_ascii c)) <$> String.list_ascii_of_string s.

(** The digits of a non-negative integer, most significant first, as ASCII. *)
Fixpoint dec_loop (fuel : nat) (x : Z) (acc : list Z) : list Z :=
  match fuel with
  | O => acc
  | S fuel =>
      let acc := (48 + x mod 10) :: acc in
      if decide (x / 10 = 0) then acc else dec_loop fuel (x / 10) acc
  end.

(** %u, %llu: twenty digits hold any 64-bit number. *)
Definition dec_u (x : Z) : list Z := dec_loop 20 x [].
(** %d *)
Definition dec_d (x : Z) : list Z := if decide (x < 0) then 45 :: dec_u (- x) else dec_u x.

(** ** strtoull, base 10 *)

Definition isspace (c : Z) : bool := bool_decide (c = 32 \/ 9 <= c <= 13).
Definition isdigit (c : Z) : bool := bool_decide (48 <= c <= 57).

(** The longest prefix of bytes that satisfy [p], and the rest. *)
Fixpoint span (p : Z -> bool) (l : list Z) : list Z * list Z :=
  match l with
  | [] => ([], [])
  | c :: l' => if p c then let '(a, b) := span p l' in (c :: a, b) else ([], l)
  end.

Definition dval (ds : list Z) : Z := foldl (fun a d => 10 * a + (d - 48)) 0 ds.

Definition sign (l : list Z) : list Z * list Z :=
  match l with
  | c :: l' => if decide (c = 43 \/ c = 45) then ([c], l') else ([], l)
  | [] => ([], [])
  end.

(** The value, whether errno is ERANGE, and the string at *endptr; [None] when
    there are no digits, where *endptr is the string itself. *)
Definition strtoull (str : list Z) : option (Z * bool * list Z) :=
  let '(_, l) := span isspace str in
  let '(sg, l) := sign l in
  let '(ds, rest) := span isdigit l in
  match ds with
  | [] => None
  | _ =>
      if decide (dval ds < 2 ^ 64)
      then Some (if decide (sg = [45]) then u64 (- dval ds) else dval ds, false, rest)
      else Some (2 ^ 64 - 1, true, rest)
  end.

(** strtoul, where unsigned long has 64 bits, converted to uint32_t. *)
Definition strtoul32 (str : list Z) : Z :=
  match strtoull str with Some (v, _, _) => u32 v | None => 0 end.

(** The bytes before the terminating zero. *)
Definition cstr (l : list Z) : list Z := (span (fun c => negb (bool_decide (c = 0))) l).1.

(** strchr(str, c) != NULL *)
Definition strchr (str : list Z) (c : Z) : bool := bool_decide (c ∈ cstr str).

(** The value written through out when the result is true. *)
Definition safe_strtoull (str : list Z) : option Z :=
  match strtoull str with
  | None => None
  | Some (ull, erange, endptr) =>
      if erange then None
      else
        let c := hd 0 endptr in
        if isspace c || bool_decide (c = 0) then
          if bool_decide (s64 ull < 0) && strchr str 45 then None else Some ull
        else None
  end.

(** ** Theory *)

Lemma span_spec p l : let '(a, b) := span p l in
  l = a ++ b /\ Forall (fun c => p c = true) a /\ (b = [] \/ p (hd 0 b) = false).
Proof.
  induction l as [|c l IH]; simpl; [auto|]. destruct (p c) eqn:E; [|by auto].
  destruct (span p l) as [a b]. destruct IH as (-> & Ha & Hb). auto.
Qed.

Lemma span_app p a b : Forall (fun c => p c = true) a -> (b = [] \/ p (hd 0 b) = false) ->
  span p (a ++ b) = (a, b).
Proof.
  intros Ha Hb. induction Ha as [|c a Hc Ha IH]; simpl.
  - destruct b as [|c b]; [done|]. destruct Hb as [?|Hb]; [done|]. simpl in *. by rewrite Hb.
  - by rewrite Hc, IH.
Qed.

Lemma dval_snoc ds d : dval (ds ++ [d]) = 10 * dval ds + (d - 48).
Proof. unfold dval. by rewrite foldl_app. Qed.

Lemma dval_app_gen ds a : foldl (fun a d => 10 * a + (d - 48)) a ds = a * 10 ^ Z.of_nat (length ds) + dval ds.
Proof.
  induction ds as [|d ds IH] using rev_ind; [unfold dval; simpl; lia|].
  rewrite dval_snoc, foldl_app, IH, length_app, Nat2Z.inj_add. simpl.
  rewrite Z.pow_add_r by lia. lia.
Qed.

Lemma dval_app a b : dval (a ++ b) = dval a * 10 ^ Z.of_nat (length b) + dval b.
Proof. unfold dval at 1. rewrite foldl_app. apply dval_app_gen. Qed.

Definition digits (l : list Z) : Prop := Forall (fun c => isdigit c = true) l.

Lemma isdigit_mod x : isdigit (48 + x mod 10) = true.
Proof. apply bool_decide_eq_true. mod_lia. Qed.

Lemma dec_loop_spec fuel : forall x acc, 0 <= x < 10 ^ Z.of_nat fuel -> (0 < fuel)%nat -> digits acc ->
  digits (dec_loop fuel x acc) /\ dec_loop fuel x acc <> [] /\
  dval (dec_loop fuel x acc) = x * 10 ^ Z.of_nat (length acc) + dval acc.
Proof.
  induction fuel as [|fuel IH]; intros x acc Hx Hf Ha; [lia|]. simpl.
  assert (digits ((48 + x mod 10) :: acc)) as Ha' by (constructor; [apply isdigit_mod|done]).
  assert (dval ((48 + x mod 10) :: acc) = x mod 10 * 10 ^ Z.of_nat (length acc) + dval acc) as Hd.
  { change ((48 + x mod 10) :: acc) with ([48 + x mod 10] ++ acc). rewrite dval_app.
    unfold dval at 1. simpl. f_equal. f_equal. lia. }
  pose proof (Z.div_mod x 10 ltac:(lia)) as Hdm.
  destruct (decide (x / 10 = 0)) as [E|E].
  - split_and!; [done|done|]. rewrite Hd. f_equal. f_equal. lia.
  - assert (0 < fuel)%nat as Hf'.
    { destruct fuel; [|lia]. exfalso. apply E. apply Z.div_small. simpl in Hx. lia. }
    assert (0 <= x / 10 < 10 ^ Z.of_nat fuel) as Hx'.
    { split; [apply Z.div_pos; lia|]. apply Z.div_lt_upper_bound; [lia|].
      rewrite Nat2Z.inj_succ, Z.pow_succ_r in Hx by lia. lia. }
    destruct (IH (x / 10) _ Hx' Hf' Ha') as (H1 & H2 & H3). split_and!; [done|done|].
    rewrite H3, Hd. simpl length. rewrite Nat2Z.inj_succ, Z.pow_succ_r by lia. nia.
Qed.

(** Printing a 64-bit number gives its digits. *)
Lemma dec_u_spec x : 0 <= x < 2 ^ 64 -> digits (dec_u x) /\ dec_u x <> [] /\ dval (dec_u x) = x.
Proof.
  intros Hx. destruct (dec_loop_spec 20 x []) as (H1 & H2 & H3).
  - change (10 ^ Z.of_nat 20) with 100000000000000000000. norm_pow2. lia.
  - lia.
  - constructor.
  - split_and!; [done|done|]. unfold dec_u. rewrite H3. simpl. unfold dval. simpl. lia.
Qed.

Lemma dec_u_length x : (length (dec_u x) <= 20)%nat.
Proof.
  assert (forall fuel x acc, length (dec_loop fuel x acc) <= fuel + length acc)%nat as H.
  { induction fuel as [|fuel IH]; intros y acc; simpl; [lia|]. destruct (decide _); simpl; [lia|].
    etransitivity; [apply IH|]. simpl. lia. }
  unfold dec_u. etransitivity; [apply H|]. simpl. lia.
Qed.

Lemma isspace_digit c : isdigit c = true -> isspace c = false /\ ~ (c = 43 \/ c = 45) /\ c <> 0.
Proof.
  unfold isdigit, isspace. rewrite bool_decide_eq_true, bool_decide_eq_false. lia.
Qed.

(** The end of a number: a space, the zero byte, or the end of the list. *)
Definition number_end (rest : list Z) : Prop := isspace (hd 0 rest) = true \/ hd 0 rest = 0.

Lemma number_end_not_digit rest : number_end rest -> rest = [] \/ isdigit (hd 0 rest) = false.
Proof.
  intros H. right. unfold number_end, isspace, isdigit in *.
  rewrite bool_decide_eq_true in H. rewrite bool_decide_eq_false. lia.
Qed.

(** A number as it is written: spaces, an optional sign, digits. *)
Definition signs (sg : list Z) : Prop := sg = [] \/ sg = [43] \/ sg = [45].
Definition read_value (sg ds : list Z) : Z := if decide (sg = [45]) then u64 (- dval ds) else dval ds.

Lemma strtoull_written ws sg ds rest :
  Forall (fun c => isspace c = true) ws -> signs sg -> digits ds -> ds <> [] ->
  rest = [] \/ isdigit (hd 0 rest) = false ->
  strtoull (ws ++ sg ++ ds ++ rest) =
    Some (if decide (dval ds < 2 ^ 64) then (read_value sg ds, false, rest) else (2 ^ 64 - 1, true, rest)).
Proof.
  intros Hw Hs Hd Hne Hr. unfold strtoull.
  destruct ds as [|d ds]; [done|]. pose proof Hd as Hd1. apply Forall_cons in Hd1 as [Hd0 _].
  destruct (isspace_digit d Hd0) as (H1 & H2 & _).
  rewrite span_app; [|done|].
  2:{ right. destruct Hs as [->|[->| ->]]; simpl; done. }
  assert (sign (sg ++ (d :: ds) ++ rest) = (sg, (d :: ds) ++ rest)) as ->.
  { destruct Hs as [->|[->| ->]]; simpl; [by rewrite decide_False|done|done]. }
  rewrite span_app by done. unfold read_value. by destruct (decide (dval (d :: ds) < 2 ^ 64)).
Qed.

Lemma strtoull_inv s v e rest : strtoull s = Some (v, e, rest) -> exists ws sg ds,
  s = ws ++ sg ++ ds ++ rest /\ Forall (fun c => isspace c = true) ws /\ signs sg /\ digits ds /\ ds <> [] /\
  (rest = [] \/ isdigit (hd 0 rest) = false).
Proof.
  unfold strtoull. pose proof (span_spec isspace s) as H1. destruct (span isspace s) as [ws l].
  destruct (sign l) as [sg l'] eqn:Es.
  pose proof (span_spec isdigit l') as H2. destruct (span isdigit l') as [ds r].
  destruct H1 as (-> & Hw & _), H2 as (-> & Hd & Hr).
  assert (l = sg ++ ds ++ r /\ signs sg) as [-> Hs].
  { unfold sign in Es. destruct l as [|c l]; [by injection Es as <- <-; split; [|left]|].
    destruct (decide _) as [[->| ->]|]; injection Es as <- <-; (split; [done|]); unfold signs; auto. }
  intros H. exists ws, sg, ds. assert (ds <> [] /\ r = rest) as [? ->] by
    (destruct ds; [done|]; split; [done|]; by destruct (decide _); simplify_eq).
  by split_and!.
Qed.

Lemma s64_neg v : 0 <= v < 2 ^ 64 -> s64 v < 0 <-> 2 ^ 63 <= v.
Proof.
  intros Hv. unfold s64, sint. rewrite wrap_small by done. change (64 - 1) with 63.
  destruct (decide (v < 2 ^ 63)); norm_pow2; lia.
Qed.

Lemma read_value_range sg ds : digits ds -> dval ds < 2 ^ 64 -> 0 <= read_value sg ds < 2 ^ 64.
Proof.
  intros Hd Hv. unfold read_value. destruct (decide _); [by apply wrap_range|]. split; [|done].
  clear Hv. induction ds as [|d ds IH] using rev_ind; [done|]. rewrite dval_snoc.
  apply Forall_app in Hd as [Hd1 Hd2]. apply Forall_cons in Hd2 as [Hd2 _].
  apply bool_decide_eq_true in Hd2. specialize (IH Hd1). lia.
Qed.

Lemma safe_strtoull_accepts s v : safe_strtoull s = Some v <->
  exists ws sg ds rest, s = ws ++ sg ++ ds ++ rest /\ Forall (fun c => isspace c = true) ws /\
    signs sg /\ digits ds /\ ds <> [] /\ number_end rest /\ dval ds < 2 ^ 64 /\ v = read_value sg ds /\
    (2 ^ 63 <= v -> 45 ∉ cstr s).
Proof.
  split.
  - unfold safe_strtoull. destruct (strtoull s) as [[[w e] rest]|] eqn:E; [|done].
    destruct (strtoull_inv _ _ _ _ E) as (ws & sg & ds & -> & Hw & Hs & Hd & Hne & Hr).
    rewrite strtoull_written in E by done. set (s := ws ++ _) in *.
    destruct (decide (dval ds < 2 ^ 64)) as [Hlt|]; injection E as <- <-; [|done].
    destruct (isspace (hd 0 rest) || bool_decide (hd 0 rest = 0)) eqn:Hend; [|done].
    destruct (bool_decide (s64 (read_value sg ds) < 0) && strchr s 45) eqn:Hneg; [done|].
    intros [= <-]. exists ws, sg, ds, rest. split_and!; try done.
    + apply orb_true_iff in Hend as [?|?%bool_decide_eq_true]; [by left|by right].
    + intros Hbig. apply andb_false_iff in Hneg as [Hneg|Hneg]; apply bool_decide_eq_false in Hneg; [|done].
      exfalso. apply Hneg. apply s64_neg; [by apply read_value_range|done].
  - intros (ws & sg & ds & rest & -> & Hw & Hs & Hd & Hne & He & Hlt & -> & Hneg).
    unfold safe_strtoull. rewrite strtoull_written by (done || by apply number_end_not_digit).
    rewrite decide_True by done.
    assert (isspace (hd 0 rest) || bool_decide (hd 0 rest = 0) = true) as ->.
    { apply orb_true_iff. destruct He; [by left|right]. by apply bool_decide_eq_true. }
    set (s := ws ++ _) in *.
    assert (bool_decide (s64 (read_value sg ds) < 0) && strchr s 45 = false) as ->; [|done].
    apply andb_false_iff. destruct (decide (2 ^ 63 <= read_value sg ds)) as [Hb|Hb].
    + right. apply bool_decide_eq_false. auto.
    + left. apply bool_decide_eq_false. rewrite s64_neg by by apply read_value_range. done.
Qed.

(** C29. safe_strtoull accepts exactly the strings that start with spaces, an
    optional sign and a number below 2^64 that a space or the end of the string
    follows, except that a result of 2^63 or more is refused when a minus sign
    occurs anywhere before the terminating zero; the result is the number, or its
    64-bit negation. *)
Theorem safe_strtoull_spec s v : safe_strtoull s = Some v <->
  exists ws sg ds rest, s = ws ++ sg ++ ds ++ rest /\ Forall (fun c => isspace c = true) ws /\
    signs sg /\ digits ds /\ ds <> [] /\ number_end rest /\ dval ds < 2 ^ 64 /\ v = read_value sg ds /\
    (2 ^ 63 <= v -> 45 ∉ cstr s).
Proof. apply safe_strtoull_accepts. Qed.

Lemma safe_strtoull_printed x rest : 0 <= x < 2 ^ 64 -> number_end rest ->
  x < 2 ^ 63 \/ 45 ∉ cstr (dec_u x ++ rest) -> safe_strtoull (dec_u x ++ rest) = Some x.
Proof.
  intros Hx He Hs. destruct (dec_u_spec x Hx) as (H1 & H2 & H3). apply safe_strtoull_accepts.
  exists [], [], (dec_u x), rest. rewrite H3. split_and!; try done; [by left|lia|].
  intros Hb. by destruct Hs as [?|?]; [lia|].
Qed.

(** C30. A 64-bit number printed with %llu and followed by a space, a line end or
    the end of the string reads back as itself; from 2^63 on, provided no minus
    sign follows in the string. *)
Theorem dec_round_trip x rest : 0 <= x < 2 ^ 64 -> number_end rest ->
  x < 2 ^ 63 \/ 45 ∉ cstr (dec_u x ++ rest) -> safe_strtoull (dec_u x ++ rest) = Some x.
Proof. apply safe_strtoull_printed. Qed.

Lemma dec_round_trip_witness : safe_strtoull (dec_u (2 ^ 64 - 1) ++ [13; 10; 0; 45]) = Some (2 ^ 64 - 1).
Proof.
  apply (dec_round_trip (2 ^ 64 - 1) [13; 10; 0; 45]).
  - split; [done|]. vm_compute. reflexivity.
  - left. reflexivity.
  - right. intros H. vm_compute in H. repeat (apply elem_of_cons in H as [H|H]; [discriminate H|]).
    by apply not_elem_of_nil in H.
Defined.

(** A negative number of magnitude above 2^63 is read as a small positive one. *)
Example negative_accepted : safe_strtoull ([45] ++ dec_u (2 ^ 64 - 1)) = Some 1.
Proof. vm_compute. reflexivity. Qed.

(** Item data is not zero-terminated: a minus sign in the memory after the line
    end makes a large number unreadable. *)
Example minus_after_line_end : safe_strtoull (dec_u (2 ^ 63) ++ [13; 10; 45]) = None.
Proof. vm_compute. reflexivity. Qed.
