(* ===== verification/PrefixStats.v ===== *)
(** * Statistics by key prefix (src/thread/stats.c)

    The hash of prefixes, the three record functions and the dump.  STATS_LOCK is
    held throughout each of them, so a call is one step.  The unit tests under
    UNIT_TEST are not modelled. *)

From S2P Require Import Prelude Hash Decimal.

Record prefix_stats_t := PrefixStats {
  prefix : list Z;
  prefix_len : Z;
  num_gets : Z;
  num_sets : Z;
  num_deletes : Z;
  num_hits : Z
}.

#[export] Instance prefix_stats_eta : Eta prefix_stats_t := fun s =>
  PrefixStats (prefix s) (prefix_len s) (num_gets s) (num_sets s) (num_deletes s) (num_hits s).

Definition PREFIX_HASH_SIZE : Z := 256.

(** The static variables; a chain is the list of the entries its pointers link. *)
Record prefix_globals := PrefixGlobals {
  prefix_stats : gmap Z (list prefix_stats_t);
  num_prefixes : Z;
  total_prefix_size : Z
}.

#[export] Instance prefix_globals_eta : Eta prefix_globals := fun s =>
  PrefixGlobals (prefix_stats s) (num_prefixes s) (total_prefix_size s).

Definition chain (g : prefix_globals) (b : Z) : list prefix_stats_t := default [] (prefix_stats g !! b).

Definition stats_prefix_init (g : prefix_globals) : prefix_globals := g <| prefix_stats := ∅ |>.

Definition stats_prefix_clear (g : prefix_globals) : prefix_globals :=
  g <| prefix_stats := foldl (fun m i => <[i := []]> m) (prefix_stats g) (seqZ 0 PREFIX_HASH_SIZE) |>
    <| num_prefixes := 0 |> <| total_prefix_size := 0 |>.

(** strncmp(a, b, n) == 0; a C string ends with the list. *)
Fixpoint strneq (n : nat) (a b : list Z) : bool :=
  match n with
  | O => true
  | S n => bool_decide (byte a 0 = byte b 0) && (bool_decide (byte a 0 = 0) || strneq n (drop 1 a) (drop 1 b))
  end.

Section stats.
Context (hash : hash_func) (prefix_delimiter : Z).

(** The length of the prefix of [key]; [None] is bailout. *)
Fixpoint prefix_length (key : list Z) (nkey : nat) (length : nat) : option nat :=
  match nkey with
  | O => None
  | S nkey =>
      if decide (byte key length = 0) then None
      else if decide (byte key length = prefix_delimiter) then Some length
      else prefix_length key nkey (S length)
  end.

(** The position in a chain of the first entry whose prefix compares equal. *)
Fixpoint find_pfs (l : list prefix_stats_t) (key : list Z) (length : nat) : option nat :=
  match l with
  | [] => None
  | pfs :: l => if strneq length (prefix pfs) key then Some O else S <$> find_pfs l key length
  end.

(** calloc and malloc answer [mem_ok]; the result is the entry's place, [None]
    for NULL. *)
Definition stats_prefix_find (key : list Z) (nkey : nat) (mem_ok : bool * bool) (g : prefix_globals) :
    option (Z * nat) * prefix_globals :=
  match prefix_length key nkey 0 with
  | None => (None, g)
  | Some length =>
      let hashval := hash 0 key length mod PREFIX_HASH_SIZE in
      match find_pfs (chain g hashval) key length with
      | Some i => (Some (hashval, i), g)
      | None =>
          if negb (mem_ok.1 && mem_ok.2) then (None, g)
          else
            let pfs := PrefixStats (take length key) (Z.of_nat length) 0 0 0 0 in
            (Some (hashval, O),
             g <| prefix_stats ::= <[hashval := pfs :: chain g hashval]> |>
               <| num_prefixes ::= fun n => s32 (n + 1) |>
               <| total_prefix_size ::= fun n => s32 (u64 (n + Z.of_nat length)) |>)
      end
  end.

(** if (NULL != pfs) f(pfs) *)
Definition with_pfs (r : option (Z * nat) * prefix_globals) (f : prefix_stats_t -> prefix_stats_t) : prefix_globals :=
  match r with
  | (None, g) => g
  | (Some (b, i), g) => g <| prefix_stats ::= <[b := alter f i (chain g b)]> |>
  end.

Definition inc (x : Z) : Z := u64 (x + 1).

Definition stats_prefix_record_get (key : list Z) (nkey : nat) (is_hit : bool) mem_ok (g : prefix_globals) :=
  with_pfs (stats_prefix_find key nkey mem_ok g) (fun p =>
    let p := p <| num_gets ::= inc |> in if is_hit then p <| num_hits ::= inc |> else p).
Definition stats_prefix_record_delete (key : list Z) (nkey : nat) mem_ok (g : prefix_globals) :=
  with_pfs (stats_prefix_find key nkey mem_ok g) (fun p => p <| num_deletes ::= inc |>).
Definition stats_prefix_record_set (key : list Z) (nkey : nat) mem_ok (g : prefix_globals) :=
  with_pfs (stats_prefix_find key nkey mem_ok g) (fun p => p <| num_sets ::= inc |>).

(** ** The dump *)

Definition crlf : list Z := [13; 10].
Definition format : list Z := lit "PREFIX %s get %llu hit %llu set %llu del %llu" ++ crlf.
Definition format_len : Z := Z.of_nat (length format).

(** What the format prints for an entry. *)
Definition print_pfs (p : prefix_stats_t) : list Z :=
  lit "PREFIX " ++ prefix p ++ lit " get " ++ dec_u (num_gets p) ++ lit " hit " ++ dec_u (num_hits p) ++
  lit " set " ++ dec_u (num_sets p) ++ lit " del " ++ dec_u (num_deletes p) ++ crlf.

(** snprintf(buf + pos, n, ...) of [text]: at most n - 1 bytes and a zero. *)
Definition snprintf (buf : list Z) (pos n : Z) (text : list Z) : list Z :=
  if decide (0 < n) then poke buf (Z.to_nat pos) (take (Z.to_nat (n - 1)) text ++ [0]) else buf.

Definition dump_step (size : Z) (acc : list Z * Z * Z) (p : prefix_stats_t) : res (list Z * Z * Z) :=
  let '(buf, pos, total_written) := acc in
  let text := print_pfs p in
  let written := Z.of_nat (length text) in
  let buf := snprintf buf pos (u64 (size - pos)) text in
  let pos := s32 (pos + written) in
  let total_written := u64 (total_written + written) in
  assertb (bool_decide (total_written < size)) ≫= fun _ => Ok (buf, pos, total_written).

Fixpoint foldR {A B} (f : A -> B -> res A) (a : A) (l : list B) : res A :=
  match l with [] => Ok a | b :: l => f a b ≫= fun a => foldR f a l end.

(** The entries in the order of the two loops. *)
Definition all_pfs (g : prefix_globals) : list prefix_stats_t := seqZ 0 PREFIX_HASH_SIZE ≫= chain g.

Definition dump_size (g : prefix_globals) : Z :=
  u64 (format_len + total_prefix_size g + num_prefixes g * (format_len - 2 + 4 * (20 - 4)) + 6).

(** malloc answers [mem_ok] with a buffer of [dump_size] bytes; the result is
    the buffer and [*length]. *)
Definition stats_prefix_dump (mem_ok : bool) (g : prefix_globals) : res (option (list Z * Z)) :=
  let size := dump_size g in
  if negb mem_ok then Ok None
  else
    '(buf, pos, _) ← foldR (dump_step size) (repeat 0 (Z.to_nat size), 0, 0) (all_pfs g);
    Ok (Some (poke buf (Z.to_nat pos) (lit "END" ++ crlf ++ [0]), s32 (pos + 5))).
End stats.

(** ** Prefixes of keys *)

Definition key_prefix (delim : Z) (key : list Z) (nkey : nat) : option (list Z) :=
  (fun n => take n key) <$> prefix_length delim key nkey 0.

Lemma byte_ge k i : (length k <= i)%nat -> byte k i = 0.
Proof. intros. unfold byte. by apply nth_overflow. Qed.

Lemma byte_cons_drop k : (0 < length k)%nat -> k = byte k 0 :: drop 1 k.
Proof. destruct k; simpl; [lia|done]. Qed.

Lemma prefix_length_spec delim key nkey l n : prefix_length delim key nkey l = Some n ->
  (l <= n < l + nkey)%nat /\ (forall i, (l <= i < n)%nat -> byte key i <> 0 /\ byte key i <> delim) /\
  byte key n <> 0 /\ byte key n = delim.
Proof.
  revert l. induction nkey as [|nkey IH]; intros l; simpl; [done|].
  case_decide as H0; [done|]. case_decide as H1.
  - intros [= <-]. split; [lia|]. split; [lia|done].
  - intros (H2 & H3 & H4)%IH. split; [lia|]. split; [|done].
    intros i Hi. destruct (decide (i = l)) as [->|]; [done|]. apply H3. lia.
Qed.

Lemma key_prefix_length delim key nkey n : prefix_length delim key nkey 0 = Some n ->
  (n < length key)%nat /\ (n < nkey)%nat /\ length (take n key) = n /\
  (forall i, (i < n)%nat -> byte key i <> 0).
Proof.
  intros (H1 & H2 & H3 & _)%prefix_length_spec.
  destruct (decide (n < length key)%nat) as [Hl|Hl]; [|by rewrite byte_ge in H3 by lia].
  split_and!; [done|lia|rewrite length_take; lia|]. intros i Hi. apply H2. lia.
Qed.

(** strncmp finds the string or one that it starts. *)
Lemma strneq_spec n a b : (n < length b)%nat -> (forall i, (i < n)%nat -> byte b i <> 0) ->
  strneq n a b = true <-> take n b `prefix_of` a.
Proof.
  revert a b. induction n as [|n IH]; intros a b Hl Hb; simpl.
  { split; [intros _; apply prefix_nil|done]. }
  assert (byte b 0 <> 0) as H0 by (apply Hb; lia).
  destruct b as [|x b]; [simpl in Hl; lia|]. change (byte (x :: b) 0) with x in *.
  change (drop 1 (x :: b)) with b. simpl in Hl.
  assert (forall i, (i < n)%nat -> byte b i <> 0) as Hb' by (intros i Hi; apply (Hb (S i)); lia).
  rewrite andb_true_iff, bool_decide_eq_true, orb_true_iff, bool_decide_eq_true.
  split.
  - intros [E [Hz|H]]; [congruence|].
    destruct a as [|y a]; [by rewrite byte_ge in E by (simpl; lia)|]. change (byte (y :: a) 0) with y in *. subst y.
    apply prefix_cons. by apply IH; [lia|..].
  - intros H. destruct a as [|y a]; [by apply prefix_nil_not in H|].
    pose proof (prefix_cons_inv_1 _ _ _ _ H) as ->. apply prefix_cons_inv_2 in H.
    split; [done|]. right. apply IH; [lia|done|done].
Qed.

Lemma find_pfs_spec l key n : (n < length key)%nat -> (forall i, (i < n)%nat -> byte key i <> 0) ->
  match find_pfs l key n with
  | Some i => exists e, l !! i = Some e /\ take n key `prefix_of` prefix e
  | None => Forall (fun e => ~ take n key `prefix_of` prefix e) l
  end.
Proof.
  intros Hl Hb. induction l as [|e l IH]; simpl; [constructor|].
  destruct (strneq n (prefix e) key) eqn:E.
  - exists e. split; [done|]. by apply strneq_spec in E.
  - assert (~ take n key `prefix_of` prefix e) as H by (intros H; apply strneq_spec in H; [congruence|done|done]).
    destruct (find_pfs l key n) as [i|]; [done|by constructor].
Qed.

(** ** The accounting of the entries *)

Inductive rec_op :=
| RGet (key : list Z) (nkey : nat) (is_hit : bool)
| RSet (key : list Z) (nkey : nat)
| RDelete (key : list Z) (nkey : nat).

Definition op_key (o : rec_op) : list Z := match o with RGet k _ _ | RSet k _ | RDelete k _ => k end.
Definition op_nkey (o : rec_op) : nat := match o with RGet _ n _ | RSet _ n | RDelete _ n => n end.

Definition op_effect (o : rec_op) (p : prefix_stats_t) : prefix_stats_t :=
  match o with
  | RGet _ _ true => p <| num_gets ::= inc |> <| num_hits ::= inc |>
  | RGet _ _ false => p <| num_gets ::= inc |>
  | RSet _ _ => p <| num_sets ::= inc |>
  | RDelete _ _ => p <| num_deletes ::= inc |>
  end.

(** A call and the answers of the allocator during it. *)
Definition record_op (hash : hash_func) (delim : Z) (o : rec_op * (bool * bool)) (g : prefix_globals) :=
  match o.1 with
  | RGet k n h => stats_prefix_record_get hash delim k n h o.2 g
  | RSet k n => stats_prefix_record_set hash delim k n o.2 g
  | RDelete k n => stats_prefix_record_delete hash delim k n o.2 g
  end.

Definition record_ops hash delim (ops : list (rec_op * (bool * bool))) (g : prefix_globals) :=
  foldl (fun g o => record_op hash delim o g) g ops.

Lemma record_op_eq hash delim o g : record_op hash delim o g =
  with_pfs (stats_prefix_find hash delim (op_key o.1) (op_nkey o.1) o.2 g) (op_effect o.1).
Proof. by destruct o as [[k n []| |] mem]. Qed.

Definition prefixes (g : prefix_globals) : list (list Z) := prefix <$> all_pfs g.

Definition counters_ok (p : prefix_stats_t) : Prop :=
  in_u 64 (num_gets p) /\ in_u 64 (num_hits p) /\ in_u 64 (num_sets p) /\ in_u 64 (num_deletes p).

(** The buffer space the entries need. *)
Definition weight (g : prefix_globals) : Z :=
  53 + 109 * Z.of_nat (length (prefixes g)) + Z.of_nat (sum_list (length <$> prefixes g)).

Record acct (g : prefix_globals) : Prop := {
  ac_num : num_prefixes g = Z.of_nat (length (prefixes g));
  ac_total : total_prefix_size g = Z.of_nat (sum_list (length <$> prefixes g));
  ac_counters : Forall counters_ok (all_pfs g)
}.

(** Changing one chain. *)
Lemma all_pfs_split g b : 0 <= b < PREFIX_HASH_SIZE -> exists l1 l2, all_pfs g = l1 ++ chain g b ++ l2 /\
  forall l g', prefix_stats g' = <[b := l]> (prefix_stats g) -> all_pfs g' = l1 ++ l ++ l2.
Proof.
  unfold PREFIX_HASH_SIZE. intros Hb. exists (seqZ 0 b ≫= chain g), (seqZ (b + 1) (255 - b) ≫= chain g).
  assert (seqZ 0 256 = seqZ 0 b ++ [b] ++ seqZ (b + 1) (255 - b)) as E.
  { replace 256 with (b + (1 + (255 - b))) by lia. rewrite seqZ_app, (seqZ_app (0 + b)) by lia.
    simpl. repeat f_equal; lia. }
  unfold all_pfs, PREFIX_HASH_SIZE. rewrite E. split.
  { rewrite !bind_app. simpl. by rewrite app_nil_r. }
  intros l g' Eg. rewrite !bind_app. simpl. rewrite app_nil_r.
  assert (chain g' b = l) as -> by (unfold chain; by rewrite Eg, lookup_insert_eq).
  assert (forall c, c <> b -> chain g' c = chain g c) as Hc
    by (intros c Hc; unfold chain; by rewrite Eg, lookup_insert_ne).
  assert (forall s, b ∉ s -> s ≫= chain g' = s ≫= chain g) as Hs.
  { intros s. induction s as [|c s IH]; [done|]. intros [H1 H2]%not_elem_of_cons.
    rewrite !bind_cons. by rewrite IH, Hc by congruence. }
  f_equal; [|f_equal]; apply Hs; rewrite elem_of_seqZ; lia.
Qed.

Lemma bucket_range (hash : hash_func) key n : 0 <= hash 0 key n mod PREFIX_HASH_SIZE < PREFIX_HASH_SIZE.
Proof. by apply Z.mod_pos_bound. Qed.

Lemma op_effect_prefix o p : prefix (op_effect o p) = prefix p.
Proof. by destruct o as [? ? []| |]. Qed.

Lemma op_effect_counters o p : counters_ok p -> counters_ok (op_effect o p).
Proof.
  intros (H1 & H2 & H3 & H4). assert (forall x, in_u 64 (inc x)) as Hi by (intros; by apply wrap_range).
  destruct o as [? ? []| |]; split_and!; unfold op_effect; simpl; auto.
Qed.

(** What a find does to the chains: nothing, or a new entry in front.  The counters
    of the table stay exact while its weight fits an int. *)
Lemma find_effect hash delim key nkey mem g :
  let '(r, g') := stats_prefix_find hash delim key nkey mem g in
  weight g <= weight g' /\ (acct g -> weight g' < 2 ^ 31 -> acct g') /\
  match r with Some (b, i) => 0 <= b < PREFIX_HASH_SIZE | None => g' = g end.
Proof.
  unfold stats_prefix_find.
  destruct (prefix_length delim key nkey 0) as [n|] eqn:En; [|by split_and!].
  apply key_prefix_length in En as (Hn1 & Hn2 & Hn3 & _).
  set (b := hash 0 key n mod PREFIX_HASH_SIZE). pose proof (bucket_range hash key n : 0 <= b < _) as Hb.
  destruct (find_pfs (chain g b) key n) as [i|]; [split; [done|split; [done|exact Hb]]|].
  destruct (mem.1 && mem.2); simpl; [|by split_and!].
  set (g' := update _ _). destruct (all_pfs_split g b Hb) as (l1 & l2 & E & E').
  specialize (E' (PrefixStats (take n key) (Z.of_nat n) 0 0 0 0 :: chain g b) g' eq_refl).
  assert (length (prefixes g') = S (length (prefixes g)) /\
    sum_list (length <$> prefixes g') = (n + sum_list (length <$> prefixes g))%nat) as [L1 L2].
  { unfold prefixes. rewrite E, E', ?fmap_app, ?fmap_cons, ?fmap_app. simpl.
    rewrite ?length_app, ?Hn3. simpl. rewrite ?length_app. simpl. rewrite ?length_app, ?length_fmap. split; [lia|].
    assert (forall l l' : list nat, sum_list (l ++ l') = (sum_list l + sum_list l')%nat) as Ha
      by (intros l l'; induction l; simpl; lia).
    rewrite ?Ha. simpl. rewrite ?Ha. lia. }
  unfold weight. rewrite L1, L2. split_and!; [lia| |lia..].
  intros [A1 A2 A3] Hw. split.
  - rewrite L1. unfold g'. simpl. rewrite A1, sint_small; [lia|done|]. norm_pow2. lia.
  - rewrite L2. unfold g'. simpl. rewrite A2, wrap_small, sint_small; [lia|done|..]; unfold in_u; norm_pow2; lia.
  - rewrite E'. rewrite E in A3. apply Forall_app in A3 as [H1 [H2 H3]%Forall_app].
    rewrite !Forall_app, Forall_cons. by split_and!.
Qed.

Lemma fmap_alter_same {A B} (f : A -> A) (p : A -> B) (i : nat) (l : list A) :
  (forall x, p (f x) = p x) -> p <$> alter f i l = p <$> l.
Proof.
  intros Hf. apply list_eq. intros j. rewrite !list_lookup_fmap.
  destruct (decide (i = j)) as [->|].
  - rewrite list_lookup_alter_eq. destruct (l !! j); simpl; [by rewrite Hf|done].
  - by rewrite list_lookup_alter_ne.
Qed.

Lemma with_pfs_acct b i g f : 0 <= b < PREFIX_HASH_SIZE ->
  (forall p, prefix (f p) = prefix p) -> (forall p, counters_ok p -> counters_ok (f p)) ->
  (acct g -> acct (with_pfs (Some (b, i), g) f)) /\ weight (with_pfs (Some (b, i), g) f) = weight g.
Proof.
  intros Hb Hp Hc. set (g' := with_pfs _ _). destruct (all_pfs_split g b Hb) as (l1 & l2 & E & E').
  specialize (E' (alter f i (chain g b)) g' eq_refl).
  assert (prefixes g' = prefixes g) as Ep by (unfold prefixes; by rewrite E, E', !fmap_app, fmap_alter_same).
  unfold weight. rewrite Ep. split; [|done]. intros [A1 A2 A3]. split; rewrite ?Ep; [done|done|].
  rewrite E'. rewrite E in A3. apply Forall_app in A3 as [H1 [H2 H3]%Forall_app].
  rewrite !Forall_app. split_and!; [done| |done]. by apply Forall_alter; [|intros; by apply Hc].
Qed.

Lemma record_op_acct hash delim o g : weight g <= weight (record_op hash delim o g) /\
  (acct g -> weight (record_op hash delim o g) < 2 ^ 31 -> acct (record_op hash delim o g)).
Proof.
  rewrite record_op_eq. pose proof (find_effect hash delim (op_key o.1) (op_nkey o.1) o.2 g) as H.
  destruct (stats_prefix_find _ _ _ _ _ _) as [[[b i]|] g']; destruct H as (Hw & A' & Hr); [|by split].
  destruct (with_pfs_acct b i g' (op_effect o.1) Hr (op_effect_prefix _) (op_effect_counters _)) as [H1 ->].
  split; [done|]. intros A Hl. apply H1. by apply A'.
Qed.

(** A table only grows. *)
Lemma record_ops_acct hash delim ops : forall g, weight g <= weight (record_ops hash delim ops g) /\
  (acct g -> weight (record_ops hash delim ops g) < 2 ^ 31 -> acct (record_ops hash delim ops g)).
Proof.
  induction ops as [|o ops IH]; intros g; [by split|]. simpl.
  destruct (record_op_acct hash delim o g) as [W1 A1], (IH (record_op hash delim o g)) as [W2 A2].
  split; [lia|]. intros A Hw. apply A2; [|done]. apply A1; [done|lia].
Qed.

Lemma clear_chain l (m : gmap Z (list prefix_stats_t)) i : i ∈ l \/ default [] (m !! i) = [] ->
  default [] (foldl (fun m i => <[i := []]> m) m l !! i) = [].
Proof.
  revert m. induction l as [|j l IH]; intros m Hi; simpl.
  - destruct Hi as [Hi|Hi]; [by apply not_elem_of_nil in Hi|done].
  - apply IH. destruct (decide (i = j)) as [->|Hne]; [right; by rewrite lookup_insert_eq|].
    rewrite lookup_insert_ne by congruence. rewrite elem_of_cons in Hi. tauto.
Qed.

Lemma bind_nil {A B} (f : A -> list B) l : (forall a, a ∈ l -> f a = []) -> l ≫= f = [].
Proof.
  induction l as [|a l IH]; intros H; [done|]. rewrite bind_cons, H by by left.
  apply IH. intros b Hb. apply H. by right.
Qed.

Lemma clear_all_pfs g : all_pfs (stats_prefix_clear g) = [].
Proof. apply bind_nil. intros b Hb. apply clear_chain. by left. Qed.

Lemma clear_acct g : acct (stats_prefix_clear g) /\ weight (stats_prefix_clear g) = 53.
Proof.
  unfold weight. assert (prefixes (stats_prefix_clear g) = []) as Ep by (unfold prefixes; by rewrite clear_all_pfs).
  split; [|by rewrite Ep]. split; [by rewrite Ep|by rewrite Ep|by rewrite clear_all_pfs].
Qed.

(** ** The dump *)

Lemma print_pfs_length p : (length (print_pfs p) <= 109 + length (prefix p))%nat.
Proof.
  unfold print_pfs. rewrite !length_app.
  pose proof (dec_u_length (num_gets p)). pose proof (dec_u_length (num_hits p)).
  pose proof (dec_u_length (num_sets p)). pose proof (dec_u_length (num_deletes p)).
  assert (length (lit "PREFIX ") = 7 /\ length (lit " get ") = 5 /\ length (lit " hit ") = 5 /\
    length (lit " set ") = 5 /\ length (lit " del ") = 5 /\ length crlf = 2)%nat as H' by done.
  lia.
Qed.

Lemma poke_inside (done rest bs : list Z) : (length bs <= length rest)%nat ->
  poke (done ++ rest) (length done) bs = done ++ bs ++ drop (length bs) rest.
Proof.
  intros H. unfold poke, write_bytes. rewrite Nat.max_l by (rewrite length_app; lia).
  rewrite resize_all, take_app_length. do 2 f_equal.
  rewrite drop_app_ge by lia. f_equal. lia.
Qed.

(** The space of a list of entries. *)
Fixpoint space (l : list prefix_stats_t) : nat :=
  match l with [] => O | p :: l => (109 + length (prefix p) + space l)%nat end.

Definition dump_text (l : list prefix_stats_t) : list Z := l ≫= print_pfs.

Lemma dump_step_ok size done rest p : Z.of_nat (length (done ++ rest)) = size -> size < 2 ^ 31 ->
  (length (print_pfs p) < length rest)%nat -> exists rest',
    dump_step size (done ++ rest, Z.of_nat (length done), Z.of_nat (length done)) p =
      Ok ((done ++ print_pfs p) ++ rest', Z.of_nat (length (done ++ print_pfs p)),
          Z.of_nat (length (done ++ print_pfs p))) /\
    Z.of_nat (length ((done ++ print_pfs p) ++ rest')) = size.
Proof.
  intros Hs Hb Hl. rewrite !length_app in Hs. remember (print_pfs p) as t eqn:Et.
  exists ([0] ++ drop (length t + 1) rest). unfold dump_step. rewrite <- Et.
  assert (u64 (size - Z.of_nat (length done)) = Z.of_nat (length rest)) as ->
    by (rewrite wrap_small; [lia|unfold in_u; norm_pow2; lia]).
  assert (u64 (Z.of_nat (length done) + Z.of_nat (length t)) = Z.of_nat (length (done ++ t))) as ->
    by (rewrite wrap_small, length_app; [lia|unfold in_u; norm_pow2; lia]).
  assert (s32 (Z.of_nat (length done) + Z.of_nat (length t)) = Z.of_nat (length (done ++ t))) as ->
    by (rewrite sint_small, length_app; norm_pow2; lia).
  unfold assertb. rewrite bool_decide_eq_true_2 by (rewrite length_app; lia). simpl.
  unfold snprintf. rewrite decide_True by lia.
  rewrite (take_ge t) by lia. rewrite Nat2Z.id, poke_inside by (rewrite length_app; simpl; lia).
  rewrite !length_app. simpl. split; [|rewrite length_drop; lia].
  do 3 f_equal. by rewrite <- !app_assoc.
Qed.

Lemma dump_loop_ok size l : forall done rest, Z.of_nat (length (done ++ rest)) = size -> size < 2 ^ 31 ->
  (space l < length rest)%nat -> exists rest',
    foldR (dump_step size) (done ++ rest, Z.of_nat (length done), Z.of_nat (length done)) l =
      Ok ((done ++ dump_text l) ++ rest', Z.of_nat (length (done ++ dump_text l)),
          Z.of_nat (length (done ++ dump_text l))) /\
    Z.of_nat (length ((done ++ dump_text l) ++ rest')) = size.
Proof.
  induction l as [|p l IH]; intros done rest Hs Hb Hl; cbn [space] in Hl.
  { exists rest. simpl. by rewrite app_nil_r. }
  pose proof (print_pfs_length p) as Hp.
  destruct (dump_step_ok size done rest p Hs Hb ltac:(lia)) as (r1 & E1 & L1).
  destruct (IH (done ++ print_pfs p) r1 L1 Hb) as (r2 & E2 & L2).
  { rewrite !length_app in *. lia. }
  exists r2. unfold dump_text in *. rewrite bind_cons, app_assoc. split; [|done].
  cbn [foldR]. rewrite E1. exact E2.
Qed.

Lemma sum_entries l : (space l = 109 * length l + sum_list (length <$> (prefix <$> l)))%nat.
Proof. induction l as [|p l IH]; [done|]. cbn [space]. rewrite IH, !fmap_cons. simpl. lia. Qed.
Lemma space_weight g : weight g = 53 + Z.of_nat (space (all_pfs g)).
Proof. unfold weight. rewrite sum_entries. unfold prefixes. rewrite length_fmap. lia. Qed.

Lemma format_len_eq : format_len = 47.
Proof. done. Qed.

Lemma dump_ok g : acct g -> weight g < 2 ^ 31 -> exists buf,
  let text := dump_text (all_pfs g) ++ lit "END" ++ crlf in
  stats_prefix_dump true g = Ok (Some (buf, Z.of_nat (length text))) /\
  text ++ [0] `prefix_of` buf /\ Z.of_nat (length buf) = dump_size g.
Proof.
  intros A Hw. unfold stats_prefix_dump. simpl negb. cbn match.
  assert (dump_size g = weight g) as Es.
  { unfold dump_size. rewrite format_len_eq, (ac_num _ A), (ac_total _ A). unfold weight in *.
    rewrite wrap_small; [lia|]. unfold in_u. norm_pow2. lia. }
  pose proof (space_weight g) as Hsum.
  pose proof (repeat_length 0 (Z.to_nat (dump_size g))) as Hrep.
  destruct (dump_loop_ok (dump_size g) (all_pfs g) [] (repeat 0 (Z.to_nat (dump_size g)))) as (rest & E & L).
  { simpl. rewrite Hrep. lia. }
  { lia. }
  { lia. }
  change (Z.of_nat (length [])) with 0 in E. rewrite !app_nil_l in E, L. rewrite E. cbn.
  assert (length (dump_text (all_pfs g)) <= space (all_pfs g))%nat as Ht.
  { clear. unfold dump_text. induction (all_pfs g) as [|p l IH]; [done|]. rewrite bind_cons, length_app.
    pose proof (print_pfs_length p). cbn [space]. lia. }
  set (t := dump_text (all_pfs g)) in *. rewrite length_app in L.
  rewrite Nat2Z.id, poke_inside by (simpl; lia). eexists. split.
  { do 4 f_equal. rewrite sint_small, length_app; norm_pow2; simpl; lia. }
  split.
  - eexists. rewrite <- !app_assoc. reflexivity.
  - rewrite !length_app, length_drop. simpl. lia.
Qed.

(** C15. The buffer of the dump is large enough: after any sequence of recorded
    gets, sets and deletes on a cleared table, whatever allocations failed, as long
    as the entries of the table are few enough for an int (109 bytes and its prefix
    for each and 53 more stay below 2^31; the counters are ints and overflow beyond),
    the assert in the loop never fails, no line is cut, and "END" with its
    terminating zero fits in the buffer; the text is the lines of all entries, and
    *length is its length. *)
Theorem prefix_dump_fits (hash : hash_func) delim ops g0 :
  let g := record_ops hash delim ops (stats_prefix_clear g0) in
  53 + Z.of_nat (space (all_pfs g)) < 2 ^ 31 ->
  exists buf, let text := dump_text (all_pfs g) ++ lit "END" ++ crlf in
  stats_prefix_dump true g = Ok (Some (buf, Z.of_nat (length text))) /\
  text ++ [0] `prefix_of` buf /\ Z.of_nat (length buf) = dump_size g.
Proof.
  intros g Hw. destruct (clear_acct g0) as [A _]. rewrite <- space_weight in Hw.
  apply dump_ok; [|done]. by apply record_ops_acct.
Qed.

(** ** The counters *)

Definition bucket (hash : hash_func) (p : list Z) : Z := hash 0 p (length p) mod PREFIX_HASH_SIZE.

Definition is_get (o : rec_op) : bool := match o with RGet _ _ _ => true | _ => false end.
Definition is_hit (o : rec_op) : bool := match o with RGet _ _ h => h | _ => false end.
Definition is_set (o : rec_op) : bool := match o with RSet _ _ => true | _ => false end.
Definition is_delete (o : rec_op) : bool := match o with RDelete _ _ => true | _ => false end.

Definition count (f : rec_op -> bool) (os : list rec_op) : Z := u64 (Z.of_nat (length (filter (fun o => f o = true) os))).

Definition op_prefix (delim : Z) (o : rec_op) : option (list Z) := key_prefix delim (op_key o) (op_nkey o).

(** The entry a prefix should have after [os]: its gets, hits, sets and deletes
    counted; none when it was never recorded. *)
Definition expected (delim : Z) (os : list rec_op) (p : list Z) : option prefix_stats_t :=
  let mine := filter (fun o => op_prefix delim o = Some p) os in
  if decide (mine = []) then None
  else Some (PrefixStats p (Z.of_nat (length p)) (count is_get mine) (count is_set mine)
               (count is_delete mine) (count is_hit mine)).

Lemma count_snoc f os o : count f (os ++ [o]) = if f o then inc (count f os) else count f os.
Proof.
  unfold count, inc. rewrite filter_app, filter_cons, filter_nil, length_app.
  destruct (f o) eqn:E; [rewrite decide_True by done|rewrite decide_False by done]; simpl.
  - rewrite wrap_add_l. f_equal. lia.
  - by rewrite Nat.add_0_r.
Qed.

Lemma expected_snoc delim os o p : expected delim (os ++ [o]) p =
  if decide (op_prefix delim o = Some p)
  then Some (op_effect o (default (PrefixStats p (Z.of_nat (length p)) 0 0 0 0) (expected delim os p)))
  else expected delim os p.
Proof.
  unfold expected. rewrite filter_app, filter_cons, filter_nil.
  destruct (decide (op_prefix delim o = Some p)) as [E|E]; [|by rewrite app_nil_r].
  rewrite decide_False by (intros H; by apply app_nil in H as [_ H]). rewrite !count_snoc.
  destruct (decide _) as [->|]; by destruct o as [? ? []| |].
Qed.

(** No recorded prefix starts another one of its chain. *)
Definition separated (hash : hash_func) (delim : Z) (os : list rec_op) : Prop :=
  forall o1 o2 p q, o1 ∈ os -> o2 ∈ os -> op_prefix delim o1 = Some p -> op_prefix delim o2 = Some q ->
    p `prefix_of` q -> bucket hash p = bucket hash q -> p = q.

Section counters.
Context (hash : hash_func) `{!HashFunction hash} (delim : Z).

Lemma key_bucket key n : bytes_ok key -> (n <= length key)%nat ->
  hash 0 key n mod PREFIX_HASH_SIZE = bucket hash (take n key).
Proof.
  intros Hk Hn. unfold bucket. rewrite length_take, Nat.min_l by done. f_equal.
  apply hash_key; [done|by apply Forall_take|]. by rewrite take_take, Nat.min_id.
Qed.

Abbreviation with_prefix p := (filter (fun e : prefix_stats_t => prefix e = p)).

Record counted (all os : list rec_op) (g : prefix_globals) : Prop := {
  cn_chain : forall b e, 0 <= b < PREFIX_HASH_SIZE -> e ∈ chain g b -> bucket hash (prefix e) = b /\
    exists o, o ∈ all /\ op_prefix delim o = Some (prefix e);
  cn_entry : forall p, with_prefix p (chain g (bucket hash p)) = option_list (expected delim os p)
}.

Lemma filter_none {A} (P : A -> Prop) `{!forall x, Decision (P x)} l : Forall (fun x => ~ P x) l -> filter P l = [].
Proof. induction 1; [done|]. by rewrite filter_cons, decide_False. Qed.

(** The one entry with the prefix is updated. *)
Lemma alter_entry l i e e1 f : l !! i = Some e -> (forall p, prefix (f p) = prefix p) ->
  with_prefix (prefix e) l = option_list e1 ->
  e1 = Some e /\ with_prefix (prefix e) (alter f i l) = [f e] /\
  forall q, q <> prefix e -> with_prefix q (alter f i l) = with_prefix q l.
Proof.
  intros Hi Hf. apply list_elem_of_split_length in Hi as (l1 & l2 & -> & ->).
  assert (alter f (length l1) (l1 ++ e :: l2) = l1 ++ f e :: l2) as ->.
  { rewrite <- (Nat.add_0_r (length l1)). exact (alter_app_r f l1 (e :: l2) 0). }
  rewrite !filter_app, !filter_cons, Hf, !decide_True by done. intros H.
  assert (with_prefix (prefix e) l1 = [] /\ with_prefix (prefix e) l2 = [] /\ e1 = Some e) as (H1 & H2 & ->).
  { destruct e1 as [e1|]; simpl in H; [|by apply app_nil in H as [_ H]].
    destruct (with_prefix (prefix e) l1) as [|y ys]; simpl in H; [by injection H as -> ->|].
    injection H as _ H. by apply app_nil in H as [_ H]. }
  rewrite H1, H2. split; [done|]. split; [done|]. intros q Hq.
  by rewrite !filter_app, !filter_cons, Hf, !decide_False by congruence.
Qed.

Lemma chain_insert g g' b l c : prefix_stats g' = <[b := l]> (prefix_stats g) ->
  chain g' c = if decide (c = b) then l else chain g c.
Proof.
  intros E. unfold chain. rewrite E. destruct (decide (c = b)) as [->|]; [by rewrite lookup_insert_eq|].
  by rewrite lookup_insert_ne by congruence.
Qed.

(** A chain changed so that it has the entries it should have. *)
Lemma counted_step all os o p l g g' : o ∈ all -> op_prefix delim o = Some p -> counted all os g ->
  prefix_stats g' = <[bucket hash p := l]> (prefix_stats g) ->
  (forall e, e ∈ l -> prefix e = p \/ exists e', prefix e' = prefix e /\ e' ∈ chain g (bucket hash p)) ->
  with_prefix p l = option_list (expected delim (os ++ [o]) p) ->
  (forall q, q <> p -> with_prefix q l = with_prefix q (chain g (bucket hash p))) ->
  counted all (os ++ [o]) g'.
Proof.
  intros Ho Hp [C1 C2] Eg Hl Hw Hq. split.
  - intros b e Hb. rewrite (chain_insert _ _ _ _ b Eg). case_decide as Hc; [subst b|by apply C1].
    intros [Hx|(e' & He' & Hin)]%Hl; [rewrite Hx; split; [done|by exists o]|].
    rewrite <- He'. by apply C1.
  - intros q. rewrite (chain_insert _ _ _ _ _ Eg), expected_snoc.
    destruct (decide (op_prefix delim o = Some q)) as [E|E].
    + rewrite Hp in E. injection E as <-. rewrite decide_True by done.
      rewrite Hw, expected_snoc, decide_True by done. done.
    + assert (q <> p) by congruence. case_decide as Hc; [|by apply C2].
      rewrite Hq by done. rewrite <- Hc. apply C2.
Qed.

Lemma record_counted all os o g : separated hash delim all -> o ∈ all -> bytes_ok (op_key o) ->
  counted all os g -> counted all (os ++ [o]) (record_op hash delim (o, (true, true)) g).
Proof.
  intros Hsep Ho Hk C. rewrite record_op_eq. unfold stats_prefix_find. cbn [fst snd].
  destruct (prefix_length delim (op_key o) (op_nkey o) 0) as [n|] eqn:En.
  2:{ simpl. destruct C as [C1 C2]. split; [done|]. intros p. rewrite expected_snoc, decide_False; [apply C2|].
      unfold op_prefix, key_prefix. by rewrite En. }
  assert (op_prefix delim o = Some (take n (op_key o))) as Hp by (unfold op_prefix, key_prefix; by rewrite En).
  apply key_prefix_length in En as (Hn1 & _ & Hn3 & Hn4).
  rewrite key_bucket by (done || lia). set (p := take n (op_key o)) in *. set (b := bucket hash p).
  pose proof (bucket_range hash p (length p) : 0 <= b < _) as Hb.
  pose proof (find_pfs_spec (chain g b) (op_key o) n Hn1 Hn4) as Hf. fold p in Hf.
  pose proof (cn_entry _ _ _ C p) as He. fold b in He.
  destruct (find_pfs (chain g b) (op_key o) n) as [i|].
  - destruct Hf as (e & Hi & Hpre). pose proof (list_elem_of_lookup_2 _ _ _ Hi) as Hin.
    destruct (cn_chain _ _ _ C b e Hb Hin) as [Hbe (o' & Ho' & Hp')].
    assert (prefix e = p) as Ep by (symmetry; by apply (Hsep o o')).
    rewrite <- Ep in He. destruct (alter_entry _ _ _ _ (op_effect o) Hi (op_effect_prefix o) He) as (Ee & H1 & H2).
    rewrite Ep in Ee, H1, H2. eapply (counted_step all os o p); [done|done|exact C|reflexivity|..].
    + intros x (j & Hj)%list_elem_of_lookup. right.
      assert ((prefix <$> alter (op_effect o) i (chain g b)) !! j = Some (prefix x)) as Hx
        by (by rewrite list_lookup_fmap, Hj).
      rewrite fmap_alter_same in Hx by apply op_effect_prefix.
      rewrite list_lookup_fmap in Hx. destruct (chain g b !! j) as [x'|] eqn:Ej; [|done].
      injection Hx as Hx. exists x'. split; [done|]. by eapply list_elem_of_lookup_2.
    + rewrite H1, expected_snoc, decide_True, Ee by done. done.
    + done.
  - assert (expected delim os p = None) as Ex.
    { rewrite filter_none in He; [by destruct (expected delim os p)|].
      eapply Forall_impl; [exact Hf|]. intros e H E. apply H. by rewrite E. }
    cbn [andb negb with_pfs]. set (e0 := PrefixStats p (Z.of_nat n) 0 0 0 0).
    set (g2 := g <| prefix_stats ::= _ |> <| num_prefixes ::= _ |> <| total_prefix_size ::= _ |>).
    assert (chain g2 b = e0 :: chain g b) as ->
      by (rewrite (chain_insert g g2 b (e0 :: chain g b)) by reflexivity; by rewrite decide_True).
    change (alter (op_effect o) 0%nat (e0 :: chain g b)) with (op_effect o e0 :: chain g b).
    eapply (counted_step all os o p); [done|done|exact C|apply insert_insert_eq|..].
    + intros e [->|H]%elem_of_cons; [left; by rewrite op_effect_prefix|right; by exists e].
    + rewrite filter_cons, op_effect_prefix, decide_True by done.
      rewrite He, expected_snoc, decide_True, Ex by done. cbn [default option_list from_option]. unfold e0. by rewrite Hn3.
    + intros q Hq. by rewrite filter_cons, op_effect_prefix, decide_False by done.
Qed.

Abbreviation available := (fun os => (fun o => (o, (true, true))) <$> os).

Lemma record_ops_counted all os2 : separated hash delim all -> forall os1 g,
  (forall o, o ∈ os2 -> o ∈ all /\ bytes_ok (op_key o)) -> counted all os1 g ->
  counted all (os1 ++ os2) (record_ops hash delim (available os2) g).
Proof.
  intros Hsep. induction os2 as [|o os2 IH]; intros os1 g H C; [by rewrite app_nil_r|].
  change (o :: os2) with ([o] ++ os2). rewrite app_assoc. simpl. apply IH.
  - intros o' Ho'. apply H. by right.
  - destruct (H o ltac:(by left)). by apply record_counted.
Qed.

Lemma filter_bind_one {A B} (P : B -> Prop) `{!forall x, Decision (P x)} (f : A -> list B) a l : NoDup l -> a ∈ l ->
  (forall c, c ∈ l -> c <> a -> filter P (f c) = []) -> filter P (l ≫= f) = filter P (f a).
Proof.
  intros Hl. induction Hl as [|x l Hx Hl IH]; [by intros Ha%not_elem_of_nil|]. intros Ha Hf.
  rewrite bind_cons, filter_app. apply elem_of_cons in Ha as [<-|Ha].
  - assert (filter P (l ≫= f) = []) as ->; [|by rewrite app_nil_r].
    clear IH Hl. induction l as [|y l IH]; [done|]. apply not_elem_of_cons in Hx as [Hy Hx].
    rewrite bind_cons, filter_app, IH, Hf; [done|right; by left|congruence|done|].
    intros c Hc. apply Hf. rewrite !elem_of_cons in *. tauto.
  - rewrite Hf; [|by left|by intros ->]. apply IH; [done|]. intros c Hc. apply Hf. by right.
Qed.

(** C21. The table of prefixes counts: after any sequence of recorded gets, sets
    and deletes on a cleared table, memory being available, the table has exactly
    one entry for each prefix recorded and none for another, and its counters are
    the numbers of gets, hits, sets and deletes of keys with that prefix (modulo
    2^64), provided no recorded prefix of a chain starts another one. *)
Theorem prefix_stats_count os g0 : separated hash delim os -> Forall (fun o => bytes_ok (op_key o)) os ->
  let g := record_ops hash delim (available os) (stats_prefix_clear g0) in
  forall p, filter (fun e => prefix e = p) (all_pfs g) = option_list (expected delim os p).
Proof.
  intros Hsep Hk g p.
  assert (counted os ([] ++ os) g) as [C1 C2].
  { apply record_ops_counted; [done| |].
    - intros o Ho. split; [done|]. by eapply Forall_forall in Hk.
    - assert (forall b, 0 <= b < PREFIX_HASH_SIZE -> chain (stats_prefix_clear g0) b = []) as H
        by (intros b Hb; apply clear_chain; left; by rewrite elem_of_seqZ).
      split; [intros b e Hb; rewrite H by done; by intros Hx%not_elem_of_nil|].
      intros q. by rewrite H by apply bucket_range. }
  rewrite <- C2. unfold all_pfs. apply filter_bind_one; [apply NoDup_seqZ|rewrite elem_of_seqZ; apply bucket_range|].
  intros b Hb Hne. rewrite elem_of_seqZ in Hb. apply filter_none, Forall_forall. intros e He Ep.
  destruct (C1 b e ltac:(lia) He) as [H _]. congruence.
Qed.
End counters.

(** ** Concrete tables *)

Module Demo.
Definition hash : hash_func := fun _ => Murmur3.MurmurHash3_x86_32.
#[global] Instance prefix_demo_hash : HashFunction hash := murmur3_HashFunction.
Definition g0 : prefix_globals := PrefixGlobals ∅ 7 7.

Definition ops : list rec_op :=
  [ RSet (lit "abc:1") 5; RGet (lit "abc:2") 5 true; RGet (lit "d:1") 3 false; RDelete (lit "abc") 3;
    RGet (lit "abc:1") 5 false ].
End Demo.

Lemma prefix_stats_count_witness :
  filter (fun e => prefix e = lit "abc")
    (all_pfs (record_ops Demo.hash 58 ((fun o => (o, (true, true))) <$> Demo.ops) (stats_prefix_clear Demo.g0))) =
  [PrefixStats (lit "abc") 3 2 1 0 1].
Proof.
  rewrite (prefix_stats_count Demo.hash 58 Demo.ops Demo.g0).
  - vm_compute. reflexivity.
  - assert (forall o, o ∈ Demo.ops -> op_prefix 58 o = Some (lit "abc") \/ op_prefix 58 o = Some (lit "d") \/
      op_prefix 58 o = None) as H.
    { intros o Ho. unfold Demo.ops in Ho. rewrite !elem_of_cons in Ho.
      destruct Ho as [->|[->|[->|[->|[->|Ho]]]]];
        [left; reflexivity|left; reflexivity|right; left; reflexivity|right; right; reflexivity|left; reflexivity|].
      by apply not_elem_of_nil in Ho. }
    intros o1 o2 p q H1 H2 Hp Hq Hpre _. apply H in H1, H2. rewrite Hp in H1. rewrite Hq in H2.
    destruct Hpre as [k Hk].
    destruct H1 as [[= ->]|[[= ->]|?]], H2 as [[= ->]|[[= ->]|?]]; try done.
  - repeat constructor; vm_compute; intuition discriminate.
Defined.

Lemma prefix_dump_fits_witness : exists buf,
  stats_prefix_dump true (record_ops Demo.hash 58 ((fun o => (o, (true, true))) <$> Demo.ops) (stats_prefix_clear Demo.g0))
    = Ok (Some (buf, 75)).
Proof.
  destruct (prefix_dump_fits Demo.hash 58 ((fun o => (o, (true, true))) <$> Demo.ops) Demo.g0) as (buf & E & _).
  { vm_compute. reflexivity. }
  exists buf. rewrite E. vm_compute. reflexivity.
Defined.

(** "u" starts "uh" and murmur3 puts both in one chain: a get of a key with the
    prefix "u" is counted for "uh". *)
Example shorter_prefix_miscounted :
  all_pfs (record_ops Demo.hash 58 [(RSet (lit "uh:1") 4, (true, true)); (RGet (lit "u:1") 3 true, (true, true))]
    (stats_prefix_clear Demo.g0)) = [PrefixStats (lit "uh") 2 1 1 0 1].
Proof. vm_compute. reflexivity. Qed.
