(* ===== verification/Settings.v ===== *)
(** * Settings and statistics (src/slabs_curd/memcached.h, memcached.c)

    The global structs [settings], [stats] and [stats_state] as the item store
    uses them, and their initial values.  [factor], a C double, is a
    [spec_float] of binary64. *)

From S2P Require Import Prelude.
From Stdlib Require Import SpecFloat.

(** *** binary64 *)

Definition b64_mul : spec_float -> spec_float -> spec_float := SFmul 53 1024.
Definition b64_div : spec_float -> spec_float -> spec_float := SFdiv 53 1024.

(** The conversion of an integer to double, to nearest even. *)
Definition b64_of_Z (x : Z) : spec_float := binary_normalize 53 1024 x 0 false.

(** The conversion of a double to an integer type: truncation.  An infinity or
    NaN, for which C has no result, gives 0. *)
Definition b64_to_Z (f : spec_float) : Z :=
  match f with
  | S754_finite s m e =>
      let v := if decide (0 <= e) then Z.pos m * 2 ^ e else Z.pos m / 2 ^ (- e) in
      if s then - v else v
  | _ => 0
  end.

(** 1.25 *)
Definition b64_1_25 : spec_float := b64_div (b64_of_Z 5) (b64_of_Z 4).

(** *** The globals *)

Record settings := Settings {
  maxbytes : Z;
  maxconns : Z;
  verbose : Z;
  oldest_live : Z;
  oldest_cas : Z;
  evict_to_free : Z;
  factor : spec_float;
  chunk_size : Z;
  use_cas : bool;
  item_size_max : Z;
  slab_chunk_size_max : Z;
  slab_page_size : Z;
  lru_segmented : bool;
  slab_reassign : bool;
  slab_automove : Z;
  hot_lru_pct : Z;
  warm_lru_pct : Z;
  hashpower_init : Z;
  tail_repair_time : Z;
  inline_ascii_response : bool;
  temp_lru : bool;
  temporary_ttl : Z;
  num_threads : Z
}.

#[export] Instance settings_eta : Eta settings := fun s =>
  Settings (maxbytes s) (maxconns s) (verbose s) (oldest_live s) (oldest_cas s)
    (evict_to_free s) (factor s) (chunk_size s) (use_cas s) (item_size_max s)
    (slab_chunk_size_max s) (slab_page_size s) (lru_segmented s) (slab_reassign s)
    (slab_automove s) (hot_lru_pct s) (warm_lru_pct s) (hashpower_init s)
    (tail_repair_time s) (inline_ascii_response s) (temp_lru s) (temporary_ttl s)
    (num_threads s).

Definition TAIL_REPAIR_TIME_DEFAULT : Z := 0.

Definition settings_init : settings :=
  let page := 1024 * 1024 in
  {| use_cas := true;
     maxbytes := 64 * 1024 * 1024;
     maxconns := 1024;
     verbose := 0;
     evict_to_free := 1;
     factor := b64_1_25;
     chunk_size := 48;
     item_size_max := 1024 * 1024;
     slab_page_size := page;
     slab_chunk_size_max := page / 2;
     slab_reassign := true;
     hashpower_init := 0;
     num_threads := 4;
     temp_lru := false;
     temporary_ttl := 61;
     inline_ascii_response := false;
     lru_segmented := true;
     hot_lru_pct := 20;
     warm_lru_pct := 40;
     tail_repair_time := TAIL_REPAIR_TIME_DEFAULT;
     slab_automove := 1;
     oldest_live := 0;
     oldest_cas := 0 |}.

(** The counters of [stats] and [stats_state] the item store and the page mover
    write. *)
Record stats_t := Stats {
  curr_items : Z;
  curr_bytes : Z;
  total_items : Z;
  slabs_moved : Z;
  slab_reassign_rescues : Z;
  slab_reassign_evictions_nomem : Z;
  slab_reassign_inline_reclaim : Z;
  slab_reassign_chunk_rescues : Z;
  slab_reassign_busy_items : Z;
  slab_reassign_busy_deletes : Z;
  slab_reassign_running : bool
}.

#[export] Instance stats_eta : Eta stats_t := fun s =>
  Stats (curr_items s) (curr_bytes s) (total_items s) (slabs_moved s) (slab_reassign_rescues s)
    (slab_reassign_evictions_nomem s) (slab_reassign_inline_reclaim s) (slab_reassign_chunk_rescues s)
    (slab_reassign_busy_items s) (slab_reassign_busy_deletes s) (slab_reassign_running s).

Definition stats0 : stats_t := Stats 0 0 0 0 0 0 0 0 0 0 false.
