(* ===== verification/Slabs.v ===== *)
(** * The slab allocator (src/slabs_curd/slabs.c)

    Memory is taken from malloc (or from one preallocated block) in pages; a page
    belongs to a class and is cut into chunks of the class's size; the free
    chunks of a class are a doubly linked list through the chunks themselves. *)

From S2P Require Import Prelude Heap Settings.
From Stdlib Require Import SpecFloat.

Definition POWER_SMALLEST : Z := 1.
Definition SLAB_GLOBAL_PAGE_POOL : Z := 0.
Definition CHUNK_ALIGN_BYTES : Z := 8.
Definition MAX_NUMBER_OF_SLAB_CLASSES : Z := 64.
Definition SLABS_ALLOC_NO_NEWPAGE : Z := 1.

(** slabclass_t.  [slab_list] is the array of [list_size] page pointers. *)
Record slabclass_t := SlabClass {
  csize : Z;
  perslab : Z;
  slots : Z;
  sl_curr : Z;
  slabs : Z;
  slab_list : list Z;
  list_size : Z;
  requested : Z
}.

#[export] Instance slabclass_eta : Eta slabclass_t := fun p =>
  SlabClass (csize p) (perslab p) (slots p) (sl_curr p) (slabs p) (slab_list p)
    (list_size p) (requested p).

#[export] Instance slabclass_eq_dec : EqDecision slabclass_t.
Proof. solve_decision. Defined.

Definition slabclass0 : slabclass_t := SlabClass 0 0 0 0 0 [] 0 0.

(** The globals of slabs.c, and what the C library will answer: [mallocs] are
    the results of the next calls of malloc (NULL when none is left),
    [reallocs] whether the next calls of realloc succeed (all later ones do). *)
Record slabs_t := Slabs {
  slabclass : gmap Z slabclass_t;
  mem_limit : Z;
  mem_malloced : Z;
  mem_limit_reached : bool;
  power_largest : Z;
  mem_base : Z;
  mem_current : Z;
  mem_avail : Z;
  mallocs : list Z;
  reallocs : list bool
}.

#[export] Instance slabs_eta : Eta slabs_t := fun s =>
  Slabs (slabclass s) (mem_limit s) (mem_malloced s) (mem_limit_reached s)
    (power_largest s) (mem_base s) (mem_current s) (mem_avail s) (mallocs s) (reallocs s).

Definition slabs_globals (mallocs : list Z) (reallocs : list bool) : slabs_t :=
  Slabs ∅ 0 0 false 0 0 0 0 mallocs reallocs.

(** slabclass[id], and an assignment to it. *)
Definition getc (s : slabs_t) (id : Z) : slabclass_t := default slabclass0 (slabclass s !! id).
Definition setc (s : slabs_t) (id : Z) (f : slabclass_t -> slabclass_t) : slabs_t :=
  s <| slabclass ::= <[id := f (getc s id)]> |>.

Section slabs.
Context (cfg : settings).

(** while (size > slabclass[res].size) if (res++ == power_largest) return power_largest; *)
Fixpoint clsid_loop (fuel : nat) (s : slabs_t) (size res : Z) : Z :=
  match fuel with
  | O => res
  | S fuel =>
      if decide (csize (getc s res) < size) then
        if decide (res = power_largest s) then power_largest s
        else clsid_loop fuel s size (res + 1)
      else res
  end.

Definition slabs_clsid (s : slabs_t) (size : Z) : Z :=
  if decide (size = 0 \/ item_size_max cfg < size) then 0
  else clsid_loop (Z.to_nat (power_largest s)) s size POWER_SMALLEST.

(** ** Freeing *)

(** it->prev = 0; it->next = p->slots; if (it->next) it->next->prev = it;
    p->slots = it; p->sl_curr++; *)
Definition freelist_push (id it : Z) (h : heap) (s : slabs_t) : heap * slabs_t :=
  let p := getc s id in
  let h := seti h it (fun i => i <| prev := 0 |> <| next := slots p |>) in
  let h := if decide (slots p = 0) then h
           else seti h (slots p) (fun i => i <| prev := it |>) in
  (h, setc s id (fun p => p <| slots := it |> <| sl_curr := u32 (sl_curr p + 1) |>)).

Definition sub_requested (id n : Z) (s : slabs_t) : slabs_t :=
  setc s id (fun p => p <| requested := u64 (requested p - n) |>).

(** while (chunk) { ... } *)
Fixpoint free_chunks (fuel : nat) (chunk : Z) (h : heap) (s : slabs_t) : res (heap * slabs_t) :=
  match fuel with
  | O => NoFuel
  | S fuel =>
      if decide (chunk = 0) then Ok (h, s)
      else if decide (it_flags (geti h chunk) <> ITEM_CHUNK) then Abort
      else
        let id := Heap.slabs_clsid (geti h chunk) in
        let next_chunk := next (geti h chunk) in
        let h := seti h chunk (fun i => i <| it_flags := ITEM_SLABBED |> <| Heap.slabs_clsid := 0 |>) in
        let '(h, s) := freelist_push id chunk h s in
        let s := sub_requested id (ch_size (geti h chunk) + sizeof_item_chunk) s in
        free_chunks fuel next_chunk h s
  end.

Definition do_slabs_free_chunked (it : Z) (h : heap) (s : slabs_t) : res (heap * slabs_t) :=
  let chunk := ITEM_data_addr it (geti h it) in
  let h := seti h it (fun i => i <| it_flags := ITEM_SLABBED |> <| Heap.slabs_clsid := 0 |>
                                 <| prev := 0 |>) in
  let id := ch_orig_clsid (geti h chunk) in
  let rest := next (geti h chunk) in
  let h := if decide (rest = 0) then h else seti h rest (fun c => c <| prev := 0 |>) in
  let '(h, s) := freelist_push id it h s in
  let i := geti h it in
  let s := sub_requested id (nkey i + 1 + nsuffix i + sizeof_item + sizeof_item_chunk) s in
  let s := if use_cas cfg then sub_requested id 8 s else s in
  free_chunks (S (size h)) rest h s.

Definition do_slabs_free (ptr size id : Z) (h : heap) (s : slabs_t) : res (heap * slabs_t) :=
  if decide (id < POWER_SMALLEST \/ power_largest s < id) then Abort
  else if has (geti h ptr) ITEM_CHUNKED then do_slabs_free_chunked ptr h s
  else
    let h := seti h ptr (fun i => i <| it_flags := ITEM_SLABBED |> <| Heap.slabs_clsid := 0 |>) in
    let '(h, s) := freelist_push id ptr h s in
    Ok (h, sub_requested id size s).

(** ** Pages *)

(** p->slab_list[i] = v: out of the array's bounds it is undefined. *)
Definition slab_list_set (id i v : Z) (s : slabs_t) : res slabs_t :=
  if decide (0 <= i < Z.of_nat (length (slab_list (getc s id))))
  then Ok (setc s id (fun p => p <| slab_list ::= <[Z.to_nat i := v]> |>))
  else Abort.

Definition malloc (s : slabs_t) : Z * slabs_t :=
  match mallocs s with
  | [] => (0, s)
  | p :: ps => (p, s <| mallocs := ps |>)
  end.

Definition realloc_ok (s : slabs_t) : bool * slabs_t :=
  match reallocs s with
  | [] => (true, s)
  | b :: bs => (b, s <| reallocs := bs |>)
  end.

(** The part of a grown array that realloc leaves uninitialised is filled with
    zeroes; the code does not read it. *)
Definition grow_slab_list (id : Z) (s : slabs_t) : Z * slabs_t :=
  let p := getc s id in
  if decide (slabs p = list_size p) then
    let new_size := if decide (list_size p <> 0) then u32 (list_size p * 2) else 16 in
    let '(ok, s) := realloc_ok s in
    if ok then
      (1, setc s id (fun p => p <| list_size := u32 new_size |>
             <| slab_list := resize (Z.to_nat new_size) 0 (slab_list p) |>))
    else (0, s)
  else (1, s).

Definition memory_allocate (size : Z) (s : slabs_t) : Z * slabs_t :=
  if decide (mem_base s = 0) then
    let '(ret, s) := malloc s in
    (ret, s <| mem_malloced := u64 (mem_malloced s + size) |>)
  else
    let ret := mem_current s in
    if decide (mem_avail s < size) then (0, s)
    else
      let size := if decide (size mod CHUNK_ALIGN_BYTES <> 0)
                  then size + (CHUNK_ALIGN_BYTES - size mod CHUNK_ALIGN_BYTES) else size in
      let s := s <| mem_current := mem_current s + size |> in
      let s := s <| mem_avail := if decide (size < mem_avail s) then mem_avail s - size else 0 |> in
      (ret, s <| mem_malloced := u64 (mem_malloced s + size) |>).

Definition get_page_from_global_pool (s : slabs_t) : Z * slabs_t :=
  let p := getc s SLAB_GLOBAL_PAGE_POOL in
  if decide (slabs p < 1) then (0, s)
  else
    let ret := nth (Z.to_nat (slabs p - 1)) (slab_list p) 0 in
    (ret, setc s SLAB_GLOBAL_PAGE_POOL (fun p => p <| slabs := u32 (slabs p - 1) |>)).

(** for (x = 0; x < p->perslab; x++) { do_slabs_free(ptr, 0, id); ptr += p->size; } *)
Fixpoint split_loop (n : nat) (ptr id : Z) (h : heap) (s : slabs_t) : res (heap * slabs_t) :=
  match n with
  | O => Ok (h, s)
  | S n =>
      '(h, s) ← do_slabs_free ptr 0 id h s;
      split_loop n (ptr + csize (getc s id)) id h s
  end.

Definition split_slab_page_into_freelist (ptr id : Z) (h : heap) (s : slabs_t) :
    res (heap * slabs_t) :=
  split_loop (Z.to_nat (perslab (getc s id))) ptr id h s.

(** memset(ptr, 0, len) *)
Definition memset0 (ptr len : Z) (h : heap) : heap :=
  filter (fun kv : Z * item => ~ (ptr <= kv.1 < ptr + len)) h.

Definition newslab_len (p : slabclass_t) : Z :=
  if slab_reassign cfg || negb (bool_decide (slab_chunk_size_max cfg = slab_page_size cfg))
  then slab_page_size cfg else s32 (csize p * perslab p).

Definition do_slabs_newslab (id : Z) (h : heap) (s : slabs_t) : res (Z * heap * slabs_t) :=
  let p := getc s id in
  let g := getc s SLAB_GLOBAL_PAGE_POOL in
  let len := newslab_len p in
  if decide (mem_limit s <> 0 /\ mem_limit s < u64 (mem_malloced s + len) /\
             0 < slabs p /\ slabs g = 0)
  then Ok (0, h, s <| mem_limit_reached := true |>)
  else
    let '(grown, s) := grow_slab_list id s in
    if decide (grown = 0) then Ok (0, h, s)
    else
      let '(ptr, s) := get_page_from_global_pool s in
      let '(ptr, s) := if decide (ptr = 0) then memory_allocate (u64 len) s else (ptr, s) in
      if decide (ptr = 0) then Ok (0, h, s)
      else
        let h := memset0 ptr (u64 len) h in
        '(h, s) ← split_slab_page_into_freelist ptr id h s;
        s ← slab_list_set id (slabs (getc s id)) ptr s;
        let s := setc s id (fun p => p <| slabs := u32 (slabs p + 1) |>) in
        Ok (1, h, s).

(** ** Allocating *)

(** it = p->slots; p->slots = it->next; ...; p->sl_curr--; ret = it; and
    p->requested += size. *)
Definition freelist_pop (size id : Z) (h : heap) (s : slabs_t) : Z * heap * slabs_t :=
  let it := slots (getc s id) in
  let n := next (geti h it) in
  let h := if decide (n = 0) then h else seti h n (fun i => i <| prev := 0 |>) in
  let h := seti h it (fun i => i <| it_flags := clear (it_flags i) ITEM_SLABBED |>
                                 <| refcount := 1 |>) in
  (it, h, setc s id (fun p => p <| slots := n |> <| sl_curr := u32 (sl_curr p - 1) |>
                                <| requested := u64 (requested p + size) |>)).

(** The chunk (0 for NULL), *total_bytes (None when it is not written). *)
Definition do_slabs_alloc (size id : Z) (flags : Z) (h : heap) (s : slabs_t) :
    res (Z * option Z * heap * slabs_t) :=
  if decide (id < POWER_SMALLEST \/ power_largest s < id) then Ok (0, None, h, s)
  else
    let p := getc s id in
    if decide (~ (sl_curr p = 0 \/ Heap.slabs_clsid (geti h (slots p)) = 0)) then Abort
    else
      let total_bytes := Some (requested p) in
      if decide (csize p < size) then Abort
      else
        '(h, s) ← (if decide (sl_curr p = 0 /\ flags <> SLABS_ALLOC_NO_NEWPAGE)
                   then '(_, h, s) ← do_slabs_newslab id h s; Ok (h, s)
                   else Ok (h, s));
        if decide (sl_curr (getc s id) <> 0) then
          let '(it, h, s) := freelist_pop size id h s in
          Ok (it, total_bytes, h, s)
        else Ok (0, total_bytes, h, s).

(** ** Initialisation *)

(** One class of the table: the chunk size rounded up to CHUNK_ALIGN_BYTES. *)
Definition align_size (size : Z) : Z :=
  if decide (size mod CHUNK_ALIGN_BYTES <> 0)
  then u32 (size + (CHUNK_ALIGN_BYTES - size mod CHUNK_ALIGN_BYTES)) else size.

Definition set_class (i size : Z) (s : slabs_t) : slabs_t :=
  setc s i (fun p => p <| csize := size |> <| perslab := slab_page_size cfg / size |>).

(** while (++i < MAX_NUMBER_OF_SLAB_CLASSES-1): returns the last i.  A size of 0 is a
    division by zero, which kills the process. *)
Fixpoint init_loop (fuel : nat) (fac : spec_float) (slab_sizes : option (list Z))
    (i size : Z) (s : slabs_t) : res (Z * slabs_t) :=
  match fuel with
  | O => NoFuel
  | S fuel =>
      let i := i + 1 in
      if decide (i < MAX_NUMBER_OF_SLAB_CLASSES - 1) then
        match slab_sizes with
        | Some sizes =>
            let given := nth (Z.to_nat (i - 1)) sizes 0 in
            if decide (given = 0) then Ok (i, s)
            else
              let size := align_size given in
              if decide (size = 0) then Abort
              else init_loop fuel fac slab_sizes i size (set_class i size s)
        | None =>
            if SFleb (b64_div (b64_of_Z (slab_chunk_size_max cfg)) fac) (b64_of_Z size)
            then Ok (i, s)
            else
              let size := align_size size in
              if decide (size = 0) then Abort
              else
                let s := set_class i size s in
                init_loop fuel fac slab_sizes i (u32 (b64_to_Z (b64_mul (b64_of_Z size) fac))) s
        end
      else Ok (i, s)
  end.

(** for (i = POWER_SMALLEST; i < MAX_NUMBER_OF_SLAB_CLASSES; i++) *)
Fixpoint preallocate_loop (fuel : nat) (maxslabs prealloc i : Z) (h : heap) (s : slabs_t) :
    res (heap * slabs_t) :=
  match fuel with
  | O => Ok (h, s)
  | S fuel =>
      if decide (i < MAX_NUMBER_OF_SLAB_CLASSES) then
        let prealloc := prealloc + 1 in
        if decide (maxslabs < prealloc) then Ok (h, s)
        else
          '(ok, h, s) ← do_slabs_newslab i h s;
          if decide (ok = 0) then Abort
          else preallocate_loop fuel maxslabs prealloc (i + 1) h s
      else Ok (h, s)
  end.

Definition slabs_preallocate (maxslabs : Z) (h : heap) (s : slabs_t) : res (heap * slabs_t) :=
  preallocate_loop 64 maxslabs 0 POWER_SMALLEST h s.

(** [initial_malloc] is the value of T_MEMD_INITIAL_MALLOC when it is set. *)
Definition slabs_init (limit : Z) (fac : spec_float) (prealloc : bool)
    (slab_sizes : option (list Z)) (initial_malloc : option Z) (h : heap) (s : slabs_t) :
    res (heap * slabs_t) :=
  let s := s <| mem_limit := limit |> in
  let s := if prealloc then
             let '(p, s) := malloc s in
             let s := s <| mem_base := p |> in
             if decide (p = 0) then s else s <| mem_current := p |> <| mem_avail := limit |>
           else s in
  let s := s <| slabclass := ∅ |> in
  '(i, s) ← init_loop 64 fac slab_sizes (POWER_SMALLEST - 1) (u32 (sizeof_item + chunk_size cfg)) s;
  let s := s <| power_largest := i |> in
  if decide (slab_chunk_size_max cfg = 0) then Abort
  else
  let s := setc s i (fun p => p <| csize := slab_chunk_size_max cfg |>
                                <| perslab := slab_page_size cfg / slab_chunk_size_max cfg |>) in
  let s := match initial_malloc with Some m => s <| mem_malloced := m |> | None => s end in
  if prealloc then slabs_preallocate (power_largest s) h s else Ok (h, s).
End slabs.

(** ** Page reassignment requests *)

Inductive reassign_result_type :=
  REASSIGN_OK | REASSIGN_RUNNING | REASSIGN_BADCLASS | REASSIGN_NOSPARE | REASSIGN_SRC_DST_SAME.

(** struct slab_rebalance, slab_rebalance_signal and the static [cur] of
    slab_reassign_pick_any. *)
Record rebal_t := Rebal {
  slab_start : Z;
  slab_end : Z;
  slab_pos : Z;
  s_clsid : Z;
  d_clsid : Z;
  busy_items : Z;
  rescues : Z;
  evictions_nomem : Z;
  inline_reclaim : Z;
  chunk_rescues : Z;
  busy_deletes : Z;
  busy_loops : Z;
  done_ : Z;
  slab_rebalance_signal : Z;
  pick_cur : Z
}.

#[export] Instance rebal_eta : Eta rebal_t := fun r =>
  Rebal (slab_start r) (slab_end r) (slab_pos r) (s_clsid r) (d_clsid r) (busy_items r)
    (rescues r) (evictions_nomem r) (inline_reclaim r) (chunk_rescues r) (busy_deletes r)
    (busy_loops r) (done_ r) (slab_rebalance_signal r) (pick_cur r).

Definition rebal0 : rebal_t := Rebal 0 0 0 0 0 0 0 0 0 0 0 0 0 0 (POWER_SMALLEST - 1).

(** for (; tries > 0; tries--): the class picked, or -1, and [cur]. *)
Fixpoint pick_loop (tries : nat) (dst cur : Z) (s : slabs_t) : Z * Z :=
  match tries with
  | O => (-1, cur)
  | S tries =>
      let cur := cur + 1 in
      let cur := if decide (power_largest s < cur) then POWER_SMALLEST else cur in
      if decide (cur = dst) then pick_loop tries dst cur s
      else if decide (1 < slabs (getc s cur)) then (cur, cur)
      else pick_loop tries dst cur s
  end.

Definition slab_reassign_pick_any (dst : Z) (s : slabs_t) (r : rebal_t) : Z * rebal_t :=
  let '(ret, cur) := pick_loop (Z.to_nat (power_largest s - POWER_SMALLEST + 1)) dst (pick_cur r) s in
  (ret, r <| pick_cur := cur |>).

Definition do_slabs_reassign (src dst : Z) (s : slabs_t) (r : rebal_t) :
    reassign_result_type * rebal_t :=
  if decide (slab_rebalance_signal r <> 0) then (REASSIGN_RUNNING, r)
  else if decide (src = dst) then (REASSIGN_SRC_DST_SAME, r)
  else
    let '(src, r) := if decide (src = -1) then slab_reassign_pick_any dst s r else (src, r) in
    if decide (src < SLAB_GLOBAL_PAGE_POOL \/ power_largest s < src \/
               dst < SLAB_GLOBAL_PAGE_POOL \/ power_largest s < dst)
    then (REASSIGN_BADCLASS, r)
    else if decide (slabs (getc s src) < 2) then (REASSIGN_NOSPARE, r)
    else (REASSIGN_OK, r <| s_clsid := src |> <| d_clsid := dst |> <| slab_rebalance_signal := 1 |>).

(** [trylock]: whether slabs_rebalance_lock was free. *)
Definition slabs_reassign (trylock : bool) (src dst : Z) (s : slabs_t) (r : rebal_t) :
    reassign_result_type * rebal_t :=
  if trylock then do_slabs_reassign src dst s r else (REASSIGN_RUNNING, r).

(** ** Tests of the definitions *)

(** The classes of the default settings. *)
Definition default_slabs : res (heap * slabs_t) :=
  slabs_init settings_init (64 * 1024 * 1024) b64_1_25 false None None ∅ (slabs_globals [] []).

(** ** Class ids *)

(** The chunk sizes grow with the class. *)
Definition sizes_sorted (s : slabs_t) : Prop :=
  forall i j, 1 <= i <= j -> j <= power_largest s -> csize (getc s i) <= csize (getc s j).

Lemma clsid_loop_spec s size fuel r : sizes_sorted s ->
  1 <= r <= power_largest s -> power_largest s - r < Z.of_nat fuel ->
  (forall j, 1 <= j < r -> csize (getc s j) < size) ->
  let c := clsid_loop fuel s size r in
  1 <= c <= power_largest s /\ (forall j, 1 <= j < c -> csize (getc s j) < size) /\
  (size <= csize (getc s c) \/ c = power_largest s).
Proof.
  intros Hs. revert r. induction fuel as [|fuel IH]; intros r Hr Hf Hlt; simpl; [lia|].
  destruct (decide (csize (getc s r) < size)) as [Hc|Hc].
  - destruct (decide (r = power_largest s)) as [->|Hne].
    + split_and!; [lia|lia|done|by right].
    + apply IH; [lia|lia|]. intros j Hj. destruct (decide (j = r)) as [->|]; [done|apply Hlt; lia].
  - split_and!; [lia|lia|done|left; lia].
Qed.

Lemma getc_setc_eq s id f : getc (setc s id f) id = f (getc s id).
Proof. unfold getc, setc. simpl. by rewrite lookup_insert_eq. Qed.

Lemma getc_setc_ne s id id' f : id <> id' -> getc (setc s id f) id' = getc s id'.
Proof. intros. unfold getc, setc. simpl. by rewrite lookup_insert_ne. Qed.

Lemma getc_setc s id id' f :
  getc (setc s id f) id' = if decide (id = id') then f (getc s id') else getc s id'.
Proof. case_decide; [subst; apply getc_setc_eq|by apply getc_setc_ne]. Qed.

(** The globals other than the classes. *)
Definition sscalars (s : slabs_t) := (mem_limit s, mem_malloced s, mem_limit_reached s,
  power_largest s, mem_base s, mem_current s, mem_avail s, mallocs s, reallocs s).

Lemma sscalars_setc s id f : sscalars (setc s id f) = sscalars s.
Proof. done. Qed.

(** ** The allocator's state

    [F id] is the free list of class [id], from its head. *)

Definition pages (p : slabclass_t) : list Z := take (Z.to_nat (slabs p)) (slab_list p).
Definition page_chunks (p : slabclass_t) (base : Z) : list Z :=
  (fun k => base + csize p * k) <$> seqZ 0 (perslab p).
Definition class_chunks (p : slabclass_t) : list Z := pages p ≫= page_chunks p.

Definition free_chunk (i : item) : Prop := it_flags i = ITEM_SLABBED /\ Heap.slabs_clsid i = 0.

Record freelist (h : heap) (p : slabclass_t) (l : list Z) : Prop := {
  fl_dll : dll h (slots p) (default 0 (last l)) l;
  fl_curr : sl_curr p = Z.of_nat (length l);
  fl_free x : x ∈ l -> free_chunk (geti h x)
}.

Definition same_lists (p q : slabclass_t) : Prop := slots p = slots q /\ sl_curr p = sl_curr q.

Lemma freelist_frame h h' p q l : freelist h p l -> same_lists p q ->
  (forall x, x ∈ l -> links (geti h x) = links (geti h' x) /\
     it_flags (geti h x) = it_flags (geti h' x) /\
     Heap.slabs_clsid (geti h x) = Heap.slabs_clsid (geti h' x)) ->
  freelist h' q l.
Proof.
  intros [Hd Hc Hf] [E1 E2] Hag. split.
  - rewrite <- E1. eapply dll_frame; [|exact Hd]. intros x Hx. by apply Hag.
  - by rewrite <- E2.
  - intros x Hx. destruct (Hag x Hx) as (_ & Ef & Ec). unfold free_chunk.
    rewrite <- Ef, <- Ec. by apply Hf.
Qed.

(** it->it_flags = ITEM_SLABBED; it->slabs_clsid = 0; and the push. *)
Lemma freelist_push_spec id x h s l : freelist h (getc s id) l -> x ∉ l -> x <> 0 ->
  free_chunk (geti h x) -> Z.of_nat (length l) + 1 < 2 ^ 32 ->
  let '(h', s') := freelist_push id x h s in
  freelist h' (getc s' id) (x :: l) /\
  s' = setc s id (fun p => p <| slots := x |> <| sl_curr := sl_curr (getc s' id) |>) /\
  (forall y, y <> x -> y ∉ l -> geti h' y = geti h y) /\
  (forall y, geti h' y = (geti h y) <| next := next (geti h' y) |> <| prev := prev (geti h' y) |>) /\
  (forall y, is_Some (h !! y) -> is_Some (h' !! y)) /\ is_Some (h' !! x).
Proof.
  intros [Hd Hc Hf] Hx Hx0 Hfx Hlen. unfold freelist_push.
  set (h1 := seti h x _). set (h2 := if decide _ then _ else _).
  set (hd := slots (getc s id)) in *.
  assert (hd <> 0 -> hd ∈ l) as Hhd.
  { destruct Hd as (_ & -> & _). destruct l; simpl; [done|]. set_solver. }
  assert (forall y, geti h2 y = if decide (y = x) then (geti h x) <| prev := 0 |> <| next := hd |>
            else if decide (y = hd /\ hd <> 0) then (geti h y) <| prev := x |> else geti h y) as Hg.
  { intros y. unfold h2, h1. destruct (decide (hd = 0)) as [E|E].
    - rewrite geti_seti. destruct (decide (x = y)) as [->|]; [by rewrite decide_True|].
      rewrite decide_False by done. by rewrite decide_False by tauto.
    - assert (hd <> x) by (intros E'; apply Hx; rewrite <- E'; auto).
      rewrite !geti_seti. destruct (decide (y = x)) as [->|].
      + by rewrite decide_False, decide_True by done.
      + rewrite (decide_False (P := x = y)) by done. destruct (decide (hd = y)) as [->|].
        * by rewrite decide_True by done.
        * by rewrite decide_False by (intros [? ?]; done). }
  assert (forall y, is_Some (h !! y) -> is_Some (h2 !! y)) as Hdom.
  { intros y Hy. unfold h2, h1. destruct (decide _); repeat apply seti_dom; done. }
  assert (is_Some (h2 !! x)) as Hdx
    by (unfold h2, h1; destruct (decide _); [|apply seti_dom]; apply seti_dom_eq).
  clearbody h2. split_and!; [|by rewrite getc_setc_eq|..|done|done].
  - rewrite getc_setc_eq. split; simpl.
    + rewrite last_cons_default.
      replace (default x (last l)) with
        (if decide (default 0 (last l) = 0) then x else default 0 (last l)).
      1: apply (dll_push h h2 hd _ l x Hd Hx Hx0).
      * rewrite Hg, decide_True by done. done.
      * intros y Hy Hyx. rewrite Hg, decide_False by done. unfold links.
        destruct (decide (y = hd)) as [->|]; [rewrite decide_True by done; done|].
        rewrite decide_False by tauto. done.
      * destruct (last l) as [z|] eqn:E; simpl; [|done].
        rewrite decide_False; [done|]. apply last_Some_elem_of in E.
        destruct Hd as (Hd & _). by eapply dseg_nonzero.
    + rewrite Hc, wrap_small; [lia|]. unfold in_u. lia.
    + intros y Hy. unfold free_chunk. rewrite Hg.
      apply elem_of_cons in Hy as [->|Hy]; [by rewrite decide_True|].
      specialize (Hf y Hy). unfold free_chunk in *.
      repeat (destruct (decide _)); subst; done.
  - intros y Hyx Hyl. rewrite Hg, decide_False, decide_False; [done| |done].
    intros [-> H]. auto.
  - intros y. rewrite Hg. destruct (decide (y = x)) as [->|]; [by destruct (geti h x)|].
    destruct (decide _); by destruct (geti h y).
Qed.

Lemma freelist_pop_spec h h' p q x l : freelist h p (x :: l) ->
  slots q = next (geti h x) -> sl_curr q = sl_curr p - 1 ->
  (forall y, y <> 0 -> y <> x -> geti h' y =
     if decide (y = next (geti h x)) then (geti h y) <| prev := 0 |> else geti h y) ->
  freelist h' q l /\ next (geti h x) = default 0 (head l) /\ x <> 0 /\ x ∉ l.
Proof.
  intros [Hd Hc Hf] E1 E2 Hag. pose proof Hd as (Hs & Hhd & _ & Hnd).
  destruct (dseg_elem h 0 [] x l 0 Hs) as (Hx0 & Hn & Hp). simpl in Hp.
  apply NoDup_cons in Hnd as [Hx Hnd].
  assert (forall y, y ∈ l -> y <> 0 /\ y <> x) as Hyl.
  { intros y Hy. split; [eapply dseg_nonzero; [exact Hs|set_solver]|by intros ->]. }
  split_and!; try done. split.
  - assert (dll h' (if decide (slots p = x) then next (geti h x) else slots p)
      (if decide (default 0 (last (x :: l)) = x) then prev (geti h x)
       else default 0 (last (x :: l))) l) as Hd'.
    { apply (dll_remove h h' (slots p) _ [] x l); [done|]. intros y Hy0 Hyx.
      rewrite Hag by done. rewrite Hp, (decide_False (P := y = 0)) by done.
      unfold links. by destruct (decide (y = next (geti h x))). }
    rewrite decide_True in Hd' by done. rewrite E1.
    destruct Hd' as (H1 & H2 & H3 & H4). split_and!; try done. 
  - rewrite E2, Hc. simpl. lia.
  - intros y Hy. destruct (Hyl y Hy). unfold free_chunk. rewrite Hag by done.
    pose proof (Hf y (list_elem_of_further _ _ _ Hy)) as Hfy.
    by destruct (decide (y = _)).
Qed.

(** ** Pages that do not overlap *)

Section spaced.
Context (sz : Z).

Fixpoint spaced (L : list Z) : Prop :=
  match L with
  | [] => True
  | p :: L => 0 < p /\ (forall q, q ∈ L -> p + sz <= q \/ q + sz <= p) /\ spaced L
  end.

Lemma spaced_app L1 L2 : spaced (L1 ++ L2) <->
  spaced L1 /\ spaced L2 /\ forall p q, p ∈ L1 -> q ∈ L2 -> p + sz <= q \/ q + sz <= p.
Proof.
  induction L1 as [|p L1 IH]; simpl; [set_solver|].
  rewrite IH. setoid_rewrite elem_of_app. setoid_rewrite elem_of_cons. naive_solver.
Qed.

#[global] Instance spaced_perm : Proper (Permutation ==> iff) spaced.
Proof.
  intros L1 L2 H. induction H as [|p L1 L2 H IH|p q L|L1 L2 L3 _ IH1 _ IH2]; simpl.
  - done.
  - rewrite IH. setoid_rewrite H. done.
  - setoid_rewrite elem_of_cons. naive_solver lia.
  - by rewrite IH1.
Qed.

Lemma spaced_pos L p : spaced L -> p ∈ L -> 0 < p.
Proof. induction L; simpl; [set_solver|]. intros (? & _ & ?) [->|?]%elem_of_cons; auto. Qed.

Definition in_page (p x : Z) : Prop := p <= x < p + sz.

Lemma spaced_split L L' p x : spaced L -> L ≡ₚ p :: L' -> in_page p x ->
  forall q, q ∈ L' -> ~ in_page q x.
Proof.
  intros Hs Hp Hx q Hq Hqx. rewrite Hp in Hs. destruct Hs as (_ & H & _).
  specialize (H q Hq). unfold in_page in *. lia.
Qed.
End spaced.

(** ** The invariant *)

Section inv.
Context (cfg : settings).
Let page : Z := slab_page_size cfg.

Definition all_pages (s : slabs_t) : list Z :=
  seqZ 0 (power_largest s + 1) ≫= fun id => pages (getc s id).

(** The pages malloc, or the preallocated block, can still give. *)
Definition nonnull (l : list Z) : list Z := filter (fun p => p <> 0) l.
Definition remaining (s : slabs_t) : Z :=
  if decide (mem_base s = 0) then Z.of_nat (length (nonnull (mallocs s)))
  else mem_avail s / page.

(** Pages in use, pages [E] in transit, and pages to come do not overlap. *)
Definition src_ok (s : slabs_t) (E : list Z) : Prop :=
  if decide (mem_base s = 0) then spaced page (all_pages s ++ E ++ nonnull (mallocs s))
  else spaced page (all_pages s ++ E) /\ 0 < mem_current s /\ 0 <= mem_avail s /\
       forall q, q ∈ all_pages s ++ E -> q + page <= mem_current s.

Definition free_lists : Type := Z -> list Z.

(** [cap] bounds the number of pages there can ever be. *)
Record slab_inv (cap : Z) (E : list Z) (h : heap) (s : slabs_t) (F : free_lists) : Prop := {
  si_pl : 1 <= power_largest s < MAX_NUMBER_OF_SLAB_CLASSES;
  si_page : 0 < page < 2 ^ 31;
  si_cap : 0 <= cap /\ 2 * cap + 16 < 2 ^ 31 /\
    Z.of_nat (length (all_pages s)) + Z.of_nat (length E) + remaining s <= cap;
  si_class id : 1 <= id <= power_largest s ->
    0 < csize (getc s id) /\ 0 <= perslab (getc s id) /\
    perslab (getc s id) * csize (getc s id) <= page /\ perslab (getc s id) * cap < 2 ^ 32;
  si_list id : 0 <= id <= power_largest s ->
    0 <= slabs (getc s id) <= list_size (getc s id) /\
    Z.of_nat (length (slab_list (getc s id))) = list_size (getc s id) /\
    list_size (getc s id) <= 2 * cap + 16;
  si_free id : 1 <= id <= power_largest s -> freelist h (getc s id) (F id);
  si_sub id x : 1 <= id <= power_largest s -> x ∈ F id -> x ∈ class_chunks (getc s id);
  si_src : src_ok s E
}.

Lemma page_chunks_elem p base x : 0 < csize p -> 0 <= perslab p ->
  x ∈ page_chunks p base <-> exists k, 0 <= k < perslab p /\ x = base + csize p * k.
Proof.
  intros. unfold page_chunks. rewrite list_elem_of_fmap. setoid_rewrite elem_of_seqZ.
  split; intros (k & H1 & H2); exists k; split; (done || lia).
Qed.

Lemma page_chunks_NoDup p base : 0 < csize p -> NoDup (page_chunks p base).
Proof.
  intros. unfold page_chunks. apply NoDup_fmap_2_strong; [|apply NoDup_seqZ].
  intros x y _ _ E. nia.
Qed.

Lemma page_chunk_in p base x : 0 < csize p -> 0 <= perslab p -> perslab p * csize p <= page ->
  x ∈ page_chunks p base -> in_page page base x /\ x + csize p <= base + page.
Proof.
  intros Hc Hp Hpage Hx. apply page_chunks_elem in Hx as (k & Hk & ->); [|done|done].
  unfold in_page. nia.
Qed.

Lemma class_chunk_page p x : x ∈ class_chunks p <->
  exists q, q ∈ pages p /\ x ∈ page_chunks p q.
Proof. unfold class_chunks. rewrite list_elem_of_bind. naive_solver. Qed.

Lemma all_pages_elem s q : q ∈ all_pages s <->
  exists id, 0 <= id <= power_largest s /\ q ∈ pages (getc s id).
Proof.
  unfold all_pages. rewrite list_elem_of_bind. setoid_rewrite elem_of_seqZ.
  split; intros (id & H1 & H2); exists id; split; (done || lia).
Qed.

(** The pages of one class, and those of the others. *)
Definition other_pages (s : slabs_t) (id : Z) : list Z :=
  (seqZ 0 id ≫= fun id => pages (getc s id)) ++
  (seqZ (id + 1) (power_largest s - id) ≫= fun id => pages (getc s id)).

Lemma all_pages_split s id : 0 <= id <= power_largest s ->
  all_pages s ≡ₚ pages (getc s id) ++ other_pages s id.
Proof.
  intros H. unfold all_pages, other_pages.
  replace (power_largest s + 1) with (id + (1 + (power_largest s - id))) by lia.
  rewrite seqZ_app, bind_app by lia. rewrite Z.add_0_l.
  rewrite (seqZ_app id 1), bind_app by lia.
  replace (seqZ id 1) with [id] by (unfold seqZ; simpl; f_equal; lia).
  cbn [mbind list_bind]. rewrite app_nil_r. apply Permutation_app_swap_app.
Qed.

Lemma other_pages_elem s id q : 0 <= id <= power_largest s ->
  q ∈ other_pages s id <-> exists id', 0 <= id' <= power_largest s /\ id' <> id /\ q ∈ pages (getc s id').
Proof.
  intros H. unfold other_pages. rewrite elem_of_app, !list_elem_of_bind.
  split.
  - intros [(i & H2 & H1%elem_of_seqZ)|(i & H2 & H1%elem_of_seqZ)]; exists i;
      (split_and!; [lia|lia|lia|done]).
  - intros (i & H1 & H2 & H3).
    destruct (decide (i < id)); [left|right]; exists i; (split; [done|]); apply elem_of_seqZ; lia.
Qed.

Lemma src_spaced s E : src_ok s E -> spaced page (all_pages s ++ E).
Proof.
  unfold src_ok. case_decide; [|by intros []]. rewrite app_assoc. by intros [? _]%spaced_app.
Qed.

(** A chunk belongs to one page and so to one class. *)
Lemma pages_unique s E id1 id2 q1 q2 x : src_ok s E ->
  0 <= id1 <= power_largest s -> 0 <= id2 <= power_largest s ->
  q1 ∈ pages (getc s id1) -> q2 ∈ pages (getc s id2) ->
  in_page page q1 x -> in_page page q2 x -> id1 = id2 /\ q1 = q2.
Proof.
  intros Hsrc H1 H2 Hq1 Hq2 Hx1 Hx2. apply src_spaced, spaced_app in Hsrc as (Hs & _).
  assert (id1 = id2) as <-.
  { destruct (decide (id1 = id2)) as [|Hne]; [done|]. exfalso.
    rewrite (all_pages_split s id1 H1) in Hs. apply spaced_app in Hs as (_ & _ & Hs).
    assert (q2 ∈ other_pages s id1) as Hq by (apply other_pages_elem; eauto).
    specialize (Hs q1 q2 Hq1 Hq). unfold in_page in *. lia. }
  split; [done|]. rewrite (all_pages_split s id1 H1) in Hs. apply spaced_app in Hs as (Hs & _).
  apply elem_of_Permutation in Hq1 as (L & HL). destruct (decide (q1 = q2)) as [|Hne]; [done|].
  exfalso. rewrite HL in Hs, Hq2. apply elem_of_cons in Hq2 as [->|Hq2]; [done|].
  destruct Hs as (_ & Hs & _). specialize (Hs q2 Hq2). unfold in_page in *. lia.
Qed.

(** *** Steps that move chunks between the lists and their users *)

Definition geom (p : slabclass_t) := (csize p, perslab p, slabs p, slab_list p, list_size p).
Definition upd (F : free_lists) (id : Z) (l : list Z) : free_lists :=
  fun i => if decide (i = id) then l else F i.

Lemma geom_chunks p q : geom p = geom q -> class_chunks p = class_chunks q /\ pages p = pages q.
Proof. destruct p, q. unfold geom. simpl. intros [=]. by subst. Qed.

Lemma geom_all_pages s s' : power_largest s' = power_largest s ->
  (forall i, geom (getc s' i) = geom (getc s i)) -> all_pages s' = all_pages s.
Proof.
  intros E H. unfold all_pages. rewrite E. apply list_bind_ext; [|done].
  intros i. by apply geom_chunks.
Qed.

Lemma slab_inv_lists cap E h s F h' s' id l :
  slab_inv cap E h s F -> 1 <= id <= power_largest s -> sscalars s' = sscalars s ->
  (forall i, geom (getc s' i) = geom (getc s i)) ->
  (forall i, i <> id -> same_lists (getc s i) (getc s' i)) ->
  freelist h' (getc s' id) l -> (forall x, x ∈ l -> x ∈ class_chunks (getc s id)) ->
  (forall i y, 1 <= i <= power_largest s -> i <> id -> y ∈ F i -> geti h' y = geti h y) ->
  slab_inv cap E h' s' (upd F id l).
Proof.
  intros I Hid Hsc Hg Hl Hfl Hsub Hag. pose proof Hsc as [= E1 E2 E3 E4 E5 E6 E7 E8 E9].
  pose proof (geom_all_pages s s' E4 Hg) as Eall.
  split; rewrite ?E4.
  - apply I.
  - apply I.
  - rewrite Eall. unfold remaining. rewrite E5, E7, E8. apply I.
  - intros i Hi. pose proof (Hg i) as [= -> -> _ _ _]. by apply I.
  - intros i Hi. pose proof (Hg i) as [= _ _ -> -> ->]. by apply I.
  - intros i Hi. unfold upd. destruct (decide (i = id)) as [->|Hne]; [done|].
    eapply freelist_frame; [by apply I|by apply Hl|]. intros x Hx. by rewrite (Hag i).
  - intros i x Hi. unfold upd. rewrite (proj1 (geom_chunks _ _ (Hg i))).
    destruct (decide (i = id)) as [->|Hne]; [apply Hsub|by apply I].
  - unfold src_ok. rewrite Eall, E5, E6, E7, E8. apply I.
Qed.

Lemma chunk_in_page cap E h s F id x : slab_inv cap E h s F -> 1 <= id <= power_largest s ->
  x ∈ class_chunks (getc s id) ->
  exists q, q ∈ pages (getc s id) /\ in_page page q x /\ x + csize (getc s id) <= q + page /\ 0 < x.
Proof.
  intros I Hid Hx. apply class_chunk_page in Hx as (q & Hq & Hx).
  destruct (si_class _ _ _ _ _ I id Hid) as (H1 & H2 & H3 & _).
  destruct (page_chunk_in _ _ _ H1 H2 H3 Hx) as [Hi Hend]. exists q. split_and!; try done.
  assert (0 < q); [|unfold in_page in Hi; lia].
  eapply spaced_pos; [apply (src_spaced _ _ (si_src _ _ _ _ _ I))|].
  apply elem_of_app. left. apply all_pages_elem. exists id. split; [lia|done].
Qed.

(** Chunks of different classes are different. *)
Lemma chunk_class_unique cap E h s F i j x : slab_inv cap E h s F ->
  1 <= i <= power_largest s -> 1 <= j <= power_largest s ->
  x ∈ class_chunks (getc s i) -> x ∈ class_chunks (getc s j) -> i = j.
Proof.
  intros I Hi Hj Hx Hy. destruct (chunk_in_page _ _ _ _ _ _ _ I Hi Hx) as (q1 & Hq1 & Hx1 & _).
  destruct (chunk_in_page _ _ _ _ _ _ _ I Hj Hy) as (q2 & Hq2 & Hx2 & _).
  eapply (pages_unique s E i j q1 q2 x); try done; [apply I|lia|lia].
Qed.

(** Two chunks of a class are the same or do not overlap. *)
Lemma chunks_disjoint cap E h s F i j x y : slab_inv cap E h s F ->
  1 <= i <= power_largest s -> 1 <= j <= power_largest s ->
  x ∈ class_chunks (getc s i) -> y ∈ class_chunks (getc s j) -> x <> y ->
  x + csize (getc s i) <= y \/ y + csize (getc s j) <= x.
Proof.
  intros I Hi Hj Hx Hy Hne.
  destruct (chunk_in_page _ _ _ _ _ _ _ I Hi Hx) as (q1 & Hq1 & Hx1 & He1 & _).
  destruct (chunk_in_page _ _ _ _ _ _ _ I Hj Hy) as (q2 & Hq2 & Hx2 & He2 & _).
  apply class_chunk_page in Hx as (p1 & Hp1 & Hx). apply class_chunk_page in Hy as (p2 & Hp2 & Hy).
  destruct (si_class _ _ _ _ _ I i Hi) as (H1 & H2 & H3 & _).
  destruct (si_class _ _ _ _ _ I j Hj) as (H4 & H5 & H6 & _).
  destruct (decide (q1 = q2)) as [->|Hq].
  - destruct (pages_unique s E i j q2 q2 q2) as [<- _]; try done; try lia;
      [apply I|unfold in_page in *; lia..|].
    destruct (page_chunk_in _ _ _ H1 H2 H3 Hx) as [Hp1x _].
    destruct (page_chunk_in _ _ _ H4 H5 H6 Hy) as [Hp2y _].
    destruct (pages_unique s E i i p1 q2 x) as [_ ->]; try done; try lia; [apply I|].
    destruct (pages_unique s E i i p2 q2 y) as [_ ->]; try done; try lia; [apply I|].
    apply page_chunks_elem in Hx as (k1 & Hk1 & ->), Hy as (k2 & Hk2 & ->); try done.
    assert (k1 <> k2) by (intros ->; done). destruct (decide (k1 < k2)); [left|right]; nia.
  - assert (q1 + page <= q2 \/ q2 + page <= q1) as Hd; [|unfold in_page in *; lia].
    pose proof (si_src _ _ _ _ _ I) as Hs. apply src_spaced, spaced_app in Hs as (Hs & _).
    assert (q1 ∈ all_pages s) as Ha1 by (apply all_pages_elem; exists i; split; [lia|done]).
    assert (q2 ∈ all_pages s) as Ha2 by (apply all_pages_elem; exists j; split; [lia|done]).
    apply elem_of_Permutation in Ha1 as (L & HL). rewrite HL in Hs, Ha2.
    apply elem_of_cons in Ha2 as [->|Ha2]; [done|]. by apply Hs.
Qed.

(** *** do_slabs_free *)

Lemma do_slabs_free_inv cap E h s F ptr size id : slab_inv cap E h s F ->
  1 <= id <= power_largest s -> ptr ∈ class_chunks (getc s id) -> ptr ∉ F id ->
  has (geti h ptr) ITEM_CHUNKED = false ->
  Z.of_nat (length (F id)) + 1 < 2 ^ 32 ->
  exists h' s', do_slabs_free cfg ptr size id h s = Ok (h', s') /\
    slab_inv cap E h' s' (upd F id (ptr :: F id)) /\
    (forall y, y <> ptr -> y ∉ F id -> geti h' y = geti h y) /\
    sscalars s' = sscalars s /\ (forall i, geom (getc s' i) = geom (getc s i)) /\
    (forall i, requested (getc s' i) =
       if decide (i = id) then u64 (requested (getc s i) - size) else requested (getc s i)).
Proof.
  intros I Hid Hptr Hnew Hch Hlen. unfold do_slabs_free.
  rewrite decide_False by (unfold POWER_SMALLEST; lia). rewrite Hch.
  set (h1 := seti h ptr _).
  destruct (chunk_in_page _ _ _ _ _ _ _ I Hid Hptr) as (_ & _ & _ & _ & Hpos).
  assert (freelist h1 (getc s id) (F id)) as Hfl.
  { eapply freelist_frame; [by apply (si_free _ _ _ _ _ I)|done|]. intros x Hx.
    unfold h1. rewrite geti_seti_ne; [done|]. by intros ->. }
  assert (free_chunk (geti h1 ptr)) as Hfree by (unfold h1; rewrite geti_seti_eq; done).
  pose proof (freelist_push_spec id ptr h1 s (F id) Hfl Hnew ltac:(lia) Hfree Hlen) as Hp.
  destruct (freelist_push id ptr h1 s) as [h2 s2] eqn:Ep.
  destruct Hp as (Hf2 & Es2 & Hag & _). set (s3 := sub_requested id size s2).
  assert (forall i, geom (getc s3 i) = geom (getc s i)) as Hg.
  { intros i. unfold s3, sub_requested. rewrite Es2, !getc_setc. by repeat case_decide. }
  exists h2, s3. split; [done|].
  assert (forall y, y <> ptr -> y ∉ F id -> geti h2 y = geti h y) as Hag'.
  { intros y H1 H2. rewrite Hag by done. unfold h1. by rewrite geti_seti_ne. }
  split_and!; [|done|by unfold s3; rewrite Es2|done|].
  - eapply slab_inv_lists; [exact I|done|by unfold s3; rewrite Es2|done|..].
    + intros i Hi. unfold s3, sub_requested. rewrite Es2, !getc_setc_ne by done. done.
    + eapply freelist_frame; [exact Hf2| |done]. unfold s3, sub_requested. by rewrite getc_setc_eq.
    + intros x [->|Hx]%elem_of_cons; [done|by eapply I].
    + intros i y Hi Hne Hy. apply Hag'.
      * intros ->. apply Hne. eapply chunk_class_unique; [exact I|done|done| |done]. by eapply I.
      * intros Hy'. apply Hne. eapply chunk_class_unique; [exact I|done|done|by eapply I|by eapply I].
  - intros i. unfold s3, sub_requested. rewrite Es2, !getc_setc.
    by destruct (decide (id = i)) as [->|]; [rewrite decide_True|rewrite decide_False by congruence].
Qed.

(** *** New pages *)

(** What growing the page list and taking pages leave alone. *)
Definition lists (p : slabclass_t) := (csize p, perslab p, slots p, sl_curr p, requested p).

Lemma pages_resize p n : 0 <= slabs p <= Z.of_nat (length (slab_list p)) ->
  Z.of_nat (length (slab_list p)) <= Z.of_nat n ->
  take (Z.to_nat (slabs p)) (resize n 0 (slab_list p)) = pages p.
Proof.
  intros H1 H2. unfold pages. rewrite resize_ge by lia. rewrite take_app_le by lia. done.
Qed.

Lemma grow_slab_list_inv cap E h s F id : slab_inv cap E h s F -> 0 <= id <= power_largest s ->
  slabs (getc s id) <= cap ->
  let '(r, s') := grow_slab_list id s in
  slab_inv cap E h s' F /\ (r = 0 \/ slabs (getc s' id) < list_size (getc s' id)) /\
  (forall i, lists (getc s' i) = lists (getc s i) /\ pages (getc s' i) = pages (getc s i) /\
     slabs (getc s' i) = slabs (getc s i)) /\
  s' = s <| slabclass := slabclass s' |> <| reallocs := reallocs s' |>.
Proof.
  intros I Hid Hcap. unfold grow_slab_list.
  pose proof (si_list _ _ _ _ _ I id Hid) as (Hs & Hlen & Hls).
  pose proof (si_cap _ _ _ _ _ I) as (Hc0 & Hc1 & _).
  destruct (decide (slabs (getc s id) = list_size (getc s id))) as [E1|E1].
  2: { split_and!; [done|right; lia|done|by destruct s]. }
  set (n := if decide _ then _ else _).
  assert (list_size (getc s id) <= n <= 2 * cap + 16 /\ list_size (getc s id) < n /\ u32 n = n) as (Hn & Hn' & Hu).
  { assert (0 <= u32 (list_size (getc s id) * 2) <= list_size (getc s id) * 2).
    { rewrite wrap_small; [lia|]. unfold in_u. norm_pow2. lia. }
    unfold n. destruct (decide (list_size (getc s id) <> 0)).
    - rewrite (wrap_small 32 (list_size (getc s id) * 2)) by (unfold in_u; norm_pow2; lia).
      rewrite wrap_small by (unfold in_u; norm_pow2; lia). lia.
    - rewrite wrap_small by (unfold in_u; norm_pow2; lia). lia. }
  destruct (realloc_ok s) as [ok s1] eqn:Er.
  assert (s1 = s <| reallocs := reallocs s1 |>) as Es1.
  { clear -Er. destruct s as [? ? ? ? ? ? ? ? ? rl]. unfold realloc_ok in Er. simpl in Er.
    by destruct rl; injection Er as <- <-. }
  assert (forall i, getc s1 i = getc s i) as Hg1 by (rewrite Es1; done).
  assert (slab_inv cap E h s1 F) as I1.
  { rewrite Es1. destruct I. by split. }
  destruct ok.
  2: { split_and!; [done|by left|intros i; by rewrite Hg1|rewrite Es1; by destruct s]. }
  rewrite Hu. set (s2 := setc s1 id _).
  assert (forall i, i <> id -> getc s2 i = getc s i) as Hne
    by (intros; unfold s2; rewrite getc_setc_ne by done; by rewrite Hg1).
  assert (getc s2 id = (getc s id) <| list_size := n |>
    <| slab_list := resize (Z.to_nat n) 0 (slab_list (getc s id)) |>) as Heq
    by (unfold s2; rewrite getc_setc_eq, Hg1; done).
  assert (forall i, lists (getc s2 i) = lists (getc s i) /\ pages (getc s2 i) = pages (getc s i) /\
     slabs (getc s2 i) = slabs (getc s i)) as Hsame.
  { intros i. destruct (decide (i = id)) as [->|]; [|by rewrite Hne].
    rewrite Heq. split; [done|]. split; [|done].
    unfold pages at 1. simpl. apply pages_resize; lia. }
  assert (all_pages s2 = all_pages s1) as Eall.
  { unfold all_pages. apply list_bind_ext; [|done]. intros i. rewrite Hg1. apply Hsame. }
  assert (forall i, class_chunks (getc s2 i) = class_chunks (getc s1 i)) as Ecc.
  { intros i. destruct (Hsame i) as (El & Ep & _). rewrite Hg1. unfold class_chunks.
    rewrite Ep. apply list_bind_ext; [|done]. intros q. unfold page_chunks.
    injection El as E2 E3 _ _ _. by rewrite E2, E3. }
  split_and!; [|right; rewrite Heq; simpl; lia|done|by unfold s2; rewrite Es1].
  split; try apply I1.
  - rewrite Eall. apply I1.
  - intros i Hi. pose proof (proj1 (Hsame i)) as [= -> -> _ _ _]. rewrite <- Hg1. by apply I1.
  - intros i Hi. destruct (decide (i = id)) as [->|].
    + rewrite Heq. simpl. rewrite length_resize. lia.
    + rewrite Hne, <- Hg1 by done. by apply I1.
  - intros i Hi. eapply freelist_frame; [by apply (si_free _ _ _ _ _ I1)| |done].
    pose proof (proj1 (Hsame i)) as [= _ _ E3 E4 _]. rewrite Hg1. by split; congruence.
  - intros i x Hi. rewrite Ecc. by apply I1.
  - unfold src_ok. rewrite Eall. apply I1.
Qed.

Lemma take_pages_S p : 0 < slabs p <= Z.of_nat (length (slab_list p)) ->
  pages p = take (Z.to_nat (slabs p - 1)) (slab_list p) ++ [nth (Z.to_nat (slabs p - 1)) (slab_list p) 0].
Proof.
  intros H. unfold pages. replace (Z.to_nat (slabs p)) with (S (Z.to_nat (slabs p - 1))) by lia.
  apply take_S_r.
  destruct (nth_lookup_or_length (slab_list p) (Z.to_nat (slabs p - 1)) 0) as [E|E]; [done|lia].
Qed.

(** The pages after a change of the pages of one class. *)
Lemma all_pages_change s s' id : 0 <= id <= power_largest s -> power_largest s' = power_largest s ->
  (forall i, i <> id -> pages (getc s' i) = pages (getc s i)) ->
  exists L, all_pages s ≡ₚ pages (getc s id) ++ L /\ all_pages s' ≡ₚ pages (getc s' id) ++ L.
Proof.
  intros H E Hp. exists (other_pages s id). split; [by apply all_pages_split|].
  assert (other_pages s' id = other_pages s id) as <-; [|apply all_pages_split; lia].
  unfold other_pages. rewrite E. f_equal; apply Forall_bind_ext, Forall_forall;
    intros i Hi%elem_of_seqZ; apply Hp; lia.
Qed.

(** A page leaves the global pool. *)
Lemma get_page_inv cap h s F : slab_inv cap [] h s F ->
  let '(ptr, s') := get_page_from_global_pool s in
  (ptr = 0 /\ s' = s /\ slabs (getc s 0) = 0 \/
   slab_inv cap [ptr] h s' F /\ 0 < ptr /\ 0 < slabs (getc s 0)) /\
  (forall i, i <> 0 -> getc s' i = getc s i) /\ sscalars s' = sscalars s.
Proof.
  intros I. unfold get_page_from_global_pool. change SLAB_GLOBAL_PAGE_POOL with 0.
  pose proof (si_pl _ _ _ _ _ I) as Hpl. unfold MAX_NUMBER_OF_SLAB_CLASSES in Hpl.
  destruct (si_list _ _ _ _ _ I 0 ltac:(lia)) as (Hs & Hlen & Hls).
  pose proof (si_cap _ _ _ _ _ I) as (Hc0 & Hc1 & Hc2).
  destruct (decide (slabs (getc s 0) < 1)) as [|Hgt].
  { split_and!; [left; split_and!; [done|done|lia]|done|done]. }
  set (p := nth _ _ 0). set (s' := setc s 0 _).
  assert (u32 (slabs (getc s 0) - 1) = slabs (getc s 0) - 1) as Hu
    by (apply wrap_small; unfold in_u; norm_pow2; lia).
  assert (pages (getc s 0) = pages (getc s' 0) ++ [p]) as Hp.
  { rewrite take_pages_S by lia. unfold s'. rewrite getc_setc_eq. unfold pages. simpl.
    by rewrite Hu. }
  assert (forall i, i <> 0 -> getc s' i = getc s i) as Hne
    by (intros; unfold s'; by rewrite getc_setc_ne).
  assert (all_pages s ≡ₚ p :: all_pages s') as Hperm.
  { destruct (all_pages_change s s' 0) as (L & -> & ->); [lia|done|intros; by rewrite Hne|].
    rewrite Hp, <- app_assoc. symmetry. apply Permutation_middle. }
  assert (src_ok s' [p]) as Hsrc.
  { pose proof (si_src _ _ _ _ _ I) as Hsrc. unfold src_ok in *. change (mem_base s') with (mem_base s).
    change (mem_current s') with (mem_current s). change (mem_avail s') with (mem_avail s).
    change (mallocs s') with (mallocs s). rewrite app_nil_r, app_nil_l in Hsrc.
    destruct (decide (mem_base s = 0)).
    - rewrite Hperm in Hsrc. rewrite app_assoc, <- Permutation_cons_append. exact Hsrc.
    - setoid_rewrite Hperm in Hsrc. setoid_rewrite <- Permutation_cons_append. exact Hsrc. }
  assert (0 < p) as Hpos.
  { apply (spaced_pos page (all_pages s' ++ [p])); [by apply src_spaced|set_solver]. }
  split_and!; [right; split_and!; [|done|lia]|done|done].
  apply Permutation_length in Hperm. simpl in Hperm.
  split; try apply I.
  - split_and!; [lia|lia|]. change (remaining s') with (remaining s). simpl in *. lia.
  - intros i Hi. rewrite Hne by lia. by apply I.
  - intros i Hi. destruct (decide (i = 0)) as [->|].
    + unfold s'. rewrite getc_setc_eq. simpl. lia.
    + rewrite Hne by done. by apply I.
  - intros i Hi. rewrite Hne by lia. by apply I.
  - intros i x Hi. rewrite Hne by lia. by apply I.
  - done.
Qed.

Lemma memory_allocate_inv cap h s F : slab_inv cap [] h s F ->
  let '(ptr, s') := memory_allocate page s in
  (ptr = 0 /\ slab_inv cap [] h s' F \/ 0 < ptr /\ slab_inv cap [ptr] h s' F) /\
  slabclass s' = slabclass s /\ power_largest s' = power_largest s.
Proof.
  intros I. unfold memory_allocate.
  pose proof (si_cap _ _ _ _ _ I) as (Hc0 & Hc1 & Hc2). pose proof (si_page _ _ _ _ _ I) as Hpg.
  pose proof (si_src _ _ _ _ _ I) as Hsrc. unfold src_ok, remaining in *.
  assert (forall s' E, slabclass s' = slabclass s -> power_largest s' = power_largest s ->
    Z.of_nat (length (all_pages s)) + Z.of_nat (length E) + remaining s' <= cap ->
    src_ok s' E -> slab_inv cap E h s' F) as Hk.
  { intros s' E E1 E2 Hcap Hs. assert (forall i, getc s' i = getc s i) as Hg
      by (intros; unfold getc; by rewrite E1).
    assert (all_pages s' = all_pages s) as Ea.
    { unfold all_pages. rewrite E2. apply list_bind_ext; [|done]. intros i. by rewrite Hg. }
    split; rewrite ?E2, ?Ea; try (intros i; rewrite Hg); try apply I; done. }
  destruct (decide (mem_base s = 0)) as [Hb|Hb].
  - unfold malloc. destruct (mallocs s) as [|p ps] eqn:Em.
    { split; [|done]. left. split; [done|]. apply Hk; [done|done| |].
      - unfold remaining. simpl. rewrite decide_True, Em by done. done.
      - unfold src_ok. simpl. rewrite decide_True, Em by done. done. }
    split; [|done]. rewrite app_nil_l in Hsrc. destruct (decide (p = 0)) as [->|Hp].
    + left. split; [done|]. apply Hk; [done|done| |].
      * unfold remaining. simpl. rewrite decide_True by done.
        change (nonnull (0 :: ps)) with (nonnull ps) in Hc2. simpl in *. lia.
      * unfold src_ok. simpl. rewrite decide_True by done. exact Hsrc.
    + unfold nonnull in *. rewrite filter_cons_True in Hsrc, Hc2 by done. simpl in Hc2. right. split.
      * apply (spaced_pos _ _ _ Hsrc). set_solver.
      * apply Hk; [done|done| |].
        -- unfold remaining, nonnull. simpl. rewrite decide_True by done. lia.
        -- unfold src_ok, nonnull. simpl. rewrite decide_True by done. exact Hsrc.
  - destruct Hsrc as (Hs & Hcur & Hav & Hq). rewrite app_nil_r in Hs, Hq.
    destruct (decide (mem_avail s < page)) as [Hlt|Hlt].
    { split; [|done]. left. split; [done|]. done. }
    set (sz := if decide (page mod CHUNK_ALIGN_BYTES <> 0) then _ else _).
    assert (page <= sz) as Hsz.
    { unfold sz, CHUNK_ALIGN_BYTES. pose proof (Z.mod_pos_bound page 8 ltac:(lia)).
      destruct (decide _); lia. }
    clearbody sz. split; [|done]. right. split; [done|].
    match goal with |- slab_inv _ _ _ ?x _ => set (s' := x) end.
    assert (mem_current s' = mem_current s + sz) as E1 by done.
    assert (mem_base s' = mem_base s) as E2 by done.
    assert (0 <= mem_avail s' /\ (mem_avail s' = 0 \/ mem_avail s' = mem_avail s - sz)) as [Hav1 Hav2].
    { unfold s'. simpl. destruct (decide (sz < mem_avail s)); lia. }
    assert (all_pages s' = all_pages s) as Ea by done.
    apply Hk; [done|done| |]; clearbody s'.
    + unfold remaining. rewrite E2, decide_False by done.
      assert (mem_avail s' / page <= mem_avail s / page - 1); [|simpl in *; lia].
      replace (mem_avail s / page - 1) with ((mem_avail s - page) / page)
        by (replace (mem_avail s - page) with (mem_avail s + (-1) * page) by lia;
            rewrite Z.div_add by lia; lia).
      apply Z.div_le_mono; lia.
    + unfold src_ok. rewrite E2, decide_False, Ea, E1 by done. split_and!; [|lia|done|].
      * apply spaced_app. split_and!; [done| |].
        -- simpl. split_and!; [done|set_solver|done].
        -- intros p q Hp Hq'. apply list_elem_of_singleton in Hq' as ->. specialize (Hq p Hp). lia.
      * intros q [Hq'|Hq']%elem_of_app; [|apply list_elem_of_singleton in Hq' as ->; lia].
        specialize (Hq q Hq'). lia.
Qed.

Fixpoint chunks_from (n : nat) (ptr sz : Z) : list Z :=
  match n with O => [] | S n => ptr :: chunks_from n (ptr + sz) sz end.

Lemma chunks_from_elem n ptr sz x :
  x ∈ chunks_from n ptr sz <-> exists k, 0 <= k < Z.of_nat n /\ x = ptr + sz * k.
Proof.
  revert ptr. induction n as [|n IH]; intros ptr; simpl.
  - split; [set_solver|]. intros (k & ? & _). lia.
  - rewrite elem_of_cons, IH. split.
    + intros [->|(k & Hk & ->)]; [exists 0|exists (k + 1)]; lia.
    + intros (k & Hk & ->). destruct (decide (k = 0)) as [->|]; [left; lia|].
      right. exists (k - 1). lia.
Qed.

Lemma split_loop_spec n : forall ptr id h s l,
  1 <= id <= power_largest s -> 0 < csize (getc s id) -> freelist h (getc s id) l ->
  (forall x, x ∈ chunks_from n ptr (csize (getc s id)) -> x ∉ l /\ 0 < x /\ geti h x = item0) ->
  Z.of_nat (length l) + Z.of_nat n < 2 ^ 32 ->
  exists h' s', split_loop cfg n ptr id h s = Ok (h', s') /\
    freelist h' (getc s' id) (reverse (chunks_from n ptr (csize (getc s id))) ++ l) /\
    (forall y, y ∉ l -> y ∉ chunks_from n ptr (csize (getc s id)) -> geti h' y = geti h y) /\
    sscalars s' = sscalars s /\ (forall i, geom (getc s' i) = geom (getc s i)) /\
    (forall i, i <> id -> getc s' i = getc s i) /\
    u64 (requested (getc s' id)) = u64 (requested (getc s id)).
Proof.
  induction n as [|n IH]; intros ptr id h s l Hid Hsz Hfl Hnew Hlen; simpl.
  { exists h, s. split_and!; done. }
  destruct (Hnew ptr) as (Hpl & Hp0 & Hpz); [simpl; set_solver|].
  unfold do_slabs_free at 1. rewrite decide_False by (unfold POWER_SMALLEST; lia).
  rewrite Hpz. change (has item0 ITEM_CHUNKED) with false. cbv iota.
  set (h1 := seti h ptr _).
  assert (freelist h1 (getc s id) l) as Hfl1.
  { eapply freelist_frame; [exact Hfl|done|]. intros x Hx. unfold h1.
    rewrite geti_seti_ne; [done|]. by intros ->. }
  assert (free_chunk (geti h1 ptr)) as Hfree by (unfold h1; rewrite geti_seti_eq; done).
  pose proof (freelist_push_spec id ptr h1 s l Hfl1 Hpl ltac:(lia) Hfree ltac:(lia)) as Hp.
  destruct (freelist_push id ptr h1 s) as [h2 s2] eqn:Ep.
  destruct Hp as (Hf2 & Es2 & Hag & _). set (s3 := sub_requested id 0 s2). cbn [mbind res_bind].
  assert (forall i, geom (getc s3 i) = geom (getc s i)) as Hg.
  { intros i. unfold s3, sub_requested. rewrite Es2, !getc_setc. by repeat case_decide. }
  assert (sscalars s3 = sscalars s) as Hsc by (unfold s3; by rewrite Es2).
  assert (forall i, i <> id -> getc s3 i = getc s i) as Hne.
  { intros i Hi. unfold s3, sub_requested. rewrite Es2. by rewrite !getc_setc_ne. }
  assert (u64 (requested (getc s3 id)) = u64 (requested (getc s id))) as Hreq.
  { unfold s3, sub_requested. rewrite Es2, !getc_setc_eq. simpl. rewrite Z.sub_0_r.
    by rewrite wrap_wrap. }
  assert (freelist h2 (getc s3 id) (ptr :: l)) as Hfl3.
  { eapply freelist_frame; [exact Hf2| |done]. unfold s3, sub_requested. by rewrite getc_setc_eq. }
  pose proof (Hg id) as [= Ecs _ _ _ _].
  assert (power_largest s3 = power_largest s) as Epl by (unfold s3; by rewrite Es2).
  assert (forall x, x ∈ chunks_from n (ptr + csize (getc s id)) (csize (getc s id)) -> x <> ptr) as Hlater.
  { intros x (k & Hk & ->)%chunks_from_elem. nia. }
  destruct (IH (ptr + csize (getc s id)) id h2 s3 (ptr :: l))
    as (h' & s' & Hrun & Hfl' & Hag' & Hsc' & Hg' & Hne' & Hreq'); rewrite ?Ecs, ?Epl; try done.
  - intros x Hx. destruct (Hnew x) as (H1 & H2 & H3); [simpl; set_solver|].
    specialize (Hlater x Hx). split_and!; [set_solver|done|]. rewrite Hag by done.
    unfold h1. by rewrite geti_seti_ne.
  - simpl. lia.
  - exists h', s'. rewrite Ecs in *. split_and!; [done|..].
    + rewrite reverse_cons, <- app_assoc. exact Hfl'.
    + intros y H1 H2. apply not_elem_of_cons in H2 as [H2 H3]. rewrite Hag' by set_solver.
      rewrite Hag by done. unfold h1. by rewrite geti_seti_ne.
    + congruence.
    + intros i. by rewrite Hg', Hg.
    + intros i Hi. by rewrite Hne', Hne.
    + congruence.
Qed.

Lemma geti_memset0 ptr len h x :
  geti (memset0 ptr len h) x = if decide (ptr <= x < ptr + len) then item0 else geti h x.
Proof.
  Local Transparent geti. unfold geti, memset0. destruct (decide _) as [Hx|Hx].
  - rewrite map_lookup_filter_None_2; [done|]. right. intros i _ Hn. by apply Hn.
  - destruct (h !! x) as [i|] eqn:E.
    + erewrite map_lookup_filter_Some_2; [done|exact E|done].
    + rewrite map_lookup_filter_None_2 by (by left). done.
  Local Opaque geti.
Qed.

Lemma class_chunks_length p : 0 <= perslab p ->
  0 <= slabs p <= Z.of_nat (length (slab_list p)) ->
  Z.of_nat (length (class_chunks p)) = slabs p * perslab p /\
  Z.of_nat (length (pages p)) = slabs p.
Proof.
  intros Hp Hs. assert (Z.of_nat (length (pages p)) = slabs p) as E
    by (unfold pages; rewrite length_take; lia).
  split; [|done]. unfold class_chunks. rewrite <- E. clear E. induction (pages p) as [|q L IH].
  - done.
  - csimpl. rewrite length_app, Nat2Z.inj_add, IH. unfold page_chunks at 1.
    rewrite length_fmap, length_seqZ. lia.
Qed.

Lemma free_list_length cap E h s F id : slab_inv cap E h s F -> 1 <= id <= power_largest s ->
  Z.of_nat (length (F id)) <= slabs (getc s id) * perslab (getc s id).
Proof.
  intros I Hid. destruct (si_class _ _ _ _ _ I id Hid) as (_ & Hp & _).
  destruct (si_list _ _ _ _ _ I id ltac:(lia)) as (Hs & Hl & _).
  rewrite <- (proj1 (class_chunks_length _ Hp ltac:(lia))). apply Nat2Z.inj_le.
  apply NoDup_incl_length.
  - apply NoDup_ListNoDup. apply (fl_dll _ _ _ (si_free _ _ _ _ _ I id Hid)).
  - intros x Hx. apply list_elem_of_In. apply list_elem_of_In in Hx. by eapply I.
Qed.

Lemma pages_count cap E h s F id : slab_inv cap E h s F -> 0 <= id <= power_largest s ->
  slabs (getc s id) + Z.of_nat (length E) <= cap.
Proof.
  intros I Hid. destruct (si_list _ _ _ _ _ I id Hid) as (Hs & Hl & _).
  pose proof (si_cap _ _ _ _ _ I) as (_ & _ & Hc).
  assert (Z.of_nat (length (pages (getc s id))) = slabs (getc s id)) as Ep
    by (unfold pages; rewrite length_take; lia).
  assert (0 <= remaining s).
  { unfold remaining. case_decide; [lia|]. pose proof (si_page _ _ _ _ _ I).
    pose proof (si_src _ _ _ _ _ I) as Hsrc. unfold src_ok in Hsrc.
    rewrite decide_False in Hsrc by done. apply Z.div_pos; lia. }
  rewrite (Permutation_length (all_pages_split s id Hid)), length_app in Hc. lia.
Qed.

Lemma chunks_from_page p ptr : 0 <= perslab p ->
  chunks_from (Z.to_nat (perslab p)) ptr (csize p) = page_chunks p ptr.
Proof.
  intros Hp. unfold page_chunks, seqZ. rewrite <- list_fmap_compose.
  generalize (Z.to_nat (perslab p)) as n. intros n. clear Hp.
  assert (forall m b, chunks_from n (b + csize p * Z.of_nat m) (csize p) =
    ((fun k => b + csize p * k) ∘ (fun i => Z.of_nat i + 0)) <$> seq m n) as H.
  { induction n as [|n IH]; intros m b; [done|]. simpl. f_equal; [lia|].
    rewrite <- IH. f_equal. lia. }
  rewrite <- (H 0%nat ptr). f_equal. lia.
Qed.

(** The state [s] with a page in transit given to class [id] (0 for the pool). *)
Lemma page_given_inv cap ptr h s F id l h' s' : slab_inv cap [ptr] h s F ->
  0 <= id <= power_largest s -> slabs (getc s id) < list_size (getc s id) ->
  sscalars s' = sscalars s -> (forall i, i <> id -> getc s' i = getc s i) ->
  geom (getc s' id) = (csize (getc s id), perslab (getc s id), slabs (getc s id) + 1,
    <[Z.to_nat (slabs (getc s id)) := ptr]> (slab_list (getc s id)), list_size (getc s id)) ->
  (1 <= id -> freelist h' (getc s' id) l) ->
  (forall x, x ∈ l -> x ∈ F id \/ x ∈ page_chunks (getc s id) ptr) ->
  (forall i x, 1 <= i <= power_largest s -> i <> id -> x ∈ F i -> geti h' x = geti h x) ->
  slab_inv cap [] h' s' (upd F id l) /\ pages (getc s' id) = pages (getc s id) ++ [ptr].
Proof.
  intros I Hid Hroom Hsc3 Hne3 Hgeo Hfl Hsub Hag.
  destruct (si_list _ _ _ _ _ I id ltac:(lia)) as (Hs & Hlen & Hls).
  pose proof (si_cap _ _ _ _ _ I) as (Hc0 & Hc1 & Hc2).
  injection Hgeo as G1 G2 G3 G4 G5.
  pose proof Hsc3 as [= E1 E2 E3 E4 E5 E6 E7 E8 E9].
  assert (pages (getc s' id) = pages (getc s id) ++ [ptr]) as Hpages.
  { unfold pages. rewrite G3, G4.
    replace (Z.to_nat (slabs (getc s id) + 1)) with (S (Z.to_nat (slabs (getc s id)))) by lia.
    rewrite (take_S_r _ _ ptr) by (apply list_lookup_insert_eq; lia).
    by rewrite take_insert_ge by lia. }
  assert (all_pages s' ≡ₚ all_pages s ++ [ptr]) as Hall.
  { destruct (all_pages_change s s' id) as (L & HL1 & HL2); [lia|done|intros; by rewrite Hne3|].
    rewrite HL1, HL2, Hpages, <- !app_assoc. f_equiv. apply Permutation_app_comm. }
  assert (class_chunks (getc s' id) = class_chunks (getc s id) ++ page_chunks (getc s id) ptr) as Hcc.
  { unfold class_chunks. rewrite Hpages, bind_app. csimpl. rewrite app_nil_r.
    assert (forall q, page_chunks (getc s' id) q = page_chunks (getc s id) q) as Hpc
      by (intros q; unfold page_chunks; by rewrite G1, G2).
    rewrite Hpc. f_equal. by apply list_bind_ext. }
  split; [|done]. split; rewrite ?E4.
  - apply I.
  - apply I.
  - split_and!; [lia|lia|]. unfold remaining. rewrite E5, E7, E8. fold (remaining s).
    apply Permutation_length in Hall. rewrite length_app in Hall. simpl in *. lia.
  - intros i Hi. destruct (decide (i = id)) as [->|]; [|rewrite Hne3 by done; by apply I].
    rewrite G1, G2. by apply I.
  - intros i Hi. destruct (decide (i = id)) as [->|]; [|rewrite Hne3 by done; by apply I].
    rewrite G3, G4, G5, length_insert. lia.
  - intros i Hi. unfold upd. destruct (decide (i = id)) as [->|Hn]; [apply Hfl; lia|].
    rewrite Hne3 by done. eapply freelist_frame; [by apply (si_free _ _ _ _ _ I)|done|].
    intros x Hx. by rewrite (Hag i).
  - intros i x Hi. unfold upd. destruct (decide (i = id)) as [->|Hn].
    + intros Hx. rewrite Hcc. apply elem_of_app. destruct (Hsub x Hx); [left; by eapply I|by right].
    + rewrite Hne3 by done. by apply I.
  - pose proof (si_src _ _ _ _ _ I) as Hsrc. unfold src_ok in *. rewrite E5, E6, E7, E8.
    destruct (decide (mem_base s = 0)).
    + rewrite app_nil_l, Hall, <- app_assoc. exact Hsrc.
    + setoid_rewrite Hall. rewrite !app_nil_r. exact Hsrc.
Qed.

Lemma give_page_inv cap ptr h s F id l : slab_inv cap [ptr] h s F ->
  1 <= id <= power_largest s -> slabs (getc s id) < list_size (getc s id) ->
  forall h' s2 s3, sscalars s2 = sscalars s -> (forall i, geom (getc s2 i) = geom (getc s i)) ->
  (forall i, i <> id -> getc s2 i = getc s i) ->
  s3 = setc (setc s2 id (fun p => p <| slab_list ::= <[Z.to_nat (slabs p) := ptr]> |>)) id
         (fun p => p <| slabs := u32 (slabs p + 1) |>) ->
  freelist h' (getc s2 id) l ->
  (forall x, x ∈ l -> x ∈ F id \/ x ∈ page_chunks (getc s id) ptr) ->
  (forall i x, 1 <= i <= power_largest s -> i <> id -> x ∈ F i -> geti h' x = geti h x) ->
  slab_inv cap [] h' s3 (upd F id l) /\ pages (getc s3 id) = pages (getc s id) ++ [ptr].
Proof.
  intros I Hid Hroom h' s2 s3 Hsc Hg Hne -> Hfl Hsub Hag.
  destruct (si_list _ _ _ _ _ I id ltac:(lia)) as (Hs & Hlen & Hls).
  pose proof (si_cap _ _ _ _ _ I) as (Hc0 & Hc1 & Hc2).
  pose proof (Hg id) as [= G1 G2 G3 G4 G5].
  assert (u32 (slabs (getc s id) + 1) = slabs (getc s id) + 1) as Hu
    by (apply wrap_small; unfold in_u; norm_pow2; lia).
  eapply page_given_inv; [exact I|lia|done|done|..|done|done].
  - intros i Hi. rewrite !getc_setc_ne by done. by apply Hne.
  - rewrite !getc_setc_eq. unfold geom. simpl. by rewrite G1, G2, G3, G4, G5, Hu.
  - intros _. rewrite !getc_setc_eq. eapply freelist_frame; [exact Hfl|done|done].
Qed.

Lemma do_slabs_newslab_inv cap h s F id : slab_inv cap [] h s F -> 1 <= id <= power_largest s ->
  newslab_len cfg (getc s id) = page ->
  exists r h' s' l, do_slabs_newslab cfg id h s = Ok (r, h', s') /\
    slab_inv cap [] h' s' (upd F id l) /\
    (forall y i q, 1 <= i <= power_largest s -> q ∈ pages (getc s i) -> in_page page q y ->
       y ∉ F id -> geti h' y = geti h y) /\
    power_largest s' = power_largest s /\
    (forall i, 1 <= i -> csize (getc s' i) = csize (getc s i) /\ perslab (getc s' i) = perslab (getc s i) /\
       u64 (requested (getc s' i)) = u64 (requested (getc s i))) /\
    (r = 0 /\ l = F id /\ h' = h /\ (forall i, 1 <= i -> pages (getc s' i) = pages (getc s i)) \/
     exists ptr, r = 1 /\ l = reverse (page_chunks (getc s id) ptr) ++ F id /\
       (forall i, 1 <= i -> i <> id -> pages (getc s' i) = pages (getc s i)) /\
       pages (getc s' id) = pages (getc s id) ++ [ptr] /\
       forall i q y, 1 <= i <= power_largest s -> q ∈ pages (getc s i) -> in_page page q y ->
         ~ in_page page ptr y).
Proof.
  intros I Hid Hlen. unfold do_slabs_newslab. rewrite Hlen.
  pose proof (si_page _ _ _ _ _ I) as Hpg.
  assert (u64 page = page) as Hp64.
  { apply wrap_small. unfold in_u. norm_pow2. lia. }
  assert (forall F', F' id = F id -> forall i, upd F' id (F id) i = F' i) as Hupd.
  { intros F' E i. unfold upd. destruct (decide _); congruence. }
  assert (forall h s, slab_inv cap [] h s F -> slab_inv cap [] h s (upd F id (F id))) as Hup.
  { intros h0 s0 J. destruct J. split; try done; intros i; rewrite Hupd by done; auto. }
  destruct (decide (mem_limit s <> 0 /\ _)).
  { exists 0, h, (s <| mem_limit_reached := true |>), (F id). split; [done|].
    split; [apply Hup; destruct I; by split|]. split_and!; try done. left. done. }
  pose proof (grow_slab_list_inv cap [] h s F id I ltac:(lia)) as Hgrow.
  pose proof (pages_count _ _ _ _ _ id I ltac:(lia)) as Hcnt. simpl in Hcnt.
  specialize (Hgrow ltac:(lia)).
  destruct (grow_slab_list id s) as [grown s1] eqn:Egrow.
  destruct Hgrow as (I1 & Hroom & Hsame1 & Es1).
  assert (power_largest s1 = power_largest s) as Epl1 by (by rewrite Es1).
  destruct (decide (grown = 0)) as [->|Hgrown].
  { exists 0, h, s1, (F id). split; [done|]. split; [by apply Hup|]. split_and!; try done.
    - intros i _. destruct (Hsame1 i) as (El & _). injection El as -> -> _ _ ->. done.
    - left. split_and!; try done. intros i _. apply Hsame1. }
  destruct Hroom as [->|Hroom]; [done|].
  assert (exists ptr s3, (let '(ptr, s2) := get_page_from_global_pool s1 in
      if decide (ptr = 0) then memory_allocate (u64 page) s2 else (ptr, s2)) = (ptr, s3) /\
    (ptr = 0 /\ slab_inv cap [] h s3 F \/ 0 < ptr /\ slab_inv cap [ptr] h s3 F) /\
    (forall i, i <> 0 -> getc s3 i = getc s1 i) /\ power_largest s3 = power_largest s)
    as (ptr & s3 & Hmem & Hptr & Hne3 & Epl3).
  { pose proof (get_page_inv cap h s1 F I1) as Hget.
    destruct (get_page_from_global_pool s1) as [p1 s2] eqn:Eget.
    destruct Hget as ([(-> & -> & _)|(I2 & Hp1 & _)] & Hne2 & Hsc2).
    - rewrite decide_True, Hp64 by done. pose proof (memory_allocate_inv cap h s1 F I1) as Hma.
      destruct (memory_allocate page s1) as [ptr s3]. destruct Hma as (Hma & Ecl & Epl).
      exists ptr, s3. split_and!; [done|done| |congruence]. intros i _. unfold getc. by rewrite Ecl.
    - rewrite decide_False by lia. exists p1, s2. split_and!; [done|by right|done|].
      injection Hsc2 as ? ? ? E ? ? ? ? ?. congruence. }
  destruct (get_page_from_global_pool s1) as [p1 s2]. rewrite Hmem. clear Hmem.
  assert (forall i, 1 <= i -> lists (getc s3 i) = lists (getc s i) /\
    pages (getc s3 i) = pages (getc s i) /\ slabs (getc s3 i) = slabs (getc s i)) as Hsame3
    by (intros i Hi; rewrite Hne3 by lia; apply Hsame1).
  destruct Hptr as [[-> I3]|[Hpos I3]].
  { rewrite decide_True by done. exists 0, h, s3, (F id). split; [done|]. split; [by apply Hup|].
    split_and!; try done.
    - intros i Hi. destruct (Hsame3 i Hi) as (El & _). injection El as -> -> _ _ ->. done.
    - left. split_and!; try done. intros i Hi. by apply Hsame3. }
  rewrite decide_False, Hp64 by lia.
  destruct (si_class _ _ _ _ _ I3 id ltac:(lia)) as (Hc1 & Hc2 & Hc3 & Hc4).
  destruct (Hsame3 id ltac:(lia)) as (El & Epg & Esl). injection El as Ecs Eps _ _ Ereq.
  set (h1 := memset0 ptr page h).
  assert (forall i q y, 1 <= i <= power_largest s -> q ∈ pages (getc s i) -> in_page page q y ->
    ~ in_page page ptr y) as Hdisj.
  { intros i q y Hi Hq Hy Hy'. pose proof (src_spaced _ _ (si_src _ _ _ _ _ I3)) as Hsp.
    apply spaced_app in Hsp as (_ & _ & Hsp). specialize (Hsp q ptr).
    unfold in_page in *. destruct Hsp; [|set_solver|lia|lia].
    apply all_pages_elem. exists i. split; [lia|]. by rewrite (proj1 (proj2 (Hsame3 i ltac:(lia)))). }
  assert (forall i q y, 1 <= i <= power_largest s -> q ∈ pages (getc s i) -> in_page page q y ->
    geti h1 y = geti h y) as Hh1.
  { intros i q y Hi Hq Hy. unfold h1. rewrite geti_memset0, decide_False; [done|].
    by apply (Hdisj i q y). }
  assert (forall i x, 1 <= i <= power_largest s -> x ∈ F i ->
    exists q, q ∈ pages (getc s i) /\ in_page page q x) as HF.
  { intros i x Hi Hx. apply (si_sub _ _ _ _ _ I) in Hx; [|done].
    destruct (chunk_in_page _ _ _ _ _ _ _ I Hi Hx) as (q & ? & ? & _). eauto. }
  assert (freelist h1 (getc s3 id) (F id)) as Hfl.
  { eapply freelist_frame; [apply (si_free _ _ _ _ _ I3); lia|done|]. intros x Hx.
    destruct (HF id x Hid Hx) as (q & Hq & Hqx). by rewrite (Hh1 id q x). }
  pose proof (pages_count _ _ _ _ _ id I3 ltac:(lia)) as Hcnt3. simpl in Hcnt3.
  pose proof (free_list_length _ _ _ _ _ id I3 ltac:(lia)) as Hfll.
  pose proof (si_cap _ _ _ _ _ I3) as (_ & Hcap & _).
  destruct (si_list _ _ _ _ _ I3 id ltac:(lia)) as (Hs3 & Hlen3 & _).
  destruct (split_loop_spec (Z.to_nat (perslab (getc s3 id))) ptr id h1 s3 (F id))
    as (h' & s4 & Hsplit & Hfl4 & Hag4 & Hsc4 & Hg4 & Hne4 & Hreq4); [lia|done|done| |nia|].
  { rewrite chunks_from_page by done. intros x Hx.
    destruct (page_chunk_in _ _ _ Hc1 Hc2 Hc3 Hx) as [Hxp _]. split_and!.
    - intros HxF. destruct (HF id x Hid HxF) as (q & Hq & Hqx). by apply (Hdisj id q x).
    - unfold in_page in Hxp. lia.
    - unfold h1. rewrite geti_memset0, decide_True; [done|]. exact Hxp. }
  rewrite chunks_from_page in Hfl4, Hag4 by done.
  unfold split_slab_page_into_freelist. rewrite Hsplit. cbn [mbind res_bind].
  pose proof (Hg4 id) as [= G1 G2 G3 G4 G5].
  assert (slabs (getc s3 id) < list_size (getc s3 id)) as Hroom3 by (by rewrite Hne3 by lia).
  unfold slab_list_set. rewrite G3, G4, decide_True by lia. cbn [mbind res_bind].
  set (s5 := setc (setc s4 id _) id _).
  assert (forall y i q, 1 <= i <= power_largest s -> q ∈ pages (getc s i) -> in_page page q y ->
       y ∉ F id -> geti h' y = geti h y) as Hframe.
  { intros y i q Hi Hq Hy HyF. rewrite Hag4; [by apply (Hh1 i q)|done|]. intros Hc.
    destruct (page_chunk_in _ _ _ Hc1 Hc2 Hc3 Hc) as [Hxp _]. by apply (Hdisj i q y). }
  destruct (give_page_inv cap ptr h s3 F id (reverse (page_chunks (getc s3 id) ptr) ++ F id) I3
    ltac:(lia) Hroom3
    h' s4 s5) as [I5 Hpg5]; try done.
  - unfold s5. f_equal. unfold setc. cbv beta. by rewrite G3.
  - intros x [Hx|Hx]%elem_of_app; [right; by apply elem_of_reverse|by left].
  - intros i x Hi Hn Hx. destruct (HF i x ltac:(lia) Hx) as (q & Hq & Hqx).
    assert (x ∉ F id) as HxF.
    { intros Hx'. apply Hn. eapply chunk_class_unique; [exact I3|done|lia|by eapply I3|].
      eapply I3; [lia|done]. }
    assert (geti h x = geti h1 x) as Eh by (symmetry; apply (Hh1 i q x); [lia|done|done]).
    rewrite (Hframe x i q) by (done || lia). done.
  - exists 1, h', s5, (reverse (page_chunks (getc s3 id) ptr) ++ F id).
    injection Hsc4 as ? ? ? E4 ? ? ? ? ?.
    split_and!; [done|done|done|unfold s5; simpl; congruence| |].
    + intros i Hi. destruct (decide (i = id)) as [->|Hn].
      * unfold s5. rewrite !getc_setc_eq. simpl. rewrite G1, G2, Ecs, Eps, <- Ereq. done.
      * unfold s5. rewrite !getc_setc_ne, Hne4 by done.
        destruct (Hsame3 i ltac:(lia)) as (El & _). injection El as -> -> _ _ ->. done.
    + right. exists ptr. split_and!; [done| | | |done].
      * unfold page_chunks. by rewrite Ecs, Eps.
      * intros i Hi Hn. unfold s5. rewrite !getc_setc_ne, Hne4 by done. by apply Hsame3.
      * rewrite Hpg5. by rewrite Epg.
Qed.

(** *** do_slabs_alloc *)

Lemma upd_upd F id l l' i : upd (upd F id l) id l' i = upd F id l' i.
Proof. unfold upd. by destruct (decide _). Qed.

Lemma slab_inv_ext cap E h s F F' : (forall i, F i = F' i) ->
  slab_inv cap E h s F -> slab_inv cap E h s F'.
Proof. intros H I. destruct I. split; try done; intros i; rewrite <- H; auto. Qed.

Lemma freelist_pop_inv cap h s F size id x l : slab_inv cap [] h s F ->
  1 <= id <= power_largest s -> F id = x :: l ->
  let '(it, h', s') := freelist_pop size id h s in
  it = x /\ slab_inv cap [] h' s' (upd F id l) /\ x ∉ l /\
  (forall y, y ∉ F id -> geti h' y = geti h y) /\
  geti h' x = (geti h x) <| it_flags := clear (it_flags (geti h x)) ITEM_SLABBED |> <| refcount := 1 |> /\
  sscalars s' = sscalars s /\ (forall i, geom (getc s' i) = geom (getc s i)) /\
  (forall i, requested (getc s' i) =
     if decide (i = id) then u64 (requested (getc s i) + size) else requested (getc s i)).
Proof.
  intros I Hid HF. pose proof (si_free _ _ _ _ _ I id Hid) as Hfl. rewrite HF in Hfl.
  assert (slots (getc s id) = x) as Hx by apply (fl_dll _ _ _ Hfl).
  pose proof (fl_curr _ _ _ Hfl) as Hcur. simpl in Hcur.
  unfold freelist_pop. rewrite Hx. set (n := next (geti h x)).
  set (h1 := if decide (n = 0) then _ else _). set (h2 := seti h1 x _). set (s' := setc s id _).
  assert (n = default 0 (head l) /\ x ∉ l /\ x <> 0) as (Hn & Hxl & Hx0).
  { destruct (fl_dll _ _ _ Hfl) as (Hs & _ & _ & Hnd).
    destruct (dseg_elem h 0 [] x l 0 Hs) as (? & ? & _). apply NoDup_cons in Hnd as [? _]. done. }
  assert (n <> 0 -> n ∈ l) as Hnl by (rewrite Hn; destruct l; simpl; [done|set_solver]).
  assert (forall y, geti h1 y = if decide (y = n /\ n <> 0) then (geti h y) <| prev := 0 |> else geti h y) as Hg1.
  { intros y. unfold h1. destruct (decide (n = 0)) as [E|E].
    - by rewrite decide_False by tauto.
    - rewrite geti_seti. destruct (decide (n = y)) as [->|]; [by rewrite decide_True|].
      rewrite decide_False; [done|]. intros [? _]. congruence. }
  clearbody h1.
  assert (forall y, y ∉ x :: l -> geti h2 y = geti h y) as Hag.
  { intros y Hy. apply not_elem_of_cons in Hy as [Hyx Hyl]. unfold h2.
    rewrite geti_seti_ne, Hg1, decide_False; [done| |done]. intros [-> ?]. auto. }
  assert (u32 (sl_curr (getc s id) - 1) = sl_curr (getc s id) - 1) as Hu.
  { apply wrap_small. pose proof (free_list_length _ _ _ _ _ id I Hid) as Hb.
    pose proof (pages_count _ _ _ _ _ id I ltac:(lia)) as Hc. simpl in Hc.
    destruct (si_class _ _ _ _ _ I id Hid) as (_ & ? & _ & Hcap). rewrite HF in Hb. simpl in Hb.
    destruct (si_list _ _ _ _ _ I id ltac:(lia)) as (? & _). unfold in_u. nia. }
  destruct (freelist_pop_spec h h2 (getc s id) (getc s' id) x l Hfl) as (Hfl' & _).
  { unfold s'. by rewrite getc_setc_eq. }
  { unfold s'. rewrite getc_setc_eq. simpl. exact Hu. }
  { intros y Hy0 Hyx. unfold h2. rewrite geti_seti_ne, Hg1 by done. fold n.
    destruct (decide (y = n)) as [->|]; [by rewrite decide_True|by rewrite decide_False by tauto]. }
  assert (forall i, geom (getc s' i) = geom (getc s i)) as Hg.
  { intros i. unfold s'. rewrite getc_setc. by destruct (decide (id = i)) as [->|]. }
  split_and!; try done.
  - eapply slab_inv_lists; [exact I|done|done|done| |done|..].
    + intros i Hi. unfold s'. rewrite getc_setc_ne by done. done.
    + intros y Hy. eapply I; [done|]. rewrite HF. set_solver.
    + intros i y Hi Hne Hy. apply Hag. intros Hy'. apply Hne.
      eapply chunk_class_unique; [exact I|done|done|by eapply I|]. eapply I; [done|by rewrite HF].
  - intros y Hy. apply Hag. by rewrite <- HF.
  - unfold h2. rewrite geti_seti_eq, Hg1. rewrite decide_False; [done|]. intros [E ?].
    apply Hxl. rewrite E. auto.
  - intros i. unfold s'. rewrite getc_setc.
    by destruct (decide (id = i)) as [->|]; [rewrite decide_True|rewrite decide_False by congruence].
Qed.

Lemma class_chunks_ext p q : csize p = csize q -> perslab p = perslab q -> pages p = pages q ->
  class_chunks p = class_chunks q.
Proof.
  intros E1 E2 E3. unfold class_chunks. rewrite E3. apply list_bind_ext; [|done].
  intros b. unfold page_chunks. by rewrite E1, E2.
Qed.

Lemma class_chunks_snoc p q ptr : csize p = csize q -> perslab p = perslab q ->
  pages p = pages q ++ [ptr] -> class_chunks p = class_chunks q ++ page_chunks q ptr.
Proof.
  intros E1 E2 E3. unfold class_chunks. rewrite E3, bind_app. csimpl. rewrite app_nil_r.
  assert (forall b, page_chunks p b = page_chunks q b) as Hb
    by (intros b; unfold page_chunks; by rewrite E1, E2).
  rewrite Hb. f_equal. by apply list_bind_ext.
Qed.

Record alloc_post (size id : Z) (h : heap) (s : slabs_t) (F : free_lists)
    (x : Z) (h' : heap) (s' : slabs_t) (l : list Z) : Prop := {
  ap_frame y i q : 1 <= i <= power_largest s -> q ∈ pages (getc s i) -> in_page page q y ->
    y ∉ F id -> geti h' y = geti h y;
  ap_pl : power_largest s' = power_largest s;
  ap_geom i : 1 <= i -> csize (getc s' i) = csize (getc s i) /\ perslab (getc s' i) = perslab (getc s i) /\
    pages (getc s i) `prefix_of` pages (getc s' i);
  ap_req i : 1 <= i -> u64 (requested (getc s' i)) =
    u64 (requested (getc s i) + if decide (i = id /\ x <> 0) then size else 0);
  ap_part U : class_chunks (getc s id) ≡ₚ F id ++ U ->
    class_chunks (getc s' id) ≡ₚ (if decide (x = 0) then l else x :: l) ++ U;
  ap_other i : 1 <= i -> i <> id -> class_chunks (getc s' i) = class_chunks (getc s i);
  ap_chunk : x <> 0 -> x ∈ class_chunks (getc s' id) /\ x ∉ l /\ refcount (geti h' x) = 1 /\
    it_flags (geti h' x) = 0 /\ Heap.slabs_clsid (geti h' x) = 0 /\
    (x :: l = F id \/ F id = [] /\ forall i q, 1 <= i <= power_largest s -> q ∈ pages (getc s i) -> ~ in_page page q x)
}.

Lemma do_slabs_alloc_inv cap h s F size id flags : slab_inv cap [] h s F ->
  1 <= id <= power_largest s -> size <= csize (getc s id) -> newslab_len cfg (getc s id) = page ->
  exists x h' s' l, do_slabs_alloc cfg size id flags h s = Ok (x, Some (requested (getc s id)), h', s') /\
    slab_inv cap [] h' s' (upd F id l) /\ alloc_post size id h s F x h' s' l /\
    (x = 0 -> l = F id) /\ (forall y l', F id = y :: l' -> x = y /\ l = l').
Proof.
  intros I Hid Hsz Hlen. unfold do_slabs_alloc. rewrite decide_False by (unfold POWER_SMALLEST; lia).
  pose proof (si_free _ _ _ _ _ I id Hid) as Hfl.
  rewrite decide_False; cycle 1.
  { intros Hn. apply Hn. destruct (F id) as [|y l] eqn:EF.
    - left. by rewrite (fl_curr _ _ _ Hfl).
    - right. assert (slots (getc s id) = y) as -> by apply (fl_dll _ _ _ Hfl).
      apply (fl_free _ _ _ Hfl). set_solver. }
  rewrite decide_False by lia.
  assert (forall h0 s0 F0, slab_inv cap [] h0 s0 F0 -> power_largest s0 = power_largest s ->
    sl_curr (getc s0 id) = Z.of_nat (length (F0 id))) as Hcur.
  { intros h0 s0 F0 I0 E. apply (fl_curr h0). apply (si_free _ _ _ _ _ I0). lia. }
  assert (forall h0 s0 F0 x l, slab_inv cap [] h0 s0 F0 -> power_largest s0 = power_largest s ->
    F0 id = x :: l -> it_flags (geti h0 x) = ITEM_SLABBED /\ Heap.slabs_clsid (geti h0 x) = 0 /\
    x ∈ class_chunks (getc s0 id) /\ x <> 0) as Hhead.
  { intros h0 s0 F0 x l I0 E HF0.
    destruct (fl_free _ _ _ (si_free _ _ _ _ _ I0 id ltac:(lia)) x) as [? ?]; [rewrite HF0; set_solver|].
    assert (x ∈ class_chunks (getc s0 id)) as Hc by (eapply I0; [lia|rewrite HF0; set_solver]).
    split_and!; try done.
    destruct (chunk_in_page _ _ _ _ _ id _ I0 ltac:(lia) Hc) as (? & _ & _ & _ & ?). lia. }
  destruct (F id) as [|y l] eqn:EF.
  - destruct (decide (sl_curr (getc s id) = 0 /\ flags <> SLABS_ALLOC_NO_NEWPAGE)) as [Hd|Hd].
    + destruct (do_slabs_newslab_inv cap h s F id I Hid Hlen)
        as (r & h1 & s1 & l1 & -> & I1 & Hfr & Epl & Hgeo & Hpages). cbn [mbind res_bind].
      assert (upd F id l1 id = l1) as Eu by (unfold upd; by rewrite decide_True).
      assert (forall i, 1 <= i -> pages (getc s i) `prefix_of` pages (getc s1 i)) as Hpg.
      { intros i Hi. destruct Hpages as [(_ & _ & _ & Hp)|(ptr & _ & _ & Hp & Hp' & _)].
        - by rewrite Hp.
        - destruct (decide (i = id)) as [->|]; [rewrite Hp'; by exists [ptr]|by rewrite Hp]. }
      assert (forall U, class_chunks (getc s id) ≡ₚ F id ++ U -> class_chunks (getc s1 id) ≡ₚ l1 ++ U) as Hpart.
      { intros U HU. destruct (Hgeo id ltac:(lia)) as (E1 & E2 & _).
        destruct Hpages as [(_ & -> & _ & Hp)|(ptr & _ & -> & _ & Hp & _)].
        - by rewrite (class_chunks_ext _ (getc s id)) by (try apply Hp; done || lia).
        - rewrite (class_chunks_snoc _ (getc s id) ptr) by done.
          rewrite HU, reverse_Permutation, <- app_assoc, (Permutation_app_comm U), app_assoc.
          rewrite (Permutation_app_comm (F id)). done. }
      assert (forall i, 1 <= i -> i <> id -> class_chunks (getc s1 i) = class_chunks (getc s i)) as Hoth.
      { intros i Hi Hn. destruct (Hgeo i Hi) as (E1 & E2 & _). apply class_chunks_ext; try done.
        destruct Hpages as [(_ & _ & _ & Hp)|(ptr & _ & _ & Hp & _)]; auto. }
      rewrite (Hcur h1 s1 _ I1 Epl), Eu. destruct l1 as [|x l].
      * rewrite decide_False by (simpl; lia). exists 0, h1, s1, []. split; [done|]. split; [done|]. split_and!; try done.
        split; try done.
        -- intros i Hi. destruct (Hgeo i Hi) as (-> & -> & _). split_and!; try done. by apply Hpg.
        -- intros i Hi. destruct (Hgeo i Hi) as (_ & _ & ->). rewrite decide_False by tauto. by rewrite Z.add_0_r.
      * rewrite decide_True by (simpl; lia).
        pose proof (freelist_pop_inv cap h1 s1 _ size id x l I1 ltac:(lia) Eu) as Hpop.
        destruct (Hhead h1 s1 _ x l I1 Epl Eu) as (Hf1 & Hf2 & Hf3 & Hx0).
        destruct (freelist_pop size id h1 s1) as [[it h2] s2].
        destruct Hpop as (-> & I2 & Hxl & Hag & Hx & Hsc & Hg & Hreq).
        injection Hsc as ? ? ? Epl2 ? ? ? ? ?.
        exists x, h2, s2, l. split; [done|].
        split; [eapply slab_inv_ext; [|exact I2]; intros; apply upd_upd|].
        split_and!; [|done|done].
        destruct Hpages as [(_ & Hl & _)|(ptr & _ & Hl & _ & _ & Hdis)].
        { by rewrite EF in Hl. }
        rewrite EF, app_nil_r in Hl.
        destruct (si_class _ _ _ _ _ I id Hid) as (Hc1 & Hc2 & Hc3 & _).
        assert (forall z, z ∈ x :: l -> in_page page ptr z) as Hin.
        { intros z Hz. rewrite Hl, elem_of_reverse in Hz.
          by destruct (page_chunk_in _ _ _ Hc1 Hc2 Hc3 Hz). }
        split.
        -- intros z i q Hi Hq Hz _. rewrite Hag; [by apply (Hfr z i q); rewrite ?EF; set_solver|].
           rewrite Eu. intros Hz'. by apply (Hdis i q z), Hin.
        -- congruence.
        -- intros i Hi. destruct (Hgeo i Hi) as (<- & <- & _). pose proof (Hg i) as [= -> -> _ _ _].
           split_and!; try done. rewrite (proj2 (geom_chunks _ _ (Hg i))). by apply Hpg.
        -- intros i Hi. rewrite Hreq. destruct (Hgeo i Hi) as (_ & _ & E).
           destruct (decide (i = id)) as [->|Hn].
           ++ rewrite decide_True by done. rewrite wrap_wrap by done.
              rewrite <- wrap_add_l, E, wrap_add_l. done.
           ++ rewrite decide_False by tauto. by rewrite Z.add_0_r.
        -- intros U HU. rewrite decide_False by done.
           rewrite (proj1 (geom_chunks _ _ (Hg id))). by apply Hpart.
        -- intros i Hi Hn. rewrite (proj1 (geom_chunks _ _ (Hg i))). by apply Hoth.
        -- intros _. rewrite Hx. simpl. rewrite Hf1. split_and!; try done.
           ++ by rewrite (proj1 (geom_chunks _ _ (Hg id))).
           ++ right. split; [done|]. intros i q Hi Hq Hxq. eapply (Hdis i q x); try done.
              apply Hin. set_solver.
    + cbn [mbind res_bind]. rewrite (Hcur h s F I eq_refl), EF. simpl.
      exists 0, h, s, []. split; [done|].
      split; [eapply slab_inv_ext; [|exact I]; intros i; unfold upd; destruct (decide _); congruence|].
      split_and!; try done. split; try done.
      * intros i Hi. rewrite decide_False by tauto. by rewrite Z.add_0_r.
      * intros U HU. by rewrite EF in HU.
  - rewrite decide_False; cycle 1.
    { rewrite (Hcur h s F I eq_refl), EF. simpl. lia. }
    cbn [mbind res_bind]. rewrite decide_True; cycle 1.
    { rewrite (Hcur h s F I eq_refl), EF. simpl. lia. }
    pose proof (freelist_pop_inv cap h s _ size id y l I ltac:(lia) EF) as Hpop.
    destruct (Hhead h s _ y l I eq_refl EF) as (Hf1 & Hf2 & Hf3 & Hx0).
    destruct (freelist_pop size id h s) as [[it h2] s2].
    destruct Hpop as (-> & I2 & Hxl & Hag & Hx & Hsc & Hg & Hreq).
    injection Hsc as ? ? ? Epl2 ? ? ? ? ?.
    exists y, h2, s2, l. split; [done|]. split; [done|].
    split_and!; [|done|by intros ? ? [= -> ->]].
    split.
    + intros z i q _ _ _ Hz. by apply Hag.
    + done.
    + intros i Hi. pose proof (Hg i) as [= -> -> _ _ _]. split_and!; try done.
      by rewrite (proj2 (geom_chunks _ _ (Hg i))).
    + intros i Hi. rewrite Hreq. destruct (decide (i = id)) as [->|Hn].
      * rewrite decide_True by done. by rewrite wrap_wrap by done.
      * rewrite decide_False by tauto. by rewrite Z.add_0_r.
    + intros U HU. rewrite decide_False by done. rewrite <- EF.
      by rewrite (proj1 (geom_chunks _ _ (Hg id))).
    + intros i Hi Hn. by rewrite (proj1 (geom_chunks _ _ (Hg i))).
    + intros _. rewrite Hx. simpl. rewrite Hf1. split_and!; try done.
      * by rewrite (proj1 (geom_chunks _ _ (Hg id))).
      * by left.
Qed.

(** ** The allocator and its users

    A user allocates chunks, frees them with the class and size they were
    allocated with, and writes anywhere inside the chunks it holds.  [live] lists
    the chunks held: address, class, size asked for. *)

Abbreviation live_t := (list (Z * Z * Z)).
Definition addr (t : Z * Z * Z) : Z := t.1.1.
Definition cls (t : Z * Z * Z) : Z := t.1.2.
Definition asked (t : Z * Z * Z) : Z := t.2.

Record user := User { uheap : heap; uslabs : slabs_t; live : live_t }.

Inductive slab_op :=
| SAlloc (size id flags : Z)
| SFree (i : nat)
| SWrite (i : nat) (off : Z) (f : item -> item).

Definition slab_op_ok (o : slab_op) (u : user) : Prop :=
  match o with
  | SAlloc size id _ => 1 <= id <= power_largest (uslabs u) /\ 0 <= size <= csize (getc (uslabs u) id)
  | SFree i => exists t, live u !! i = Some t /\ has (geti (uheap u) (addr t)) ITEM_CHUNKED = false
  | SWrite i off _ => exists t, live u !! i = Some t /\ 0 <= off < csize (getc (uslabs u) (cls t))
  end.

Definition slab_step (o : slab_op) (u : user) : res user :=
  let 'User h s l := u in
  match o with
  | SAlloc size id flags =>
      '(x, _, h, s) ← do_slabs_alloc cfg size id flags h s;
      Ok (User h s (if decide (x = 0) then l else (x, id, size) :: l))
  | SFree i =>
      match l !! i with
      | Some t =>
          '(h, s) ← do_slabs_free cfg (addr t) (asked t) (cls t) h s;
          Ok (User h s (delete i l))
      | None => Abort
      end
  | SWrite i off f =>
      match l !! i with
      | Some t => Ok (User (seti h (addr t + off) f) s l)
      | None => Abort
      end
  end.

Fixpoint slab_run (ops : list slab_op) (u : user) : res user :=
  match ops with
  | [] => Ok u
  | o :: ops => u ← slab_step o u; slab_run ops u
  end.

Fixpoint run_ok (ops : list slab_op) (u : user) : Prop :=
  match ops with
  | [] => True
  | o :: ops => slab_op_ok o u /\ forall u', slab_step o u = Ok u' -> run_ok ops u'
  end.

Definition in_class (id : Z) (l : live_t) : live_t := filter (fun t => cls t = id) l.
Definition sum_asked (l : live_t) : Z := foldr (fun t n => asked t + n) 0 l.

(** What the allocator guarantees at every moment. *)
Record allocator_ok (u : user) : Prop := {
  (** live chunks do not overlap *)
  ao_disjoint i j t t' : live u !! i = Some t -> live u !! j = Some t' -> i <> j ->
    addr t + csize (getc (uslabs u) (cls t)) <= addr t' \/
    addr t' + csize (getc (uslabs u) (cls t')) <= addr t;
  (** every chunk of a page is free or live *)
  ao_count id : 1 <= id <= power_largest (uslabs u) ->
    sl_curr (getc (uslabs u) id) + Z.of_nat (length (in_class id (live u))) =
    slabs (getc (uslabs u) id) * perslab (getc (uslabs u) id);
  (** [requested] is the number of bytes asked for *)
  ao_requested id : 1 <= id <= power_largest (uslabs u) ->
    u64 (requested (getc (uslabs u) id)) = u64 (sum_asked (in_class id (live u)))
}.

Record user_inv (cap : Z) (u : user) (F : free_lists) : Prop := {
  ui_slabs : slab_inv cap [] (uheap u) (uslabs u) F;
  ui_len id : 1 <= id <= power_largest (uslabs u) -> newslab_len cfg (getc (uslabs u) id) = page;
  ui_cls t : t ∈ live u -> 1 <= cls t <= power_largest (uslabs u);
  ui_part id : 1 <= id <= power_largest (uslabs u) ->
    class_chunks (getc (uslabs u) id) ≡ₚ F id ++ (addr <$> in_class id (live u));
  ui_req id : 1 <= id <= power_largest (uslabs u) ->
    u64 (requested (getc (uslabs u) id)) = u64 (sum_asked (in_class id (live u)))
}.

Lemma class_chunks_NoDup cap E h s F id : slab_inv cap E h s F -> 1 <= id <= power_largest s ->
  NoDup (class_chunks (getc s id)).
Proof.
  intros I Hid. destruct (si_class _ _ _ _ _ I id Hid) as (H1 & H2 & H3 & _).
  assert (spaced page (pages (getc s id))) as Hsp.
  { pose proof (src_spaced _ _ (si_src _ _ _ _ _ I)) as Hsp. apply spaced_app in Hsp as (Hsp & _).
    rewrite (all_pages_split s id) in Hsp by lia. by apply spaced_app in Hsp as (? & _). }
  unfold class_chunks. induction (pages (getc s id)) as [|q L IH]; [constructor|].
  destruct Hsp as (Hq & Hd & Hsp). csimpl. apply NoDup_app. split_and!.
  - by apply page_chunks_NoDup.
  - intros x Hx Hx'. apply list_elem_of_bind in Hx' as (q' & Hx' & Hq').
    destruct (page_chunk_in _ _ _ H1 H2 H3 Hx) as [? _].
    destruct (page_chunk_in _ _ _ H1 H2 H3 Hx') as [? _].
    specialize (Hd q' Hq'). unfold in_page in *. lia.
  - by apply IH.
Qed.

Lemma in_class_elem id l t : t ∈ in_class id l <-> cls t = id /\ t ∈ l.
Proof. unfold in_class. by rewrite list_elem_of_filter. Qed.

Lemma in_class_cons id t l :
  in_class id (t :: l) = if decide (cls t = id) then t :: in_class id l else in_class id l.
Proof. unfold in_class. by rewrite filter_cons. Qed.

(** Chunks of a class with different addresses sit at different positions. *)
Lemma in_class_inj id l i j t t' : NoDup (addr <$> in_class id l) ->
  l !! i = Some t -> l !! j = Some t' -> cls t = id -> cls t' = id -> addr t = addr t' -> i = j.
Proof.
  assert (forall b l, b ∈ l -> cls b = id -> addr b ∈ addr <$> in_class id l) as Hin.
  { intros b k Hb Hcb. apply list_elem_of_fmap. exists b. split; [done|]. by apply in_class_elem. }
  revert i j. induction l as [|a l IH]; intros i j Hnd Hi Hj Ht Ht' E; [done|].
  rewrite in_class_cons in Hnd. destruct i as [|i], j as [|j]; simpl in Hi, Hj; try done.
  - injection Hi as ->. rewrite decide_True in Hnd by done. simpl in Hnd.
    apply NoDup_cons in Hnd as [Hn _]. destruct Hn. rewrite E. apply Hin; [|done].
    by eapply list_elem_of_lookup_2.
  - injection Hj as ->. rewrite decide_True in Hnd by done. simpl in Hnd.
    apply NoDup_cons in Hnd as [Hn _]. destruct Hn. rewrite <- E. apply Hin; [|done].
    by eapply list_elem_of_lookup_2.
  - f_equal. apply IH; try done. destruct (decide _); [|done]. simpl in Hnd.
    by apply NoDup_cons in Hnd as [_ ?].
Qed.

Lemma user_live_chunk cap u F t : user_inv cap u F -> t ∈ live u ->
  addr t ∈ class_chunks (getc (uslabs u) (cls t)).
Proof.
  intros U Ht. rewrite (ui_part _ _ _ U) by (by eapply ui_cls). apply elem_of_app. right.
  apply list_elem_of_fmap. exists t. split; [done|]. by apply in_class_elem.
Qed.

Lemma user_live_notfree cap u F t id : user_inv cap u F -> t ∈ live u ->
  1 <= id <= power_largest (uslabs u) -> addr t ∉ F id.
Proof.
  intros U Ht Hid Hx. pose proof (ui_cls _ _ _ U t Ht) as Hc.
  assert (cls t = id) as E.
  { eapply chunk_class_unique; [apply (ui_slabs _ _ _ U)|done|done|by eapply user_live_chunk|].
    by eapply si_sub; [apply (ui_slabs _ _ _ U)| |]. }
  pose proof (class_chunks_NoDup _ _ _ _ _ id (ui_slabs _ _ _ U) Hid) as Hnd.
  rewrite (ui_part _ _ _ U id Hid) in Hnd. apply NoDup_app in Hnd as (_ & Hd & _).
  apply (Hd _ Hx). apply list_elem_of_fmap. exists t. split; [done|]. by apply in_class_elem.
Qed.

Lemma user_inv_ok cap u F : user_inv cap u F -> allocator_ok u.
Proof.
  intros U. pose proof (ui_slabs _ _ _ U) as I. split.
  - intros i j t t' Hi Hj Hne.
    assert (t ∈ live u /\ t' ∈ live u) as [Ht Ht'] by (split; by eapply list_elem_of_lookup_2).
    eapply chunks_disjoint; [exact I|by eapply ui_cls|by eapply ui_cls|by eapply user_live_chunk..|].
    intros E.
    assert (cls t = cls t') as Ec.
    { eapply chunk_class_unique; [exact I|by eapply ui_cls|by eapply ui_cls|by eapply user_live_chunk|].
      rewrite E. by eapply user_live_chunk. }
    pose proof (class_chunks_NoDup _ _ _ _ _ (cls t) I (ui_cls _ _ _ U t Ht)) as Hnd.
    rewrite (ui_part _ _ _ U (cls t)) in Hnd by (by eapply ui_cls).
    apply NoDup_app in Hnd as (_ & _ & Hnd). apply Hne. by eapply in_class_inj.
  - intros id Hid. destruct (si_class _ _ _ _ _ I id Hid) as (_ & Hp & _).
    destruct (si_list _ _ _ _ _ I id ltac:(lia)) as (Hs & Hl & _).
    rewrite <- (proj1 (class_chunks_length _ Hp ltac:(lia))).
    rewrite (Permutation_length (ui_part _ _ _ U id Hid)), length_app, length_fmap.
    rewrite (fl_curr _ _ _ (si_free _ _ _ _ _ I id Hid)). lia.
  - apply U.
Qed.

Lemma slab_inv_view cap E h h' s F : slab_inv cap E h s F ->
  (forall i y, 1 <= i <= power_largest s -> y ∈ F i ->
     links (geti h y) = links (geti h' y) /\ it_flags (geti h y) = it_flags (geti h' y) /\
     Heap.slabs_clsid (geti h y) = Heap.slabs_clsid (geti h' y)) ->
  slab_inv cap E h' s F.
Proof.
  intros I Hag. destruct I. split; try done.
  intros id Hid. eapply freelist_frame; [by apply si_free0|done|]. intros x Hx. by apply (Hag id).
Qed.

Lemma slab_inv_heap cap E h h' s F : slab_inv cap E h s F ->
  (forall i y, 1 <= i <= power_largest s -> y ∈ F i -> geti h' y = geti h y) ->
  slab_inv cap E h' s F.
Proof.
  intros I Hag. destruct I. split; try done.
  intros id Hid. eapply freelist_frame; [by apply si_free0|done|]. intros x Hx. by rewrite (Hag id).
Qed.

#[local] Instance sum_asked_perm : Proper (Permutation ==> eq) sum_asked.
Proof. intros l1 l2 H. unfold sum_asked. induction H; simpl; lia. Qed.

Lemma in_class_delete l i t id : l !! i = Some t ->
  in_class id l ≡ₚ (if decide (cls t = id) then [t] else []) ++ in_class id (delete i l).
Proof.
  intros Hi. unfold in_class. rewrite (delete_Permutation l i t Hi) at 1.
  rewrite filter_cons. by destruct (decide _).
Qed.

Lemma newslab_len_ext p q : csize p = csize q -> perslab p = perslab q ->
  newslab_len cfg p = newslab_len cfg q.
Proof. unfold newslab_len. by intros -> ->. Qed.

Lemma user_alloc cap u F size id flags : user_inv cap u F ->
  slab_op_ok (SAlloc size id flags) u ->
  exists u' F', slab_step (SAlloc size id flags) u = Ok u' /\ user_inv cap u' F' /\
    (forall x l, F id = x :: l -> x <> 0 -> live u' = (x, id, size) :: live u) /\
    (forall j y, 1 <= j <= power_largest (uslabs u) -> j <> id -> y ∈ F j ->
       geti (uheap u') y = geti (uheap u) y).
Proof.
  intros U [Hid Hsz]. pose proof (ui_slabs _ _ _ U) as I.
  destruct (do_slabs_alloc_inv cap _ _ F size id flags I Hid ltac:(lia) (ui_len _ _ _ U id Hid))
    as (x & h' & s' & l & Hrun & I' & P & Hx0 & Hhd).
  assert (forall j y, 1 <= j <= power_largest (uslabs u) -> j <> id -> y ∈ F j ->
    geti h' y = geti (uheap u) y) as Hfr.
  { intros j y Hj Hne Hy. pose proof (si_sub _ _ _ _ _ I j y Hj Hy) as Hc.
    destruct (chunk_in_page _ _ _ _ _ _ _ I Hj Hc) as (q & Hq & Hqy & _).
    apply (ap_frame _ _ _ _ _ _ _ _ _ P y j q Hj Hq Hqy). intros Hy'. apply Hne.
    eapply chunk_class_unique; [exact I|done|done|done|by eapply si_sub]. }
  destruct u as [h s lv]. simpl in *. rewrite Hrun. cbn [mbind res_bind].
  eexists _, (upd F id l). split; [done|].
  split; [|split; [|exact Hfr]]; cycle 1.
  { intros y l' HF Hy0. destruct (Hhd y l' HF) as [-> _]. simpl. by rewrite decide_False. }
  pose proof (ap_pl _ _ _ _ _ _ _ _ _ P) as Epl.
  split; simpl; rewrite ?Epl.
  - done.
  - intros i Hi. destruct (ap_geom _ _ _ _ _ _ _ _ _ P i ltac:(lia)) as (E1 & E2 & _).
    rewrite (newslab_len_ext _ _ E1 E2). by apply (ui_len _ _ _ U).
  - intros t Ht. destruct (decide (x = 0)); [by apply (ui_cls _ _ _ U)|].
    apply elem_of_cons in Ht as [->|Ht]; [done|by apply (ui_cls _ _ _ U)].
  - intros i Hi. unfold upd. pose proof (ui_part _ _ _ U i Hi) as Hp. simpl in Hp.
    destruct (decide (i = id)) as [->|Hn].
    + rewrite (ap_part _ _ _ _ _ _ _ _ _ P _ Hp). destruct (decide (x = 0)) as [E|E]; [done|].
      rewrite in_class_cons, decide_True by done. simpl. apply Permutation_middle.
    + rewrite (ap_other _ _ _ _ _ _ _ _ _ P) by (done || lia).
      destruct (decide (x = 0)); [done|]. rewrite in_class_cons, decide_False by (unfold cls; simpl; congruence). done.
  - intros i Hi. rewrite (ap_req _ _ _ _ _ _ _ _ _ P) by lia.
    pose proof (ui_req _ _ _ U i Hi) as Hr. simpl in Hr. rewrite <- wrap_add_l, Hr, wrap_add_l.
    destruct (decide (x = 0)) as [E|E].
    + rewrite decide_False by tauto. by rewrite Z.add_0_r.
    + rewrite in_class_cons. simpl. destruct (decide (i = id)) as [->|Hn].
      * rewrite !decide_True by done. simpl. f_equal. unfold asked. simpl. lia.
      * rewrite decide_False by tauto. rewrite decide_False by (unfold cls; simpl; congruence).
        by rewrite Z.add_0_r.
Qed.

Lemma user_free cap u F i t : user_inv cap u F -> live u !! i = Some t ->
  has (geti (uheap u) (addr t)) ITEM_CHUNKED = false ->
  exists u', slab_step (SFree i) u = Ok u' /\
    user_inv cap u' (upd F (cls t) (addr t :: F (cls t))) /\ live u' = delete i (live u) /\
    power_largest (uslabs u') = power_largest (uslabs u) /\
    csize (getc (uslabs u') (cls t)) = csize (getc (uslabs u) (cls t)) /\ addr t <> 0 /\
    (forall y, y <> addr t -> y ∉ F (cls t) -> geti (uheap u') y = geti (uheap u) y).
Proof.
  intros U Ht Hch. pose proof (ui_slabs _ _ _ U) as I.
  assert (t ∈ live u) as Hin by (by eapply list_elem_of_lookup_2).
  pose proof (ui_cls _ _ _ U t Hin) as Hc.
  assert (Z.of_nat (length (F (cls t))) + 1 < 2 ^ 32) as Hlen.
  { pose proof (Permutation_length (ui_part _ _ _ U _ Hc)) as Hl.
    rewrite length_app, length_fmap, (Permutation_length (in_class_delete _ _ _ (cls t) Ht)) in Hl.
    rewrite decide_True in Hl by done. simpl in Hl.
    destruct (si_class _ _ _ _ _ I _ Hc) as (_ & Hp & _ & Hcap).
    destruct (si_list _ _ _ _ _ I (cls t) ltac:(lia)) as (Hs & Hl2 & _).
    pose proof (proj1 (class_chunks_length _ Hp ltac:(lia))) as Hcl.
    pose proof (pages_count _ _ _ _ _ (cls t) I ltac:(lia)) as Hpc. simpl in Hpc. nia. }
  destruct (do_slabs_free_inv cap [] _ _ F (addr t) (asked t) (cls t) I Hc)
    as (h' & s' & Hrun & I' & Hfr & Hsc & Hg & Hreq); [by eapply user_live_chunk|
      by eapply user_live_notfree|done|done|].
  assert (addr t <> 0) as Ht0.
  { destruct (chunk_in_page _ _ _ _ _ _ _ I Hc (user_live_chunk _ _ _ _ U Hin)) as (? & _ & _ & _ & ?). lia. }
  destruct u as [h s lv]. simpl in *. rewrite Ht, Hrun. cbn [mbind res_bind].
  eexists. split; [done|]. simpl.
  injection Hsc as ? ? ? Epl ? ? ? ? ?.
  split; [|split_and!; [done|done|by injection (Hg (cls t))|done|exact Hfr]].
  split; simpl; rewrite ?Epl.
  - done.
  - intros j Hj. pose proof (Hg j) as [= E1 E2 _ _ _]. rewrite (newslab_len_ext _ _ E1 E2).
    by apply (ui_len _ _ _ U).
  - intros t' Ht'. apply (ui_cls _ _ _ U). by eapply list_elem_of_delete_inv.
  - intros j Hj. unfold upd. rewrite (proj1 (geom_chunks _ _ (Hg j))).
    pose proof (ui_part _ _ _ U j Hj) as Hp. simpl in Hp. rewrite Hp.
    rewrite (in_class_delete lv i t j Ht). destruct (decide (j = cls t)) as [->|Hn].
    + rewrite decide_True by done. simpl. symmetry. apply Permutation_middle.
    + rewrite decide_False by congruence. done.
  - intros j Hj. rewrite Hreq. pose proof (ui_req _ _ _ U j Hj) as Hr. simpl in Hr.
    rewrite (in_class_delete lv i t j Ht) in Hr. destruct (decide (j = cls t)) as [->|Hn].
    + rewrite decide_True in Hr by done. simpl in Hr. rewrite wrap_wrap by done.
      rewrite <- wrap_sub_l, Hr, wrap_sub_l. f_equal. lia.
    + rewrite decide_False in Hr by congruence. exact Hr.
Qed.

Lemma user_write cap u F i off f : user_inv cap u F -> slab_op_ok (SWrite i off f) u ->
  exists u' F', slab_step (SWrite i off f) u = Ok u' /\ user_inv cap u' F'.
Proof.
  intros U (t & Ht & Hoff). pose proof (ui_slabs _ _ _ U) as I.
  assert (t ∈ live u) as Hin by (by eapply list_elem_of_lookup_2).
  pose proof (ui_cls _ _ _ U t Hin) as Hc. pose proof (user_live_chunk _ _ _ _ U Hin) as Hx.
  assert (forall j y, 1 <= j <= power_largest (uslabs u) -> y ∈ F j -> y <> addr t + off) as Hne.
  { intros j y Hj Hy ->.
    assert (addr t + off ∈ class_chunks (getc (uslabs u) j)) as Hy' by (by eapply si_sub).
    destruct (decide (off = 0)) as [->|Hoff0].
    { rewrite Z.add_0_r in Hy. by apply (user_live_notfree _ _ _ _ j U Hin Hj) in Hy. }
    destruct (si_class _ _ _ _ _ I j Hj) as (Hcs & _).
    destruct (chunks_disjoint _ _ _ _ _ (cls t) j (addr t) (addr t + off) I) as [Hd|Hd]; try done; lia. }
  destruct u as [h s lv]. simpl in *. rewrite Ht. eexists _, F. split; [done|].
  destruct U. split; try done. simpl. eapply slab_inv_heap; [done|].
  intros j y Hj Hy. apply geti_seti_ne. apply not_eq_sym. by eapply Hne.
Qed.

Lemma user_step_inv cap u F o : user_inv cap u F -> slab_op_ok o u ->
  exists u' F', slab_step o u = Ok u' /\ user_inv cap u' F'.
Proof.
  intros U Ho. destruct o.
  - destruct (user_alloc cap u F size id flags U Ho) as (u' & F' & ? & ? & _). eauto.
  - destruct Ho as (t & Ht & Hch). destruct (user_free cap u F i t U Ht Hch) as (u' & ? & ? & _). eauto.
  - by eapply user_write.
Qed.
End inv.

(** C6. The allocator's contract.  Whatever a user does with the chunks it is
    given - allocating from any class with or without new pages, freeing what it
    holds, writing anywhere inside it - every call returns (no assert fails and no
    page list is overrun), the chunks held never overlap, every chunk of every
    page is on its class's free list or held, and [requested] counts the bytes
    asked for. *)
Theorem slab_allocator_sound cfg cap u F ops :
  user_inv cfg cap u F -> run_ok cfg ops u ->
  exists u', slab_run cfg ops u = Ok u' /\ allocator_ok u'.
Proof.
  revert u F. induction ops as [|o ops IH]; intros u F U Hok.
  - exists u. split; [done|]. by eapply user_inv_ok.
  - destruct Hok as [Ho Hok]. destruct (user_step_inv _ _ _ _ _ U Ho) as (u' & F' & Hs & U').
    simpl. rewrite Hs. by eapply IH; [|apply Hok].
Qed.

(** *** The state slabs_init leaves *)

(** A fresh class table, checked class by class. *)
Definition fresh_class (cfg : settings) (cap : Z) (p : slabclass_t) : bool :=
  bool_decide (0 < csize p /\ 0 <= perslab p /\ perslab p * csize p <= slab_page_size cfg /\
    perslab p * cap < 2 ^ 32 /\ slots p = 0 /\ sl_curr p = 0 /\ slabs p = 0 /\
    slab_list p = [] /\ list_size p = 0 /\ requested p = 0).

Definition fresh (cfg : settings) (cap : Z) (s : slabs_t) : bool :=
  forallb (fun id => fresh_class cfg cap (getc s id)) (seqZ 1 (power_largest s)) &&
  bool_decide (1 <= power_largest s < MAX_NUMBER_OF_SLAB_CLASSES) &&
  bool_decide (getc s 0 = slabclass0) && bool_decide (mem_base s = 0).

Lemma fresh_inv cfg cap h s : fresh cfg cap s = true -> 0 < slab_page_size cfg < 2 ^ 31 ->
  2 * cap + 16 < 2 ^ 31 -> Z.of_nat (length (nonnull (mallocs s))) <= cap ->
  spaced (slab_page_size cfg) (nonnull (mallocs s)) ->
  (forall p, newslab_len cfg p = slab_page_size cfg) ->
  user_inv cfg cap (User h s []) (fun _ => []).
Proof.
  intros Hf Hpg Hcap Hm Hsp Hlen. unfold fresh in Hf.
  apply andb_true_iff in Hf as [Hf Hb%bool_decide_eq_true].
  apply andb_true_iff in Hf as [Hf H0%bool_decide_eq_true].
  apply andb_true_iff in Hf as [Hf Hpl%bool_decide_eq_true].
  assert (forall id, 1 <= id <= power_largest s -> fresh_class cfg cap (getc s id) = true) as Hc.
  { intros id Hid. rewrite forallb_forall in Hf. apply Hf, list_elem_of_In, elem_of_seqZ. lia. }
  assert (forall id, 0 <= id <= power_largest s -> slabs (getc s id) = 0 /\ list_size (getc s id) = 0 /\
    slab_list (getc s id) = []) as Hz.
  { intros id Hid. destruct (decide (id = 0)) as [->|]; [by rewrite H0|].
    specialize (Hc id ltac:(lia)). apply bool_decide_eq_true in Hc. tauto. }
  assert (forall id, 0 <= id <= power_largest s -> pages (getc s id) = []) as Hpages
    by (intros id Hid; unfold pages; destruct (Hz id Hid) as (-> & _ & ->); done).
  assert (all_pages s = []) as Hall.
  { unfold all_pages. rewrite (Forall_bind_ext _ (fun _ => [])).
    - induction (seqZ 0 (power_largest s + 1)) as [|i L IH]; [done|exact IH].
    - apply Forall_forall. intros id Hid%elem_of_seqZ. apply Hpages. lia. }
  assert (forall id, 1 <= id <= power_largest s -> class_chunks (getc s id) = []) as Hcc
    by (intros id Hid; unfold class_chunks; rewrite Hpages by lia; done).
  split; simpl.
  - split; try done.
    + split_and!; [lia|lia|]. rewrite Hall. unfold remaining. rewrite decide_True by done. simpl. lia.
    + intros id Hid. specialize (Hc id Hid). apply bool_decide_eq_true in Hc. tauto.
    + intros id Hid. destruct (Hz id Hid) as (-> & -> & ->). simpl. lia.
    + intros id Hid. specialize (Hc id Hid). apply bool_decide_eq_true in Hc.
      split; simpl; [|tauto|set_solver]. assert (slots (getc s id) = 0) as -> by tauto.
      split_and!; try done. constructor.
    + intros id x _ Hx. set_solver.
    + unfold src_ok. rewrite decide_True, Hall by done. exact Hsp.
  - intros id _. apply Hlen.
  - intros t Ht. set_solver.
  - intros id Hid. by rewrite Hcc.
  - intros id Hid. specialize (Hc id Hid). apply bool_decide_eq_true in Hc.
    assert (requested (getc s id) = 0) as -> by tauto. done.
Qed.

(** [run_ok], decided. *)
Definition slab_op_okb (o : slab_op) (u : user) : bool :=
  match o with
  | SAlloc size id _ =>
      bool_decide (1 <= id <= power_largest (uslabs u) /\ 0 <= size <= csize (getc (uslabs u) id))
  | SFree i => match live u !! i with
               | Some t => negb (has (geti (uheap u) (addr t)) ITEM_CHUNKED) | None => false end
  | SWrite i off _ => match live u !! i with
               | Some t => bool_decide (0 <= off < csize (getc (uslabs u) (cls t))) | None => false end
  end.

Fixpoint run_okb (cfg : settings) (ops : list slab_op) (u : user) : bool :=
  match ops with
  | [] => true
  | o :: ops =>
      slab_op_okb o u &&
      match slab_step cfg o u with Ok u => run_okb cfg ops u | _ => true end
  end.

Lemma run_okb_spec cfg ops u : run_okb cfg ops u = true -> run_ok cfg ops u.
Proof.
  revert u. induction ops as [|o ops IH]; intros u; simpl; [done|].
  intros [Ho Hr]%andb_true_iff. split.
  - destruct o; simpl in *.
    + by apply bool_decide_eq_true in Ho.
    + destruct (live u !! i) as [t|]; [|done]. exists t. split; [done|]. by apply negb_true_iff.
    + destruct (live u !! i) as [t|]; [|done]. exists t. split; [done|]. by apply bool_decide_eq_true in Ho.
  - intros u' Hs. rewrite Hs in Hr. by apply IH.
Qed.

Module Demo.
(** Pages of 1024 bytes; malloc gives three, after one failure. *)
Definition cfg : settings :=
  settings_init <| slab_page_size := 1024 |> <| slab_chunk_size_max := 512 |> <| item_size_max := 1024 |>.

Definition s0 : slabs_t :=
  match slabs_init cfg 4096 b64_1_25 false None None ∅ (slabs_globals [1024; 8192; 0; 4096] []) with
  | Ok (_, s) => s
  | _ => slabs_globals [] []
  end.

Lemma inv0 : user_inv cfg 100 (User ∅ s0 []) (fun _ => []).
Proof.
  apply fresh_inv; [vm_compute; reflexivity|by vm_compute|by vm_compute|vm_compute; discriminate| |done].
  vm_compute. repeat split; try reflexivity; intros q Hq;
    repeat (apply elem_of_cons in Hq as [->|Hq]); try (by apply not_elem_of_nil in Hq);
    first [left; vm_compute; discriminate|right; vm_compute; discriminate].
Qed.

(** Two classes, a chunk freed and handed out again, a class without a page
    under SLABS_ALLOC_NO_NEWPAGE, a failed malloc, and the memory limit. *)
Definition ops : list slab_op :=
  [ SAlloc 90 1 0; SAlloc 90 1 0; SWrite 0 48 (fun i => i <| nkey := 7 |>); SAlloc 300 6 0; SFree 1;
    SAlloc 50 1 0; SAlloc 350 7 1; SAlloc 350 7 0; SAlloc 500 8 0; SAlloc 300 6 0; SFree 3 ].

Example final :
  match slab_run cfg ops (User ∅ s0 []) with
  | Ok u => live u = [(8496, 6, 300); (4608, 8, 500); (1792, 1, 50); (1888, 1, 90)] /\
            mem_malloced (uslabs u) = 4096
  | _ => False
  end.
Proof. vm_compute. split; reflexivity. Qed.
End Demo.

Lemma slab_allocator_sound_witness :
  run_ok Demo.cfg Demo.ops (User ∅ Demo.s0 []) /\
  exists u', slab_run Demo.cfg Demo.ops (User ∅ Demo.s0 []) = Ok u' /\ allocator_ok u'.
Proof.
  assert (run_ok Demo.cfg Demo.ops (User ∅ Demo.s0 [])) as H
    by (apply run_okb_spec; vm_compute; reflexivity).
  split; [exact H|].
  exact (slab_allocator_sound Demo.cfg 100 (User ∅ Demo.s0 []) (fun _ => []) Demo.ops Demo.inv0 H).
Defined.

(** C26. A chunk freed is the next chunk its class hands out, whether or not a new
    page may be taken, and the free chunks of the other classes are not touched. *)
Theorem free_alloc_lifo cfg cap u F i t size flags :
  user_inv cfg cap u F -> live u !! i = Some t ->
  has (geti (uheap u) (addr t)) ITEM_CHUNKED = false ->
  0 <= size <= csize (getc (uslabs u) (cls t)) ->
  exists u1 u2, slab_step cfg (SFree i) u = Ok u1 /\
    slab_step cfg (SAlloc size (cls t) flags) u1 = Ok u2 /\
    live u2 = (addr t, cls t, size) :: delete i (live u) /\
    forall j y, 1 <= j <= power_largest (uslabs u) -> j <> cls t -> y ∈ F j ->
      geti (uheap u2) y = geti (uheap u) y.
Proof.
  intros U Ht Hch Hsz. pose proof (ui_slabs _ _ _ _ U) as I.
  assert (t ∈ live u) as Hin by (by eapply list_elem_of_lookup_2).
  pose proof (ui_cls _ _ _ _ U t Hin) as Hc.
  destruct (user_free cfg cap u F i t U Ht Hch) as (u1 & H1 & U1 & El & Epl & Ecs & Ht0 & Hfr).
  destruct (user_alloc cfg cap u1 _ size (cls t) flags U1) as (u2 & F2 & H2 & _ & Hx & Hfr2).
  { simpl. rewrite Epl, Ecs. done. }
  exists u1, u2. split_and!; [done|done| |].
  - rewrite <- El. apply (Hx (addr t) (F (cls t))); [|done]. unfold upd. by rewrite decide_True.
  - intros j y Hj Hne Hy. rewrite (Hfr2 j) by (rewrite ?Epl; unfold upd; try rewrite decide_False; done).
    apply Hfr; [by intros ->; eapply user_live_notfree in Hy|].
    intros Hy'. apply Hne. eapply chunk_class_unique; [exact I|done|done|by eapply si_sub|by eapply si_sub].
Qed.

Lemma slabs_clsid_bounds cfg s size :
  sizes_sorted s -> 1 <= power_largest s ->
  let c := slabs_clsid cfg s size in
  (size = 0 \/ item_size_max cfg < size -> c = 0) /\
  (0 < size <= item_size_max cfg ->
   1 <= c <= power_largest s /\ (forall j, 1 <= j < c -> csize (getc s j) < size) /\
   (size <= csize (getc s c) \/ c = power_largest s)).
Proof.
  intros Hs Hpl c. unfold c, slabs_clsid. split; intros H.
  - by rewrite decide_True by tauto.
  - rewrite decide_False by lia. apply clsid_loop_spec; [done|unfold POWER_SMALLEST; lia..].
Qed.

(** C23. slabs_clsid returns the smallest class whose chunks can hold [size]
    bytes; when none can, the largest class (whose users chain chunks); 0 when
    the size is 0 or above item_size_max. *)
Theorem slabs_clsid_smallest cfg s size :
  sizes_sorted s -> 1 <= power_largest s ->
  let c := slabs_clsid cfg s size in
  (size = 0 \/ item_size_max cfg < size -> c = 0) /\
  (0 < size <= item_size_max cfg ->
   1 <= c <= power_largest s /\ (forall j, 1 <= j < c -> csize (getc s j) < size) /\
   (size <= csize (getc s c) \/ c = power_largest s)).
Proof. apply slabs_clsid_bounds. Qed.

(** *** slabs_init *)

(** The specification: the size class [j + 1] starts from, and where the table ends. *)
Section class_sizes.
Context (cfg : settings) (fac : spec_float) (sizes : option (list Z)).

Definition round_up (x : Z) : Z := u32 ((x + 7) / 8 * 8).

Definition start_size (j : nat) : Z :=
  match sizes with
  | Some l => nth j l 0
  | None => Nat.iter j (fun x => u32 (b64_to_Z (b64_mul (b64_of_Z (round_up x)) fac)))
              (u32 (sizeof_item + chunk_size cfg))
  end.

Definition ends_at (j : nat) : bool :=
  match sizes with
  | Some _ => bool_decide (start_size j = 0)
  | None => SFleb (b64_div (b64_of_Z (slab_chunk_size_max cfg)) fac) (b64_of_Z (start_size j))
  end.

(** A class of size 0. *)
Definition zero_class (j : nat) : Prop :=
  (j < 62)%nat /\ (forall k, (k <= j)%nat -> ends_at k = false) /\ round_up (start_size j) = 0.

Definition new_class (size : Z) : slabclass_t :=
  slabclass0 <| csize := size |> <| perslab := slab_page_size cfg / size |>.

Context (Hsizes : forall l, sizes = Some l -> Forall (in_u 32) l).

Lemma start_size_range j : in_u 32 (start_size j).
Proof.
  unfold start_size. destruct sizes as [l|].
  - destruct (nth_in_or_default j l 0) as [Hin| ->]; [|by vm_compute].
    specialize (Hsizes l eq_refl). rewrite Forall_forall in Hsizes. by apply Hsizes, list_elem_of_In.
  - destruct j; apply wrap_range; lia.
Qed.

Lemma align_size_round x : in_u 32 x -> align_size x = round_up x.
Proof.
  intros Hx. unfold align_size, round_up, CHUNK_ALIGN_BYTES. case_decide as Hm.
  - f_equal. Z.div_mod_to_equations. lia.
  - rewrite wrap_small; [Z.div_mod_to_equations; lia|]. unfold in_u in *. Z.div_mod_to_equations. lia.
Qed.

(** What the loop has built when it comes to class [j + 1]. *)
Record built (j : nat) (s : slabs_t) : Prop := {
  bl_none id : Z.of_nat j + 1 <= id -> slabclass s !! id = None;
  bl_class k : (k < j)%nat -> ends_at k = false /\ round_up (start_size k) <> 0 /\
    getc s (Z.of_nat k + 1) = new_class (round_up (start_size k))
}.

Lemma built_step j s : built j s -> ends_at j = false -> round_up (start_size j) <> 0 ->
  built (S j) (set_class cfg (Z.of_nat j + 1) (round_up (start_size j)) s).
Proof using Type.
  clear Hsizes. intros [Hn Hc] He Hz. unfold set_class. split.
  - intros id Hid. unfold setc. simpl. rewrite lookup_insert_ne by lia. apply Hn. lia.
  - intros k Hk. rewrite getc_setc. destruct (decide (Z.of_nat j + 1 = Z.of_nat k + 1)) as [E|E].
    + replace k with j by lia. split_and!; [done|done|]. unfold getc. by rewrite Hn by lia.
    + apply Hc. lia.
Qed.

Definition loop_result (X : res (Z * slabs_t)) (s : slabs_t) : Prop :=
  (X = Abort /\ exists k, zero_class k) \/
  (exists n s', X = Ok (Z.of_nat n + 1, s') /\ (n <= 62)%nat /\ built n s' /\
    ((n < 62)%nat -> ends_at n = true) /\ sscalars s' = sscalars s).

Lemma init_loop_spec fuel : forall j size s,
  (j <= 62)%nat -> (62 < fuel + j)%nat -> (sizes = None -> size = start_size j) -> built j s ->
  loop_result (init_loop cfg fuel fac sizes (Z.of_nat j) size s) s.
Proof.
  induction fuel as [|fuel IH]; intros j size s Hj Hf Hsz Hb; [lia|].
  cbn [init_loop]. unfold MAX_NUMBER_OF_SLAB_CLASSES.
  destruct (decide (Z.of_nat j + 1 < 64 - 1)) as [Hlt|Hlt].
  2:{ right. exists j, s. split_and!; [done|done|done|lia|done]. }
  pose proof (start_size_range j) as Hr.
  assert (ends_at j = true -> loop_result (Ok (Z.of_nat j + 1, s)) s) as Hend by (intros He; right; by exists j, s).
  assert (ends_at j = false -> round_up (start_size j) = 0 -> loop_result Abort s) as Hzero.
  { intros He Hz. left. split; [done|]. exists j. split_and!; [lia| |done]. intros k Hk.
    destruct (decide (k = j)) as [->|]; [done|]. apply (bl_class _ _ Hb). lia. }
  assert (ends_at j = false -> round_up (start_size j) <> 0 -> forall nsize,
    (sizes = None -> nsize = start_size (S j)) ->
    loop_result (init_loop cfg fuel fac sizes (Z.of_nat j + 1) nsize
      (set_class cfg (Z.of_nat j + 1) (round_up (start_size j)) s)) s) as Hstep.
  { intros He Hz nsize Hns. pose proof (built_step j s Hb He Hz) as Hb'.
    replace (Z.of_nat j + 1) with (Z.of_nat (S j)) in * by lia.
    exact (IH (S j) nsize _ ltac:(lia) ltac:(lia) Hns Hb'). }
  clear IH. unfold ends_at in Hend, Hzero, Hstep. destruct sizes as [l|] eqn:Es.
  - replace (Z.to_nat (Z.of_nat j + 1 - 1)) with j by lia.
    replace (nth j l 0) with (start_size j) by (unfold start_size; by rewrite Es).
    rewrite align_size_round by done. destruct (decide (start_size j = 0)) as [E|E].
    { apply Hend. by apply bool_decide_eq_true. }
    rewrite bool_decide_eq_false_2 in Hzero, Hstep by done.
    destruct (decide (round_up (start_size j) = 0)) as [Ez|Ez]; [by apply Hzero|]. by apply Hstep.
  - rewrite (Hsz eq_refl).
    destruct (SFleb _ _); [by apply Hend|]. rewrite align_size_round by done.
    destruct (decide _) as [Ez|Ez]; [by apply Hzero|]. apply Hstep; [done|done|].
    intros _. unfold start_size. by rewrite Es.
Qed.
End class_sizes.

(** C27. slabs_init without preallocation, with a growth factor or with given sizes.
    Each class starts from the size given for it, or from the size of the one before
    times the factor (the first: an item header and chunk_size), rounded up to a
    multiple of 8 in 32 bits, and cuts a page into as many chunks as fit; the table
    ends at the first size 0 given, or at the first size that reaches the largest
    chunk size divided by the factor, and at class 63; its last class has the largest
    chunk size; no page is taken.  The process dies of a division by zero exactly
    when the largest chunk size is 0 or a class before the last rounds to size 0. *)
Theorem slabs_init_classes cfg limit fac sizes malloced h s :
  (forall l, sizes = Some l -> Forall (in_u 32) l) ->
  (slabs_init cfg limit fac false sizes malloced h s = Abort /\
    (slab_chunk_size_max cfg = 0 \/ exists j, zero_class cfg fac sizes j)) \/
  (exists n s', slabs_init cfg limit fac false sizes malloced h s = Ok (h, s') /\
    slab_chunk_size_max cfg <> 0 /\ (n <= 62)%nat /\ power_largest s' = Z.of_nat n + 1 /\
    (forall j, (j < n)%nat -> ends_at cfg fac sizes j = false) /\ ((n < 62)%nat -> ends_at cfg fac sizes n = true) /\
    (forall j, (j < n)%nat -> let size := round_up (start_size cfg fac sizes j) in
      size <> 0 /\ getc s' (Z.of_nat j + 1) = new_class cfg size) /\
    getc s' (power_largest s') = new_class cfg (slab_chunk_size_max cfg) /\
    (forall id, power_largest s' < id -> getc s' id = slabclass0) /\ mem_limit s' = limit).
Proof.
  intros Hsizes. unfold slabs_init. set (s1 := s <| mem_limit := limit |> <| slabclass := ∅ |>).
  change (s <| mem_limit := limit |> <| slabclass := ∅ |>) with s1.
  assert (built cfg fac sizes 0 s1) as H0 by (split; [intros; apply lookup_empty|intros; lia]).
  destruct (init_loop_spec cfg fac sizes Hsizes 64 0 (u32 (sizeof_item + chunk_size cfg)) s1
    ltac:(lia) ltac:(lia) ltac:(by intros ->) H0) as [[E Hz]|(n & s2 & E & Hn & [Hnone Hc] & He & Hsc)];
    change (POWER_SMALLEST - 1) with (Z.of_nat 0); rewrite E; [left; by auto|].
  injection Hsc as El _ _ _ _ _ _ _ _. simpl. destruct (decide (slab_chunk_size_max cfg = 0)) as [Em|Em]; [left; by auto|].
  right. exists n. eexists. split; [reflexivity|]. set (s3 := setc _ _ _).
  assert (forall id, getc s3 id = if decide (Z.of_nat n + 1 = id) then new_class cfg (slab_chunk_size_max cfg)
    else getc s2 id) as Hg.
  { intros id. unfold s3. rewrite getc_setc. destruct (decide (Z.of_nat n + 1 = id)) as [<-|]; [|done].
    unfold getc. simpl. by rewrite Hnone by lia. }
  assert (power_largest s3 = Z.of_nat n + 1 /\ mem_limit s3 = limit) as [Ep Elim] by done. clearbody s3.
  assert (forall s', slabclass s' = slabclass s3 -> power_largest s' = power_largest s3 -> mem_limit s' = mem_limit s3 ->
    power_largest s' = Z.of_nat n + 1 /\ mem_limit s' = limit /\ forall id, getc s' id = getc s3 id) as Hk.
  { intros s' Ecl -> ->. split_and!; [done|done|]. intros id. unfold getc. by rewrite Ecl. }
  match goal with |- context [power_largest ?x] => destruct (Hk x) as (-> & Hlim & Hg'); [by destruct malloced..|] end.
  split_and!; [done|done|done|intros j Hj; apply (Hc j Hj)|done| | | |done].
  - intros j Hj. rewrite Hg', Hg, decide_False by lia. split; apply (Hc j Hj).
  - by rewrite Hg', Hg, decide_True by done.
  - intros id Hid. rewrite Hg', Hg, decide_False by lia. unfold getc. by rewrite Hnone by lia.
Qed.

Lemma slabs_init_classes_witness : Forall (in_u 32) [100; 200; 0] /\
  exists s', slabs_init settings_init 1048576 b64_1_25 false (Some [100; 200; 0]) None ∅ (slabs_globals [] []) = Ok (∅, s') /\
    power_largest s' = 3 /\ getc s' 1 = new_class settings_init 104 /\ getc s' 3 = new_class settings_init 524288.
Proof.
  assert (Forall (in_u 32) [100; 200; 0]) as Hf by (repeat constructor; vm_compute; congruence).
  split; [exact Hf|].
  destruct (slabs_init_classes settings_init 1048576 b64_1_25 (Some [100; 200; 0]) None ∅ (slabs_globals [] []))
    as [[E _]|(n & s' & E & _ & Hn & Hp & Hlt & He & Hc & Hl & _)].
  - intros l Hs. injection Hs as <-. exact Hf.
  - vm_compute in E. discriminate E.
  - assert (n = 2%nat) as ->.
    { destruct n as [|[|[|n]]]; [discriminate (He ltac:(lia))|discriminate (He ltac:(lia))|reflexivity|].
      discriminate (Hlt 2%nat ltac:(lia)). }
    exists s'. split; [exact E|]. split; [exact Hp|]. split; [exact (proj2 (Hc 0%nat ltac:(lia)))|].
    rewrite Hp in Hl. exact Hl.
Defined.

(** A size given within 7 of 2^32 rounds to 0 and kills the process. *)
Example size_rounds_to_zero :
  slabs_init settings_init 1048576 b64_1_25 false (Some [2 ^ 32 - 5; 0]) None ∅ (slabs_globals [] []) = Abort.
Proof. vm_compute. reflexivity. Qed.

(** The classes of the default settings: the factor 1.25 in binary64. *)
Example default_classes :
  match slabs_init settings_init (64 * 1024 * 1024) b64_1_25 false None None ∅ (slabs_globals [] []) with
  | Ok (_, s) => (csize ∘ getc s) <$> seqZ 1 (power_largest s) =
      [96; 120; 152; 192; 240; 304; 384; 480; 600; 752; 944; 1184; 1480; 1856; 2320; 2904; 3632;
       4544; 5680; 7104; 8880; 11104; 13880; 17352; 21696; 27120; 33904; 42384; 52984; 66232;
       82792; 103496; 129376; 161720; 202152; 252696; 315872; 394840; 524288]
  | _ => False
  end.
Proof. vm_compute. reflexivity. Qed.

(** memory_allocate adds the size to mem_malloced even when malloc fails. *)
Example malloc_failure_counted : let '(p, s) := memory_allocate 1024 (slabs_globals [] []) in
  p = 0 /\ mem_malloced s = 1024.
Proof. done. Qed.

(** *** Reassignment requests *)

(** The [k]-th class the cursor visits. *)
Definition visited (s : slabs_t) (cur k : Z) : Z := (cur + k - 1) mod power_largest s + 1.

Lemma pick_loop_spec tries : forall dst cur s, 1 <= power_largest s -> 0 <= cur <= power_largest s ->
  let '(ret, cur') := pick_loop tries dst cur s in
  0 <= cur' <= power_largest s /\
  ((ret = -1 /\ forall k, 1 <= k <= Z.of_nat tries ->
      visited s cur k = dst \/ slabs (getc s (visited s cur k)) <= 1) \/
   (1 <= ret <= power_largest s /\ ret <> dst /\ 1 < slabs (getc s ret))).
Proof.
  induction tries as [|tries IH]; intros dst cur s Hpl Hcur; simpl.
  { split; [done|]. left. split; [done|]. lia. }
  set (c := if decide (power_largest s < cur + 1) then POWER_SMALLEST else cur + 1).
  assert (c = visited s cur 1 /\ 1 <= c <= power_largest s) as [Hc Hcr].
  { unfold visited, c, POWER_SMALLEST. rewrite Z.add_simpl_r. destruct (decide _).
    - replace cur with (power_largest s) by lia. rewrite Z.mod_same by lia. lia.
    - rewrite Z.mod_small by lia. lia. }
  clearbody c. specialize (IH dst c s Hpl ltac:(lia)).
  assert (forall k, 1 <= k -> visited s c k = visited s cur (k + 1)) as Hv.
  { intros k Hk. rewrite Hc. unfold visited.
    replace ((cur + 1 - 1) mod power_largest s + 1 + k - 1) with (k + cur mod power_largest s)
      by (rewrite Z.add_simpl_r; lia).
    rewrite Zplus_mod_idemp_r. f_equal. f_equal. lia. }
  assert ((c = dst \/ slabs (getc s c) <= 1) ->
    let '(ret, cur') := pick_loop tries dst c s in
    0 <= cur' <= power_largest s /\
    ((ret = -1 /\ forall k, 1 <= k <= Z.of_nat (S tries) ->
      visited s cur k = dst \/ slabs (getc s (visited s cur k)) <= 1) \/
     (1 <= ret <= power_largest s /\ ret <> dst /\ 1 < slabs (getc s ret)))) as Hskip.
  { intros Hno. destruct (pick_loop tries dst c s) as [ret cur'].
    destruct IH as (H1 & [[-> H2]|H2]); (split; [done|]); [left|by right].
    split; [done|]. intros k Hk. destruct (decide (k = 1)) as [->|]; [by rewrite <- Hc|].
    replace k with (k - 1 + 1) by lia. rewrite <- Hv by lia. apply H2. lia. }
  destruct (decide (c = dst)); [by apply Hskip; left|].
  destruct (decide (1 < slabs (getc s c))); [|apply Hskip; right; lia].
  split; [lia|]. by right.
Qed.

(** C38. slab_reassign_pick_any finds a source class whenever one exists: it
    returns a class other than [dst] with a page to spare, and -1 exactly when no
    class has one. *)
Theorem pick_any_complete s dst r :
  1 <= power_largest s -> 0 <= pick_cur r <= power_largest s ->
  let '(src, r') := slab_reassign_pick_any dst s r in
  (src = -1 <-> forall id, 1 <= id <= power_largest s -> id = dst \/ slabs (getc s id) <= 1) /\
  (src <> -1 -> 1 <= src <= power_largest s /\ src <> dst /\ 1 < slabs (getc s src)) /\
  0 <= pick_cur r' <= power_largest s.
Proof.
  intros Hpl Hcur. unfold slab_reassign_pick_any, POWER_SMALLEST. rewrite Z.sub_add.
  pose proof (pick_loop_spec (Z.to_nat (power_largest s)) dst (pick_cur r) s Hpl Hcur) as H.
  destruct (pick_loop _ _ _ _) as [src cur']. destruct H as (Hc & [[-> H]|H]); simpl.
  - split_and!; [|done|lia|lia]. split; [|done]. intros _ id Hid.
    pose proof (Z.mod_pos_bound (id - 1 - pick_cur r) (power_largest s) ltac:(lia)).
    specialize (H ((id - 1 - pick_cur r) mod power_largest s + 1) ltac:(lia)).
    assert (visited s (pick_cur r) ((id - 1 - pick_cur r) mod power_largest s + 1) = id) as Ev;
      [|by rewrite Ev in H].
    unfold visited. replace (pick_cur r + ((id - 1 - pick_cur r) mod power_largest s + 1) - 1)
      with (pick_cur r + (id - 1 - pick_cur r) mod power_largest s) by lia.
    rewrite Zplus_mod_idemp_r. replace (pick_cur r + (id - 1 - pick_cur r)) with (id - 1) by lia.
    rewrite Z.mod_small by lia. lia.
  - split_and!; [|done|lia|lia]. split; [lia|]. intros Hall.
    destruct H as (H1 & H2 & H3). destruct (Hall src H1); lia.
Qed.

(** C37. slabs_reassign answers REASSIGN_OK exactly when it posts a request, and a
    request it posts names two different classes, the source with at least two
    pages: what slab_rebalance_start checks again.  Any other answer leaves the
    rebalancer's state alone, but for the cursor of slab_reassign_pick_any. *)
Theorem slabs_reassign_posts trylock src dst s r :
  1 <= power_largest s -> 0 <= pick_cur r <= power_largest s ->
  let '(ret, r') := slabs_reassign trylock src dst s r in
  (ret = REASSIGN_OK -> slab_rebalance_signal r = 0 /\ slab_rebalance_signal r' = 1 /\
     0 <= s_clsid r' <= power_largest s /\ d_clsid r' = dst /\ 0 <= dst <= power_largest s /\
     s_clsid r' <> dst /\ 2 <= slabs (getc s (s_clsid r')) /\ (src <> -1 -> s_clsid r' = src)) /\
  (ret <> REASSIGN_OK -> r' = r <| pick_cur := pick_cur r' |>).
Proof.
  intros Hpl Hcur. unfold slabs_reassign. destruct trylock; [|split; [done|by destruct r]].
  unfold do_slabs_reassign. destruct (decide (slab_rebalance_signal r <> 0)) as [|Hsig];
    [split; [done|by destruct r]|].
  destruct (decide (src = dst)) as [|Hne]; [split; [done|by destruct r]|].
  assert (exists src1 r1, (if decide (src = -1) then slab_reassign_pick_any dst s r else (src, r)) = (src1, r1) /\
    src1 <> dst /\ r1 = r <| pick_cur := pick_cur r1 |> /\ (src <> -1 -> src1 = src))
    as (src1 & r1 & -> & Hsrc & Er & Hsame).
  { destruct (decide (src = -1)) as [->|].
    - pose proof (pick_loop_spec (Z.to_nat (power_largest s)) dst (pick_cur r) s Hpl Hcur) as H.
      unfold slab_reassign_pick_any, POWER_SMALLEST. rewrite Z.sub_add.
      destruct (pick_loop _ _ _ _) as [src1 cur1]. eexists _, _. split; [done|].
      destruct H as (_ & [[-> _]|(_ & ? & _)]); split_and!; try done; by destruct r.
    - exists src, r. split_and!; try done. by destruct r. }
  destruct (decide (src1 < SLAB_GLOBAL_PAGE_POOL \/ _)) as [|Hrange]; [by split|].
  destruct (decide (slabs (getc s src1) < 2)) as [|Hsp]; [by split|].
  unfold SLAB_GLOBAL_PAGE_POOL in Hrange. split; [|done]. intros _. simpl.
  split_and!; try done; lia.
Qed.

Module Witness.
(** The state of [Demo] after two chunks were handed out. *)
Definition u1 : user :=
  match slab_run Demo.cfg [SAlloc 90 1 0; SAlloc 90 1 0] (User ∅ Demo.s0 []) with
  | Ok u => u | _ => User ∅ Demo.s0 [] end.
Lemma inv1 : exists F, user_inv Demo.cfg 100 u1 F.
Proof.
  assert (slab_op_ok (SAlloc 90 1 0) (User ∅ Demo.s0 [])) as H1 by by vm_compute.
  destruct (user_step_inv _ _ _ _ _ Demo.inv0 H1) as (v1 & F1 & E1 & U1).
  assert (slab_op_ok (SAlloc 90 1 0) v1) as H2.
  { assert (match slab_step Demo.cfg (SAlloc 90 1 0) (User ∅ Demo.s0 []) with
      Ok v => bool_decide (slab_op_ok (SAlloc 90 1 0) v) | _ => true end = true) as Hc
      by (vm_compute; reflexivity).
    rewrite E1 in Hc. by apply bool_decide_eq_true in Hc. }
  destruct (user_step_inv _ _ _ _ _ U1 H2) as (v2 & F2 & E2 & U2).
  exists F2. unfold u1. cbn [slab_run]. rewrite E1. cbn [mbind res_bind]. rewrite E2. exact U2.
Qed.

Definition rs : slabs_t :=
  setc (setc Demo.s0 3 (fun p => p <| slabs := 2 |>)) 5 (fun p => p <| slabs := 4 |>).
End Witness.

Lemma free_alloc_lifo_witness : exists u1 u2,
  slab_step Demo.cfg (SFree 1) Witness.u1 = Ok u1 /\
  slab_step Demo.cfg (SAlloc 60 1 1) u1 = Ok u2 /\
  live u2 = [(1888, 1, 60); (1888 - 96, 1, 90)].
Proof.
  destruct Witness.inv1 as [F U].
  destruct (free_alloc_lifo Demo.cfg 100 Witness.u1 F 1 (1888, 1, 90) 60 1 U) as (u1 & u2 & H1 & H2 & H3 & _).
  - vm_compute. reflexivity.
  - vm_compute. reflexivity.
  - vm_compute. split; discriminate.
  - exists u1, u2. split; [exact H1|]. split; [exact H2|]. rewrite H3. vm_compute. reflexivity.
Defined.

Lemma sizes_sorted_dec s :
  forallb (fun id => bool_decide (csize (getc s id) <= csize (getc s (id + 1)))) (seqZ 1 (power_largest s - 1)) = true ->
  sizes_sorted s.
Proof.
  intros H i j Hi Hj. rewrite forallb_forall in H.
  assert (forall n : nat, i + Z.of_nat n <= power_largest s ->
    csize (getc s i) <= csize (getc s (i + Z.of_nat n))) as Hn.
  { induction n as [|n IH]; intros Hle; [rewrite Z.add_0_r; lia|].
    assert (csize (getc s (i + Z.of_nat n)) <= csize (getc s (i + Z.of_nat n + 1))) as Hs.
    { specialize (H (i + Z.of_nat n)). rewrite bool_decide_eq_true in H. apply H.
      apply list_elem_of_In, elem_of_seqZ. lia. }
    replace (i + Z.of_nat (S n)) with (i + Z.of_nat n + 1) by lia. lia. }
  specialize (Hn (Z.to_nat (j - i))). replace (i + Z.of_nat (Z.to_nat (j - i))) with j in Hn by lia.
  apply Hn. lia.
Qed.

Lemma slabs_clsid_smallest_witness :
  sizes_sorted Demo.s0 /\ Slabs.slabs_clsid Demo.cfg Demo.s0 153 = 4 /\
  (0 < 153 <= item_size_max Demo.cfg ->
   1 <= 4 <= power_largest Demo.s0 /\ (forall j, 1 <= j < 4 -> csize (getc Demo.s0 j) < 153) /\
   (153 <= csize (getc Demo.s0 4) \/ 4 = power_largest Demo.s0)).
Proof.
  assert (sizes_sorted Demo.s0) as H by (apply sizes_sorted_dec; vm_compute; reflexivity).
  split; [exact H|]. split; [vm_compute; reflexivity|].
  refine (proj2 (slabs_clsid_smallest Demo.cfg Demo.s0 153 H _)). vm_compute. discriminate.
Defined.

Lemma pick_any_complete_witness :
  let '(src, r') := slab_reassign_pick_any 5 Witness.rs (rebal0 <| pick_cur := 7 |>) in
  (src = -1 <-> forall id, 1 <= id <= power_largest Witness.rs -> id = 5 \/ slabs (getc Witness.rs id) <= 1) /\
  (src <> -1 -> 1 <= src <= power_largest Witness.rs /\ src <> 5 /\ 1 < slabs (getc Witness.rs src)) /\
  0 <= pick_cur r' <= power_largest Witness.rs.
Proof.
  apply (pick_any_complete Witness.rs 5 (rebal0 <| pick_cur := 7 |>)).
  - vm_compute. discriminate.
  - vm_compute. split; discriminate.
Defined.

Lemma slabs_reassign_posts_witness :
  let '(ret, r') := slabs_reassign true (-1) 5 Witness.rs rebal0 in
  ret = REASSIGN_OK /\ s_clsid r' = 3 /\
  (ret = REASSIGN_OK -> slab_rebalance_signal rebal0 = 0 /\ slab_rebalance_signal r' = 1 /\
     0 <= s_clsid r' <= power_largest Witness.rs /\ d_clsid r' = 5 /\ 0 <= 5 <= power_largest Witness.rs /\
     s_clsid r' <> 5 /\ 2 <= slabs (getc Witness.rs (s_clsid r')) /\ (-1 <> -1 -> s_clsid r' = -1)).
Proof.
  assert (1 <= power_largest Witness.rs) as H1 by (vm_compute; discriminate).
  assert (0 <= pick_cur rebal0 <= power_largest Witness.rs) as H2 by (vm_compute; split; discriminate).
  pose proof (slabs_reassign_posts true (-1) 5 Witness.rs rebal0 H1 H2) as H.
  destruct (slabs_reassign true (-1) 5 Witness.rs rebal0) as [ret r'] eqn:E.
  vm_compute in E. injection E as <- <-. split; [reflexivity|]. split; [reflexivity|]. exact (proj1 H).
Defined.
