(* ===== verification/Items.v ===== *)
(** * Items and the LRU queues (src/slabs_curd/items.c)

    The operations of items.c as computations over the whole store: the memory of
    the items, the slab allocator, the hash table and the LRU queues.  Each takes
    the store under the locks the code holds when it is called; the calls of
    pthread_mutex_lock and unlock have no other effect.  STORAGE_delete is empty
    (EXTSTORE is not defined), and the dtrace, logging and debugging lines are
    left out. *)

From S2P Require Import Prelude Decimal Hash Heap Assoc Settings Slabs BipBuffer.

(** The counters of itemstats_t that items.c writes. *)
Record itemstats_t := ItemStats {
  evicted : Z;
  evicted_nonzero : Z;
  reclaimed : Z;
  outofmemory : Z;
  tailrepairs : Z;
  expired_unfetched : Z;
  evicted_unfetched : Z;
  evicted_active : Z;
  lrutail_reflocked : Z;
  moves_to_cold : Z;
  moves_to_warm : Z;
  moves_within_lru : Z;
  direct_reclaims : Z;
  evicted_time : Z
}.

#[export] Instance itemstats_eta : Eta itemstats_t := fun s =>
  ItemStats (evicted s) (evicted_nonzero s) (reclaimed s) (outofmemory s) (tailrepairs s)
    (expired_unfetched s) (evicted_unfetched s) (evicted_active s) (lrutail_reflocked s)
    (moves_to_cold s) (moves_to_warm s) (moves_within_lru s) (direct_reclaims s) (evicted_time s).

Definition itemstats0 : itemstats_t := ItemStats 0 0 0 0 0 0 0 0 0 0 0 0 0 0.

(** The globals of items.c. *)
Record lru_t := Lru {
  heads : gmap Z Z;
  tails : gmap Z Z;
  sizes : gmap Z Z;
  sizes_bytes : gmap Z Z;
  itemstats : gmap Z itemstats_t;
  stats_sizes_hist : option (gmap Z Z);
  stats_sizes_cas_min : Z;
  stats_sizes_buckets : Z;
  cas_id : Z
}.

#[export] Instance lru_eta : Eta lru_t := fun l =>
  Lru (heads l) (tails l) (sizes l) (sizes_bytes l) (itemstats l) (stats_sizes_hist l)
    (stats_sizes_cas_min l) (stats_sizes_buckets l) (cas_id l).

Definition lru0 : lru_t := Lru ∅ ∅ ∅ ∅ ∅ None 0 0 0.

(** struct slab_stats and struct thread_stats, as far as they are written, and
    the thread's lru_bump_buf. *)
Record slab_stats := SlabStats { cas_hits : Z; cas_badval : Z; incr_hits : Z; decr_hits : Z }.
#[export] Instance slab_stats_eta : Eta slab_stats := fun s =>
  SlabStats (cas_hits s) (cas_badval s) (incr_hits s) (decr_hits s).

Record thread_t := Thread {
  get_expired : Z;
  get_flushed : Z;
  cas_misses : Z;
  slab_stats_of : gmap Z slab_stats;
  bump_buf : bipbuf_t;
  dropped : Z
}.
#[export] Instance thread_eta : Eta thread_t := fun t =>
  Thread (get_expired t) (get_flushed t) (cas_misses t) (slab_stats_of t) (bump_buf t) (dropped t).

(** The store.  [now] is current_time; [trylocks] are the outcomes of the next
    item_trylock and slabs_rebalance_lock attempts (later ones succeed). *)
Record st := St {
  mem : heap;
  slb : slabs_t;
  asc : assoc_t;
  lru : lru_t;
  stt : stats_t;
  rbl : rebal_t;
  thr : thread_t;
  now : Z;
  trylocks : list bool
}.

#[export] Instance st_eta : Eta st := fun s =>
  St (mem s) (slb s) (asc s) (lru s) (stt s) (rbl s) (thr s) (now s) (trylocks s).

(** *** Access *)

Definition rd (it : Z) : M st item := gets (fun s => geti (mem s) it).
Definition wr (it : Z) (f : item -> item) : M st unit := modify (fun s => s <| mem ::= fun h => seti h it f |>).
Definition set_lru (f : lru_t -> lru_t) : M st unit := modify (fun s => s <| lru ::= f |>).
Definition set_stats (f : stats_t -> stats_t) : M st unit := modify (fun s => s <| stt ::= f |>).
Definition set_thr (f : thread_t -> thread_t) : M st unit := modify (fun s => s <| thr ::= f |>).

(** itemstats[id].f++ and the like *)
Definition set_istat (id : Z) (f : itemstats_t -> itemstats_t) : M st unit :=
  set_lru (fun l => l <| itemstats ::= <[id := f (default itemstats0 (itemstats l !! id))]> |>).

Definition inc64 (x : Z) : Z := u64 (x + 1).

(** item_trylock(hv) != NULL *)
Definition trylock : M st bool := fun s =>
  match trylocks s with
  | [] => Ok (true, s)
  | b :: bs => Ok (b, s <| trylocks := bs |>)
  end.

Definition refcount_incr (it : Z) : M st Z :=
  wr it (fun i => i <| refcount := u16 (refcount i + 1) |>);; i ← rd it; mret (refcount i).
Definition refcount_decr (it : Z) : M st Z :=
  wr it (fun i => i <| refcount := u16 (refcount i - 1) |>);; i ← rd it; mret (refcount i).

Definition set_flag (f : Z) (i : item) : item := i <| it_flags := Z.lor (it_flags i) f |>.
Definition clear_flag (f : Z) (i : item) : item := i <| it_flags := clear (it_flags i) f |>.

Definition CLEAR_LRU (id : Z) : Z := Z.land id (Z.lnot 192).

Definition LRU_PULL_EVICT : Z := 1.
Definition LRU_PULL_CRAWL_BLOCKS : Z := 2.
Definition LRU_PULL_RETURN_ITEM : Z := 4.

Section items.
Context (cfg : settings) (hash : hash_func).

Definition get_cas_id : M st Z :=
  set_lru (fun l => l <| cas_id := inc64 (cas_id l) |>);; gets (fun s => cas_id (lru s)).

(** ITEM_set_cas(it, settings.use_cas ? get_cas_id() : 0): a macro, which evaluates
    its argument only under the flag. *)
Definition set_new_cas (it : Z) : M st unit :=
  i ← rd it;
  when (has i ITEM_CAS)
    (c ← (if use_cas cfg then get_cas_id else mret 0); wr it (fun i => i <| cas := c |>)).

(** The counter is read into an unsigned int. *)
Definition temp_lru_size (slabs_clsid : Z) : M st Z :=
  gets (fun s => u32 (aget (sizes_bytes (lru s)) (Z.lor (CLEAR_LRU slabs_clsid) TEMP_LRU))).

(** *** The LRU queues *)

Definition do_item_link_q (it : Z) : M st unit :=
  i ← rd it;
  massert (negb (has i ITEM_SLABBED));;
  let c := Heap.slabs_clsid i in
  head ← gets (fun s => aget (heads (lru s)) c);
  tail ← gets (fun s => aget (tails (lru s)) c);
  massert (negb (bool_decide (it = head)));;
  massert (bool_decide ((head <> 0 /\ tail <> 0) \/ (head = 0 /\ tail = 0)));;
  wr it (fun i => i <| prev := 0 |> <| next := head |>);;
  when (negb (bool_decide (head = 0))) (wr head (fun i => i <| prev := it |>));;
  set_lru (fun l => l <| heads ::= <[c := it]> |>);;
  when (bool_decide (tail = 0)) (set_lru (fun l => l <| tails ::= <[c := it]> |>));;
  set_lru (fun l => l <| sizes ::= <[c := u32 (aget (sizes l) c + 1)]> |>);;
  set_lru (fun l => l <| sizes_bytes ::= <[c := u64 (aget (sizes_bytes l) c + ITEM_ntotal i)]> |>).

Definition item_link_q (it : Z) : M st unit := do_item_link_q it.

Definition item_link_q_warm (it : Z) : M st unit :=
  do_item_link_q it;;
  i ← rd it;
  set_istat (Heap.slabs_clsid i) (fun x => x <| moves_to_warm ::= inc64 |>).

Definition do_item_unlink_q (it : Z) : M st unit :=
  i ← rd it;
  let c := Heap.slabs_clsid i in
  head ← gets (fun s => aget (heads (lru s)) c);
  tail ← gets (fun s => aget (tails (lru s)) c);
  when (bool_decide (head = it))
    (massert (bool_decide (prev i = 0));; set_lru (fun l => l <| heads ::= <[c := next i]> |>));;
  when (bool_decide (tail = it))
    (massert (bool_decide (next i = 0));; set_lru (fun l => l <| tails ::= <[c := prev i]> |>));;
  massert (negb (bool_decide (next i = it)));;
  massert (negb (bool_decide (prev i = it)));;
  when (negb (bool_decide (next i = 0))) (wr (next i) (fun n => n <| prev := prev i |>));;
  when (negb (bool_decide (prev i = 0))) (wr (prev i) (fun p => p <| next := next i |>));;
  set_lru (fun l => l <| sizes ::= <[c := u32 (aget (sizes l) c - 1)]> |>);;
  set_lru (fun l => l <| sizes_bytes ::= <[c := u64 (aget (sizes_bytes l) c - ITEM_ntotal i)]> |>).

Definition item_unlink_q (it : Z) : M st unit := do_item_unlink_q it.

(** *** The size histogram *)

Definition sizes_bucket (i : item) : Z :=
  let ntotal := s32 (ITEM_ntotal i) in
  if decide (Z.rem ntotal 32 <> 0) then Z.quot ntotal 32 + 1 else Z.quot ntotal 32.

Definition stats_sizes_change (d : Z) (it : Z) : M st unit :=
  i ← rd it;
  set_lru (fun l =>
    match stats_sizes_hist l with
    | None => l
    | Some hist =>
        if decide (ITEM_get_cas i < stats_sizes_cas_min l) then l
        else if decide (sizes_bucket i < stats_sizes_buckets l)
        then l <| stats_sizes_hist := Some (<[sizes_bucket i := u32 (aget hist (sizes_bucket i) + d)]> hist) |>
        else l
    end).

Definition item_stats_sizes_add (it : Z) : M st unit := stats_sizes_change 1 it.
Definition item_stats_sizes_remove (it : Z) : M st unit := stats_sizes_change (-1) it.

(** *** Link, unlink, release *)

Definition lift_slabs (f : heap -> slabs_t -> res (heap * slabs_t)) : M st unit := fun s =>
  '(h, sl) ← f (mem s) (slb s); Ok (tt, s <| mem := h |> <| slb := sl |>).

Definition item_free (it : Z) : M st unit :=
  i ← rd it;
  let ntotal := ITEM_ntotal i in
  massert (negb (has i ITEM_LINKED));;
  head ← gets (fun s => aget (heads (lru s)) (Heap.slabs_clsid i));
  tail ← gets (fun s => aget (tails (lru s)) (Heap.slabs_clsid i));
  massert (negb (bool_decide (it = head)));;
  massert (negb (bool_decide (it = tail)));;
  massert (bool_decide (refcount i = 0));;
  lift_slabs (do_slabs_free cfg it ntotal (ITEM_clsid i)).

Definition do_item_remove (it : Z) : M st unit :=
  i ← rd it;
  massert (negb (has i ITEM_SLABBED));;
  massert (bool_decide (0 < refcount i));;
  r ← refcount_decr it;
  when (bool_decide (r = 0)) (item_free it).

(** The hash table's operations *)
Definition st_assoc_insert (it hv : Z) : M st Z := fun s =>
  let '(r, h, a) := assoc_insert it hv (mem s) (asc s) in
  Ok (r, s <| mem := h |> <| asc := a |>).

Definition st_assoc_delete (key : list Z) (nkey hv : Z) : M st unit := fun s =>
  '(h, a) ← assoc_delete key nkey hv (mem s) (asc s);
  Ok (tt, s <| mem := h |> <| asc := a |>).

Definition st_assoc_find (key : list Z) (nkey hv : Z) : M st Z := fun s =>
  r ← assoc_find key nkey hv (mem s) (asc s); Ok (r, s).

Definition do_item_link (it hv : Z) : M st Z :=
  i ← rd it;
  massert (bool_decide (Z.land (it_flags i) (Z.lor ITEM_LINKED ITEM_SLABBED) = 0));;
  t ← gets now;
  wr it (fun i => set_flag ITEM_LINKED i <| time := t |>);;
  i ← rd it;
  set_stats (fun x => x <| curr_bytes := u64 (curr_bytes x + ITEM_ntotal i) |>
                        <| curr_items ::= inc64 |> <| total_items ::= inc64 |>);;
  set_new_cas it;;
  st_assoc_insert it hv;;
  item_link_q it;;
  refcount_incr it;;
  item_stats_sizes_add it;;
  mret 1.

(** do_item_unlink and, with the LRU lock already held, do_item_unlink_nolock. *)
Definition do_item_unlink (it hv : Z) : M st unit :=
  i ← rd it;
  when (has i ITEM_LINKED)
    (wr it (clear_flag ITEM_LINKED);;
     i ← rd it;
     set_stats (fun x => x <| curr_bytes := u64 (curr_bytes x - ITEM_ntotal i) |>
                           <| curr_items := u64 (curr_items x - 1) |>);;
     item_stats_sizes_remove it;;
     st_assoc_delete (body i) (nkey i) hv;;
     item_unlink_q it;;
     do_item_remove it).

Definition do_item_unlink_nolock (it hv : Z) : M st unit :=
  i ← rd it;
  when (has i ITEM_LINKED)
    (wr it (clear_flag ITEM_LINKED);;
     i ← rd it;
     set_stats (fun x => x <| curr_bytes := u64 (curr_bytes x - ITEM_ntotal i) |>
                           <| curr_items := u64 (curr_items x - 1) |>);;
     item_stats_sizes_remove it;;
     st_assoc_delete (body i) (nkey i) hv;;
     do_item_unlink_q it;;
     do_item_remove it).

Definition ITEM_UPDATE_INTERVAL : Z := 60.

Definition do_item_update_nolock (it : Z) : M st unit :=
  i ← rd it;
  t ← gets now;
  when (bool_decide (time i < u32 (t - ITEM_UPDATE_INTERVAL)))
    (massert (negb (has i ITEM_SLABBED));;
     when (has i ITEM_LINKED)
       (do_item_unlink_q it;;
        wr it (fun i => i <| time := t |>);;
        do_item_link_q it)).

Definition do_item_update (it : Z) : M st unit :=
  i ← rd it;
  t ← gets now;
  if lru_segmented cfg then
    massert (negb (has i ITEM_SLABBED));;
    when (has i ITEM_LINKED)
      (if bool_decide (ITEM_lruid i = COLD_LRU) && has i ITEM_ACTIVE then
         wr it (fun i => i <| time := t |>);;
         item_unlink_q it;;
         wr it (fun i => i <| Heap.slabs_clsid := ITEM_clsid i |>);;
         wr it (fun i => i <| Heap.slabs_clsid := Z.lor (Heap.slabs_clsid i) WARM_LRU |>);;
         wr it (clear_flag ITEM_ACTIVE);;
         item_link_q_warm it
       else when (bool_decide (time i < u32 (t - ITEM_UPDATE_INTERVAL)))
         (wr it (fun i => i <| time := t |>)))
  else
    when (bool_decide (time i < u32 (t - ITEM_UPDATE_INTERVAL)))
      (massert (negb (has i ITEM_SLABBED));;
       when (has i ITEM_LINKED)
         (wr it (fun i => i <| time := t |>);;
          item_unlink_q it;;
          item_link_q it)).

Definition do_item_replace (it new_it hv : Z) : M st Z :=
  i ← rd it;
  massert (negb (has i ITEM_SLABBED));;
  do_item_unlink it hv;;
  do_item_link new_it hv.

(** *** Expiry *)

Definition item_is_flushed (i : item) (t : Z) : bool :=
  if decide (oldest_live cfg = 0 \/ t < oldest_live cfg) then false
  else bool_decide (time i <= oldest_live cfg \/
    (oldest_cas cfg <> 0 /\ ITEM_get_cas i <> 0 /\ ITEM_get_cas i < oldest_cas cfg)).

Definition item_expired (i : item) (t : Z) : bool := bool_decide (exptime i <> 0 /\ exptime i < t).

(** *** lru_pull_tail *)

(** What one round of the loop over the tail decides: go on (with [removed]), or
    leave the loop with [it], [move_to_lru] and [removed]. *)
Inductive round :=
| Continue (removed : Z)
| Stop (it move_to_lru removed : Z).

(** case HOT_LRU and case WARM_LRU *)
Definition pull_hot_warm (id cur_lru total_bytes max_age search removed : Z) : M st round :=
  let limit := if decide (cur_lru = HOT_LRU) then u64 (total_bytes * hot_lru_pct cfg) / 100 else 0 in
  let limit := if decide (limit = 0) then u64 (total_bytes * warm_lru_pct cfg) / 100 else limit in
  i ← rd search;
  t ← gets now;
  bytes ← gets (fun s => aget (sizes_bytes (lru s)) id);
  if has i ITEM_ACTIVE then
    wr search (clear_flag ITEM_ACTIVE);;
    let removed := removed + 1 in
    if decide (cur_lru = WARM_LRU) then
      set_istat id (fun x => x <| moves_within_lru ::= inc64 |>);;
      do_item_update_nolock search;;
      do_item_remove search;;
      mret (Continue removed)
    else
      set_istat id (fun x => x <| moves_to_warm ::= inc64 |>);;
      do_item_unlink_q search;;
      mret (Stop search WARM_LRU removed)
  else if bool_decide (limit < bytes) || bool_decide (max_age < u32 (t - time i)) then
    set_istat id (fun x => x <| moves_to_cold ::= inc64 |>);;
    do_item_unlink_q search;;
    mret (Stop search COLD_LRU (removed + 1))
  else mret (Stop search 0 removed).

(** case COLD_LRU; LRU_PULL_RETURN_ITEM only stops with the item. *)
Definition pull_cold (id orig_id flags search hv removed : Z) : M st round :=
  i ← rd search;
  t ← gets now;
  if decide (Z.land flags LRU_PULL_EVICT <> 0) then
    if decide (evict_to_free cfg = 0) then mret (Stop search 0 removed)
    else
      set_istat id (fun x => x <| evicted ::= inc64 |> <| evicted_time := u32 (t - time i) |>);;
      when (bool_decide (exptime i <> 0)) (set_istat id (fun x => x <| evicted_nonzero ::= inc64 |>));;
      when (negb (has i ITEM_FETCHED)) (set_istat id (fun x => x <| evicted_unfetched ::= inc64 |>));;
      when (has i ITEM_ACTIVE) (set_istat id (fun x => x <| evicted_active ::= inc64 |>));;
      do_item_unlink_nolock search hv;;
      when (bool_decide (slab_automove cfg = 2))
        (got ← trylock;
         modify (fun s => s <| rbl := (slabs_reassign got (-1) orig_id (slb s) (rbl s)).2 |>));;
      mret (Stop search 0 (removed + 1))
  else if decide (Z.land flags LRU_PULL_RETURN_ITEM <> 0) then mret (Stop search 0 removed)
  else if has i ITEM_ACTIVE && lru_segmented cfg then
    set_istat id (fun x => x <| moves_to_warm ::= inc64 |>);;
    wr search (clear_flag ITEM_ACTIVE);;
    do_item_unlink_q search;;
    mret (Stop search WARM_LRU (removed + 1))
  else mret (Stop search 0 removed).

(** The body of the loop once the item lock is held. *)
Definition pull_round (id orig_id cur_lru total_bytes flags max_age search hv removed : Z) :
    M st round :=
  r ← refcount_incr search;
  i ← rd search;
  t ← gets now;
  when (bool_decide (r <> 2)) (set_istat id (fun x => x <| lrutail_reflocked ::= inc64 |>));;
  if bool_decide (r <> 2) && bool_decide (tail_repair_time cfg <> 0) &&
     bool_decide (u32 (time i + tail_repair_time cfg) < t)
  then
    set_istat id (fun x => x <| tailrepairs ::= inc64 |>);;
    wr search (fun i => i <| refcount := 1 |>);;
    do_item_unlink_nolock search hv;;
    mret (Continue removed)
  else if item_expired i t || item_is_flushed i t then
    set_istat id (fun x => x <| reclaimed ::= inc64 |>);;
    when (negb (has i ITEM_FETCHED)) (set_istat id (fun x => x <| expired_unfetched ::= inc64 |>));;
    do_item_unlink_nolock search hv;;
    do_item_remove search;;
    mret (Continue (removed + 1))
  else if decide (cur_lru = HOT_LRU \/ cur_lru = WARM_LRU) then
    pull_hot_warm id cur_lru total_bytes max_age search removed
  else if decide (cur_lru = COLD_LRU) then pull_cold id orig_id flags search hv removed
  else if decide (cur_lru = TEMP_LRU) then mret (Stop search 0 removed)
  else mret (Continue removed).

(** for (; tries > 0 && search != NULL; tries--, search=next_it): the round the
    loop ended with, and the hash of its item. *)
Fixpoint pull_loop (fuel : nat) (id orig_id cur_lru total_bytes flags max_age : Z)
    (tries search removed : Z) : M st (round * Z) :=
  match fuel with
  | O => nofuel
  | S fuel =>
      if decide (0 < tries /\ search <> 0) then
        i ← rd search;
        let next_it := prev i in
        let loop := pull_loop fuel id orig_id cur_lru total_bytes flags max_age in
        if decide (nbytes i = 0 /\ nkey i = 0 /\ it_flags i = 1) then
          if decide (Z.land flags LRU_PULL_CRAWL_BLOCKS <> 0) then mret (Stop 0 0 0, 0)
          else loop tries next_it removed
        else
          hv ← gets (fun s => item_hash hash (mem s) search);
          got ← trylock;
          if (got : bool) then
            r ← pull_round id orig_id cur_lru total_bytes flags max_age search hv removed;
            match r with
            | Continue removed => loop (tries - 1) next_it removed
            | Stop _ _ _ => mret (r, hv)
            end
          else loop (tries - 1) next_it removed
      else mret (Continue removed, 0)
  end.

(** The number of items removed, and what is written through ret_it. *)
Definition lru_pull_tail (orig_id cur_lru total_bytes flags max_age : Z) :
    M st (Z * option (Z * Z)) :=
  if decide (orig_id = 0) then mret (0, None)
  else
    let id := Z.lor orig_id cur_lru in
    search ← gets (fun s => aget (tails (lru s)) id);
    fuel ← gets (fun s => (6 + size (mem s))%nat);
    '(r, hv) ← pull_loop fuel id orig_id cur_lru total_bytes flags max_age 5 search 0;
    match r with
    | Continue removed => mret (removed, None)
    | Stop it move_to_lru removed =>
        when (bool_decide (it <> 0))
          (when (bool_decide (move_to_lru <> 0))
             (wr it (fun i => i <| Heap.slabs_clsid := ITEM_clsid i |>);;
              wr it (fun i => i <| Heap.slabs_clsid := Z.lor (Heap.slabs_clsid i) move_to_lru |>);;
              item_link_q it);;
           when (bool_decide (Z.land flags LRU_PULL_RETURN_ITEM = 0)) (do_item_remove it));;
        mret (removed,
          if decide (it <> 0 /\ cur_lru = COLD_LRU /\ Z.land flags LRU_PULL_EVICT = 0 /\
                     Z.land flags LRU_PULL_RETURN_ITEM <> 0)
          then Some (it, hv) else None)
    end.

(** *** Allocation *)

(** " %u %d\r\n" in at most 40 bytes, and its length *)
Definition inline_suffix (flags nbytes : Z) : list Z :=
  take 39 ([32] ++ dec_u flags ++ [32] ++ dec_d (nbytes - 2) ++ [13; 10]).
Definition inline_suffix_len (flags nbytes : Z) : Z :=
  Z.of_nat (length ([32] ++ dec_u flags ++ [32] ++ dec_d (nbytes - 2) ++ [13; 10])).

(** The size of the header, suffix and nsuffix. *)
Definition item_make_header (nkey flags nbytes : Z) : Z * list Z * Z :=
  let '(suffix, nsuffix) :=
    if inline_ascii_response cfg
    then (inline_suffix flags nbytes, u8 (inline_suffix_len flags nbytes))
    else ([], if decide (flags = 0) then 0 else 4) in
  (u64 (sizeof_item + u8 nkey + nsuffix + nbytes), suffix, nsuffix).

(** slabs_alloc: the chunk and *total_bytes; when the class id is not one,
    total_bytes stays uninitialised and is read as 0: it only reaches
    lru_pull_tail with the same id, which returns at once when the id is 0. *)
Definition slabs_alloc (size id flags : Z) : M st (Z * Z) := fun s =>
  '(it, total, h, sl) ← do_slabs_alloc cfg size id flags (mem s) (slb s);
  Ok ((it, default 0 total), s <| mem := h |> <| slb := sl |>).

(** for (i = 0; i < 10; ++i): the item and the final i. *)
Fixpoint alloc_pull_loop (n : nat) (i : Z) (ntotal id : Z) : M st (Z * Z) :=
  match n with
  | O => mret (0, i)
  | S n =>
      when (negb (lru_segmented cfg))
        (lru_pull_tail id COLD_LRU 0 0 0;; mret tt);;
      '(it, total_bytes) ← slabs_alloc ntotal id 0;
      temp ← (if temp_lru cfg then temp_lru_size id else mret 0);
      let total_bytes := u64 (total_bytes - temp) in
      if decide (it = 0) then
        '(removed, _) ← lru_pull_tail id COLD_LRU total_bytes LRU_PULL_EVICT 0;
        if decide (removed <= 0) then
          if lru_segmented cfg then
            lru_pull_tail id HOT_LRU total_bytes 0 0;;
            alloc_pull_loop n (i + 1) ntotal id
          else mret (0, i)
        else alloc_pull_loop n (i + 1) ntotal id
      else mret (it, i)
  end.

Definition do_item_alloc_pull (ntotal id : Z) : M st Z :=
  '(it, i) ← alloc_pull_loop 10 0 ntotal id;
  when (bool_decide (0 < i))
    (set_istat id (fun x => x <| direct_reclaims := u64 (direct_reclaims x + i) |>));;
  mret it.

Definition do_item_alloc_chunk (ch bytes_remain : Z) : M st Z :=
  let size := u64 (bytes_remain + sizeof_item_chunk) in
  let size := if decide (slab_chunk_size_max cfg < size) then slab_chunk_size_max cfg else size in
  id ← gets (fun s => slabs_clsid cfg (slb s) size);
  nch ← do_item_alloc_pull size id;
  if decide (nch = 0) then mret 0
  else
    c ← rd ch;
    wr nch (fun n => n <| ch_head := ch_head c |>);;
    wr ch (fun c => c <| next := nch |>);;
    wr nch (fun n => set_flag ITEM_CHUNK (n <| prev := ch |> <| next := 0 |> <| ch_used := 0 |>
      <| Heap.slabs_clsid := u8 id |> <| ch_size := s32 (size - sizeof_item_chunk) |>));;
    mret nch.

(** The bytes of an unsigned int *)
Definition le32_bytes (x : Z) : list Z :=
  [x mod 256; x / 256 mod 256; x / 65536 mod 256; x / 16777216 mod 256].

Definition do_item_alloc (key : list Z) (nkey flags exptime nbytes : Z) : M st Z :=
  if decide (nbytes < 2) then mret 0
  else
    let '(ntotal, suffix, nsuffix) := item_make_header (nkey + 1) flags nbytes in
    let ntotal := if use_cas cfg then u64 (ntotal + 8) else ntotal in
    id ← gets (fun s => slabs_clsid cfg (slb s) ntotal);
    if decide (id = 0) then mret 0
    else
      '(it, hdr_id) ←
        (if decide (slab_chunk_size_max cfg < ntotal) then
           let htotal := nkey + 1 + nsuffix + sizeof_item + sizeof_item_chunk in
           let htotal := if use_cas cfg then htotal + 8 else htotal in
           hdr_id ← gets (fun s => slabs_clsid cfg (slb s) htotal);
           it ← do_item_alloc_pull htotal hdr_id;
           when (bool_decide (it <> 0)) (wr it (set_flag ITEM_CHUNKED));;
           mret (it, hdr_id)
         else
           it ← do_item_alloc_pull ntotal id;
           mret (it, 0));
      if decide (it = 0) then
        set_istat id (fun x => x <| outofmemory ::= inc64 |>);; mret 0
      else
        i ← rd it;
        massert (bool_decide (Heap.slabs_clsid i = 0));;
        wr it (fun i => i <| next := 0 |> <| prev := 0 |>);;
        t ← gets now;
        let id := if temp_lru cfg && bool_decide (u32 (exptime - t) <= temporary_ttl cfg)
                  then Z.lor id TEMP_LRU
                  else if lru_segmented cfg then Z.lor id HOT_LRU
                  else Z.lor id COLD_LRU in
        wr it (fun i => i <| Heap.slabs_clsid := id |>);;
        when (use_cas cfg) (wr it (set_flag ITEM_CAS));;
        wr it (fun i => i <| Heap.nkey := u8 nkey |> <| Heap.nbytes := nbytes |>
                          <| body ::= fun b => poke b 0 (take (Z.to_nat nkey) key) |>);;
        wr it (fun i => i <| Heap.exptime := exptime |>);;
        (if inline_ascii_response cfg
         then wr it (fun i => i <| body ::= fun b => poke b (ITEM_suffix_off i) (take (Z.to_nat nsuffix) suffix) |>)
         else when (bool_decide (0 < nsuffix))
           (wr it (fun i => i <| body ::= fun b => poke b (ITEM_suffix_off i) (le32_bytes flags) |>)));;
        wr it (fun i => i <| Heap.nsuffix := nsuffix |>);;
        i ← rd it;
        when (has i ITEM_CHUNKED)
          (wr (ITEM_data_addr it i) (fun c => c <| next := 0 |> <| prev := 0 |> <| ch_used := 0 |>
             <| ch_size := 0 |> <| ch_head := it |> <| ch_orig_clsid := u8 hdr_id |>));;
        wr it (fun i => i <| h_next := 0 |>);;
        mret it.

(** *** Lookup *)

(** lru_bump_entry: the pointer, the hash and four bytes of padding *)
Definition le64_bytes (x : Z) : list Z := le32_bytes (x mod 2 ^ 32) ++ le32_bytes (x / 2 ^ 32).
Definition bump_entry (it hv : Z) : list Z := le64_bytes it ++ le32_bytes hv.
Definition sizeof_lru_bump_entry : Z := 16.
Definition LRU_BUMP_BUF_SIZE : Z := 8192.

(** [ret] is never set to true. *)
Definition lru_bump_async (it hv : Z) : M st bool :=
  refcount_incr it;;
  b ← gets (fun s => bump_buf (thr s));
  (match bipbuf_request b sizeof_lru_bump_entry with
   | Some be =>
       let b := b <| bdata ::= fun d => write_bytes d (Z.to_nat be) (bump_entry it hv) |> in
       let '(pushed, b) := bipbuf_push b sizeof_lru_bump_entry in
       set_thr (fun t => t <| bump_buf := b |>);;
       when (bool_decide (pushed = 0)) (set_thr (fun t => t <| dropped ::= inc64 |>))
   | None => set_thr (fun t => t <| dropped ::= inc64 |>)
   end);;
  refcount_decr it;;
  mret false.

(** The hit markers. *)
Definition mark_hit (it hv : Z) : M st unit :=
  i ← rd it;
  if lru_segmented cfg then
    when (negb (has i ITEM_ACTIVE))
      (if has i ITEM_FETCHED then
         wr it (set_flag ITEM_ACTIVE);;
         if decide (ITEM_lruid i <> COLD_LRU) then do_item_update it
         else
           ret ← lru_bump_async it hv;
           when (negb ret) (wr it (clear_flag ITEM_ACTIVE))
       else wr it (set_flag ITEM_FETCHED))
  else
    wr it (set_flag ITEM_FETCHED);;
    do_item_update it.

Definition do_item_get (key : list Z) (nkey hv : Z) (do_update : bool) : M st Z :=
  it ← st_assoc_find key nkey hv;
  if decide (it = 0) then mret 0
  else
    refcount_incr it;;
    i ← rd it;
    t ← gets now;
    if item_is_flushed i t then
      do_item_unlink it hv;;
      do_item_remove it;;
      set_thr (fun x => x <| get_flushed ::= inc64 |>);;
      mret 0
    else if decide (exptime i <> 0 /\ exptime i <= t) then
      do_item_unlink it hv;;
      do_item_remove it;;
      set_thr (fun x => x <| get_expired ::= inc64 |>);;
      mret 0
    else
      when do_update (mark_hit it hv);;
      mret it.

Definition do_item_touch (key : list Z) (nkey exptime hv : Z) : M st Z :=
  it ← do_item_get key nkey hv true;
  when (bool_decide (it <> 0)) (wr it (fun i => i <| Heap.exptime := exptime |>));;
  mret it.
End items.
