(* ===== verification/Store.v ===== *)
(** * Storing values (src/slabs_curd/memcached.c)

    do_store_item (set, add, replace, append, prepend, cas), the copies between
    chunked and plain items, and do_add_delta (incr, decr). *)

From S2P Require Import Prelude Decimal Hash Heap Assoc Settings Slabs BipBuffer Items.

Inductive store_item_type := NOT_STORED | STORED | EXISTS | NOT_FOUND | TOO_LARGE | NOT_MEMORY.
Inductive delta_result_type := DELTA_OK | NON_NUMERIC | EOM | DELTA_ITEM_NOT_FOUND | DELTA_ITEM_CAS_MISMATCH.

#[export] Instance store_item_type_eq_dec : EqDecision store_item_type.
Proof. solve_decision. Defined.
#[export] Instance delta_result_type_eq_dec : EqDecision delta_result_type.
Proof. solve_decision. Defined.

Definition NREAD_ADD : Z := 1.
Definition NREAD_SET : Z := 2.
Definition NREAD_REPLACE : Z := 3.
Definition NREAD_APPEND : Z := 4.
Definition NREAD_PREPEND : Z := 5.
Definition NREAD_CAS : Z := 6.

(** The [n] bytes at offset [o] of a body; memory not written yet reads as zero. *)
Definition peek (b : list Z) (o n : nat) : list Z := take n (drop o b ++ replicate n 0).

(** The first [n] bytes of ITEM_data(it). *)
Definition item_data (i : item) (n : Z) : list Z := peek (body i) (ITEM_data_off i) (Z.to_nat n).

(** memcpy(ITEM_data(it) + off, bs, |bs|) *)
Definition write_data (it off : Z) (bs : list Z) : M st unit :=
  wr it (fun i => i <| body ::= fun b => poke b (ITEM_data_off i + Z.to_nat off) bs |>).

(** c->thread->stats.slab_stats[id].f++ *)
Definition slab_stats0 : slab_stats := SlabStats 0 0 0 0.
Definition set_slab_stat (id : Z) (f : slab_stats -> slab_stats) : M st unit :=
  set_thr (fun t => t <| slab_stats_of ::= fun m => <[id := f (default slab_stats0 (m !! id))]> m |>).

Section store.
Context (cfg : settings) (hash : hash_func).

(** The client flags kept in the suffix. *)
Definition suffix_flags (i : item) : Z :=
  if inline_ascii_response cfg then strtoul32 (drop (ITEM_suffix_off i) (body i))
  else if decide (0 < nsuffix i) then le32 (body i) (ITEM_suffix_off i) else 0.

(** ** incr and decr *)

(** [delta] is an int64_t: compared with and added to a uint64_t it is converted. *)
Definition delta_value (incr : bool) (value delta : Z) : Z :=
  if incr then u64 (value + delta)
  else if decide (value < u64 delta) then 0 else u64 (value - delta).

(** [cas]: the caller's *cas, [None] for a NULL pointer; the result has the
    response buffer and the new *cas. *)
Definition do_add_delta (key : list Z) (nkey : Z) (incr : bool) (delta : Z) (cas : option Z) (hv : Z) :
    M st (delta_result_type * list Z * option Z) :=
  it ← do_item_get cfg key nkey hv false;
  if decide (it = 0) then mret (DELTA_ITEM_NOT_FOUND, [], cas)
  else
    i ← rd it;
    if bool_decide (nbytes i <= 2) || has i ITEM_CHUNKED then mret (NON_NUMERIC, [], cas)
    else if bool_decide (default 0 cas <> 0 /\ ITEM_get_cas i <> default 0 cas) then
      do_item_remove cfg it;; mret (DELTA_ITEM_CAS_MISMATCH, [], cas)
    else
      match safe_strtoull (drop (ITEM_data_off i) (body i)) with
      | None => do_item_remove cfg it;; mret (NON_NUMERIC, [], cas)
      | Some value =>
          let value := delta_value incr value delta in
          set_slab_stat (ITEM_clsid i) (fun x =>
            if incr then x <| incr_hits ::= inc64 |> else x <| decr_hits ::= inc64 |>);;
          let buf := dec_u value in
          let res := Z.of_nat (length buf) in
          if bool_decide (res + 2 <= nbytes i /\ refcount i = 2) then
            item_stats_sizes_remove it;;
            set_new_cas cfg it;;
            item_stats_sizes_add it;;
            write_data it 0 buf;;
            write_data it res (replicate (Z.to_nat (nbytes i - res - 2)) 32);;
            do_item_update cfg it;;
            i ← rd it;
            do_item_remove cfg it;;
            mret (DELTA_OK, buf, (fun _ => ITEM_get_cas i) <$> cas)
          else if bool_decide (1 < refcount i) then
            new_it ← do_item_alloc cfg hash (body i) (Heap.nkey i) (suffix_flags i) (exptime i) (res + 2);
            if decide (new_it = 0) then
              do_item_remove cfg it;; mret (EOM, buf, cas)
            else
              write_data new_it 0 buf;;
              write_data new_it res [13; 10];;
              do_item_replace cfg it new_it hv;;
              n ← rd new_it;
              wr it (ITEM_set_cas (if use_cas cfg then ITEM_get_cas n else 0));;
              do_item_remove cfg new_it;;
              i ← rd it;
              do_item_remove cfg it;;
              mret (DELTA_OK, buf, (fun _ => ITEM_get_cas i) <$> cas)
          else
            when (bool_decide (refcount i = 1)) (do_item_remove cfg it);;
            mret (DELTA_ITEM_NOT_FOUND, buf, cas)
      end.

(** ** Copies *)

(** while (dch->size == dch->used) { if (dch->next) dch = dch->next; else break; } *)
Fixpoint find_space (fuel : nat) (h : heap) (dch : Z) : res Z :=
  match fuel with
  | O => NoFuel
  | S fuel =>
      if decide (ch_size (geti h dch) = ch_used (geti h dch) /\ next (geti h dch) <> 0)
      then find_space fuel h (next (geti h dch))
      else Ok dch
  end.

(** memcpy(dch->data + dch->used, bs, |bs|); dch->used += |bs|; *)
Definition chunk_append (dch : Z) (bs : list Z) : M st unit :=
  wr dch (fun c => c <| ch_data ::= fun b => poke b (Z.to_nat (ch_used c)) bs |>
                     <| ch_used := ch_used c + Z.of_nat (length bs) |>).

(** The chunk to go on with once [dch] was written; [None] when no memory is left. *)
Definition next_space (dch remain : Z) : M st (option Z) :=
  d ← rd dch;
  massert (bool_decide (ch_used d <= ch_size d));;
  if decide (ch_size d = ch_used d) then
    tch ← do_item_alloc_chunk cfg hash dch remain;
    mret (if decide (tch = 0) then None else Some tch)
  else mret (Some dch).

(** while (sch && dch && remain): the result is [remain], [None] for return -1. *)
Fixpoint copy_chunked (fuel : nat) (sch dch copied remain : Z) : M st (option Z) :=
  match fuel with
  | O => nofuel
  | S fuel =>
      if decide (sch <> 0 /\ dch <> 0 /\ remain <> 0) then
        d ← rd dch;
        s ← rd sch;
        massert (bool_decide (ch_used d <= ch_size d));;
        let todo := Z.min (ch_size d - ch_used d) (ch_used s - copied) in
        let todo := if decide (remain < todo) then remain else todo in
        chunk_append dch (peek (ch_data s) (Z.to_nat copied) (Z.to_nat todo));;
        let copied := copied + todo in
        let remain := remain - todo in
        dch ← next_space dch remain;
        match dch with
        | None => mret None
        | Some dch =>
            s ← rd sch;
            massert (bool_decide (copied <= ch_used s));;
            if decide (copied = ch_used s)
            then copy_chunked fuel (next s) dch 0 remain
            else copy_chunked fuel sch dch copied remain
        end
      else mret (Some remain)
  end.

(** while (len > done && dch) *)
Fixpoint copy_plain (fuel : nat) (src : item) (dch done len : Z) : M st (option Z) :=
  match fuel with
  | O => nofuel
  | S fuel =>
      if decide (done < len /\ dch <> 0) then
        d ← rd dch;
        let todo := Z.min (ch_size d - ch_used d) (len - done) in
        chunk_append dch (peek (body src) (ITEM_data_off src + Z.to_nat done) (Z.to_nat todo));;
        let done := done + todo in
        dch ← next_space dch (len - done);
        match dch with
        | None => mret None
        | Some dch => copy_plain fuel src dch done len
        end
      else mret (Some done)
  end.

(** The fuel covers a step for every chunk of either item and every byte; a loop
    that makes no progress is out of fuel. *)
Definition _store_item_copy_chunks (d_it s_it len : Z) : M st Z :=
  d ← rd d_it;
  s ← rd s_it;
  dch ← (fun st => r ← find_space (S (size (mem st))) (mem st) (ITEM_data_addr d_it d); Ok (r, st));
  fuel ← gets (fun st => S (size (mem st) + Z.to_nat len)%nat);
  if has s ITEM_CHUNKED then
    r ← copy_chunked fuel (ITEM_data_addr s_it s) dch 0 len;
    match r with
    | None => mret (-1)
    | Some remain => massert (bool_decide (remain = 0));; mret 0
    end
  else
    r ← copy_plain fuel s dch 0 len;
    match r with
    | None => mret (-1)
    | Some done => massert (bool_decide (len = done));; mret 0
    end.

(** Both copies into a chunked item; && stops at the first failure. *)
Definition copy_both (d a alen b blen : Z) : M st Z :=
  r ← _store_item_copy_chunks d a alen;
  if decide (r = -1) then mret (-1)
  else
    r ← _store_item_copy_chunks d b blen;
    mret (if decide (r = -1) then -1 else 0).

Definition _store_item_copy_data (comm old_it new_it add_it : Z) : M st Z :=
  o ← rd old_it;
  n ← rd new_it;
  a ← rd add_it;
  if decide (comm = NREAD_APPEND) then
    if has n ITEM_CHUNKED then copy_both new_it old_it (nbytes o - 2) add_it (nbytes a)
    else
      write_data new_it 0 (item_data o (nbytes o));;
      write_data new_it (nbytes o - 2) (item_data a (nbytes a));;
      mret 0
  else
    if has n ITEM_CHUNKED then copy_both new_it add_it (nbytes a - 2) old_it (nbytes o)
    else
      write_data new_it 0 (item_data a (nbytes a));;
      write_data new_it (nbytes a - 2) (item_data o (nbytes o));;
      mret 0.

(** ** do_store_item *)

(** The branches of the first cascade that decide without storing: [None] is the
    last else. *)
Definition store_refused (it old_it comm : Z) (hv : Z) : M st (option store_item_type) :=
  if bool_decide (old_it <> 0 /\ comm = NREAD_ADD) then
    do_item_update cfg old_it;; mret (Some NOT_STORED)
  else if bool_decide (old_it = 0 /\ (comm = NREAD_REPLACE \/ comm = NREAD_APPEND \/ comm = NREAD_PREPEND)) then
    mret (Some NOT_STORED)
  else if bool_decide (comm = NREAD_CAS) then
    if decide (old_it = 0) then
      set_thr (fun t => t <| cas_misses ::= inc64 |>);; mret (Some NOT_FOUND)
    else
      i ← rd it;
      o ← rd old_it;
      if decide (ITEM_get_cas i = ITEM_get_cas o) then
        set_slab_stat (ITEM_clsid o) (fun x => x <| cas_hits ::= inc64 |>);;
        do_item_replace cfg old_it it hv;;
        mret (Some STORED)
      else
        set_slab_stat (ITEM_clsid o) (fun x => x <| cas_badval ::= inc64 |>);;
        mret (Some EXISTS)
  else mret None.

(** The combination of append and prepend: stored, the item to store, new_it and
    failed_alloc. item_remove takes the item lock do_store_item's caller holds;
    the model runs do_item_remove. *)
Definition store_combine (it old_it comm : Z) : M st (store_item_type * Z * Z * bool) :=
  i ← rd it;
  o ← rd old_it;
  if decide (ITEM_get_cas i <> 0 /\ ITEM_get_cas i <> ITEM_get_cas o)
  then mret (EXISTS, it, 0, false)
  else
    new_it ← do_item_alloc cfg hash (body i) (nkey i) (suffix_flags o) (exptime o) (nbytes i + nbytes o - 2);
    if decide (new_it = 0) then mret (NOT_STORED, it, 0, true)
    else
      r ← _store_item_copy_data comm old_it new_it it;
      if decide (r = -1) then
        do_item_remove cfg new_it;; mret (NOT_STORED, it, new_it, true)
      else mret (NOT_STORED, new_it, new_it, false).

(** stored, and the item c->cas is read from at the end *)
Definition store_rest (it old_it comm hv : Z) : M st (store_item_type * Z * Z) :=
  '(stored, it, new_it, failed_alloc) ←
    (if bool_decide (comm = NREAD_APPEND \/ comm = NREAD_PREPEND) then store_combine it old_it comm
     else mret (NOT_STORED, it, 0, false));
  if decide (stored = NOT_STORED /\ failed_alloc = false) then
    (if decide (old_it <> 0) then do_item_replace cfg old_it it hv else do_item_link cfg it hv);;
    mret (STORED, it, new_it)
  else mret (stored, it, new_it).

(** The result, and c->cas when it is written. *)
Definition do_store_item (it comm hv : Z) : M st (store_item_type * option Z) :=
  i ← rd it;
  old_it ← do_item_get cfg (body i) (nkey i) hv false;
  refused ← store_refused it old_it comm hv;
  '(stored, it, new_it) ←
    match refused with
    | Some r => mret (r, it, 0)
    | None => store_rest it old_it comm hv
    end;
  when (bool_decide (old_it <> 0)) (do_item_remove cfg old_it);;
  when (bool_decide (new_it <> 0)) (do_item_remove cfg new_it);;
  i ← rd it;
  mret (stored, if decide (stored = STORED) then Some (ITEM_get_cas i) else None).
End store.
