(* ===== verification/StoreInv.v ===== *)
(** * The store's invariant

    The three structures an item can be in - the hash table, the LRU queue of its
    class, the free list of its slab class - and the reference counts, related to
    one another; and what the operations of [Items] do to them. *)

From S2P Require Import Prelude Decimal Hash Heap Assoc Settings Slabs BipBuffer Items.

(** ** Running the operations *)

Lemma rd_bind {B} it (k : item -> M st B) s : (rd it ≫= k) s = k (geti (mem s) it) s.
Proof. done. Qed.
Lemma wr_bind {B} it f (k : unit -> M st B) s : (wr it f ≫= k) s = k tt (s <| mem := seti (mem s) it f |>).
Proof. done. Qed.

(** ** Flags *)

Lemma has_set_flag f g i : Z.land f g = 0 -> has (set_flag f i) g = has i g.
Proof.
  intros H. unfold has, set_flag. simpl. by rewrite Z.land_lor_distr_l, H, Z.lor_0_r.
Qed.

Lemma has_clear_flag f g i : Z.land (255 - f) g = g -> has (clear_flag f i) g = has i g.
Proof.
  intros H. unfold has, clear_flag, clear. simpl. by rewrite <- Z.land_assoc, H.
Qed.

Lemma has_clear_same f i : Z.land (255 - f) f = 0 -> has (clear_flag f i) f = false.
Proof.
  intros H. unfold has, clear_flag, clear. simpl. by rewrite <- Z.land_assoc, H, Z.land_0_r.
Qed.

Lemma has_set_same f i : f <> 0 -> has (set_flag f i) f = true.
Proof.
  intros H. unfold has, set_flag. simpl. apply bool_decide_eq_true.
  rewrite Z.land_lor_distr_l, Z.land_diag. intros E. by apply Z.lor_eq_0_iff in E as [_ E].
Qed.

(** ** The LRU queues *)

Definition queues : Type := Z -> list Z.

(** What a queue depends on in its members. *)
Definition qview (i : item) := (links i, Heap.slabs_clsid i, ITEM_ntotal i).

Definition sum_ntotal (h : heap) (l : list Z) : Z := foldr (fun x n => ITEM_ntotal (geti h x) + n) 0 l.

Record queue_rep (h : heap) (l : lru_t) (Q : queues) : Prop := {
  q_dll c : dll h (aget (heads l) c) (aget (tails l) c) (Q c);
  q_clsid c x : x ∈ Q c -> Heap.slabs_clsid (geti h x) = c;
  q_sizes c : u32 (aget (sizes l) c) = u32 (Z.of_nat (length (Q c)));
  q_bytes c : u64 (aget (sizes_bytes l) c) = u64 (sum_ntotal h (Q c))
}.

Lemma sum_ntotal_ext h h' l : (forall x, x ∈ l -> ITEM_ntotal (geti h x) = ITEM_ntotal (geti h' x)) ->
  sum_ntotal h l = sum_ntotal h' l.
Proof.
  induction l as [|x l IH]; intros H; [done|]. unfold sum_ntotal in *. simpl.
  rewrite (H x) by set_solver. rewrite IH; [done|]. intros y Hy. apply H. set_solver.
Qed.

Definition same_queues (l l' : lru_t) : Prop :=
  heads l = heads l' /\ tails l = tails l' /\ sizes l = sizes l' /\ sizes_bytes l = sizes_bytes l'.

Lemma queue_frame h h' l l' Q : queue_rep h l Q -> same_queues l l' ->
  (forall c x, x ∈ Q c -> qview (geti h x) = qview (geti h' x)) -> queue_rep h' l' Q.
Proof.
  intros [Hd Hc Hs Hb] (E1 & E2 & E3 & E4) Hag.
  assert (forall c x, x ∈ Q c -> links (geti h x) = links (geti h' x) /\
    Heap.slabs_clsid (geti h x) = Heap.slabs_clsid (geti h' x) /\
    ITEM_ntotal (geti h x) = ITEM_ntotal (geti h' x)) as H.
  { intros c x Hx. specialize (Hag c x Hx). unfold qview, links in *. injection Hag as E1' E2' E3' E4'.
    split_and!; congruence. }
  split; rewrite <- ?E1, <- ?E2, <- ?E3, <- ?E4.
  - intros c. eapply dll_frame; [|apply Hd]. intros x Hx. by apply (H c).
  - intros c x Hx. rewrite <- (Hc c x Hx). symmetry. by apply (H c).
  - done.
  - intros c. rewrite Hb. f_equal. apply sum_ntotal_ext. intros x Hx. by apply (H c).
Qed.

(** Queues with one queue changed. *)
Definition qupd (Q : queues) (c : Z) (l : list Z) : queues := fun c' => if decide (c' = c) then l else Q c'.

Lemma aget_insert (m : gmap Z Z) c v c' : aget (<[c := v]> m) c' = if decide (c' = c) then v else aget m c'.
Proof.
  unfold aget. rewrite lookup_insert. destruct (decide (c = c')) as [->|]; [by rewrite decide_True|].
  by rewrite decide_False by congruence.
Qed.

Lemma queue_unique h l Q c c' x : queue_rep h l Q -> x ∈ Q c -> x ∈ Q c' -> c = c'.
Proof. intros R H1 H2. by rewrite <- (q_clsid _ _ _ R c x H1), (q_clsid _ _ _ R c' x H2). Qed.

Lemma queue_nonzero h l Q c x : queue_rep h l Q -> x ∈ Q c -> x <> 0.
Proof. intros R Hx. destruct (q_dll _ _ _ R c) as (Hd & _). by eapply dseg_nonzero. Qed.

(** What the operations on the queues change in the memory: links only, and only
    those of the item and of the members of its queue. *)
Definition requeued (S : Z -> Prop) (h h' : heap) : Prop := forall y,
  geti h' y = (geti h y) <| next := next (geti h' y) |> <| prev := prev (geti h' y) |> /\
  (~ S y -> geti h' y = geti h y) /\ (is_Some (h !! y) -> is_Some (h' !! y)).

Lemma requeued_refl S h : requeued S h h.
Proof. intros y. split_and!; [by destruct (geti h y)|done|done]. Qed.

Lemma requeued_trans S h1 h2 h3 : requeued S h1 h2 -> requeued S h2 h3 -> requeued S h1 h3.
Proof.
  intros H1 H2 y. destruct (H1 y) as (E1 & N1 & D1), (H2 y) as (E2 & N2 & D2). split_and!.
  - rewrite E2 at 1. rewrite E1. done.
  - intros Hy. by rewrite N2, N1.
  - auto.
Qed.

Lemma requeued_seti (S : Z -> Prop) h p (f : item -> item) : S p ->
  (forall i, f i = i <| next := next (f i) |> <| prev := prev (f i) |>) ->
  requeued S h (seti h p f).
Proof.
  intros Hp Hf y. rewrite geti_seti. split_and!.
  - destruct (decide _); [apply Hf|by destruct (geti h y)].
  - intros Hy. rewrite decide_False; [done|]. by intros ->.
  - apply seti_dom.
Qed.

Lemma requeued_dll_push h p x l S tl : dll h p tl l -> x ∉ l -> x <> 0 -> (forall y, y = x \/ y ∈ l -> S y) ->
  let h1 := seti h x (fun i => i <| prev := 0 |> <| next := p |>) in
  let h' := if decide (p = 0) then h1 else seti h1 p (fun i => i <| prev := x |>) in
  requeued S h h' /\ dll h' x (if decide (tl = 0) then x else tl) (x :: l).
Proof.
  intros Hd Hx Hx0 HS h1 h'.
  assert (p <> 0 -> p ∈ l) as Hpl.
  { destruct Hd as (_ & -> & _). destruct l; simpl; [done|set_solver]. }
  split.
  - unfold h'. destruct (decide (p = 0)) as [|Hp].
    + apply requeued_seti; [by apply HS; left|intros []; reflexivity].
    + apply (requeued_trans _ h h1 h'); [apply requeued_seti; [by apply HS; left|intros []; reflexivity]|].
      apply requeued_seti; [apply HS; right; auto|intros []; reflexivity].
  - apply (dll_push h h' p tl l x Hd Hx Hx0).
    + unfold h', h1. destruct (decide (p = 0)).
      * by rewrite geti_seti_eq.
      * rewrite geti_seti_ne; [by rewrite geti_seti_eq|]. intros ->. auto.
    + intros y Hy Hyx. unfold h', h1. destruct (decide (p = 0)) as [E|E].
      * rewrite geti_seti_ne by congruence. rewrite decide_False; [done|congruence].
      * rewrite geti_seti. destruct (decide (p = y)) as [->|].
        -- rewrite geti_seti_ne by congruence. by rewrite decide_True.
        -- rewrite geti_seti_ne by congruence. by rewrite decide_False by congruence.
Qed.

Lemma do_item_link_q_spec s Q x :
  queue_rep (mem s) (lru s) Q -> x <> 0 -> (forall c, x ∉ Q c) ->
  has (geti (mem s) x) ITEM_SLABBED = false ->
  let c := Heap.slabs_clsid (geti (mem s) x) in
  exists h' l', do_item_link_q x s = Ok (tt, s <| mem := h' |> <| lru := l' |>) /\
    queue_rep h' l' (qupd Q c (x :: Q c)) /\ requeued (fun y => y = x \/ y ∈ Q c) (mem s) h' /\
    l' = (lru s) <| heads := heads l' |> <| tails := tails l' |> <| sizes := sizes l' |>
               <| sizes_bytes := sizes_bytes l' |>.
Proof.
  intros R Hx0 Hx Hsl c. unfold do_item_link_q, mbind, M_bind, rd, gets, massert, wr, modify.
  rewrite Hsl. cbn [negb]. cbv beta iota. fold c.
  set (p := aget (heads (lru s)) c). set (tl := aget (tails (lru s)) c).
  pose proof (q_dll _ _ _ R c) as Hd. fold p tl in Hd.
  assert (p <> 0 -> p ∈ Q c) as Hpl.
  { destruct Hd as (_ & -> & _). destruct (Q c); simpl; [done|set_solver]. }
  assert ((p <> 0 /\ tl <> 0) \/ (p = 0 /\ tl = 0)) as Hpt.
  { destruct Hd as (Hs & -> & -> & _). destruct (Q c) as [|y l] eqn:E; [by right|]. left.
    split; [eapply dseg_nonzero; [exact Hs|simpl; set_solver]|].
    rewrite last_cons_default. destruct (last l) as [z|] eqn:El; simpl.
    - eapply dseg_nonzero; [exact Hs|]. apply last_Some_elem_of in El. set_solver.
    - eapply dseg_nonzero; [exact Hs|set_solver]. }
  rewrite (bool_decide_false (x = p)); [|intros E; apply (Hx c); rewrite E; apply Hpl; congruence].
  rewrite (bool_decide_true (_ \/ _)) by done. cbn [negb]. cbv beta iota.
  destruct (requeued_dll_push (mem s) p x (Q c) (fun y => y = x \/ y ∈ Q c) tl Hd (Hx c) Hx0)
    as (Hrq & Hd'); [done|].
  set (h1 := seti (mem s) x (fun i => i <| prev := 0 |> <| next := p |>)) in *.
  set (h' := if decide (p = 0) then h1 else seti h1 p (fun i => i <| prev := x |>)) in *.
  set (l' := ((((lru s) <| heads ::= <[c := x]> |>) <| tails := if decide (tl = 0) then <[c := x]> (tails (lru s)) else tails (lru s) |>)
    <| sizes ::= <[c := u32 (aget (sizes (lru s)) c + 1)]> |>)
    <| sizes_bytes ::= <[c := u64 (aget (sizes_bytes (lru s)) c + ITEM_ntotal (geti (mem s) x))]> |>).
  exists h', l'. split; [|split; [|split; [done|by destruct (lru s)]]].
  - unfold when, set_lru, modify, mret, M_ret, h', l'. destruct s, lru.
    destruct (decide (p = 0)) as [Ep|Ep];
      [rewrite (bool_decide_true (p = 0)) by done|rewrite (bool_decide_false (p = 0)) by done];
      (destruct (decide (tl = 0)) as [Et|Et];
        [rewrite (bool_decide_true (tl = 0)) by done|rewrite (bool_decide_false (tl = 0)) by done]);
      reflexivity.
  - assert (forall y, ITEM_ntotal (geti h' y) = ITEM_ntotal (geti (mem s) y)) as Hnt.
    { intros y. destruct (Hrq y) as (-> & _). done. }
    split.
    + intros c'. unfold qupd, l'. simpl. rewrite aget_insert. destruct (decide (c' = c)) as [->|Hne].
      * assert (aget (if decide (tl = 0) then <[c:=x]> (tails (lru s)) else tails (lru s)) c =
          (if decide (tl = 0) then x else tl)) as ->; [|exact Hd'].
        destruct (decide (tl = 0)); [by rewrite aget_insert, decide_True|done].
      * assert (aget (if decide (tl = 0) then <[c:=x]> (tails (lru s)) else tails (lru s)) c' =
          aget (tails (lru s)) c') as ->
          by (destruct (decide (tl = 0)); [by rewrite aget_insert, decide_False|done]).
        eapply dll_frame; [|apply (q_dll _ _ _ R)]. intros y Hy.
        destruct (Hrq y) as (_ & -> & _); [done|]. intros [->|Hy']; [by apply (Hx c')|].
        apply Hne. by eapply queue_unique.
    + intros c' y. unfold qupd. destruct (Hrq y) as (-> & _).
      change (Heap.slabs_clsid (geti (mem s) y) = c') || simpl.
      destruct (decide (c' = c)) as [->|Hne]; [|by apply (q_clsid _ _ _ R)].
      intros [->|Hy]%elem_of_cons; [done|by apply (q_clsid _ _ _ R)].
    + intros c'. unfold qupd, l'. simpl. rewrite aget_insert. destruct (decide (c' = c)) as [->|Hne];
        [|by apply R]. rewrite wrap_wrap by done. rewrite <- wrap_add_l, (q_sizes _ _ _ R), wrap_add_l.
      f_equal. simpl. lia.
    + intros c'. unfold qupd, l'. simpl. rewrite aget_insert.
      rewrite (sum_ntotal_ext h' (mem s)) by (intros; apply Hnt).
      destruct (decide (c' = c)) as [->|Hne]; [|by apply R].
      rewrite wrap_wrap by done. rewrite <- wrap_add_l, (q_bytes _ _ _ R), wrap_add_l.
      f_equal. unfold sum_ntotal. simpl. lia.
Qed.

Lemma dseg_self_next h p l n x : dseg h p l n -> NoDup l -> n ∉ l -> p ∉ l -> x ∈ l ->
  next (geti h x) <> x /\ prev (geti h x) <> x.
Proof.
  intros Hs Hnd Hn Hp Hx. apply list_elem_of_split in Hx as (l1 & l2 & ->).
  destruct (dseg_elem _ _ _ _ _ _ Hs) as (_ & -> & ->).
  apply NoDup_app in Hnd as (_ & Hd & Hnd). apply NoDup_cons in Hnd as [Hx2 _].
  assert (x ∉ l1) as Hx1 by (intros Hx; apply (Hd x Hx); set_solver). split.
  - destruct l2 as [|y l2]; simpl; [|set_solver]. intros ->. set_solver.
  - destruct (last l1) as [y|] eqn:E; simpl.
    + intros ->. by apply last_Some_elem_of in E.
    + intros ->. set_solver.
Qed.

Lemma do_item_unlink_q_spec s Q x l1 l2 :
  queue_rep (mem s) (lru s) Q -> let c := Heap.slabs_clsid (geti (mem s) x) in
  Q c = l1 ++ x :: l2 ->
  exists h' l', do_item_unlink_q x s = Ok (tt, s <| mem := h' |> <| lru := l' |>) /\
    queue_rep h' l' (qupd Q c (l1 ++ l2)) /\ requeued (fun y => y ∈ l1 ++ l2) (mem s) h' /\
    l' = (lru s) <| heads := heads l' |> <| tails := tails l' |> <| sizes := sizes l' |>
               <| sizes_bytes := sizes_bytes l' |> /\ x ∉ l1 ++ l2.
Proof.
  intros R c HQ. unfold do_item_unlink_q, mbind, M_bind, rd, gets, massert, wr, modify.
  cbv beta iota. fold c. set (hd := aget (heads (lru s)) c). set (tl := aget (tails (lru s)) c).
  pose proof (q_dll _ _ _ R c) as Hd. fold hd tl in Hd. rewrite HQ in Hd.
  set (n := next (geti (mem s) x)). set (p := prev (geti (mem s) x)).
  pose proof Hd as (Hs & Hhd & Htl & Hnd).
  destruct (dseg_elem _ _ _ _ _ _ Hs) as (Hx0 & Hn & Hp). fold n in Hn. fold p in Hp.
  assert (0 ∉ l1 ++ x :: l2) as H0 by (intros H; by eapply dseg_nonzero in H).
  destruct (dseg_self_next _ _ _ _ x Hs Hnd H0 H0 ltac:(set_solver)) as [Hnx Hpx].
  fold n in Hnx. fold p in Hpx.
  pose proof Hnd as Hnd'. apply NoDup_app in Hnd' as (Hnd1 & Hdis & Hnd2).
  apply NoDup_cons in Hnd2 as [Hx2 Hnd2].
  assert (x ∉ l1) as Hx1 by (intros H; apply (Hdis x H); set_solver).
  assert (hd = x -> p = 0) as Hhp.
  { rewrite Hhd, Hp. destruct l1 as [|y l1]; simpl; [done|]. intros ->. set_solver. }
  assert (tl = x -> n = 0) as Htn.
  { rewrite Htl, Hn, last_app_cons, last_cons_default. destruct l2 as [|y l2]; [done|].
    intros E. exfalso. apply Hx2. rewrite <- E. rewrite last_cons_default.
    destruct (last l2) as [z|] eqn:El; simpl; [apply last_Some_elem_of in El|]; set_solver. }
  assert (n <> 0 -> n ∈ l2) as Hn2 by (rewrite Hn; destruct l2; simpl; [done|set_solver]).
  assert (p <> 0 -> p ∈ l1) as Hp1.
  { rewrite Hp. destruct (last l1) as [z|] eqn:E; simpl; [|done]. intros _. by apply last_Some_elem_of. }
  rewrite (bool_decide_false (n = x)), (bool_decide_false (p = x)) by done. cbn [negb].
  set (h1 := if decide (n = 0) then mem s else seti (mem s) n (fun i => i <| prev := p |>)).
  set (h' := if decide (p = 0) then h1 else seti h1 p (fun i => i <| next := n |>)).
  set (l' := (((lru s) <| heads := if decide (hd = x) then <[c := n]> (heads (lru s)) else heads (lru s) |>)
    <| tails := if decide (tl = x) then <[c := p]> (tails (lru s)) else tails (lru s) |>)
    <| sizes ::= <[c := u32 (aget (sizes (lru s)) c - 1)]> |>
    <| sizes_bytes ::= <[c := u64 (aget (sizes_bytes (lru s)) c - ITEM_ntotal (geti (mem s) x))]> |>).
  assert (requeued (fun y => y ∈ l1 ++ l2) (mem s) h') as Hrq.
  { apply (requeued_trans _ _ h1).
    - unfold h1. destruct (decide (n = 0)); [apply requeued_refl|].
      apply requeued_seti; [set_solver|intros []; reflexivity].
    - unfold h'. destruct (decide (p = 0)); [apply requeued_refl|].
      apply requeued_seti; [set_solver|intros []; reflexivity]. }
  exists h', l'. split; [|split; [|split; [done|split; [by destruct (lru s)|set_solver]]]].
  - unfold when, set_lru, modify, mret, M_ret, h', h1, l'. destruct s, lru.
    destruct (decide (hd = x)) as [E1|E1];
      [rewrite (bool_decide_true (hd = x)), (bool_decide_true (p = 0)), (decide_True (P := p = 0)) by auto
      |rewrite (bool_decide_false (hd = x)) by done];
      (destruct (decide (tl = x)) as [E2|E2];
        [rewrite (bool_decide_true (tl = x)), (bool_decide_true (n = 0)), (decide_True (P := n = 0)) by auto
        |rewrite (bool_decide_false (tl = x)) by done]);
      repeat case_bool_decide; repeat case_decide; try done; reflexivity.
  - assert (dll h' (if decide (hd = x) then n else hd) (if decide (tl = x) then p else tl) (l1 ++ l2)) as Hd'.
    { apply (dll_remove (mem s) h' hd tl l1 x l2); [done|]. intros y Hy Hyx. fold n p.
      unfold h', h1, links.
      destruct (decide (p = 0)) as [Ep|Ep], (decide (n = 0)) as [En|En]; rewrite ?geti_seti;
        repeat (destruct (decide _)); simpl; congruence. }
    clearbody h'.
    assert (forall y, ITEM_ntotal (geti h' y) = ITEM_ntotal (geti (mem s) y)) as Hnt
      by (intros y; destruct (Hrq y) as (-> & _); done).
    split.
    + intros c'. unfold qupd, l'. simpl. destruct (decide (c' = c)) as [->|Hne].
      * assert (aget (if decide (hd = x) then <[c:=n]> (heads (lru s)) else heads (lru s)) c =
          (if decide (hd = x) then n else hd)) as ->
          by (destruct (decide (hd = x)); [by rewrite aget_insert, decide_True|done]).
        assert (aget (if decide (tl = x) then <[c:=p]> (tails (lru s)) else tails (lru s)) c =
          (if decide (tl = x) then p else tl)) as ->; [|exact Hd'].
        destruct (decide (tl = x)); [by rewrite aget_insert, decide_True|done].
      * assert (aget (if decide (hd = x) then <[c:=n]> (heads (lru s)) else heads (lru s)) c' =
          aget (heads (lru s)) c') as ->
          by (destruct (decide (hd = x)); [by rewrite aget_insert, decide_False|done]).
        assert (aget (if decide (tl = x) then <[c:=p]> (tails (lru s)) else tails (lru s)) c' =
          aget (tails (lru s)) c') as ->
          by (destruct (decide (tl = x)); [by rewrite aget_insert, decide_False|done]).
        eapply dll_frame; [|apply (q_dll _ _ _ R)]. intros y Hy.
        destruct (Hrq y) as (_ & -> & _); [done|]. intros Hy'. apply Hne.
        eapply queue_unique; [exact R|exact Hy|]. rewrite HQ. set_solver.
    + intros c' y. unfold qupd. destruct (Hrq y) as (-> & _). simpl.
      destruct (decide (c' = c)) as [->|Hne]; [|by apply (q_clsid _ _ _ R)].
      intros Hy. apply (q_clsid _ _ _ R). rewrite HQ. set_solver.
    + intros c'. unfold qupd, l'. simpl. rewrite aget_insert. destruct (decide (c' = c)) as [->|Hne];
        [|by apply R]. rewrite wrap_wrap by done. rewrite <- wrap_sub_l, (q_sizes _ _ _ R), wrap_sub_l.
      f_equal. rewrite HQ, !length_app. simpl. lia.
    + intros c'. unfold qupd, l'. simpl. rewrite aget_insert.
      rewrite (sum_ntotal_ext h' (mem s)) by (intros; apply Hnt).
      destruct (decide (c' = c)) as [->|Hne]; [|by apply R].
      rewrite wrap_wrap by done. rewrite <- wrap_sub_l, (q_bytes _ _ _ R), wrap_sub_l.
      f_equal. rewrite HQ. unfold sum_ntotal. rewrite !foldr_app. simpl.
      assert (forall l b, foldr (fun x n => ITEM_ntotal (geti (mem s) x) + n) b l =
        foldr (fun x n => ITEM_ntotal (geti (mem s) x) + n) 0 l + b) as Hf
        by (intros l b; induction l; simpl; lia).
      rewrite (Hf l1 (_ + _)), (Hf l1 (foldr _ _ _)). lia.
Qed.

(** ** The invariant

    [refs x] counts the references to [x] that are not the hash table's own:
    the ones clients hold, and the ones an operation holds while it runs. *)

(** The fields the structures depend on; FETCHED and ACTIVE are not among the
    flags kept (1 + 2 + 4 + 32 + 64). *)
Definition core_view (i : item) : item :=
  i <| time := 0 |> <| exptime := 0 |> <| cas := 0 |> <| it_flags := Z.land (it_flags i) 103 |>.

Lemma has_core_view i f : Z.land 103 f = f -> has (core_view i) f = has i f.
Proof. intros H. unfold has, core_view. simpl. by rewrite <- Z.land_assoc, H. Qed.

Lemma core_view_inv i j : core_view i = core_view j ->
  links i = links j /\ h_next i = h_next j /\ kview i = kview j /\ nbytes i = nbytes j /\
  refcount i = refcount j /\ nsuffix i = nsuffix j /\ Heap.slabs_clsid i = Heap.slabs_clsid j /\
  (forall f, Z.land 103 f = f -> has i f = has j f) /\ ITEM_ntotal i = ITEM_ntotal j /\
  qview i = qview j.
Proof.
  intros H.
  assert (forall f, Z.land 103 f = f -> has i f = has j f) as Hf
    by (intros f Hf; by rewrite <- (has_core_view i f Hf), H, has_core_view).
  assert (ITEM_ntotal i = ITEM_ntotal j) as Hn.
  { unfold ITEM_ntotal. rewrite (Hf ITEM_CAS) by done. by injection H as _ _ _ -> _ -> _ _ -> _. }
  unfold qview, links, kview. rewrite Hn.
  injection H as -> -> -> -> -> -> _ -> -> ->. done.
Qed.

Lemma has_dom h y f : has (geti h y) f = true -> is_Some (h !! y).
Proof.
  Local Transparent geti. unfold geti. destruct (h !! y); [eauto|]. simpl. unfold has, item0. simpl.
  done.
  Local Opaque geti.
Qed.

(** Memory holds bytes. *)
Definition bodies_ok (h : heap) : Prop := forall y, bytes_ok (body (geti h y)).

Lemma bodies_seti h x f : (forall i, bytes_ok (body i) -> bytes_ok (body (f i))) -> bodies_ok h -> bodies_ok (seti h x f).
Proof. intros Hf H y. rewrite geti_seti. destruct (decide _); auto. Qed.

Lemma bodies_free_chunks fuel : forall c h s h' s', bodies_ok h ->
  free_chunks fuel c h s = Ok (h', s') -> bodies_ok h'.
Proof.
  induction fuel as [|fuel IH]; intros c h s h' s' Hb; simpl; [done|].
  destruct (decide (c = 0)); [by intros [= <- <-]|]. destruct (decide _); [done|].
  apply IH.
  repeat (destruct (decide _) || (apply bodies_seti; [done|])); done.
Qed.

Lemma bodies_free cfg p n id h s h' s' : bodies_ok h -> do_slabs_free cfg p n id h s = Ok (h', s') -> bodies_ok h'.
Proof.
  intros Hb. unfold do_slabs_free. destruct (decide _); [done|]. destruct (has _ _).
  - unfold do_slabs_free_chunked. unfold freelist_push. cbv beta iota zeta. apply bodies_free_chunks.
    repeat (destruct (decide _) || (apply bodies_seti; [done|])); done.
  - unfold freelist_push. cbv beta iota zeta. intros [= <- _].
    repeat (destruct (decide _) || (apply bodies_seti; [done|])); done.
Qed.

Lemma bodies_split cfg n : forall p id h s h' s', bodies_ok h -> split_loop cfg n p id h s = Ok (h', s') -> bodies_ok h'.
Proof.
  induction n as [|n IH]; intros p id h s h' s' Hb; simpl; [by intros [= <- _]|].
  destruct (do_slabs_free _ _ _ _ _ _) as [[h1 s1]| |] eqn:E; simpl; [|done|done].
  apply IH. by eapply bodies_free.
Qed.

Lemma bodies_newslab cfg id h s r h' s' : bodies_ok h -> do_slabs_newslab cfg id h s = Ok (r, h', s') -> bodies_ok h'.
Proof.
  intros Hb. unfold do_slabs_newslab. destruct (decide _); [by intros [= _ <- _]|].
  destruct (grow_slab_list id s) as [g s1]. destruct (decide _); [by intros [= _ <- _]|].
  destruct (get_page_from_global_pool s1) as [p s2].
  destruct (if decide (p = 0) then _ else _) as [p' s3]. destruct (decide _); [by intros [= _ <- _]|].
  unfold split_slab_page_into_freelist. destruct (split_loop _ _ _ _ _ _) as [[h1 s4]| |] eqn:E; simpl; [|done|done].
  destruct (slab_list_set _ _ _ _); simpl; [|done|done]. intros [= _ <- _].
  eapply bodies_split; [|exact E]. intros y. rewrite geti_memset0. destruct (decide _); [constructor|apply Hb].
Qed.

Lemma bodies_pop n id h s it h' s' : bodies_ok h -> freelist_pop n id h s = (it, h', s') -> bodies_ok h'.
Proof.
  intros Hb. unfold freelist_pop. intros [= _ <- _].
  repeat (destruct (decide _) || (apply bodies_seti; [done|])); done.
Qed.

Lemma bodies_alloc cfg n id fl h s r h' s' : bodies_ok h -> do_slabs_alloc cfg n id fl h s = Ok (r, h', s') -> bodies_ok h'.
Proof.
  intros Hb. unfold do_slabs_alloc. destruct (decide _); [by intros [= _ <- _]|].
  destruct (decide _); [done|]. destruct (decide _); [done|].
  assert (forall h1 s1, bodies_ok h1 -> (if decide (sl_curr (getc s1 id) <> 0) then
    let '(it, h2, s2) := freelist_pop n id h1 s1 in Ok (it, Some (requested (getc s id)), h2, s2)
    else Ok (0, Some (requested (getc s id)), h1, s1)) = Ok (r, h', s') -> bodies_ok h') as Hpop.
  { intros h1 s1 Hb1. destruct (decide _); [|by intros [= _ <- _]].
    destruct (freelist_pop n id h1 s1) as [[it h2] s2] eqn:E. intros [= _ <- _]. by eapply bodies_pop. }
  destruct (decide _); [|simpl; by apply Hpop].
  destruct (do_slabs_newslab _ _ _ _) as [[[r1 h1] s1]| |] eqn:E; simpl; [|done|done].
  apply Hpop. by eapply bodies_newslab.
Qed.

(** The page mover's own variables: once it has been asked for a page nobody else
    writes them, and until then an operation can only leave it a request. *)
Definition rebal_kept (pl : Z) (r r' : rebal_t) : Prop :=
  r' = r \/ (slab_rebalance_signal r = 0 /\
    exists sr ds sg cur, r' = (r <| s_clsid := sr |> <| d_clsid := ds |> <| slab_rebalance_signal := sg |> <| pick_cur := cur |>) /\
      (sg = 1 /\ 0 <= sr <= pl /\ 0 <= ds <= pl \/ sg = 0 /\ sr = s_clsid r /\ ds = d_clsid r)).

Lemma rebal_kept_refl pl r : rebal_kept pl r r.
Proof. by left. Qed.

Lemma rebal_kept_trans pl r1 r2 r3 : rebal_kept pl r1 r2 -> rebal_kept pl r2 r3 -> rebal_kept pl r1 r3.
Proof.
  intros [->|(H1 & sr & ds & sg & cur & -> & H2)] [->|(H3 & sr' & ds' & sg' & cur' & -> & H4)].
  - apply rebal_kept_refl.
  - right. split; [done|]. by exists sr', ds', sg', cur'.
  - right. split; [done|]. by exists sr, ds, sg, cur.
  - right. split; [done|]. exists sr', ds', sg', cur'. split; [done|]. simpl in *.
    destruct H4 as [?|(? & -> & ->)]; [by left|]. destruct H2 as [(-> & _)|(_ & -> & ->)]; [done|]. by right.
Qed.

Definition same_env (s s' : st) : Prop :=
  now s' = now s /\ rebal_kept (power_largest (slb s)) (rbl s) (rbl s') /\ (trylocks s = [] -> trylocks s' = []).

#[export] Hint Resolve rebal_kept_refl : core.

(** What the invariant is relative to: the number of pages there can be, and the
    chunks the page mover has taken out of circulation, with what it left in
    them.  While no page is moved there are none. *)
Record bound := Bound { page_cap :> Z; moved : gmap Z item }.

Definition whole (cap : Z) : bound := Bound cap ∅.

Section store.
Context (cfg : settings) (hash : hash_func) `{!HashFunction hash} (cap : bound).

Definition linked (m : gmap (list Z) Z) (x : Z) : Prop := exists k, m !! k = Some x.

(** An item within a chunk of [c] bytes. *)
Definition in_chunk (c : Z) (i : item) : Prop :=
  nkey i < 256 /\ 0 <= nsuffix i < 256 /\ 0 < nbytes i < 2 ^ 31 /\ ITEM_ntotal i <= c.

Lemma in_chunk_agree c i j : nkey i = nkey j -> nsuffix i = nsuffix j -> nbytes i = nbytes j -> ITEM_ntotal i = ITEM_ntotal j ->
  in_chunk c i -> in_chunk c j.
Proof. unfold in_chunk. by intros <- <- <- <-. Qed.

Definition live_item (m : gmap (list Z) Z) (F : free_lists) (refs : Z -> Z) (s : st) (x : Z) : Prop :=
  let i := geti (mem s) x in
  1 <= ITEM_clsid i <= power_largest (slb s) /\
  x ∈ class_chunks (getc (slb s) (ITEM_clsid i)) /\
  (forall c, 1 <= c <= power_largest (slb s) -> x ∉ F c) /\
  has i ITEM_SLABBED = false /\ has i ITEM_CHUNKED = false /\
  (has i ITEM_LINKED = true <-> linked m x) /\
  refcount i = (if has i ITEM_LINKED then 1 else 0) + refs x /\ refcount i < 2 ^ 16 /\
  item_ok i /\ in_chunk (csize (getc (slb s) (ITEM_clsid i))) i.

Definition used (m : gmap (list Z) Z) (refs : Z -> Z) (x : Z) : Prop := linked m x \/ 0 < refs x.

(** A chunk in nobody's hands but the mover's, its contents untouched but for the
    hash chain, whose links every operation of the table may write. *)
Definition held_chunk (m : gmap (list Z) Z) (F : free_lists) (refs : Z -> Z) (s : st) (x : Z) (i : item) : Prop :=
  (exists c, 1 <= c <= power_largest (slb s) /\ x ∈ class_chunks (getc (slb s) c)) /\
  (forall c, 1 <= c <= power_largest (slb s) -> x ∉ F c) /\ ~ used m refs x /\
  geti (mem s) x = (i <| h_next := h_next (geti (mem s) x) |>).

Definition table_items (m : gmap (list Z) Z) : list Z := snd <$> map_to_list m.

(** What slabs_init makes of the classes, and nothing changes. *)
Record classes_ok (sl : slabs_t) : Prop := {
  co_sorted : sizes_sorted sl;
  co_len id : 1 <= id <= power_largest sl -> newslab_len cfg (getc sl id) = slab_page_size cfg;
  co_max : slab_chunk_size_max cfg <= csize (getc sl (power_largest sl))
}.

Definition same_classes (sl sl' : slabs_t) : Prop :=
  power_largest sl' = power_largest sl /\
  forall id, 1 <= id -> csize (getc sl' id) = csize (getc sl id) /\ perslab (getc sl' id) = perslab (getc sl id) /\
    pages (getc sl id) `prefix_of` pages (getc sl' id).

Lemma same_classes_refl sl : same_classes sl sl.
Proof. done. Qed.

Lemma same_classes_trans s1 s2 s3 : same_classes s1 s2 -> same_classes s2 s3 -> same_classes s1 s3.
Proof.
  intros [E1 H1] [E2 H2]. split; [congruence|]. intros id Hid.
  destruct (H1 id Hid) as (? & ? & ?), (H2 id Hid) as (? & ? & ?). split_and!; [congruence..|by etransitivity].
Qed.

Lemma same_classes_geom sl sl' : sscalars sl' = sscalars sl ->
  (forall i, geom (getc sl' i) = geom (getc sl i)) -> same_classes sl sl'.
Proof.
  intros H Hg. split; [by injection H|]. intros id _. rewrite (proj2 (geom_chunks _ _ (Hg id))). by injection (Hg id).
Qed.

Lemma classes_ok_same sl sl' : 1 <= power_largest sl -> same_classes sl sl' -> classes_ok sl -> classes_ok sl'.
Proof.
  intros Hpl [E H] [H1 H2 H3]. split; rewrite ?E.
  - intros i j Hi Hj. rewrite E in Hj. destruct (H i ltac:(lia)) as [-> _], (H j ltac:(lia)) as [-> _]. by apply H1.
  - intros id Hid. destruct (H id) as (Ec & Ep & _); [lia|]. rewrite (newslab_len_ext cfg _ _ Ec Ep). by apply H2.
  - by destruct (H (power_largest sl) ltac:(lia)) as [-> _].
Qed.

Record core_inv (m : gmap (list Z) Z) (Q : queues) (F : free_lists) (refs : Z -> Z) (s : st) : Prop := {
  ci_slabs : slab_inv cfg cap [] (mem s) (slb s) F;
  ci_classes : classes_ok (slb s);
  ci_all id x : 1 <= id <= power_largest (slb s) -> x ∈ class_chunks (getc (slb s) id) ->
    x ∈ F id \/ used m refs x \/ is_Some (moved cap !! x);
  ci_held x i : moved cap !! x = Some i -> held_chunk m F refs s x i;
  ci_whole x : used m refs x -> has (geti (mem s) x) ITEM_CHUNK = false;
  ci_table : table_rep hash (mem s) (asc s) m;
  ci_queue : queue_rep (mem s) (lru s) Q;
  ci_refs x : 0 <= refs x;
  ci_live x : used m refs x -> live_item m F refs s x;
  ci_q c x : x ∈ Q c -> used m refs x;
  ci_items : curr_items (stt s) = u64 (Z.of_nat (size m));
  ci_bytes : curr_bytes (stt s) = u64 (sum_ntotal (mem s) (table_items m));
  ci_bodies : bodies_ok (mem s)
}.

(** A table and queues that hold the same items. *)
Definition store_inv (m : gmap (list Z) Z) (Q : queues) (F : free_lists) (refs : Z -> Z) (s : st) : Prop :=
  core_inv m Q F refs s /\ forall x, (exists c, x ∈ Q c) <-> linked m x.

Definition rupd (refs : Z -> Z) (x n : Z) : Z -> Z := fun y => if decide (y = x) then n else refs y.

Lemma table_items_elem m x : x ∈ table_items m <-> linked m x.
Proof.
  unfold table_items, linked. rewrite list_elem_of_fmap. split.
  - intros ([k y] & -> & H). exists k. by apply elem_of_map_to_list in H.
  - intros [k H]. exists (k, x). split; [done|]. by apply elem_of_map_to_list.
Qed.

Lemma core_inv_ext m Q F refs refs' s : (forall x, refs x = refs' x) ->
  core_inv m Q F refs s -> core_inv m Q F refs' s.
Proof.
  intros E I. assert (forall x, used m refs' x -> used m refs x) as Hu
    by (intros x; unfold used; by rewrite E).
  destruct I. split; try done.
  - intros id x Hid Hx. unfold used. rewrite <- E. by eapply ci_all0.
  - intros x i Hi. destruct (ci_held0 x i Hi) as (H1 & H2 & H3 & H4). split_and!; try done. auto.
  - auto.
  - intros x. rewrite <- E. done.
  - intros x Hx. specialize (ci_live0 x (Hu x Hx)). unfold live_item in *. by rewrite <- E.
  - intros c x Hx. unfold used. rewrite <- E. by eapply ci_q0.
Qed.

Lemma live_pos m Q F refs s x : core_inv m Q F refs s -> used m refs x -> 0 < x.
Proof.
  intros I Hx. destruct (ci_live _ _ _ _ _ I x Hx) as (Hc & Hch & _).
  destruct (chunk_in_page cfg _ _ _ _ _ _ _ (ci_slabs _ _ _ _ _ I) Hc Hch) as (q & _ & _ & _ & ?). done.
Qed.

Lemma item_ok_view i j : core_view i = core_view j -> item_ok i -> item_ok j.
Proof. intros H. apply item_ok_agree. by apply core_view_inv in H as (_ & _ & ? & _). Qed.

(** The parts of the store that the invariant is about. *)
Definition same_parts (s s' : st) : Prop :=
  slb s = slb s' /\ asc s = asc s' /\ same_queues (lru s) (lru s') /\
  curr_items (stt s) = curr_items (stt s') /\ curr_bytes (stt s) = curr_bytes (stt s').

Lemma same_parts_refl s : same_parts s s.
Proof. by repeat split. Qed.

(** Memory may change in what [core_view] drops, in reference counts that the new
    [refs] accounts for, and at addresses of no interest. *)
Lemma core_frame m Q F refs refs' s s' :
  core_inv m Q F refs s -> same_parts s s' ->
  (forall y, 0 <= refs' y /\ (used m refs y <-> used m refs' y)) ->
  (forall y, used m refs y ->
     core_view (geti (mem s') y) = (core_view (geti (mem s) y)) <| refcount := refcount (geti (mem s') y) |> /\
     refcount (geti (mem s') y) = (if has (geti (mem s) y) ITEM_LINKED then 1 else 0) + refs' y /\
     refcount (geti (mem s') y) < 2 ^ 16 /\
     (is_Some (mem s !! y) -> is_Some (mem s' !! y))) ->
  (forall y, ~ used m refs y -> geti (mem s') y = geti (mem s) y) ->
  bodies_ok (mem s') ->
  core_inv m Q F refs' s'.
Proof.
  intros I (E1 & E2 & E3 & E4 & E5) Hr Hv Hf Hbo.
  assert (forall y, used m refs y -> links (geti (mem s) y) = links (geti (mem s') y) /\
    h_next (geti (mem s) y) = h_next (geti (mem s') y) /\ kview (geti (mem s) y) = kview (geti (mem s') y) /\
    nbytes (geti (mem s) y) = nbytes (geti (mem s') y) /\
    Heap.slabs_clsid (geti (mem s) y) = Heap.slabs_clsid (geti (mem s') y) /\
    (forall f, Z.land 103 f = f -> has (geti (mem s) y) f = has (geti (mem s') y) f) /\
    qview (geti (mem s) y) = qview (geti (mem s') y) /\ nsuffix (geti (mem s) y) = nsuffix (geti (mem s') y)) as Hag.
  { intros y Hy. destruct (Hv y Hy) as (E & _).
    change ((core_view (geti (mem s) y)) <| refcount := refcount (geti (mem s') y) |>) with
      (core_view ((geti (mem s) y) <| refcount := refcount (geti (mem s') y) |>)) in E.
    destruct (core_view_inv _ _ (eq_sym E)) as (H1 & H2 & H3 & H4 & _ & H6 & H7 & H8 & _ & H9). done. }
  split.
  - rewrite <- E1. eapply slab_inv_heap; [apply I|]. intros i y Hi Hy. apply Hf.
    intros Hu. pose proof (ci_live _ _ _ _ _ I y Hu) as (_ & _ & H3 & _). by apply (H3 i).
  - rewrite <- E1. apply I.
  - rewrite <- E1. intros id x Hid Hx. destruct (ci_all _ _ _ _ _ I id x Hid Hx) as [|[H|H]]; [by left| |by right; right].
    right. left. by apply Hr.
  - intros x i Hi. destruct (ci_held _ _ _ _ _ I x i Hi) as (H1 & H2 & H3 & H4).
    unfold held_chunk. rewrite <- E1, (Hf x H3). split_and!; try done. by intros ?%Hr.
  - intros x Hx%Hr. destruct (Hag x Hx) as (_ & _ & _ & _ & _ & H & _). rewrite <- H by done. by apply I.
  - rewrite <- E2. eapply table_rep_frame; [apply I|]. intros k x Hx.
    assert (used m refs x) as Hu by (left; by exists k).
    destruct (Hag x Hu) as (_ & ? & ? & _). split_and!; [done|done|].
    apply (Hv x Hu). by eapply table_item; [apply I|].
  - eapply queue_frame; [apply I|done|]. intros c x Hx. apply Hag. by eapply I.
  - intros y. apply Hr.
  - intros y Hy. apply Hr in Hy. destruct (Hag y Hy) as (_ & _ & Hk & Hnb & Hc & Hfl & _).
    destruct (Hv y Hy) as (_ & Hrc & Hlt & _).
    pose proof (ci_live _ _ _ _ _ I y Hy) as (H1 & H2 & H3 & H4 & H5 & H6 & _ & _ & H9 & H10).
    unfold live_item, ITEM_clsid in *. rewrite <- E1, <- Hc, <- !Hfl by done.
    split_and!; first [done | lia | by eapply item_ok_agree | idtac].
    destruct (Hag y Hy) as (_ & _ & _ & _ & _ & _ & Hq & Hs). unfold qview in Hq. unfold kview in Hk.
    eapply in_chunk_agree; [| | | |exact H10]; congruence.
  - intros c x Hx. apply Hr. by eapply I.
  - rewrite <- E4. apply I.
  - rewrite <- E5, (ci_bytes _ _ _ _ _ I). f_equal. apply sum_ntotal_ext. intros x Hx.
    apply table_items_elem in Hx. destruct (Hag x (or_introl Hx)) as (_ & _ & _ & _ & _ & _ & H & _).
    unfold qview in H. congruence.
  - done.
Qed.

(** One struct written. *)
Lemma core_seti m Q F refs s s' x f n :
  core_inv m Q F refs s -> used m refs x -> same_parts s s' -> mem s' = seti (mem s) x f ->
  let i := geti (mem s) x in
  core_view (f i) = (core_view i) <| refcount := refcount (f i) |> ->
  refcount (f i) = (if has i ITEM_LINKED then 1 else 0) + n -> refcount (f i) < 2 ^ 16 ->
  0 <= n -> (linked m x \/ 0 < n) ->
  core_inv m Q F (rupd refs x n) s'.
Proof.
  intros I Hx Hsp Hm i Hcv Hrc Hlt Hn Hl. eapply core_frame; [exact I|done|..].
  - intros y. unfold used, rupd. destruct (decide (y = x)) as [->|]; [tauto|].
    split; [by eapply I|done].
  - intros y Hy. rewrite Hm, geti_seti. unfold rupd. destruct (decide (x = y)) as [<-|Hne].
    + rewrite decide_True by done. fold i. split_and!; try done. apply seti_dom.
    + rewrite decide_False by congruence.
      pose proof (ci_live _ _ _ _ _ I y Hy) as (_ & _ & _ & _ & _ & _ & ? & ? & _).
      split_and!; try done. apply seti_dom.
  - intros y Hy. rewrite Hm, geti_seti_ne; [done|]. by intros <-.
  - rewrite Hm. intros y. rewrite geti_seti.
    destruct (decide (x = y)) as [<-|]; [|apply (ci_bodies _ _ _ _ _ I y)]. fold i. change (body (f i)) with (body (core_view (f i))). rewrite Hcv. apply (ci_bodies _ _ _ _ _ I x).
Qed.

Lemma core_wr m Q F refs s s' x f :
  core_inv m Q F refs s -> used m refs x -> same_parts s s' -> mem s' = seti (mem s) x f ->
  core_view (f (geti (mem s) x)) = core_view (geti (mem s) x) ->
  core_inv m Q F refs s'.
Proof.
  intros I Hx Hsp Hm Hcv. pose proof (ci_live _ _ _ _ _ I x Hx) as (_ & _ & _ & _ & _ & H6 & H7 & H8 & _).
  assert (refcount (f (geti (mem s) x)) = refcount (geti (mem s) x)) as E
    by by apply core_view_inv in Hcv as (_ & _ & _ & _ & -> & _).
  apply (core_inv_ext _ _ _ (rupd refs x (refs x))).
  { intros y. unfold rupd. by destruct (decide (y = x)) as [->|]. }
  eapply core_seti; [done|done|done|done|..]; rewrite ?E; try done; try by eapply I.
Qed.

(** refcount_incr and refcount_decr *)
Definition with_mem (s : st) (h : heap) : st := s <| mem := h |>.

Definition bump (x d : Z) (s : st) : st :=
  with_mem s (seti (mem s) x (fun i => i <| refcount := u16 (refcount i + d) |>)).

Lemma refcount_incr_eq x s :
  refcount_incr x s = Ok (u16 (refcount (geti (mem s) x) + 1), bump x 1 s).
Proof.
  unfold refcount_incr, mbind, M_bind, wr, modify, rd, gets, mret, M_ret. simpl.
  by rewrite geti_seti_eq.
Qed.

Lemma refcount_decr_eq x s :
  refcount_decr x s = Ok (u16 (refcount (geti (mem s) x) - 1), bump x (-1) s).
Proof.
  unfold refcount_decr, mbind, M_bind, wr, modify, rd, gets, mret, M_ret. simpl.
  by rewrite geti_seti_eq.
Qed.

Lemma bump_inv m Q F refs s x d : core_inv m Q F refs s -> used m refs x ->
  0 <= refs x + d -> refcount (geti (mem s) x) + d < 2 ^ 16 -> linked m x \/ 0 < refs x + d ->
  u16 (refcount (geti (mem s) x) + d) = refcount (geti (mem s) x) + d /\
  core_inv m Q F (rupd refs x (refs x + d)) (bump x d s).
Proof.
  intros I Hx Hn Hlt Hl. pose proof (ci_live _ _ _ _ _ I x Hx) as (_ & _ & _ & _ & _ & H6 & H7 & H8 & _).
  assert (u16 (refcount (geti (mem s) x) + d) = refcount (geti (mem s) x) + d) as Eu.
  { apply wrap_small. unfold in_u. destruct (has _ ITEM_LINKED); lia. }
  split; [done|]. eapply (core_seti _ _ _ _ s _ x); [done|done|by repeat split|done|..];
    simpl; rewrite ?Eu; try done; lia.
Qed.

(** *** Releasing a reference *)

Definition content (i : item) := (kview i, nbytes i, nsuffix i, has i ITEM_CAS).

(** The memory of the items of a set is kept, apart from bookkeeping. *)
Definition keeps (U : Z -> Prop) (s s' : st) : Prop :=
  forall y, U y -> content (geti (mem s') y) = content (geti (mem s) y).

Lemma keeps_refl U s : keeps U s s.
Proof. by intros y. Qed.

Lemma keeps_trans (U U' : Z -> Prop) s1 s2 s3 : keeps U s1 s2 -> keeps U' s2 s3 ->
  (forall y, U' y -> U y) -> keeps U' s1 s3.
Proof. intros H1 H2 H y Hy. rewrite (H2 y Hy). auto. Qed.

Lemma core_view_content i j : core_view i = core_view j -> content i = content j.
Proof.
  intros H. apply core_view_inv in H as (_ & _ & Hk & Hn & _ & Hs & _ & Hf & _).
  unfold content. by rewrite Hk, Hn, Hs, (Hf ITEM_CAS).
Qed.

Lemma live_free_room m Q F refs s x : core_inv m Q F refs s -> used m refs x ->
  Z.of_nat (length (F (ITEM_clsid (geti (mem s) x)))) + 1 < 2 ^ 32.
Proof.
  intros I Hx. destruct (ci_live _ _ _ _ _ I x Hx) as (Hc & Hch & HF & _).
  pose proof (ci_slabs _ _ _ _ _ I) as Is. set (c := ITEM_clsid _) in *.
  destruct (si_class _ _ _ _ _ _ Is c Hc) as (H1 & H2 & H3 & H4).
  destruct (si_list _ _ _ _ _ _ Is c ltac:(lia)) as (Hs & Hl & _).
  pose proof (pages_count _ _ _ _ _ _ c Is ltac:(lia)) as Hp. simpl in Hp.
  assert (Z.of_nat (length (x :: F c)) <= slabs (getc (slb s) c) * perslab (getc (slb s) c)) as Hle.
  { rewrite <- (proj1 (class_chunks_length cfg _ H2 ltac:(lia))). apply Nat2Z.inj_le.
    apply NoDup_incl_length.
    - apply NoDup_ListNoDup. constructor; [by apply HF|].
      apply (fl_dll _ _ _ (si_free _ _ _ _ _ _ Is c Hc)).
    - intros y Hy. apply list_elem_of_In. apply list_elem_of_In in Hy.
      apply elem_of_cons in Hy as [->|Hy]; [done|]. by eapply Is. }
  simpl in Hle. nia.
Qed.

Lemma seti_same h x f g : f (geti h x) = g (geti h x) -> seti h x f = seti h x g.
Proof.
  Local Transparent seti. intros E. unfold seti. by rewrite E.
  Local Opaque seti.
Qed.

(** Handing an item nobody refers to any more back to its slab class, whatever
    its reference count says by then. *)
Lemma slabs_free_inv m Q F refs s x r :
  core_inv m Q F refs s -> ~ linked m x -> refs x = 1 -> (forall c, x ∉ Q c) ->
  let i := geti (mem s) x in
  exists F' h' sl', do_slabs_free cfg x (ITEM_ntotal i) (ITEM_clsid i)
      (seti (mem s) x (fun i => i <| refcount := r |>)) (slb s) = Ok (h', sl') /\
    core_inv m Q F' (rupd refs x 0) ((with_mem s h') <| slb := sl' |>) /\
    (forall y, used m (rupd refs x 0) y -> geti h' y = geti (mem s) y) /\
    same_classes (slb s) sl'.
Proof.
  intros I Hl Hr Hq i. assert (used m refs x) as Hx by (right; lia).
  pose proof (ci_live _ _ _ _ _ I x Hx) as (Hc & Hch & HF & Hsl & Hck & Hlk & Hrc & _ & Hok & Hnb).
  pose proof (live_free_room _ _ _ _ _ _ I Hx) as Hroom.
  set (h1 := seti (mem s) x _). fold i in Hc, Hch, Hck, Hroom |- *.
  assert (geti h1 x = i <| refcount := r |>) as Eg by (unfold h1; by rewrite geti_seti_eq).
  assert (slab_inv cfg cap [] h1 (slb s) F) as Is1.
  { eapply slab_inv_heap; [apply I|]. intros c y Hi Hy. unfold h1.
    rewrite geti_seti_ne; [done|]. intros ->. by apply (HF c). }
  set (c := ITEM_clsid i) in *.
  destruct (do_slabs_free_inv cfg cap [] h1 (slb s) F x (ITEM_ntotal i) c)
    as (h' & sl' & E & Is' & Hfr & Hsc & Hg & _); try done.
  { by apply HF. }
  { rewrite Eg. exact Hck. }
  exists (upd F c (x :: F c)), h', sl'. split; [exact E|].
  assert (power_largest sl' = power_largest (slb s)) as Hpl by (by injection Hsc).
  assert (forall y, y <> x -> y ∉ F c -> geti h' y = geti (mem s) y) as Hfr'.
  { intros y Hyx HyF. rewrite Hfr by done. unfold h1. by rewrite geti_seti_ne. }
  assert (forall y, used m (rupd refs x 0) y -> y <> x /\ used m refs y /\ geti h' y = geti (mem s) y) as Hk.
  { intros y Hy. assert (y <> x) as Hyx.
    { intros ->. destruct Hy as [Hy|Hy]; [done|]. unfold rupd in Hy.
      rewrite decide_True in Hy by done. lia. }
    assert (used m refs y) as Hy'.
    { destruct Hy as [Hy|Hy]; [by left|right]. unfold rupd in Hy. by rewrite decide_False in Hy. }
    split_and!; [done|done|]. apply Hfr'; [done|].
    destruct (ci_live _ _ _ _ _ I y Hy') as (_ & _ & H & _). by apply H. }
  assert (forall y, ~ used m refs y -> ~ used m (rupd refs x 0) y) as Hku by (intros y Hn Hy; by apply Hn, Hk).
  split_and!; [|by intros y Hy; apply Hk|by apply same_classes_geom]. split.
  - done.
  - eapply classes_ok_same; [|by apply same_classes_geom|apply I]. lia.
  - intros id y. simpl. rewrite Hpl, (proj1 (geom_chunks _ _ (Hg _))). intros Hid Hy. unfold upd, used, rupd.
    destruct (ci_all _ _ _ _ _ I id y Hid Hy) as [H|[[H|H]|H]].
    + left. destruct (decide (id = c)) as [->|]; [set_solver|done].
    + by right; left; left.
    + destruct (decide (y = x)) as [->|]; [|by right; left; right]. left.
      rewrite decide_True; [set_solver|]. by eapply chunk_class_unique; [apply I|..].
    + by right; right.
  - intros y j Hj. destruct (ci_held _ _ _ _ _ I y j Hj) as ((c' & Hc' & Hy) & HyF & Hyu & Ey).
    assert (y <> x) as Hyx by by intros ->.
    unfold held_chunk. simpl. rewrite Hpl, Hfr' by auto. split_and!; [|intros d Hd|auto|done].
    + exists c'. by rewrite (proj1 (geom_chunks _ _ (Hg _))).
    + unfold upd. destruct (decide (d = c)) as [->|]; [|by apply HyF]. apply not_elem_of_cons. auto.
  - intros y Hy. destruct (Hk y Hy) as (_ & Hu & E'). simpl. rewrite E'. by apply I.
  - eapply table_rep_frame; [apply I|]. intros k y Hy.
    destruct (Hk y) as (_ & _ & E'); [left; by exists k|]. simpl. rewrite E'. split_and!; try done.
    apply (has_dom _ _ ITEM_LINKED). rewrite E'. assert (linked m y) as Hly by by exists k.
    by apply (ci_live _ _ _ _ _ I y (or_introl Hly)).
  - eapply queue_frame; [apply I|by repeat split|]. intros c' y Hy. simpl.
    destruct (Hk y) as (_ & _ & ->); [|done]. destruct (ci_q _ _ _ _ _ I c' y Hy) as [H|H]; [by left|].
    right. unfold rupd. rewrite decide_False; [done|]. intros ->. by apply (Hq c').
  - intros y. unfold rupd. destruct (decide _); [done|]. by eapply I.
  - intros y Hy. destruct (Hk y Hy) as (Hyx & Hy' & E').
    pose proof (ci_live _ _ _ _ _ I y Hy') as (H1 & H2 & H3 & H4 & H5 & H6 & H7 & H8 & H9 & H10).
    unfold live_item. simpl. rewrite E', Hpl. unfold rupd. rewrite decide_False by done.
    rewrite (proj1 (geom_chunks _ _ (Hg _))).
    assert (csize (getc sl' (ITEM_clsid (geti (mem s) y))) = csize (getc (slb s) (ITEM_clsid (geti (mem s) y)))) as ->
      by (by injection (Hg (ITEM_clsid (geti (mem s) y)))).
    split_and!; first [done|lia|idtac]. intros c' Hc'. unfold upd. destruct (decide (c' = c)) as [->|]; [|by apply H3].
    apply not_elem_of_cons. split; [done|]. by apply H3.
  - intros c' y Hy. destruct (ci_q _ _ _ _ _ I c' y Hy) as [H|H]; [by left|].
    right. unfold rupd. rewrite decide_False; [done|]. intros ->. by apply (Hq c').
  - apply I.
  - simpl. rewrite (ci_bytes _ _ _ _ _ I). f_equal. apply sum_ntotal_ext. intros y Hy.
    apply table_items_elem in Hy. by destruct (Hk y (or_introl Hy)) as (_ & _ & ->).
  - eapply bodies_free; [|exact E]. apply bodies_seti; [done|apply I].
Qed.

Lemma item_free_inv m Q F refs s x :
  core_inv m Q F refs s -> ~ linked m x -> refs x = 1 -> (forall c, x ∉ Q c) ->
  let s1 := bump x (-1) s in
  exists F' h' sl', item_free cfg x s1 = Ok (tt, (with_mem s h') <| slb := sl' |>) /\
    core_inv m Q F' (rupd refs x 0) ((with_mem s h') <| slb := sl' |>) /\
    (forall y, used m (rupd refs x 0) y -> geti h' y = geti (mem s) y) /\
    same_classes (slb s) sl'.
Proof.
  intros I Hl Hr Hq s1. assert (used m refs x) as Hx by (right; lia).
  pose proof (live_pos _ _ _ _ _ _ I Hx) as Hx0.
  pose proof (ci_live _ _ _ _ _ I x Hx) as (_ & _ & _ & _ & _ & Hlk & Hrc & _).
  assert (has (geti (mem s) x) ITEM_LINKED = false) as Hlf
    by (apply not_true_is_false; by rewrite Hlk).
  rewrite Hlf in Hrc.
  assert (mem s1 = seti (mem s) x (fun i => i <| refcount := 0 |>)) as Em.
  { unfold s1, bump. simpl. apply seti_same. by rewrite Hrc, Hr. }
  assert (geti (mem s1) x = (geti (mem s) x) <| refcount := 0 |>) as Eg by by rewrite Em, geti_seti_eq.
  assert (forall c, x <> default 0 (head (Q c)) /\ x <> default 0 (last (Q c))) as Hends.
  { intros c'. split.
    - destruct (Q c') as [|y l] eqn:EQ; simpl; [lia|]. intros ->. apply (Hq c'). rewrite EQ. set_solver.
    - destruct (last (Q c')) as [y|] eqn:EQ; simpl; [|lia]. intros ->.
      apply (Hq c'). by apply last_Some_elem_of. }
  destruct (slabs_free_inv m Q F refs s x 0 I Hl Hr Hq) as (F' & h' & sl' & E & H).
  exists F', h', sl'. split; [|exact H]. unfold item_free. rewrite rd_bind, Eg. cbv zeta.
  rewrite massert_bind by (cbn; change (negb (has (geti (mem s) x) ITEM_LINKED) = true); by rewrite Hlf).
  rewrite !gets_bind. change (lru s1) with (lru s).
  destruct (q_dll _ _ _ (ci_queue _ _ _ _ _ I) (Heap.slabs_clsid ((geti (mem s) x) <| refcount := 0 |>)))
    as (_ & -> & -> & _).
  destruct (Hends (Heap.slabs_clsid ((geti (mem s) x) <| refcount := 0 |>))).
  rewrite massert_bind by (by rewrite bool_decide_false).
  rewrite massert_bind by (by rewrite bool_decide_false).
  rewrite massert_bind by done. unfold lift_slabs.
  change (ITEM_clsid ((geti (mem s) x) <| refcount := 0 |>)) with (ITEM_clsid (geti (mem s) x)).
  change (ITEM_ntotal ((geti (mem s) x) <| refcount := 0 |>)) with (ITEM_ntotal (geti (mem s) x)).
  change (slb s1) with (slb s). rewrite Em, E. by destruct s.
Qed.

(** What every operation leaves alone: the clock, the mover, the size classes and
    their pages, and the memory of the items of [U]. *)
Record effect (U : Z -> Prop) (s s' : st) : Prop := {
  ef_classes : same_classes (slb s) (slb s');
  ef_keeps : keeps U s s';
  ef_env : same_env s s'
}.

Lemma effect_refl U s : effect U s s.
Proof. split; [apply same_classes_refl|apply keeps_refl|done]. Qed.

Lemma effect_trans (U U' : Z -> Prop) s1 s2 s3 : effect U s1 s2 -> effect U' s2 s3 ->
  (forall y, U' y -> U y) -> effect U' s1 s3.
Proof.
  intros [H1 H2 (H3 & H4 & L)] [H5 H6 (H7 & H8 & L')] H. split.
  - by eapply same_classes_trans.
  - by eapply keeps_trans.
  - split; [congruence|]. split; [|auto]. rewrite (proj1 H1) in H8. by eapply rebal_kept_trans.
Qed.

Lemma effect_weaken (U U' : Z -> Prop) s s' : effect U s s' -> (forall y, U' y -> U y) -> effect U' s s'.
Proof. intros [H1 H2 H3] H. split; [done| |done]. intros y Hy. auto. Qed.

Lemma effect_seti (U : Z -> Prop) s s' x f :
  slb s' = slb s -> same_env s s' -> mem s' = seti (mem s) x f ->
  content (f (geti (mem s) x)) = content (geti (mem s) x) -> effect U s s'.
Proof.
  intros E1 E2 E3 H. split; [rewrite E1; apply same_classes_refl| |done].
  intros y _. rewrite E3, geti_seti. by destruct (decide (x = y)) as [->|].
Qed.

Lemma rupd_id refs x n : n = refs x -> forall y, rupd refs x n y = refs y.
Proof. intros -> y. unfold rupd. by destruct (decide (y = x)) as [->|]. Qed.

Lemma rupd_rupd refs x n k y : rupd (rupd refs x n) x k y = rupd refs x k y.
Proof. unfold rupd. by destruct (decide (y = x)). Qed.

Lemma rupd_eq refs x n : rupd refs x n x = n.
Proof. unfold rupd. by rewrite decide_True. Qed.

Lemma rupd_ne refs x n y : y <> x -> rupd refs x n y = refs y.
Proof. intros. unfold rupd. by rewrite decide_False. Qed.

Lemma linked_used m refs x : linked m x -> used m refs x.
Proof. by left. Qed.

Lemma used_rupd m refs x n y : used m (rupd refs x n) y <-> linked m y \/ (if decide (y = x) then 0 < n else 0 < refs y).
Proof. unfold used, rupd. by destruct (decide (y = x)). Qed.

(** The references an item has, for the 16-bit counter. *)
Definition refs_bounded (refs : Z -> Z) : Prop := forall x, refs x < 2 ^ 16 - 8.

Lemma live_refcount m Q F refs s x : core_inv m Q F refs s -> used m refs x ->
  refcount (geti (mem s) x) = (if has (geti (mem s) x) ITEM_LINKED then 1 else 0) + refs x.
Proof. intros I Hx. by apply (ci_live _ _ _ _ _ I x Hx). Qed.

Lemma live_flags m Q F refs s x : core_inv m Q F refs s -> used m refs x ->
  has (geti (mem s) x) ITEM_SLABBED = false /\ has (geti (mem s) x) ITEM_CHUNKED = false /\
  (has (geti (mem s) x) ITEM_LINKED = true <-> linked m x).
Proof. intros I Hx. by pose proof (ci_live _ _ _ _ _ I x Hx) as (_ & _ & _ & ? & ? & ? & _). Qed.

Lemma live_ok m Q F refs s x : core_inv m Q F refs s -> used m refs x -> item_ok (geti (mem s) x).
Proof. intros I Hx. by pose proof (ci_live _ _ _ _ _ I x Hx) as (_ & _ & _ & _ & _ & _ & _ & _ & ? & _). Qed.

Lemma do_item_remove_inv m Q F refs s x :
  core_inv m Q F refs s -> 0 < refs x -> linked m x \/ 1 < refs x \/ (forall c, x ∉ Q c) ->
  exists F' s', do_item_remove cfg x s = Ok (tt, s') /\
    core_inv m Q F' (rupd refs x (refs x - 1)) s' /\
    effect (used m (rupd refs x (refs x - 1))) s s' /\
    lru s' = lru s /\ asc s' = asc s /\
    (forall y, used m (rupd refs x (refs x - 1)) y ->
       geti (mem s') y = (geti (mem s) y) <| refcount := refcount (geti (mem s') y) |>).
Proof.
  intros I Hr Hq. assert (used m refs x) as Hx by by right.
  pose proof (live_flags _ _ _ _ _ _ I Hx) as (Hsl & _ & Hlk).
  pose proof (live_refcount _ _ _ _ _ _ I Hx) as Hrc.
  unfold do_item_remove. rewrite rd_bind. rewrite massert_bind by (by rewrite Hsl).
  rewrite massert_bind; cycle 1.
  { apply bool_decide_eq_true. destruct (has _ ITEM_LINKED); lia. }
  rewrite (M_bind_ok _ _ _ _ _ (refcount_decr_eq x s)).
  assert ((linked m x \/ 1 < refs x) \/ (~ linked m x /\ refs x = 1)) as [Hl|[Hnl E1]].
  { destruct (decide (1 < refs x)); [by left; right|]. destruct (has (geti (mem s) x) ITEM_LINKED).
    - left. left. by apply Hlk.
    - right. split; [by intros ?%Hlk|lia]. }
  - destruct (bump_inv m Q F refs s x (-1) I Hx) as [Eu I']; [lia| |by destruct Hl; [left|right; lia]|].
    { pose proof (ci_live _ _ _ _ _ I x Hx) as (_ & _ & _ & _ & _ & _ & _ & ? & _). lia. }
    rewrite when_false; cycle 1.
    { apply bool_decide_eq_false. replace (refcount (geti (mem s) x) - 1) with
        (refcount (geti (mem s) x) + -1) by lia. rewrite Eu.
      destruct Hl as [Hl|Hl]; [apply Hlk in Hl; rewrite Hl in Hrc; lia|destruct (has _ ITEM_LINKED); lia]. }
    exists F, (bump x (-1) s). split_and!; try done.
    + by eapply effect_seti.
    + intros y _. unfold bump. simpl. rewrite geti_seti. destruct (decide (x = y)); [|by destruct (geti _ y)].
      by destruct (geti (mem s) y).
  - assert (has (geti (mem s) x) ITEM_LINKED = false) as Hlf by (apply not_true_is_false; by rewrite Hlk).
    rewrite Hlf in Hrc.
    rewrite when_true; cycle 1.
    { rewrite Hrc, E1. by apply bool_decide_eq_true. }
    destruct (item_free_inv m Q F refs s x I Hnl E1) as (F' & h' & sl' & E & I' & Hk & Hc);
      [intros c; destruct Hq as [?|[?|Hq]]; [done|lia|apply Hq]|].
    eexists F', _. split; [exact E|]. replace (refs x - 1) with 0 by lia.
    split_and!; try done.
    + split; [done| |done]. intros y Hy. simpl. by rewrite Hk.
    + intros y Hy. simpl. rewrite Hk by done. by destruct (geti (mem s) y).
Qed.

(** *** The queues *)

Lemma core_requeue m Q Q' F refs s S h' l' :
  core_inv m Q F refs s -> queue_rep h' l' Q' -> requeued S (mem s) h' ->
  (forall y, S y -> used m refs y) -> (forall c y, y ∈ Q' c -> used m refs y) ->
  core_inv m Q' F refs ((with_mem s h') <| lru := l' |>).
Proof.
  intros I HQ Hrq HS HQu. split; simpl; try apply I; try done.
  - eapply slab_inv_heap; [apply I|]. intros i y Hi Hy. apply (Hrq y). intros Hs%HS.
    pose proof (ci_live _ _ _ _ _ I y Hs) as (_ & _ & H & _). by apply (H i).
  - intros y j Hj. destruct (ci_held _ _ _ _ _ I y j Hj) as (H1 & H2 & H3 & H4).
    assert (geti h' y = geti (mem s) y) as E by (apply (Hrq y); auto).
    unfold held_chunk. simpl. by rewrite E.
  - intros y Hy. destruct (Hrq y) as (E & _). rewrite E. by apply (ci_whole _ _ _ _ _ I).
  - eapply table_rep_frame; [apply I|]. intros k y Hy. destruct (Hrq y) as (E & _ & Hd).
    rewrite E. split_and!; [done|done|]. apply Hd.
    by destruct (table_item _ _ _ _ _ _ (ci_table _ _ _ _ _ I) Hy) as (_ & _ & _ & ?).
  - intros y Hy. pose proof (ci_live _ _ _ _ _ I y Hy) as Hl. unfold live_item in *. simpl.
    destruct (Hrq y) as (E & _). rewrite E. exact Hl.
  - rewrite (ci_bytes _ _ _ _ _ I). f_equal. apply sum_ntotal_ext. intros y _.
    by destruct (Hrq y) as (-> & _).
  - intros y. destruct (Hrq y) as (-> & _). apply (ci_bodies _ _ _ _ _ I y).
Qed.

Lemma requeued_effect (U S : Z -> Prop) s h' l' : requeued S (mem s) h' ->
  effect U s ((with_mem s h') <| lru := l' |>).
Proof.
  intros H. split; [apply same_classes_refl| |done]. intros y _. simpl. by destruct (H y) as (-> & _).
Qed.

Definition queue_of (Q : queues) (x : Z) : Prop := exists c, x ∈ Q c.

Lemma unlink_q_inv m Q F refs s x :
  core_inv m Q F refs s -> queue_of Q x ->
  exists Q' s', do_item_unlink_q x s = Ok (tt, s') /\ core_inv m Q' F refs s' /\
    (forall y, queue_of Q' y <-> queue_of Q y /\ y <> x) /\ (forall c y, y ∈ Q' c -> y ∈ Q c) /\
    effect (used m refs) s s' /\ asc s' = asc s /\
    (forall y, geti (mem s') y = (geti (mem s) y) <| next := next (geti (mem s') y) |>
                                    <| prev := prev (geti (mem s') y) |>).
Proof.
  intros I [c Hx]. pose proof (ci_queue _ _ _ _ _ I) as R.
  pose proof (q_clsid _ _ _ R c x Hx) as Ec.
  pose proof Hx as Hx'. apply list_elem_of_split in Hx' as (l1 & l2 & HQ). rewrite <- Ec in HQ.
  destruct (do_item_unlink_q_spec s Q x l1 l2 R HQ) as (h' & l' & E & R' & Hrq & _ & Hnx).
  rewrite Ec in *. exists (qupd Q c (l1 ++ l2)), ((with_mem s h') <| lru := l' |>).
  assert (forall c' y, y ∈ qupd Q c (l1 ++ l2) c' <-> y ∈ Q c' /\ y <> x) as HQ'.
  { intros c' y. unfold qupd. destruct (decide (c' = c)) as [->|Hne].
    - rewrite HQ. rewrite !elem_of_app, elem_of_cons in *. split; [|tauto]. intros Hy.
      split; [tauto|]. intros Ey. subst y. by apply Hnx.
    - split; [|tauto]. intros Hy. split; [done|]. intros ->.
      apply Hne. exact (queue_unique _ _ _ _ _ _ R Hy Hx). }
  split_and!; try done.
  - eapply core_requeue; [done|done|done|..].
    + intros y Hy. eapply (ci_q _ _ _ _ _ I c). rewrite HQ. set_solver.
    + intros c' y [Hy _]%HQ'. by eapply I.
  - intros y. unfold queue_of. setoid_rewrite HQ'. naive_solver.
  - intros c' y. rewrite HQ'. tauto.
  - by eapply requeued_effect.
  - intros y. simpl. by destruct (Hrq y).
Qed.

Lemma link_q_inv m Q F refs s x :
  core_inv m Q F refs s -> ~ queue_of Q x -> used m refs x ->
  exists Q' s', do_item_link_q x s = Ok (tt, s') /\ core_inv m Q' F refs s' /\
    (forall y, queue_of Q' y <-> queue_of Q y \/ y = x) /\
    (forall c, x ∈ Q' c <-> c = Heap.slabs_clsid (geti (mem s) x)) /\
    effect (used m refs) s s' /\ asc s' = asc s /\
    (forall y, geti (mem s') y = (geti (mem s) y) <| next := next (geti (mem s') y) |>
                                    <| prev := prev (geti (mem s') y) |>).
Proof.
  intros I Hnx Hx. pose proof (ci_queue _ _ _ _ _ I) as R.
  pose proof (live_pos _ _ _ _ _ _ I Hx) as Hx0.
  destruct (do_item_link_q_spec s Q x R ltac:(lia)) as (h' & l' & E & R' & Hrq & _).
  { intros c Hc. apply Hnx. by exists c. }
  { by eapply live_flags. }
  set (c := Heap.slabs_clsid (geti (mem s) x)) in *.
  exists (qupd Q c (x :: Q c)), ((with_mem s h') <| lru := l' |>).
  assert (forall c' y, y ∈ qupd Q c (x :: Q c) c' <-> y ∈ Q c' \/ y = x /\ c' = c) as HQ'.
  { intros c' y. unfold qupd. destruct (decide (c' = c)) as [->|Hne]; [set_solver|naive_solver]. }
  split_and!; try done.
  - eapply core_requeue; [done|done|done|..].
    + intros y [->|Hy]; [done|]. by eapply I.
    + intros c' y [Hy|[-> _]]%HQ'; [by eapply I|done].
  - intros y. unfold queue_of. setoid_rewrite HQ'. naive_solver.
  - intros c'. rewrite HQ'. split; [intros [Hc|[_ ->]]; [|done]|by right].
    destruct Hnx. by exists c'.
  - by eapply requeued_effect.
  - intros y. simpl. by destruct (Hrq y).
Qed.

(** *** The table *)

#[local] Instance sum_ntotal_perm h : Proper (Permutation ==> eq) (sum_ntotal h).
Proof. intros l1 l2 H. unfold sum_ntotal. induction H; simpl; lia. Qed.

Lemma table_items_insert m k x : m !! k = None -> table_items (<[k := x]> m) ≡ₚ x :: table_items m.
Proof. intros H. unfold table_items. by rewrite map_to_list_insert. Qed.

Lemma table_items_delete m k x : m !! k = Some x -> table_items m ≡ₚ x :: table_items (delete k m).
Proof. intros H. unfold table_items. by rewrite <- (map_to_list_delete m k x H). Qed.

Lemma inv_key m Q F refs s k x : core_inv m Q F refs s -> m !! k = Some x -> ikey (mem s) x = k.
Proof. intros I H. by destruct (table_item _ _ _ _ _ _ (ci_table _ _ _ _ _ I) H). Qed.

Lemma linked_key m Q F refs s x : core_inv m Q F refs s -> linked m x -> m !! ikey (mem s) x = Some x.
Proof. intros I [k H]. by rewrite (inv_key _ _ _ _ _ _ _ I H). Qed.

Lemma linked_delete m Q F refs s k x y : core_inv m Q F refs s -> m !! k = Some x ->
  linked (delete k m) y <-> linked m y /\ y <> x.
Proof.
  intros I H. split.
  - intros [k' [Hne Hk]%lookup_delete_Some]. split; [by exists k'|]. intros ->. apply Hne.
    by rewrite <- (inv_key _ _ _ _ _ _ _ I H), (inv_key _ _ _ _ _ _ _ I Hk).
  - intros [[k' Hk] Hne]. exists k'. apply lookup_delete_Some. split; [|done]. intros <-. congruence.
Qed.

Lemma linked_insert m k x y : m !! k = None -> linked (<[k := x]> m) y <-> y = x \/ linked m y.
Proof.
  intros H. split.
  - intros [k' [[-> ->]|[Hne Hk]]%lookup_insert_Some]; [by left|right; by exists k'].
  - intros [->|[k' Hk]]; [exists k; apply lookup_insert_eq|exists k'].
    rewrite lookup_insert_ne; [done|congruence].
Qed.

Lemma sizes_change_spec d x s : exists l', stats_sizes_change d x s = Ok (tt, s <| lru := l' |>) /\
  same_queues (lru s) l'.
Proof.
  unfold stats_sizes_change. rewrite rd_bind. unfold set_lru, modify.
  eexists. split; [reflexivity|]. destruct (stats_sizes_hist (lru s)); [|done].
  by repeat destruct (decide _).
Qed.

(** The memory after the LINKED flag of [x] was changed and its chain relinked. *)
Lemma core_table_change m m' Q F refs n s s' h1 x f :
  core_inv m Q F refs s -> used m refs x -> h1 = seti (mem s) x f -> relinked h1 (mem s') ->
  let i := geti (mem s) x in
  kview (f i) = kview i -> links (f i) = links i -> nbytes (f i) = nbytes i ->
  nsuffix (f i) = nsuffix i -> refcount (f i) = refcount i ->
  Heap.slabs_clsid (f i) = Heap.slabs_clsid i ->
  has (f i) ITEM_SLABBED = false -> has (f i) ITEM_CHUNKED = false -> has (f i) ITEM_CHUNK = false ->
  has (f i) ITEM_CAS = has i ITEM_CAS ->
  (has (f i) ITEM_LINKED = true <-> linked m' x) ->
  refcount i = (if has (f i) ITEM_LINKED then 1 else 0) + n ->
  0 <= n -> used m' (rupd refs x n) x -> (forall y, y <> x -> linked m' y <-> linked m y) ->
  slb s' = slb s -> same_queues (lru s) (lru s') -> table_rep hash (mem s') (asc s') m' ->
  curr_items (stt s') = u64 (Z.of_nat (size m')) ->
  curr_bytes (stt s') = u64 (sum_ntotal (mem s) (table_items m')) ->
  core_inv m' Q F (rupd refs x n) s'.
Proof.
  intros I Hx -> Hrl i Ek El En Ens Er Ec Hsl Hch Hwh Hcas Hlk Hrc Hn Hu Hl E1 E2 Ht E3 E4.
  assert (forall y, used m' (rupd refs x n) y <-> used m refs y) as HU.
  { intros y. destruct (decide (y = x)) as [->|Hne]; [tauto|]. unfold used. by rewrite Hl, rupd_ne. }
  assert (forall y, y <> x -> geti (mem s') y = (geti (mem s) y) <| h_next := h_next (geti (mem s') y) |>) as Hy.
  { intros y Hne. destruct (Hrl y) as [-> _]. by rewrite geti_seti_ne. }
  assert (geti (mem s') x = (f i) <| h_next := h_next (geti (mem s') x) |>) as Hx'.
  { destruct (Hrl x) as [-> _]. by rewrite geti_seti_eq. }
  assert (ITEM_ntotal (f i) = ITEM_ntotal i) as Hnt.
  { unfold ITEM_ntotal. rewrite En, Ens, Hcas. by injection Ek as -> _. }
  assert (forall y, qview (geti (mem s') y) = qview (geti (mem s) y)) as Hqv.
  { intros y. destruct (decide (y = x)) as [->|Hne]; [rewrite Hx'|by rewrite Hy].
    unfold qview. change (qview ((f i) <| h_next := h_next (geti (mem s') x) |>)) with (qview (f i)) || simpl.
    unfold qview. change (links (f i) <| h_next := _ |>) with (links (f i)) || idtac.
    fold i. rewrite <- El, <- Ec, <- Hnt. done. }
  pose proof (ci_live _ _ _ _ _ I x Hx) as (L1 & L2 & L3 & _ & _ & _ & _ & L8 & L9 & L10).
  fold i in L1, L2, L8, L9, L10.
  split.
  - rewrite E1. eapply slab_inv_view; [apply I|]. intros id y Hid Hyf.
    assert (y <> x) as Hne by (intros ->; by apply (L3 id)). by rewrite (Hy y Hne).
  - rewrite E1. apply I.
  - rewrite E1. intros id y Hid Hyc. rewrite HU. by apply I.
  - intros y j Hj. destruct (ci_held _ _ _ _ _ I y j Hj) as (H1 & H2 & H3 & H4).
    assert (y <> x) as Hne by by intros ->.
    unfold held_chunk. rewrite E1, HU, (Hy y Hne). split_and!; try done. by rewrite H4 at 1.
  - intros y Hyu%HU. destruct (decide (y = x)) as [->|Hne]; [by rewrite Hx'|].
    rewrite Hy by done. by apply (ci_whole _ _ _ _ _ I).
  - done.
  - eapply queue_frame; [apply I|done|]. intros c y _. symmetry. apply Hqv.
  - intros y. unfold rupd. destruct (decide _); [done|by eapply I].
  - intros y Hyu. destruct (decide (y = x)) as [->|Hne].
    + unfold live_item. rewrite Hx', E1, rupd_eq. unfold ITEM_clsid. simpl. rewrite Ec, Er.
      unfold ITEM_clsid in *. assert (nkey i = nkey (f i)) by (unfold kview in Ek; congruence).
      split_and!; first [done|lia|by eapply (item_ok_agree i)|eapply (in_chunk_agree _ i); [done|done|done|done|exact L10]].
    + pose proof (ci_live _ _ _ _ _ I y (proj1 (HU y) Hyu)) as Hly. unfold live_item in *.
      rewrite Hy, E1, rupd_ne by done. rewrite (Hl y Hne). exact Hly.
  - intros c y Hyq. apply HU. by eapply I.
  - done.
  - rewrite E4. f_equal. apply sum_ntotal_ext. intros y _. specialize (Hqv y). unfold qview in Hqv. congruence.
  - intros y. destruct (decide (y = x)) as [->|Hne]; [rewrite Hx'|rewrite Hy by done].
    + change (bytes_ok (body (f i))). injection Ek as _ ->. apply (ci_bodies _ _ _ _ _ I x).
    + apply (ci_bodies _ _ _ _ _ I y).
Qed.

(** *** Unlinking and linking *)

Lemma seti_seti h x f g : seti (seti h x f) x g = seti h x (fun i => g (f i)).
Proof.
  Local Transparent geti seti. unfold seti at 1 3. unfold geti, seti.
  rewrite lookup_insert_eq. simpl. by rewrite insert_insert_eq.
  Local Opaque geti seti.
Qed.

Lemma content_h_next v i : content (i <| h_next := v |>) = content i.
Proof. done. Qed.

Lemma content_clear f i : Z.land (255 - f) ITEM_CAS = ITEM_CAS -> content (clear_flag f i) = content i.
Proof. intros H. unfold content. by rewrite (has_clear_flag f ITEM_CAS i H). Qed.

Lemma content_set f i : Z.land f ITEM_CAS = 0 -> content (set_flag f i) = content i.
Proof. intros H. unfold content. by rewrite (has_set_flag f ITEM_CAS i H). Qed.

Lemma st_assoc_delete_eq m Q F refs s k x h l : core_inv m Q F refs s -> m !! k = Some x ->
  kview (geti h x) = kview (geti (mem s) x) -> table_rep hash h (asc s) m ->
  forall s1, mem s1 = h -> asc s1 = asc s -> lru s1 = l ->
  exists h' a', st_assoc_delete (body (geti h x)) (nkey (geti h x)) (khash hash k) s1 =
      Ok (tt, (with_mem s1 h') <| asc := a' |>) /\
    table_rep hash h' a' (delete k m) /\ relinked h h'.
Proof.
  intros I Hk Ekv Ht s1 <- Ea _. assert (item_ok (geti (mem s1) x)) as [Hb Hn].
  { eapply item_ok_agree; [symmetry; exact Ekv|]. eapply live_ok; [exact I|]. left. by exists k. }
  assert (take (Z.to_nat (nkey (geti (mem s1) x))) (body (geti (mem s1) x)) = k) as Ek.
  { change (ikey (mem s1) x = k). rewrite (ikey_agree _ (mem s) _ Ekv). by eapply inv_key. }
  destruct (table_delete hash (mem s1) (asc s) m (body (geti (mem s1) x)) (nkey (geti (mem s1) x)) x Ht Hn)
    as (h' & a' & E & R & Hr); [by rewrite Ek|].
  exists h', a'. split_and!; [|by rewrite <- Ek|done].
  unfold st_assoc_delete. rewrite Ea, <- Ek at 1. by rewrite E.
Qed.

Lemma inv_table_flags m Q F refs s x f : core_inv m Q F refs s -> h_next (f (geti (mem s) x)) = h_next (geti (mem s) x) ->
  kview (f (geti (mem s) x)) = kview (geti (mem s) x) -> table_rep hash (seti (mem s) x f) (asc s) m.
Proof.
  intros I H1 H2. eapply table_rep_frame; [apply I|]. intros k y Hy. rewrite geti_seti.
  destruct (table_item _ _ _ _ _ _ (ci_table _ _ _ _ _ I) Hy) as (_ & _ & _ & ?).
  split_and!; [..|by apply seti_dom]; destruct (decide (x = y)) as [->|]; done.
Qed.

Lemma do_item_unlink_inv m Q F refs s k x :
  store_inv m Q F refs s -> m !! k = Some x ->
  exists Q' F' s', do_item_unlink cfg x (khash hash k) s = Ok (tt, s') /\
    store_inv (delete k m) Q' F' refs s' /\ effect (used (delete k m) refs) s s' /\
    (forall c y, y ∈ Q' c -> y ∈ Q c).
Proof.
  intros [I HQ] Hk. assert (linked m x) as Hl by by exists k.
  pose proof (linked_used m refs x Hl) as Hx.
  pose proof (live_flags _ _ _ _ _ _ I Hx) as (Hsl & Hch & Hlk).
  pose proof (live_refcount _ _ _ _ _ _ I Hx) as Hrc. rewrite (proj2 Hlk Hl) in Hrc.
  pose proof (ci_refs _ _ _ _ _ I x) as Hr0.
  set (i := geti (mem s) x) in *.
  assert (has (clear_flag ITEM_LINKED i) ITEM_LINKED = false) as Hcl by by apply has_clear_same.
  unfold do_item_unlink. rewrite rd_bind. fold i. rewrite when_true by by apply Hlk.
  rewrite wr_bind, rd_bind. simpl mem. rewrite geti_seti_eq. fold i.
  unfold set_stats. rewrite modify_bind. unfold item_stats_sizes_remove.
  match goal with |- context [(stats_sizes_change _ _ ≫= _) ?s0] => set (s2 := s0) end.
  destruct (sizes_change_spec (-1) x s2) as (l2 & E2 & Hql). rewrite (M_bind_ok _ _ _ _ _ E2). clear E2.
  set (s3 := s2 <| lru := l2 |>).
  assert (mem s3 = seti (mem s) x (clear_flag ITEM_LINKED)) as Em3 by done.
  destruct (st_assoc_delete_eq m Q F refs s k x (mem s3) l2 I Hk) with (s1 := s3) as (h' & a' & E & R & Hrl); try done.
  { by rewrite Em3, geti_seti_eq. }
  { rewrite Em3. by eapply inv_table_flags. }
  rewrite Em3, geti_seti_eq in E. fold i in E.
  change (body (clear_flag ITEM_LINKED i)) with (body i) in *.
  change (nkey (clear_flag ITEM_LINKED i)) with (nkey i) in *.
  rewrite (M_bind_ok _ _ _ _ _ E). clear E. set (s4 := (with_mem s3 h') <| asc := a' |>).
  assert (~ linked (delete k m) x) as Hnl by (intros [_ ?]%(linked_delete _ _ _ _ _ _ _ _ I Hk); done).
  assert (core_inv (delete k m) Q F (rupd refs x (refs x + 1)) s4) as I4.
  { eapply (core_table_change m (delete k m) Q F refs _ s s4 _ x (clear_flag ITEM_LINKED) I Hx eq_refl Hrl);
      fold i; try done; rewrite ?Hcl; try lia.
    - by rewrite (has_clear_flag ITEM_LINKED ITEM_SLABBED i).
    - by rewrite (has_clear_flag ITEM_LINKED ITEM_CHUNKED i).
    - rewrite (has_clear_flag ITEM_LINKED ITEM_CHUNK i) by done. by apply I.
    - by rewrite (has_clear_flag ITEM_LINKED ITEM_CAS i).
    - by split.
    - right. rewrite rupd_eq. lia.
    - intros y Hne. rewrite linked_delete by done. tauto.
    - simpl. rewrite (ci_items _ _ _ _ _ I), wrap_sub_l, map_size_delete_Some by by exists x.
      f_equal. assert (size m <> 0%nat); [|lia]. intros E0%map_size_empty_iff. by rewrite E0 in Hk.
    - simpl. rewrite (ci_bytes _ _ _ _ _ I), wrap_sub_l, (table_items_delete _ _ _ Hk). f_equal.
      unfold sum_ntotal at 1. simpl. fold (sum_ntotal (mem s) (table_items (delete k m))). fold i.
      assert (ITEM_ntotal (clear_flag ITEM_LINKED i) = ITEM_ntotal i) as ->; [|lia].
      unfold ITEM_ntotal. by rewrite (has_clear_flag ITEM_LINKED ITEM_CAS i). }
  destruct (unlink_q_inv _ _ _ _ _ x I4) as (Q' & s5 & E5 & I5 & HQ' & HQs & Ef5 & _ & _).
  { by apply HQ. }
  unfold item_unlink_q. rewrite (M_bind_ok _ _ _ _ _ E5).
  destruct (do_item_remove_inv _ _ _ _ _ x I5) as (F' & s6 & E6 & I6 & Ef6 & _).
  { rewrite rupd_eq. lia. }
  { right. right. intros c Hc. by destruct (proj1 (HQ' x) (ex_intro _ c Hc)). }
  exists Q', F', s6. rewrite rupd_eq in *.
  assert (forall y, rupd (rupd refs x (refs x + 1)) x (refs x + 1 - 1) y = refs y) as Er
    by (intros y; rewrite rupd_rupd; apply rupd_id; lia).
  split_and!; [done| | |done].
  - split; [by eapply core_inv_ext|]. intros y. fold (queue_of Q' y).
    rewrite HQ', (linked_delete _ _ _ _ _ _ _ _ I Hk). unfold queue_of. by rewrite HQ.
  - assert (forall y, used (delete k m) refs y -> used (delete k m) (rupd refs x (refs x + 1)) y) as Hu.
    { intros y [Hy|Hy]; [by left|right]. unfold rupd. destruct (decide (y = x)) as [->|]; lia. }
    eapply (effect_trans (used (delete k m) refs)); [|eapply effect_weaken; [exact Ef6|]|done].
    + eapply (effect_trans (used (delete k m) refs) _ s s4); [|eapply effect_weaken; [exact Ef5|exact Hu]|done].
      split; [apply same_classes_refl| |done]. intros y _. change (mem s4) with h'.
      destruct (Hrl y) as [-> _]. rewrite Em3, geti_seti. rewrite content_h_next. destruct (decide (x = y)) as [<-|]; [|done].
      by apply content_clear.
    + intros y [Hy|Hy]; [by left|right]. by rewrite Er.
Qed.

Lemma unlinked_mask i : has i ITEM_LINKED = false -> has i ITEM_SLABBED = false ->
  Z.land (it_flags i) (Z.lor ITEM_LINKED ITEM_SLABBED) = 0.
Proof.
  unfold has. intros H1%bool_decide_eq_false H2%bool_decide_eq_false.
  rewrite Z.land_lor_distr_r. destruct (decide (Z.land (it_flags i) ITEM_LINKED = 0)) as [->|]; [|done].
  destruct (decide (Z.land (it_flags i) ITEM_SLABBED = 0)) as [->|]; done.
Qed.

(** The cas value an item is given. *)
Lemma set_new_cas_spec x s h f : mem s = seti h x f -> exists v l',
  set_new_cas cfg x s = Ok (tt, (with_mem s (seti h x (fun i => (f i) <| cas := v |>))) <| lru := l' |>) /\
  same_queues (lru s) l'.
Proof.
  intros E. unfold set_new_cas. rewrite rd_bind, E, geti_seti_eq. destruct (has (f (geti h x)) ITEM_CAS); simpl.
  - assert (exists c l', (if use_cas cfg then get_cas_id else mret 0) s = Ok (c, s <| lru := l' |>) /\
      same_queues (lru s) l') as (c & l' & E2 & Hq).
    { destruct (use_cas cfg).
      - unfold get_cas_id, set_lru. rewrite modify_bind. unfold gets. by eexists _, _.
      - exists 0, (lru s). split; [|done]. by destruct s. }
    exists c, l'. split; [|done]. rewrite (M_bind_ok _ _ _ _ _ E2). unfold wr, modify, with_mem.
    rewrite <- (seti_seti h x f (fun i => i <| cas := c |>)), <- E. by destruct s.
  - exists (cas (f (geti h x))), (lru s). split; [|done]. unfold mret, M_ret. do 2 f_equal.
    rewrite (seti_same h x _ f) by by destruct (f (geti h x)). rewrite <- E. by destruct s.
Qed.

(** The item as do_item_link leaves it in the table. *)
Definition link_item (t c : Z) (i : item) : item := (set_flag ITEM_LINKED i <| time := t |>) <| cas := c |>.

Lemma link_item_fields t c i : let j := link_item t c i in
  kview j = kview i /\ links j = links i /\ nbytes j = nbytes i /\ nsuffix j = nsuffix i /\
  refcount j = refcount i /\ Heap.slabs_clsid j = Heap.slabs_clsid i /\ h_next j = h_next i /\
  (forall f, Z.land ITEM_LINKED f = 0 -> has j f = has i f) /\ has j ITEM_LINKED = true /\
  content j = content i /\ ITEM_ntotal j = ITEM_ntotal i.
Proof.
  cbv zeta.
  assert (forall f, Z.land ITEM_LINKED f = 0 -> has (link_item t c i) f = has i f) as Hf.
  { intros f Hf. exact (has_set_flag ITEM_LINKED f i Hf). }
  split_and!; try done.
  - exact (has_set_same ITEM_LINKED i ltac:(done)).
  - unfold content. by rewrite (Hf ITEM_CAS).
  - unfold ITEM_ntotal. by rewrite (Hf ITEM_CAS).
Qed.

Lemma do_item_link_inv m Q F refs s x :
  store_inv m Q F refs s -> 0 < refs x -> refs x < 2 ^ 16 - 1 -> ~ linked m x -> m !! ikey (mem s) x = None ->
  exists Q' s', do_item_link cfg x (khash hash (ikey (mem s) x)) s = Ok (1, s') /\
    store_inv (<[ikey (mem s) x := x]> m) Q' F refs s' /\ effect (used m refs) s s'.
Proof.
  intros [I HQ] Hr Hb Hnl Hk. assert (used m refs x) as Hx by by right.
  set (k := ikey (mem s) x) in *.
  pose proof (live_flags _ _ _ _ _ _ I Hx) as (Hsl & Hch & Hlk).
  pose proof (live_refcount _ _ _ _ _ _ I Hx) as Hrc.
  assert (has (geti (mem s) x) ITEM_LINKED = false) as Hlf by (apply not_true_is_false; by rewrite Hlk).
  rewrite Hlf in Hrc. set (i := geti (mem s) x) in *.
  unfold do_item_link. rewrite rd_bind. fold i.
  rewrite massert_bind by (by apply bool_decide_eq_true, unlinked_mask).
  rewrite gets_bind, wr_bind, rd_bind. simpl mem. rewrite geti_seti_eq. fold i.
  unfold set_stats. rewrite modify_bind.
  match goal with |- context [(set_new_cas cfg x ≫= _) ?s0] => set (s2 := s0) end.
  destruct (set_new_cas_spec x s2 (mem s) _ eq_refl) as (c & l2 & E2 & Hq2).
  rewrite (M_bind_ok _ _ _ _ _ E2). clear E2. set (s3 := _ <| lru := l2 |>).
  destruct (link_item_fields (now s) c i) as (F1 & F2 & F3 & F4 & F5 & F6 & F7 & F8 & F9 & F10 & F11).
  assert (mem s3 = seti (mem s) x (link_item (now s) c)) as Em3 by done.
  assert (table_rep hash (mem s3) (asc s) m) as R3 by (rewrite Em3; by eapply inv_table_flags).
  assert (ikey (mem s3) x = k) as Ek by (apply ikey_agree; by rewrite Em3, geti_seti_eq).
  destruct (table_insert hash (mem s3) (asc s) m x R3) as (v & a' & E & R4).
  { pose proof (live_pos _ _ _ _ _ _ I Hx). lia. }
  { eapply item_ok_agree; [|eapply live_ok; [exact I|exact Hx]]. by rewrite Em3, geti_seti_eq. }
  { by rewrite Ek. }
  rewrite Ek in E, R4. set (h4 := seti (mem s3) x _) in *.
  set (s4 := (with_mem s3 h4) <| asc := a' |>).
  assert (st_assoc_insert x (khash hash k) s3 = Ok (1, s4)) as E4
    by (unfold st_assoc_insert; change (asc s3) with (asc s); by rewrite E).
  rewrite (M_bind_ok _ _ _ _ _ E4). clear E E4.
  assert (core_inv (<[k := x]> m) Q F (rupd refs x (refs x - 1)) s4) as I4.
  { eapply (core_table_change m _ Q F refs _ s s4 (mem s3) x (link_item (now s) c) I Hx Em3);
      fold i; try done; try lia.
    - apply relinked_seti.
    - by rewrite F8.
    - by rewrite F8.
    - rewrite F8 by done. by apply I.
    - by rewrite F8.
    - rewrite F9. split; [|done]. intros _. apply linked_insert; [done|by left].
    - rewrite F9. lia.
    - left. apply linked_insert; [done|by left].
    - intros y Hne. rewrite linked_insert by done. naive_solver.
    - simpl. rewrite (ci_items _ _ _ _ _ I). unfold inc64. rewrite wrap_add_l, map_size_insert_None by done.
      f_equal. lia.
    - simpl. rewrite (ci_bytes _ _ _ _ _ I), wrap_add_l, (table_items_insert _ _ _ Hk). f_equal.
      unfold sum_ntotal at 2. simpl. fold (sum_ntotal (mem s) (table_items m)). fold i.
      change (ITEM_ntotal _) with (ITEM_ntotal (set_flag ITEM_LINKED i)) at 1.
      assert (ITEM_ntotal (set_flag ITEM_LINKED i) = ITEM_ntotal i) as ->; [|lia].
      unfold ITEM_ntotal. by rewrite (has_set_flag ITEM_LINKED ITEM_CAS i). }
  assert (linked (<[k := x]> m) x) as Hl4 by (apply linked_insert; [done|by left]).
  assert (~ queue_of Q x) as Hnq by by intros ?%HQ.
  destruct (link_q_inv _ _ _ _ _ x I4 Hnq) as (Q' & s5 & E5 & I5 & HQ' & _ & Ef5 & _ & _); [by left|].
  unfold item_link_q. rewrite (M_bind_ok _ _ _ _ _ E5). clear E5.
  assert (used (<[k := x]> m) (rupd refs x (refs x - 1)) x) as Hx5 by by left.
  pose proof (live_refcount _ _ _ _ _ _ I5 Hx5) as Hrc5. rewrite rupd_eq in Hrc5.
  rewrite (M_bind_ok _ _ _ _ _ (refcount_incr_eq x s5)).
  destruct (bump_inv _ _ _ _ _ x 1 I5 Hx5) as [_ I6].
  { rewrite rupd_eq. lia. }
  { rewrite Hrc5. clear -Hb Hr. destruct (has _ ITEM_LINKED); lia. }
  { by left. }
  unfold item_stats_sizes_add. destruct (sizes_change_spec 1 x (bump x 1 s5)) as (l6 & E6 & Hq6).
  rewrite (M_bind_ok _ _ _ _ _ E6). exists Q', ((bump x 1 s5) <| lru := l6 |>).
  rewrite rupd_eq in I6. split; [done|]. split; [split|].
  - eapply (core_inv_ext _ _ _ (rupd (rupd refs x (refs x - 1)) x (refs x - 1 + 1))).
    { intros y. rewrite rupd_rupd. apply rupd_id. lia. }
    destruct I6. split; try done. eapply queue_frame; [exact ci_queue0|exact Hq6|done].
  - intros y. fold (queue_of Q' y). rewrite HQ', linked_insert by done. unfold queue_of. rewrite HQ. tauto.
  - eapply (effect_trans (used m refs) _ s s5); [|by eapply effect_seti|done].
    eapply (effect_trans (used m refs) _ s s4); [|eapply effect_weaken; [exact Ef5|]|done].
    + split; [apply same_classes_refl| |done]. intros y _. change (mem s4) with h4. unfold h4.
      rewrite geti_seti. destruct (decide (x = y)) as [<-|Hne].
      * by rewrite content_h_next, Em3, geti_seti_eq.
      * by rewrite Em3, geti_seti_ne.
    + intros y [Hy|Hy]; [left; apply linked_insert; [done|by right]|].
      destruct (decide (y = x)) as [->|Hne]; [by left|]. right. by rewrite rupd_ne.
Qed.

(** *** Moving an item between the queues *)

Lemma core_parts m Q F refs s s' : core_inv m Q F refs s -> same_parts s s' -> mem s' = mem s ->
  core_inv m Q F refs s'.
Proof.
  intros I (E1 & E2 & E3 & E4 & E5) E6. destruct I.
  split; rewrite <- ?E1, <- ?E2, <- ?E4, <- ?E5, ?E6; try done.
  - intros x j Hj. specialize (ci_held0 x j Hj). unfold held_chunk in *. by rewrite E6, <- E1.
  - eapply queue_frame; [exact ci_queue0|done|done].
  - intros x Hx. specialize (ci_live0 x Hx). unfold live_item in *. by rewrite E6, <- E1.
Qed.

Lemma effect_parts U s s' : slb s' = slb s -> same_env s s' -> mem s' = mem s -> effect U s s'.
Proof.
  intros E1 E2 E3. split; [rewrite E1; apply same_classes_refl| |done]. intros y _. by rewrite E3.
Qed.

Lemma ITEM_clsid_lru i w : Z.land w 63 = 0 -> forall j, Heap.slabs_clsid j = Z.lor (ITEM_clsid i) w ->
  ITEM_clsid j = ITEM_clsid i.
Proof.
  intros Hw j E. unfold ITEM_clsid at 1, clear. rewrite E. change (255 - 192) with 63.
  rewrite Z.land_lor_distr_l, Hw, Z.lor_0_r. unfold ITEM_clsid, clear.
  change (255 - 192) with 63. by rewrite <- Z.land_assoc.
Qed.

Lemma core_clsid m Q F refs s s' x f :
  core_inv m Q F refs s -> used m refs x -> ~ queue_of Q x -> same_parts s s' -> mem s' = seti (mem s) x f ->
  (forall i, f i = i <| Heap.slabs_clsid := Heap.slabs_clsid (f i) |>) ->
  ITEM_clsid (f (geti (mem s) x)) = ITEM_clsid (geti (mem s) x) ->
  core_inv m Q F refs s'.
Proof.
  intros I Hx Hq (E1 & E2 & E3 & E4 & E5) E6 Hf Hc.
  pose proof (ci_live _ _ _ _ _ I x Hx) as Hlx. pose proof Hlx as (_ & _ & HF & _).
  assert (forall y, y <> x -> geti (mem s') y = geti (mem s) y) as Hne
    by (intros y Hy; rewrite E6, geti_seti_ne; congruence).
  assert (forall y, kview (geti (mem s') y) = kview (geti (mem s) y) /\
    h_next (geti (mem s') y) = h_next (geti (mem s) y) /\ ITEM_ntotal (geti (mem s') y) = ITEM_ntotal (geti (mem s) y)) as Hag.
  { intros y. destruct (decide (y = x)) as [->|]; [|by rewrite Hne]. rewrite E6, geti_seti_eq, Hf. done. }
  split; rewrite <- ?E1, <- ?E2, <- ?E4, <- ?E5; try apply I.
  - eapply slab_inv_heap; [apply I|]. intros i y Hi Hy. apply Hne. intros ->. by apply (HF i).
  - intros y j Hj. destruct (ci_held _ _ _ _ _ I y j Hj) as (H1 & H2 & H3 & H4).
    unfold held_chunk. rewrite <- E1, Hne by by intros ->. done.
  - intros y Hy. destruct (decide (y = x)) as [->|Hyx]; [|rewrite Hne by done; by apply I].
    rewrite E6, geti_seti_eq, Hf. by apply (ci_whole _ _ _ _ _ I).
  - eapply table_rep_frame; [apply I|]. intros k y Hy. destruct (Hag y) as (-> & -> & _). split_and!; [done|done|].
    rewrite E6. apply seti_dom. by destruct (table_item _ _ _ _ _ _ (ci_table _ _ _ _ _ I) Hy) as (_ & _ & _ & ?).
  - eapply queue_frame; [apply I|done|]. intros c y Hy. rewrite Hne; [done|]. intros ->. apply Hq. by exists c.
  - intros y Hy. destruct (decide (y = x)) as [->|Hyx].
    + unfold live_item in *. rewrite <- E1. rewrite E6, geti_seti_eq. rewrite Hc, Hf. exact Hlx.
    + pose proof (ci_live _ _ _ _ _ I y Hy) as Hly. unfold live_item in *. by rewrite Hne, <- E1.
  - rewrite (ci_bytes _ _ _ _ _ I). f_equal. apply sum_ntotal_ext. intros y _. by destruct (Hag y) as (_ & _ & ->).
  - intros y. destruct (decide (y = x)) as [->|Hyx]; [|rewrite Hne by done; apply (ci_bodies _ _ _ _ _ I y)].
    rewrite E6, geti_seti_eq, Hf. apply (ci_bodies _ _ _ _ _ I x).
Qed.

(** The two assignments that move an item to the queue of another LRU, once it is
    out of its old queue. *)
Definition set_lru_of (w : Z) (x : Z) (s : st) : st :=
  with_mem s (seti (mem s) x (fun i => i <| Heap.slabs_clsid := Z.lor (ITEM_clsid i) w |>)).

Lemma set_lru_eq {B} w x (k : unit -> M st B) s :
  (wr x (fun i => i <| Heap.slabs_clsid := ITEM_clsid i |>) ≫= fun _ =>
   wr x (fun i => i <| Heap.slabs_clsid := Z.lor (Heap.slabs_clsid i) w |>) ≫= k) s =
  k tt (set_lru_of w x s).
Proof. rewrite !wr_bind. simpl mem. rewrite seti_seti. done. Qed.

Lemma set_lru_of_inv m Q F refs s x w : core_inv m Q F refs s -> used m refs x -> ~ queue_of Q x ->
  Z.land w 63 = 0 ->
  core_inv m Q F refs (set_lru_of w x s) /\ effect (used m refs) s (set_lru_of w x s).
Proof.
  intros I Hx Hq Hw. split.
  - eapply core_clsid; [exact I|exact Hx|done|by repeat split|reflexivity|done|]. by apply (ITEM_clsid_lru _ w Hw).
  - by eapply effect_seti.
Qed.

Lemma core_view_active i : core_view (clear_flag ITEM_ACTIVE i) = core_view i.
Proof. unfold core_view, clear_flag, clear. simpl. rewrite <- Z.land_assoc. done. Qed.

Lemma core_view_set f i : Z.land f 103 = 0 -> core_view (set_flag f i) = core_view i.
Proof. intros H. unfold core_view, set_flag. simpl. by rewrite Z.land_lor_distr_l, H, Z.lor_0_r. Qed.

(** Assignments to fields outside [core_view]. *)
Lemma view_wr m Q F refs s x f : core_inv m Q F refs s -> used m refs x ->
  core_view (f (geti (mem s) x)) = core_view (geti (mem s) x) ->
  core_inv m Q F refs (with_mem s (seti (mem s) x f)) /\
  effect (used m refs) s (with_mem s (seti (mem s) x f)).
Proof.
  intros I Hx H. split.
  - eapply core_wr; [done|done| |done|done]. by repeat split.
  - eapply effect_seti; try done. by apply core_view_content.
Qed.

Lemma store_core m Q F refs s s' : store_inv m Q F refs s -> core_inv m Q F refs s' -> store_inv m Q F refs s'.
Proof. by intros [_ H]. Qed.

Lemma linked_used_queue m Q F refs s x : store_inv m Q F refs s -> used m refs x ->
  has (geti (mem s) x) ITEM_LINKED = true -> linked m x /\ queue_of Q x.
Proof.
  intros [I HQ] Hx Hl. apply (live_flags _ _ _ _ _ _ I Hx) in Hl. split; [done|]. by apply HQ.
Qed.

Lemma relink_store m Q Q' Q'' F refs s s' x : store_inv m Q F refs s -> linked m x ->
  (forall y, queue_of Q' y <-> queue_of Q y /\ y <> x) ->
  (forall y, queue_of Q'' y <-> queue_of Q' y \/ y = x) ->
  core_inv m Q'' F refs s' -> store_inv m Q'' F refs s'.
Proof.
  intros [_ HQ] Hl H1 H2 I. split; [done|]. intros y. fold (queue_of Q'' y). rewrite H2, H1.
  unfold queue_of. rewrite HQ. destruct (decide (y = x)) as [->|]; tauto.
Qed.

(** *** Operations that keep the table and the references *)

Definition stays (m : gmap (list Z) Z) (refs : Z -> Z) (s s' : st) : Prop :=
  (exists Q F, store_inv m Q F refs s') /\ effect (used m refs) s s'.

Lemma stays_trans m refs s1 s2 s3 : stays m refs s1 s2 -> stays m refs s2 s3 -> stays m refs s1 s3.
Proof. intros [_ E1] [H E2]. split; [done|]. by eapply effect_trans. Qed.

Lemma stays_parts m Q F refs s s' : store_inv m Q F refs s -> same_parts s s' -> mem s' = mem s ->
  same_env s s' -> stays m refs s s'.
Proof.
  intros [I HQ] Hp Hm Hn. split.
  - exists Q, F. split; [|done]. by eapply core_parts.
  - apply effect_parts; [|done|done]. symmetry. apply Hp.
Qed.

Lemma stays_view m Q F refs s x f : store_inv m Q F refs s -> used m refs x ->
  core_view (f (geti (mem s) x)) = core_view (geti (mem s) x) ->
  stays m refs s (with_mem s (seti (mem s) x f)).
Proof.
  intros [I HQ] Hx Hv. destruct (view_wr _ _ _ _ _ _ f I Hx Hv) as [I' E'].
  split; [|done]. by exists Q, F.
Qed.

(** [m]: a computation that runs, and keeps the invariant. *)
Definition steady (m : gmap (list Z) Z) (refs : Z -> Z) (op : M st unit) : Prop :=
  forall Q F s, store_inv m Q F refs s -> exists s', op s = Ok (tt, s') /\ stays m refs s s'.

Lemma steady_bind m refs op1 (op2 : unit -> M st unit) : steady m refs op1 -> steady m refs (op2 tt) ->
  steady m refs (op1 ≫= op2).
Proof.
  intros H1 H2 Q F s I. destruct (H1 Q F s I) as (s1 & E1 & S1). rewrite (M_bind_ok _ _ _ _ _ E1).
  pose proof S1 as [(Q1 & F1 & I1) _]. destruct (H2 Q1 F1 s1 I1) as (s2 & E2 & S2). exists s2.
  split; [done|]. by eapply stays_trans.
Qed.

Lemma steady_when m refs b op : (b = true -> steady m refs op) -> steady m refs (when b op).
Proof.
  intros H. destruct b; [by apply H|]. intros Q F s I. exists s. split; [done|].
  split; [by exists Q, F|apply effect_refl].
Qed.

Lemma steady_ret m refs : steady m refs (mret tt).
Proof. exact (steady_when m refs false (mret tt) ltac:(done)). Qed.

Lemma steady_wr m refs x f : used m refs x -> (forall i, core_view (f i) = core_view i) -> steady m refs (wr x f).
Proof.
  intros Hx Hf Q F s I. eexists. split; [reflexivity|]. eapply stays_view; [exact I|done|apply Hf].
Qed.

Lemma steady_modify m refs f : (forall s, same_parts s (f s) /\ mem (f s) = mem s /\ same_env s (f s)) ->
  steady m refs (modify f).
Proof.
  intros Hf Q F s I. destruct (Hf s) as (H1 & H2 & H3). eexists. split; [reflexivity|].
  by eapply stays_parts.
Qed.

Lemma steady_istat m refs id f : steady m refs (set_istat id f).
Proof. apply steady_modify. intros s. by repeat split. Qed.

Lemma steady_thr m refs f : steady m refs (set_thr f).
Proof. apply steady_modify. intros s. by repeat split. Qed.

(** do_item_unlink_q, then writes that keep the item's class, then do_item_link_q *)
Lemma steady_requeue m refs x (upd : M st unit) :
  linked m x ->
  (forall Q F s, core_inv m Q F refs s -> ~ queue_of Q x ->
     exists s', upd s = Ok (tt, s') /\ core_inv m Q F refs s' /\ effect (used m refs) s s') ->
  steady m refs (do_item_unlink_q x;; upd;; do_item_link_q x).
Proof.
  intros Hl Hu Q F s I. pose proof I as [Ic HQ].
  destruct (unlink_q_inv _ _ _ _ _ x Ic) as (Q1 & s1 & E1 & I1 & HQ1 & _ & Ef1 & _); [by apply HQ|].
  rewrite (M_bind_ok _ _ _ _ _ E1).
  assert (~ queue_of Q1 x) as Hn by (rewrite HQ1; tauto).
  destruct (Hu Q1 F s1 I1 Hn) as (s2 & E2 & I2 & Ef2). rewrite (M_bind_ok _ _ _ _ _ E2).
  destruct (link_q_inv _ _ _ _ _ x I2 Hn) as (Q3 & s3 & E3 & I3 & HQ3 & _ & Ef3 & _); [by left|].
  exists s3. split; [done|]. split.
  - exists Q3, F. by eapply relink_store.
  - eapply effect_trans; [eapply effect_trans; [exact Ef1|exact Ef2|done]|exact Ef3|done].
Qed.

Lemma do_item_update_nolock_steady m refs x : used m refs x -> steady m refs (do_item_update_nolock x).
Proof.
  intros Hx Q F s I. pose proof I as [Ic _].
  pose proof (live_flags _ _ _ _ _ _ Ic Hx) as (Hsl & _ & Hlk).
  unfold do_item_update_nolock. rewrite rd_bind, gets_bind.
  set (b := bool_decide _). assert (steady m refs (when b (when (has (geti (mem s) x) ITEM_LINKED)
    (do_item_unlink_q x;; wr x (fun i => i <| time := now s |>);; do_item_link_q x)))) as H.
  { apply steady_when. intros _. apply steady_when. intros Hl%Hlk. apply steady_requeue; [done|].
    intros Q1 F1 s1 I1 _. eexists. split; [reflexivity|]. by eapply view_wr. }
  destruct b; [|by apply H in I]. simpl. rewrite massert_bind by (by rewrite Hsl). by apply H in I.
Qed.

Lemma steady_link_q_warm m refs x (upd : M st unit) :
  steady m refs (do_item_unlink_q x;; upd;; do_item_link_q x) ->
  steady m refs (do_item_unlink_q x;; upd;; item_link_q_warm x).
Proof.
  intros H Q F s I. unfold item_link_q_warm.
  destruct (H Q F s I) as (s' & E & S). pose proof S as [(Q' & F' & I') _].
  destruct (steady_istat m refs (Heap.slabs_clsid (geti (mem s') x)) (fun y => y <| moves_to_warm ::= inc64 |>)
    Q' F' s' I') as (s2 & E2 & S2).
  exists s2. split; [|by eapply stays_trans]. revert E. unfold mbind, M_bind.
  destruct (do_item_unlink_q x s) as [[[] t1]| |]; try done.
  destruct (upd t1) as [[[] t2]| |]; try done. intros ->. exact E2.
Qed.

Lemma do_item_update_steady m refs x : used m refs x -> steady m refs (do_item_update cfg x).
Proof.
  intros Hx Q F s I. pose proof I as [Ic _].
  pose proof (live_flags _ _ _ _ _ _ Ic Hx) as (Hsl & _ & Hlk).
  unfold do_item_update. rewrite rd_bind, gets_bind. set (t := now s). set (i := geti (mem s) x) in *.
  assert (steady m refs (wr x (fun i => i <| time := t |>))) as Ht by (by apply steady_wr).
  assert (linked m x -> steady m refs (do_item_unlink_q x;; mret tt;; do_item_link_q x)) as Hrq.
  { intros Hl. apply steady_requeue; [done|]. intros Q1 F1 s1 I1 _. exists s1.
    split_and!; [done|done|apply effect_refl]. }
  destruct (lru_segmented cfg).
  - rewrite massert_bind by (by rewrite Hsl).
    enough (steady m refs (when (has i ITEM_LINKED) (if bool_decide (ITEM_lruid i = COLD_LRU) && has i ITEM_ACTIVE then
         wr x (fun i => i <| time := t |>);;
         do_item_unlink_q x;;
         (wr x (fun i => i <| Heap.slabs_clsid := ITEM_clsid i |>);;
         wr x (fun i => i <| Heap.slabs_clsid := Z.lor (Heap.slabs_clsid i) WARM_LRU |>);;
         wr x (clear_flag ITEM_ACTIVE));;
         item_link_q_warm x
       else when (bool_decide (time i < u32 (t - ITEM_UPDATE_INTERVAL)))
         (wr x (fun i => i <| time := t |>))))) as H.
    { destruct (H Q F s I) as (s' & E & S). exists s'. split; [|done]. rewrite <- E. by destruct (has i ITEM_LINKED), (_ && _). }
    apply steady_when. intros Hl%Hlk. destruct (_ && _); [|by apply steady_when].
    apply steady_bind; [done|]. apply steady_link_q_warm, steady_requeue; [done|].
    intros Q1 F1 s1 I1 Hq1.
    destruct (set_lru_of_inv _ _ _ _ _ x WARM_LRU I1 Hx Hq1 ltac:(done)) as [I2 E2].
    destruct (view_wr _ _ _ _ _ x (clear_flag ITEM_ACTIVE) I2 Hx (core_view_active _)) as [I3 E3].
    eexists. split_and!; [|exact I3|by eapply effect_trans].
    rewrite (set_lru_eq WARM_LRU x (fun _ => wr x (clear_flag ITEM_ACTIVE))). done.
  - enough (steady m refs (when (bool_decide (time i < u32 (t - ITEM_UPDATE_INTERVAL)))
      (when (has i ITEM_LINKED) (wr x (fun i => i <| time := t |>);;
        (do_item_unlink_q x;; mret tt;; do_item_link_q x))))) as H.
    { destruct (H Q F s I) as (s' & E & S). exists s'. split; [|done]. rewrite <- E.
      destruct (bool_decide _); [|done]. simpl. by rewrite massert_bind by (by rewrite Hsl). }
    apply steady_when. intros _. apply steady_when. intros Hl%Hlk. apply steady_bind; [done|]. by apply Hrq.
Qed.

(** *** Lookups *)

(** A reference taken and given back. *)
Lemma bump_twice m Q F refs s x : store_inv m Q F refs s -> used m refs x -> refs x < 2 ^ 16 - 4 ->
  store_inv m Q F (rupd refs x (refs x + 1)) (bump x 1 s) /\ effect (used m refs) s (bump x 1 s) /\
  (forall s2 Q2 F2, store_inv m Q2 F2 (rupd refs x (refs x + 1)) s2 ->
     stays m refs s2 (bump x (-1) s2)).
Proof.
  intros [I HQ] Hx Hb. pose proof (ci_refs _ _ _ _ _ I x) as Hr0.
  pose proof (live_refcount _ _ _ _ _ _ I Hx) as Hrc.
  destruct (bump_inv _ _ _ _ _ x 1 I Hx) as [_ I1]; [lia| |by right; lia|].
  { rewrite Hrc. clear -Hb. destruct (has _ ITEM_LINKED); lia. }
  split; [by split|]. split; [by eapply effect_seti|]. intros s2 Q2 F2 [I2 HQ2].
  assert (used m (rupd refs x (refs x + 1)) x) as Hx2 by (right; rewrite rupd_eq; lia).
  pose proof (ci_live _ _ _ _ _ I2 x Hx2) as (_ & _ & _ & _ & _ & _ & _ & Hlt & _).
  destruct (bump_inv _ _ _ _ _ x (-1) I2 Hx2) as [_ I3]; rewrite ?rupd_eq; [lia|lia| |].
  { destruct Hx; [by left|right; lia]. }
  split.
  - exists Q2, F2. split; [|done]. eapply core_inv_ext; [|exact I3]. intros y. rewrite rupd_eq, rupd_rupd.
    apply rupd_id. lia.
  - by eapply effect_seti.
Qed.

Lemma lru_bump_async_spec m Q F refs s x hv : store_inv m Q F refs s -> used m refs x ->
  refs x < 2 ^ 16 - 4 -> exists s', lru_bump_async x hv s = Ok (false, s') /\ stays m refs s s'.
Proof.
  intros I Hx Hb. destruct (bump_twice _ _ _ _ _ _ I Hx Hb) as (I1 & E1 & Hback).
  unfold lru_bump_async. rewrite (M_bind_ok _ _ _ _ _ (refcount_incr_eq x s)), gets_bind.
  set (s1 := bump x 1 s) in *.
  assert (steady m (rupd refs x (refs x + 1))
    (match bipbuf_request (bump_buf (thr s1)) sizeof_lru_bump_entry with
     | Some be =>
         let b := (bump_buf (thr s1)) <| bdata ::= fun d => write_bytes d (Z.to_nat be) (bump_entry x hv) |> in
         let '(pushed, b) := bipbuf_push b sizeof_lru_bump_entry in
         set_thr (fun t => t <| bump_buf := b |>);;
         when (bool_decide (pushed = 0)) (set_thr (fun t => t <| dropped ::= inc64 |>))
     | None => set_thr (fun t => t <| dropped ::= inc64 |>)
     end)) as Hs.
  { destruct (bipbuf_request _ _); [|apply steady_thr]. cbv zeta. destruct (bipbuf_push _ _).
    apply steady_bind; [apply steady_thr|]. apply steady_when. intros _. apply steady_thr. }
  destruct (Hs Q F s1 I1) as (s2 & E2 & (Q2 & F2 & I2) & Ef2).
  rewrite (M_bind_ok _ _ _ _ _ E2), (M_bind_ok _ _ _ _ _ (refcount_decr_eq x s2)).
  exists (bump x (-1) s2). split; [done|]. destruct (Hback s2 Q2 F2 I2) as (Hst & Ef3). split; [done|].
  eapply effect_trans; [exact E1| |done]. eapply effect_trans; [|exact Ef3|done].
  eapply effect_weaken; [exact Ef2|]. intros y [Hy|Hy]; [by left|right]. unfold rupd.
  destruct (decide (y = x)); subst; lia.
Qed.

Lemma mark_hit_steady m refs x hv : used m refs x -> refs x < 2 ^ 16 - 4 -> steady m refs (mark_hit cfg x hv).
Proof.
  intros Hx Hb Q F s I. unfold mark_hit. rewrite rd_bind. set (i := geti (mem s) x).
  assert (forall f, Z.land f 103 = 0 -> steady m refs (wr x (set_flag f))) as Hf
    by (intros f Hf; apply steady_wr; [done|]; intros j; by apply core_view_set).
  destruct (lru_segmented cfg).
  - enough (steady m refs (when (negb (has i ITEM_ACTIVE))
      (if has i ITEM_FETCHED then
         wr x (set_flag ITEM_ACTIVE);;
         if decide (ITEM_lruid i <> COLD_LRU) then do_item_update cfg x
         else
           ret ← lru_bump_async x hv;
           when (negb ret) (wr x (clear_flag ITEM_ACTIVE))
       else wr x (set_flag ITEM_FETCHED)))) as H by exact (H Q F s I).
    apply steady_when. intros _. destruct (has i ITEM_FETCHED); [|by apply Hf].
    apply steady_bind; [by apply Hf|]. destruct (decide _); [by apply do_item_update_steady|].
    intros Q1 F1 s1 I1. destruct (lru_bump_async_spec _ _ _ _ _ x hv I1 Hx Hb) as (s2 & E2 & S2).
    rewrite (M_bind_ok _ _ _ _ _ E2). simpl. pose proof S2 as [(Q2 & F2 & I2) _].
    destruct (steady_wr m refs x (clear_flag ITEM_ACTIVE) Hx core_view_active Q2 F2 s2 I2) as (s3 & E3 & S3).
    exists s3. split; [exact E3|]. by eapply stays_trans.
  - exact (steady_bind m refs (wr x (set_flag ITEM_FETCHED)) (fun _ => do_item_update cfg x)
      (Hf ITEM_FETCHED eq_refl) (do_item_update_steady m refs x Hx) Q F s I).
Qed.

(** Expired at [t], or flushed. *)
Definition item_dead (i : item) (t : Z) : bool :=
  item_is_flushed cfg i t || bool_decide (exptime i <> 0 /\ exptime i <= t).

Definition get_answer (m : gmap (list Z) Z) (refs : Z -> Z) (s : st) (k : list Z) :
    Z * gmap (list Z) Z * (Z -> Z) :=
  match m !! k with
  | None => (0, m, refs)
  | Some x => if item_dead (geti (mem s) x) (now s) then (0, delete k m, refs)
              else (x, m, rupd refs x (refs x + 1))
  end.

(** What an operation does: the result, and the table and references after. *)
Definition does {A} (op : M st A) (s : st) (a : A) (m' : gmap (list Z) Z) (refs' : Z -> Z) : Prop :=
  exists Q' F' s', op s = Ok (a, s') /\ store_inv m' Q' F' refs' s' /\ effect (used m' refs') s s'.

Lemma unlink_and_remove m Q F refs s k x :
  store_inv m Q F (rupd refs x (refs x + 1)) s -> m !! k = Some x -> 0 <= refs x ->
  does (do_item_unlink cfg x (khash hash k);; do_item_remove cfg x) s tt (delete k m) refs.
Proof.
  intros I Hk Hr. destruct (do_item_unlink_inv _ _ _ _ _ _ _ I Hk) as (Q1 & F1 & s1 & E1 & [I1 HQ1] & Ef1 & _).
  destruct (do_item_remove_inv _ _ _ _ _ x I1) as (F2 & s2 & E2 & I2 & Ef2 & _).
  { rewrite rupd_eq. lia. }
  { right. right. intros c Hc. assert (linked (delete k m) x) as Hl by (apply HQ1; by exists c).
    destruct I as [I _]. by apply (linked_delete _ _ _ _ _ _ _ _ I Hk) in Hl as [_ ?]. }
  rewrite rupd_eq in *. exists Q1, F2, s2. split; [by rewrite (M_bind_ok _ _ _ _ _ E1)|].
  assert (forall y, rupd (rupd refs x (refs x + 1)) x (refs x + 1 - 1) y = refs y) as Er
    by (intros y; rewrite rupd_rupd; apply rupd_id; lia).
  split; [split; [by eapply core_inv_ext|done]|].
  assert (forall y, used (delete k m) refs y -> used (delete k m) (rupd refs x (refs x + 1)) y) as Hu.
  { intros y [Hy|Hy]; [by left|right]. unfold rupd. destruct (decide (y = x)); subst; lia. }
  eapply effect_trans; [exact Ef1|eapply effect_weaken; [exact Ef2|]|exact Hu].
  intros y [Hy|Hy]; [by left|right; by rewrite Er].
Qed.

Lemma does_bind {A B} (op1 : M st A) (op2 : A -> M st B) s a m1 refs1 b m2 refs2 :
  does op1 s a m1 refs1 ->
  (forall Q F s1, store_inv m1 Q F refs1 s1 -> effect (used m1 refs1) s s1 -> op1 s = Ok (a, s1) ->
     does (op2 a) s1 b m2 refs2) ->
  (forall y, used m2 refs2 y -> used m1 refs1 y) ->
  does (op1 ≫= op2) s b m2 refs2.
Proof.
  intros (Q1 & F1 & s1 & E1 & I1 & Ef1) H Hu. destruct (H Q1 F1 s1 I1 Ef1 E1) as (Q2 & F2 & s2 & E2 & I2 & Ef2).
  exists Q2, F2, s2. split; [by rewrite (M_bind_ok _ _ _ _ _ E1)|]. split; [done|]. by eapply effect_trans.
Qed.

Lemma steady_does m Q F refs op s : steady m refs op -> store_inv m Q F refs s -> does op s tt m refs.
Proof. intros H I. destruct (H Q F s I) as (s' & E & (Q' & F' & I') & Ef). by exists Q', F', s'. Qed.

Lemma does_ret {A} (a : A) m Q F refs s : store_inv m Q F refs s -> does (mret a) s a m refs.
Proof. intros I. exists Q, F, s. split; [done|]. split; [done|apply effect_refl]. Qed.

Lemma seq_assoc {A B C} (a : M st A) (b : M st B) (c : M st C) s : (a;; b;; c) s = ((a;; b);; c) s.
Proof. symmetry. apply (bind_assoc a (fun _ => b) (fun _ => c)). Qed.

Lemma does_eq {A} (op1 op2 : M st A) s1 s2 a m refs : op1 s1 = op2 s2 ->
  effect (used m refs) s1 s2 -> does op2 s2 a m refs -> does op1 s1 a m refs.
Proof.
  intros E Ef (Q & F & s' & E' & I & Ef'). exists Q, F, s'. split; [by rewrite E|]. split; [done|].
  by eapply effect_trans.
Qed.

Lemma get_dead m Q F refs s k x f :
  store_inv m Q F (rupd refs x (refs x + 1)) s -> m !! k = Some x -> 0 <= refs x ->
  does (do_item_unlink cfg x (khash hash k);; do_item_remove cfg x;; set_thr f;; mret 0) s 0 (delete k m) refs.
Proof.
  intros I Hk Hr. eapply does_eq; [apply seq_assoc|apply effect_refl|].
  eapply does_bind; [by eapply unlink_and_remove| |done]. intros Q1 F1 s1 I1 _ _.
  eapply does_bind; [apply (steady_does _ Q1 F1); [apply steady_thr|done]| |done].
  intros Q2 F2 s2 I2 _ _. by eapply does_ret.
Qed.

Lemma do_item_get_does m Q F refs s key nk upd :
  store_inv m Q F refs s -> bytes_ok key -> 0 <= nk <= Z.of_nat (length key) -> refs_bounded refs ->
  let '(r, m', refs') := get_answer m refs s (take (Z.to_nat nk) key) in
  does (do_item_get cfg key nk (hash 0 key (Z.to_nat nk)) upd) s r m' refs'.
Proof.
  intros I Hb Hn Hbd. pose proof I as [Ic HQ]. set (k := take (Z.to_nat nk) key).
  rewrite (caller_hash_key hash key nk Hb Hn). fold k.
  assert (st_assoc_find key nk (khash hash k) s = Ok (default 0 (m !! k), s)) as Ef.
  { unfold st_assoc_find, k. by rewrite (table_find hash _ _ m key nk (ci_table _ _ _ _ _ Ic) Hn). }
  unfold get_answer. destruct (m !! k) as [x|] eqn:Hk.
  2:{ exists Q, F, s. split; [|split; [done|apply effect_refl]].
      unfold do_item_get. by rewrite (M_bind_ok _ _ _ _ _ Ef). }
  assert (linked m x) as Hl by by exists k. pose proof (linked_used m refs x Hl) as Hx.
  pose proof (live_pos _ _ _ _ _ _ Ic Hx) as Hx0. pose proof (ci_refs _ _ _ _ _ Ic x) as Hr0.
  assert (refs x < 2 ^ 16 - 8) as Hbx by apply Hbd.
  destruct (bump_twice _ _ _ _ _ _ I Hx ltac:(lia)) as (I1 & E1 & _).
  assert (do_item_get cfg key nk (khash hash k) upd s =
    (if item_is_flushed cfg (geti (mem s) x) (now s) then
      (do_item_unlink cfg x (khash hash k);; do_item_remove cfg x;;
       set_thr (fun x => x <| get_flushed ::= inc64 |>);; mret 0)
    else if decide (exptime (geti (mem s) x) <> 0 /\ exptime (geti (mem s) x) <= now s) then
      (do_item_unlink cfg x (khash hash k);; do_item_remove cfg x;;
       set_thr (fun x => x <| get_expired ::= inc64 |>);; mret 0)
    else (when upd (mark_hit cfg x (khash hash k));; mret x)) (bump x 1 s)) as E.
  { unfold do_item_get. rewrite (M_bind_ok _ _ _ _ _ Ef). simpl. rewrite decide_False by lia.
    rewrite (M_bind_ok _ _ _ _ _ (refcount_incr_eq x s)), rd_bind, gets_bind.
    assert (geti (mem (bump x 1 s)) x = (geti (mem s) x) <| refcount := u16 (refcount (geti (mem s) x) + 1) |>)
      as -> by exact (geti_seti_eq _ _ _). done. }
  unfold item_dead. destruct (item_is_flushed _ _ _); simpl.
  { eapply does_eq; [exact E| |by eapply get_dead]. eapply effect_seti; done. }
  destruct (decide _) as [Hd|Hd].
  { rewrite bool_decide_true by done. eapply does_eq; [exact E| |by eapply get_dead]. by eapply effect_seti. }
  rewrite bool_decide_false by done. eapply does_eq; [exact E|by eapply effect_seti|].
  eapply does_bind; [|intros Q1 F1 s1 I1' _ _; by eapply does_ret|done].
  eapply steady_does; [|exact I1]. apply steady_when. intros _. apply mark_hit_steady.
  - by left.
  - rewrite rupd_eq. lia.
Qed.

Lemma do_item_touch_does m Q F refs s key nk t :
  store_inv m Q F refs s -> bytes_ok key -> 0 <= nk <= Z.of_nat (length key) -> refs_bounded refs ->
  let '(r, m', refs') := get_answer m refs s (take (Z.to_nat nk) key) in
  does (do_item_touch cfg key nk t (hash 0 key (Z.to_nat nk))) s r m' refs'.
Proof.
  intros I Hb Hn Hbd. pose proof (do_item_get_does _ _ _ _ _ _ _ true I Hb Hn Hbd) as H.
  destruct (get_answer _ _ _ _) as [[r m'] refs'] eqn:E.
  unfold do_item_touch. eapply does_bind; [exact H| |done]. intros Q1 F1 s1 I1 _ _.
  eapply does_bind; [|intros Q2 F2 s2 I2 _ _; by eapply does_ret|done].
  eapply steady_does; [|exact I1]. apply steady_when. intros Hr%bool_decide_eq_true.
  apply steady_wr; [|done].
  revert E. unfold get_answer. destruct (m !! _) as [x|] eqn:Ek; [|intros [= <- <- <-]; done].
  destruct (item_dead _ _); intros [= <- <- <-]; [done|]. left. by eexists.
Qed.

Lemma do_item_unlink_does m Q F refs s x hv : store_inv m Q F refs s -> used m refs x ->
  hv = khash hash (ikey (mem s) x) ->
  does (do_item_unlink cfg x hv) s tt
    (if has (geti (mem s) x) ITEM_LINKED then delete (ikey (mem s) x) m else m) refs.
Proof.
  intros I Hx ->. pose proof I as [Ic HQ]. destruct (has (geti (mem s) x) ITEM_LINKED) eqn:E.
  - apply (live_flags _ _ _ _ _ _ Ic Hx) in E. pose proof (linked_key _ _ _ _ _ _ Ic E) as Hk.
    destruct (do_item_unlink_inv _ _ _ _ _ _ _ I Hk) as (Q' & F' & s' & ? & ? & ? & _).
    by exists Q', F', s'.
  - exists Q, F, s. split; [|split; [done|apply effect_refl]]. unfold do_item_unlink.
    by rewrite rd_bind, when_false.
Qed.

Lemma do_item_link_does m Q F refs s x hv : store_inv m Q F refs s -> 0 < refs x -> refs_bounded refs ->
  ~ linked m x -> m !! ikey (mem s) x = None -> hv = khash hash (ikey (mem s) x) ->
  does (do_item_link cfg x hv) s 1 (<[ikey (mem s) x := x]> m) refs.
Proof.
  intros I Hr Hb Hl Hk ->. specialize (Hb x).
  destruct (do_item_link_inv _ _ _ _ _ x I Hr ltac:(lia) Hl Hk) as (Q' & s' & E & I' & Ef).
  exists Q', F, s'. split; [done|]. split; [done|]. eapply effect_weaken; [exact Ef|].
  intros y [Hy|Hy]; [|by right]. apply linked_insert in Hy as [->|Hy]; [by right|by left|done].
Qed.

Lemma do_item_remove_does m Q F refs s x : store_inv m Q F refs s -> 0 < refs x ->
  does (do_item_remove cfg x) s tt m (rupd refs x (refs x - 1)).
Proof.
  intros [I HQ] Hr. assert (linked m x \/ ~ linked m x) as Hl.
  { pose proof (live_flags _ _ _ _ _ _ I (or_intror Hr)) as (_ & _ & H).
    destruct (has _ ITEM_LINKED); [left; by apply H|right; by intros ?%H]. }
  destruct (do_item_remove_inv _ _ _ _ _ x I Hr) as (F' & s' & E & I' & Ef & El & _).
  { destruct Hl as [Hl|Hl]; [by left|right; right]. intros c Hc. apply Hl, HQ. by exists c. }
  by exists Q, F', s'.
Qed.

Lemma keeps_key (U : Z -> Prop) s s' x : keeps U s s' -> U x -> ikey (mem s') x = ikey (mem s) x.
Proof. intros H Hx. apply ikey_agree. specialize (H x Hx). unfold content in H. congruence. Qed.

Lemma do_item_replace_does m Q F refs s x y hv : store_inv m Q F refs s -> linked m x ->
  0 < refs y -> refs_bounded refs -> ~ linked m y -> ikey (mem s) y = ikey (mem s) x ->
  hv = khash hash (ikey (mem s) x) ->
  does (do_item_replace cfg x y hv) s 1 (<[ikey (mem s) x := y]> m) refs.
Proof.
  intros I Hl Hy Hb Hny Ek ->. pose proof I as [Ic _]. set (k := ikey (mem s) x) in *.
  pose proof (linked_key _ _ _ _ _ _ Ic Hl) as Hk. fold k in Hk.
  unfold do_item_replace. rewrite <- (insert_delete_eq m k y).
  eapply does_eq; [|apply effect_refl|].
  { rewrite rd_bind, massert_bind; [reflexivity|]. by destruct (live_flags _ _ _ _ _ _ Ic (or_introl Hl)) as (-> & _). }
  eapply does_bind.
  - eapply do_item_unlink_does; [exact I|by left|done].
  - cbv beta. rewrite (proj2 (proj2 (proj2 (live_flags _ _ _ _ _ _ Ic (or_introl Hl)))) Hl).
    fold k. intros Q1 F1 s1 I1 Ef1 _. pose proof (keeps_key _ _ _ y (ef_keeps _ _ _ Ef1) (or_intror Hy)) as Ey.
    rewrite Ek in Ey. rewrite <- Ey.
    eapply do_item_link_does; try done; rewrite ?Ey.
    + exact I1.
    + intros Hly. apply Hny. by apply (linked_delete _ _ _ _ _ _ _ _ Ic Hk) in Hly as [? _].
    + apply lookup_delete_eq.
  - intros z [Hz|Hz]; [|by right]. cbv beta.
    rewrite (proj2 (proj2 (proj2 (live_flags _ _ _ _ _ _ Ic (or_introl Hl)))) Hl). fold k.
    apply linked_insert in Hz; [|apply lookup_delete_eq]. destruct Hz as [->|Hz]; [by right|by left].
Qed.

(** ** Eviction *)

Lemma trylock_keeps m Q F refs s : store_inv m Q F refs s ->
  exists got s1, trylock s = Ok (got, s1) /\ store_inv m Q F refs s1 /\ effect (used m refs) s s1 /\
    (trylocks s = [] -> got = true) /\ mem s1 = mem s /\ slb s1 = slb s /\ rbl s1 = rbl s.
Proof.
  intros I. unfold trylock. destruct (trylocks s) as [|b bs] eqn:Et; eexists _, _; (split; [done|]).
  - split; [done|]. split; [apply effect_refl|done].
  - split; [destruct I as [I HQ]; split; [eapply core_parts; [exact I|by repeat split|done]|done]|].
    split; [|done]. apply effect_parts; [done| |done]. split; [done|]. split; [done|]. by rewrite Et.
Qed.

Lemma reassign_kept got src dst sl r :
  rebal_kept (power_largest sl) r (slabs_reassign got src dst sl r).2.
Proof.
  unfold slabs_reassign. destruct got; [|by left]. unfold do_slabs_reassign.
  destruct (decide (slab_rebalance_signal r <> 0)) as [|Hs]; [by left|]. apply dec_stable in Hs.
  destruct (decide (src = dst)); [by left|].
  assert (exists cur, (if decide (src = -1) then slab_reassign_pick_any dst sl r else (src, r)).2 =
    (r <| pick_cur := cur |>)) as [cur Ec].
  { destruct (decide (src = -1)); [|exists (pick_cur r); by destruct r].
    unfold slab_reassign_pick_any. destruct (pick_loop _ _ _ _) as [p c]. by exists c. }
  destruct (if decide (src = -1) then _ else _) as [sr r1]. simpl in Ec. subst r1.
  assert (rebal_kept (power_largest sl) r (r <| pick_cur := cur |>)) as Hk.
  { right. split; [done|]. exists (s_clsid r), (d_clsid r), 0, cur. split; [|by right]. rewrite <- Hs. by destruct r. }
  destruct (decide (_ \/ _)) as [|Hr]; [done|]. destruct (decide (_ < 2)); [done|].
  right. split; [done|]. exists sr, dst, 1, cur. split; [by destruct r|]. left. unfold SLAB_GLOBAL_PAGE_POOL in Hr. lia.
Qed.

Lemma steady_trylock_reassign m refs orig_id : steady m refs
  (got ← trylock; modify (fun s => s <| rbl := (slabs_reassign got (-1) orig_id (slb s) (rbl s)).2 |>)).
Proof.
  intros Q F s I. unfold trylock, modify, mbind, M_bind.
  destruct (trylocks s) as [|b bs] eqn:Et; (eexists; split; [reflexivity|]); (eapply stays_parts; [exact I|..]);
    first [by repeat split|split; [done|split; [apply reassign_kept|by rewrite Et]]].
Qed.

Lemma unlink_nolock_eq x hv s : do_item_unlink_nolock cfg x hv s = do_item_unlink cfg x hv s.
Proof. done. Qed.

Definition lru_ids (c : Z) : Prop := c = HOT_LRU \/ c = WARM_LRU \/ c = COLD_LRU \/ c = TEMP_LRU.

Section round.
Variables (m : gmap (list Z) Z) (refs : Z -> Z) (x : Z) (k : list Z).
Hypothesis (Hk : m !! k = Some x) (Hb : refs_bounded refs) (Hr0 : 0 <= refs x).

(** The round holds one reference. *)
Let refs1 : Z -> Z := rupd refs x (refs x + 1).

Definition round_post (s : st) (r : round) (s' : st) : Prop :=
  match r with
  | Continue _ => exists m' Q' F', (m' = m \/ m' = delete k m) /\ store_inv m' Q' F' refs s' /\
      effect (used m' refs) s s'
  | Stop it w _ => it = x /\ exists m' Q' F', effect (used m' refs1) s s' /\
      ((w = 0 /\ (m' = m \/ m' = delete k m) /\ store_inv m' Q' F' refs1 s') \/
       (w <> 0 /\ Z.land w 63 = 0 /\ m' = m /\ core_inv m Q' F' refs1 s' /\
        forall y, queue_of Q' y <-> linked m y /\ y <> x))
  end.

Definition round_op (op : M st round) : Prop := forall Q F s, store_inv m Q F refs1 s ->
  exists r s', op s = Ok (r, s') /\ round_post s r s'.

Lemma refs1_used m' y : used m' refs y -> used m' refs1 y.
Proof. intros [H|H]; [by left|right]. unfold refs1, rupd. destruct (decide _); subst; lia. Qed.

Lemma round_post_trans s s1 r s2 : effect (used m refs1) s s1 -> round_post s1 r s2 -> round_post s r s2.
Proof.
  intros Ef. assert (forall m', m' = m \/ m' = delete k m -> forall y, used m' refs1 y -> used m refs1 y) as Hm.
  { intros m' [->| ->] y [[k' Hk']|Hy]; try (by right); left; [by exists k'|].
    apply lookup_delete_Some in Hk' as [_ ?]. by exists k'. }
  destruct r as [n|it w n]; simpl.
  - intros (m' & Q' & F' & Hm' & I & Ef'). exists m', Q', F'. split_and!; [done|done|].
    eapply effect_trans; [exact Ef|exact Ef'|]. intros y Hy. eapply Hm; [done|]. by apply refs1_used.
  - intros (-> & m' & Q' & F' & Ef' & H). split; [done|]. exists m', Q', F'. split; [|done].
    eapply effect_trans; [exact Ef|exact Ef'|]. apply Hm. destruct H as [(_ & ? & _)|(_ & _ & -> & _)]; auto.
Qed.

Lemma ro_steady op1 (op2 : M st round) : steady m refs1 op1 -> round_op op2 -> round_op (op1;; op2).
Proof.
  intros H1 H2 Q F s I. destruct (H1 Q F s I) as (s1 & E1 & (Q1 & F1 & I1) & Ef1).
  destruct (H2 Q1 F1 s1 I1) as (r & s2 & E2 & P2). exists r, s2. rewrite (M_bind_ok _ _ _ _ _ E1).
  split; [done|]. by eapply round_post_trans.
Qed.

Lemma ro_gets {A} (g : st -> A) f : (forall a, round_op (f a)) -> round_op (gets g ≫= f).
Proof. intros H Q F s I. rewrite gets_bind. by eapply H. Qed.

Lemma ro_stop n : round_op (mret (Stop x 0 n)).
Proof.
  intros Q F s I. exists (Stop x 0 n), s. split; [done|]. split; [done|]. exists m, Q, F.
  split; [apply effect_refl|]. left. auto.
Qed.

Lemma ro_move w n : Z.land w 63 = 0 -> w <> 0 -> round_op (do_item_unlink_q x;; mret (Stop x w n)).
Proof.
  intros Hw Hw0 Q F s [I HQ].
  destruct (unlink_q_inv _ _ _ _ _ x I) as (Q1 & s1 & E1 & I1 & HQ1 & _ & Ef1 & _); [apply HQ; by exists k|].
  exists (Stop x w n), s1. rewrite (M_bind_ok _ _ _ _ _ E1). split; [done|]. split; [done|].
  exists m, Q1, F. split; [done|]. right. split_and!; try done. intros y. rewrite HQ1. unfold queue_of. by rewrite HQ.
Qed.

Lemma refs1_back y : rupd refs1 x (refs1 x - 1) y = refs y.
Proof. unfold refs1. rewrite rupd_rupd, rupd_eq. apply rupd_id. lia. Qed.

Lemma ro_release n : round_op (do_item_remove cfg x;; mret (Continue n)).
Proof.
  intros Q F s I. destruct (do_item_remove_does _ _ _ _ _ x I) as (Q1 & F1 & s1 & E1 & [I1 HQ1] & Ef1).
  { unfold refs1. rewrite rupd_eq. lia. }
  exists (Continue n), s1. rewrite (M_bind_ok _ _ _ _ _ E1). split; [done|]. exists m, Q1, F1.
  split; [by left|]. split; [split; [|done]|].
  - eapply core_inv_ext; [apply refs1_back|done].
  - eapply effect_weaken; [done|]. intros y [Hy|Hy]; [by left|right]. by rewrite refs1_back.
Qed.

Lemma ro_dead n :
  round_op (do_item_unlink_nolock cfg x (khash hash k);; do_item_remove cfg x;; mret (Continue n)).
Proof.
  intros Q F s I. destruct (unlink_and_remove _ _ _ _ _ _ _ I Hk Hr0) as (Q1 & F1 & s1 & E1 & I1 & Ef1).
  exists (Continue n), s1. rewrite seq_assoc, (M_bind_ok _ _ _ _ _ E1). split; [done|].
  exists (delete k m), Q1, F1. split; [by right|done].
Qed.

Lemma ro_evict op n : steady (delete k m) refs1 op ->
  round_op (do_item_unlink_nolock cfg x (khash hash k);; op;; mret (Stop x 0 n)).
Proof.
  intros Hop Q F s I. destruct (do_item_unlink_inv _ _ _ _ _ _ _ I Hk) as (Q1 & F1 & s1 & E1 & I1 & Ef1 & _).
  destruct (Hop _ _ _ I1) as (s2 & E2 & (Q2 & F2 & I2) & Ef2).
  exists (Stop x 0 n), s2. split.
  - rewrite (M_bind_ok _ _ _ _ _ E1), (M_bind_ok _ _ _ _ _ E2). done.
  - split; [done|]. exists (delete k m), Q2, F2. split; [by eapply effect_trans|]. left. auto.
Qed.

Lemma pull_hot_warm_ok id cur total max_age n :
  round_op (pull_hot_warm cfg id cur total max_age x n).
Proof.
  assert (used m refs1 x) as Hx by (left; by exists k).
  unfold pull_hot_warm. cbv zeta. apply ro_gets. intros i. apply ro_gets. intros t. apply ro_gets. intros b.
  destruct (has i ITEM_ACTIVE).
  - apply ro_steady; [apply steady_wr; [done|apply core_view_active]|]. destruct (decide _).
    + apply ro_steady; [apply steady_istat|]. apply ro_steady; [by apply do_item_update_nolock_steady|].
      apply ro_release.
    + apply ro_steady; [apply steady_istat|]. by apply ro_move.
  - destruct (_ || _).
    + apply ro_steady; [apply steady_istat|]. by apply ro_move.
    + apply ro_stop.
Qed.

Lemma pull_cold_ok id orig flags n : Z.land flags LRU_PULL_RETURN_ITEM = 0 ->
  round_op (pull_cold cfg id orig flags x (khash hash k) n).
Proof.
  intros Hf. assert (used m refs1 x) as Hx by (left; by exists k).
  unfold pull_cold. apply ro_gets. intros i. apply ro_gets. intros t. destruct (decide _).
  - destruct (decide _); [apply ro_stop|]. apply ro_steady; [apply steady_istat|].
    do 3 (apply ro_steady; [apply steady_when; intros _; apply steady_istat|]).
    apply ro_evict. apply steady_when. intros _. apply steady_trylock_reassign.
  - destruct (decide (Z.land flags LRU_PULL_RETURN_ITEM <> 0)); [done|]. destruct (_ && _); [|apply ro_stop].
    apply ro_steady; [apply steady_istat|]. apply ro_steady; [by apply steady_wr; [|apply core_view_active]|].
    by apply ro_move.
Qed.

Lemma pull_round_ok id orig cur total flags max_age n Q F s :
  Z.land flags LRU_PULL_RETURN_ITEM = 0 -> tail_repair_time cfg = 0 -> lru_ids cur ->
  store_inv m Q F refs s ->
  exists r s', pull_round cfg id orig cur total flags max_age x (khash hash k) n s = Ok (r, s') /\
    round_post s r s'.
Proof.
  intros Hf Ht Hcur I. unfold lru_ids in Hcur. pose proof (Hb x) as Hbx.
  destruct (bump_twice _ _ _ _ _ x I) as (I1 & Ef1 & _); [left; by exists k|lia|].
  unfold pull_round. rewrite (M_bind_ok _ _ _ _ _ (refcount_incr_eq x s)), rd_bind, gets_bind.
  set (r0 := u16 _). set (i := geti _ x). set (t := now _).
  rewrite Ht. change (bool_decide (0 <> 0)) with false. rewrite andb_false_r. cbn [andb].
  assert (forall op2, round_op op2 -> exists r s', (when (bool_decide (r0 <> 2))
    (set_istat id (fun x => x <| lrutail_reflocked ::= inc64 |>));; op2) (bump x 1 s) = Ok (r, s') /\
    round_post s r s') as H.
  { intros op2 H2. assert (round_op (when (bool_decide (r0 <> 2))
      (set_istat id (fun x => x <| lrutail_reflocked ::= inc64 |>));; op2)) as H.
    { apply ro_steady; [|done]. apply steady_when. intros _. apply steady_istat. }
    destruct (H Q F _ I1) as (r & s' & E & P). exists r, s'. split; [done|].
    eapply round_post_trans; [|exact P]. by eapply effect_seti. }
  apply H. clear H. destruct (_ || _).
  - apply ro_steady; [apply steady_istat|]. apply ro_steady; [apply steady_when; intros _; apply steady_istat|].
    apply ro_dead.
  - destruct (decide _); [apply pull_hot_warm_ok|]. destruct (decide _); [by apply pull_cold_ok|].
    destruct (decide (cur = TEMP_LRU)); [apply ro_stop|naive_solver].
Qed.
End round.

Definition loop_post (m : gmap (list Z) Z) (refs : Z -> Z) (s : st) (r : round) (s' : st) : Prop :=
  exists m', m' ⊆ m /\
  match r with
  | Continue _ => exists Q' F', store_inv m' Q' F' refs s' /\ effect (used m' refs) s s'
  | Stop it w _ => exists Q' F', linked m it /\ 0 < it /\ 0 <= refs it /\
      effect (used m' (rupd refs it (refs it + 1))) s s' /\
      ((w = 0 /\ store_inv m' Q' F' (rupd refs it (refs it + 1)) s') \/
       (w <> 0 /\ Z.land w 63 = 0 /\ linked m' it /\ core_inv m' Q' F' (rupd refs it (refs it + 1)) s' /\
        forall y, queue_of Q' y <-> linked m' y /\ y <> it))
  end.

Lemma linked_subset m m' y : m' ⊆ m -> linked m' y -> linked m y.
Proof. intros H [k Hk]. exists k. by eapply lookup_weaken. Qed.

Lemma used_subset m m' refs y : m' ⊆ m -> used m' refs y -> used m refs y.
Proof. intros H [Hy|Hy]; [left; by eapply linked_subset|by right]. Qed.

Lemma queue_prev m Q F refs s x : store_inv m Q F refs s -> linked m x ->
  prev (geti (mem s) x) = 0 \/ (linked m (prev (geti (mem s) x)) /\ prev (geti (mem s) x) <> x).
Proof.
  intros [I HQ] Hl. apply HQ in Hl as [c Hc]. pose proof Hc as Hc'.
  apply list_elem_of_split in Hc' as (l1 & l2 & E).
  destruct (q_dll _ _ _ (ci_queue _ _ _ _ _ I) c) as (Hs & _ & _ & Hnd). rewrite E in Hs.
  destruct (dseg_elem _ _ _ _ _ _ Hs) as (_ & _ & ->).
  destruct (last l1) as [y|] eqn:El; [|by left]. right. simpl. apply last_Some_elem_of in El. split.
  - apply HQ. exists c. rewrite E. set_solver.
  - intros ->. rewrite E in Hnd. apply NoDup_app in Hnd as (_ & Hd & _). apply (Hd _ El). set_solver.
Qed.

Lemma queue_tail m Q F refs s c : store_inv m Q F refs s ->
  aget (tails (lru s)) c = 0 \/ linked m (aget (tails (lru s)) c).
Proof.
  intros [I HQ]. destruct (q_dll _ _ _ (ci_queue _ _ _ _ _ I) c) as (_ & _ & -> & _).
  destruct (last (Q c)) as [y|] eqn:El; [|by left]. right. apply HQ. exists c. by apply last_Some_elem_of.
Qed.

Lemma pull_loop_ok refs id orig cur total flags max_age fuel :
  Z.land flags LRU_PULL_RETURN_ITEM = 0 -> tail_repair_time cfg = 0 -> lru_ids cur -> refs_bounded refs ->
  forall tries search n m Q F s, store_inv m Q F refs s -> search = 0 \/ linked m search ->
  0 <= tries < Z.of_nat fuel ->
  exists r hv s', pull_loop cfg hash fuel id orig cur total flags max_age tries search n s = Ok (r, hv, s') /\
    loop_post m refs s r s'.
Proof.
  intros Hf Ht Hcur Hb. induction fuel as [|fuel IH]; intros tries search n m Q F s I Hs Hn; [lia|].
  simpl pull_loop. destruct (decide (0 < tries /\ search <> 0)) as [[Ht0 Hs0]|_].
  2:{ exists (Continue n), 0, s. split; [done|]. exists m. split; [done|]. exists Q, F. split; [done|apply effect_refl]. }
  destruct Hs as [?|Hl]; [done|]. rewrite rd_bind. cbv zeta. pose proof I as [Ic HQ].
  pose proof (ci_live _ _ _ _ _ Ic search (or_introl Hl)) as (_ & _ & _ & _ & _ & _ & _ & _ & Hok & Hnb).
  rewrite (decide_False (P := nbytes _ = 0 /\ _)) by (destruct Hnb; lia). rewrite gets_bind, (item_hash_key hash) by done.
  pose proof (linked_key _ _ _ _ _ _ Ic Hl) as Hk. set (k := ikey (mem s) search) in *.
  pose proof (queue_prev _ _ _ _ _ _ I Hl) as Hp. set (p := prev (geti (mem s) search)) in *.
  destruct (trylock_keeps m Q F refs s I) as (got & s1 & Et & I1 & Ef1 & _).
  rewrite (M_bind_ok _ _ _ _ _ Et).
  assert (forall m1 n s1 Q1 F1, m1 = m \/ m1 = delete k m -> store_inv m1 Q1 F1 refs s1 -> effect (used m1 refs) s s1 ->
    exists r hv s', pull_loop cfg hash fuel id orig cur total flags max_age (tries - 1) p n s1 = Ok (r, hv, s') /\
    loop_post m refs s r s') as Hnext.
  { clear n s1 I1 Ef1 Et. intros m1 n s1 Q1 F1 Hm1 I1 Ef1.
    assert (p = 0 \/ linked m1 p) as Hp1.
    { destruct Hp as [Hp|[Hp Hne]]; [by left|right]. destruct Hm1 as [->| ->]; [done|].
      by apply (linked_delete _ _ _ _ _ _ _ _ Ic Hk). }
    assert (m1 ⊆ m) as Hsub by (destruct Hm1 as [->| ->]; [done|apply delete_subseteq]).
    destruct (IH (tries - 1) p n m1 Q1 F1 s1 I1 Hp1 ltac:(lia)) as (r & hv & s' & E & m' & Hm' & P).
    exists r, hv, s'. split; [done|]. exists m'. split; [by trans m1|]. destruct r as [n'|it w n'].
    - destruct P as (Q' & F' & I' & Ef'). exists Q', F'. split; [done|].
      eapply effect_trans; [exact Ef1|exact Ef'|]. intros y. by apply used_subset.
    - destruct P as (Q' & F' & Hl1 & Hit & Hrit & Ef' & P). exists Q', F'.
      split_and!; [by eapply linked_subset|done|done| |done].
      eapply effect_trans; [exact Ef1|exact Ef'|]. intros y [Hy|Hy]; [left; by eapply linked_subset|].
      unfold rupd in Hy. destruct (decide (y = it)) as [->|]; [by left|by right]. }
  destruct got; [|by eapply Hnext; [left| |]].
  assert (0 <= refs search) as Hr0 by by eapply Ic.
  destruct (pull_round_ok m refs search k Hk Hb Hr0 id orig cur total flags max_age n Q F s1 Hf Ht Hcur I1)
    as (r & s2 & E & P). rewrite (M_bind_ok _ _ _ _ _ E). destruct r as [n'|it w n'].
  - destruct P as (m' & Q' & F' & Hm' & I' & Ef'). eapply (Hnext m'); [done|exact I'|].
    eapply effect_trans; [exact Ef1|exact Ef'|]. intros y. apply used_subset.
    destruct Hm' as [->| ->]; [done|apply delete_subseteq].
  - destruct P as (-> & m' & Q' & F' & Ef' & P). exists (Stop search w n'), (khash hash k), s2. split; [done|].
    exists m'. 
    assert (m' ⊆ m) as Hsub by (destruct P as [(_ & [->| ->] & _)|(_ & _ & -> & _)]; [done|apply delete_subseteq|done]).
    split; [done|]. exists Q', F'.
    split_and!; [done|by eapply live_pos; [exact Ic|left]|done| |].
    + eapply effect_trans; [exact Ef1|exact Ef'|]. intros y [Hy|Hy]; [left; by eapply linked_subset|].
      unfold rupd in Hy. destruct (decide (y = search)) as [->|]; [by left|by right].
    + destruct P as [(-> & _ & ?)|(? & ? & -> & ? & ?)]; [by left|right]. by split_and!.
Qed.

(** What lru_pull_tail does at the end with the item the loop stopped at. *)
Lemma pull_finish {A} m refs Q F s it w (n : A) :
  linked m it \/ w = 0 -> 0 <= refs it -> 0 < it -> Z.land w 63 = 0 ->
  (w = 0 -> store_inv m Q F (rupd refs it (refs it + 1)) s) ->
  (w <> 0 -> core_inv m Q F (rupd refs it (refs it + 1)) s /\ forall y, queue_of Q y <-> linked m y /\ y <> it) ->
  does (when (bool_decide (w <> 0))
     (wr it (fun i => i <| Heap.slabs_clsid := ITEM_clsid i |>);;
      wr it (fun i => i <| Heap.slabs_clsid := Z.lor (Heap.slabs_clsid i) w |>);;
      item_link_q it);;
    do_item_remove cfg it;; mret n) s n m refs.
Proof.
  intros Hl Hr0 Hit Hw H0 H1. set (refs1 := rupd refs it (refs it + 1)) in *.
  assert (forall y, rupd refs1 it (refs1 it - 1) y = refs y) as Hback
    by (intros y; unfold refs1; rewrite rupd_rupd, rupd_eq; apply rupd_id; lia).
  assert (does (when (bool_decide (w <> 0))
     (wr it (fun i => i <| Heap.slabs_clsid := ITEM_clsid i |>);;
      wr it (fun i => i <| Heap.slabs_clsid := Z.lor (Heap.slabs_clsid i) w |>);;
      item_link_q it)) s tt m refs1) as Hmv.
  { destruct (decide (w = 0)) as [->|Hw0].
    - exists Q, F, s. split; [done|]. split; [by apply H0|apply effect_refl].
    - destruct Hl as [Hl|]; [|done]. destruct (H1 Hw0) as [I HQ].
      assert (~ queue_of Q it) as Hnq by (rewrite HQ; tauto).
      destruct (set_lru_of_inv _ _ _ _ _ it w I (or_introl Hl) Hnq Hw) as [I2 E2].
      destruct (link_q_inv _ _ _ _ _ it I2 Hnq (or_introl Hl)) as (Q3 & s3 & E3 & I3 & HQ3 & _ & Ef3 & _).
      exists Q3, F, s3. rewrite bool_decide_true by done. simpl.
      split; [|split; [split; [done|]|by eapply effect_trans]].
      + rewrite (set_lru_eq w it (fun _ => item_link_q it)). exact E3.
      + intros y. fold (queue_of Q3 y). rewrite HQ3, HQ.
        split; [intros [[? _]| ->]; done|]. intros Hy. destruct (decide (y = it)); tauto. }
  assert (forall y, used m refs y -> used m refs1 y) as Hu.
  { intros y [Hy|Hy]; [by left|right]. unfold refs1, rupd. destruct (decide (y = it)) as [->|]; lia. }
  eapply does_bind; [exact Hmv| |exact Hu]. intros Q1 F1 s1 I1 _ _.
  destruct (do_item_remove_does _ _ _ _ _ it I1) as (Q2 & F2 & s2 & E2 & [I2 HQ2] & Ef2).
  { unfold refs1. rewrite rupd_eq. lia. }
  exists Q2, F2, s2. rewrite (M_bind_ok _ _ _ _ _ E2). split; [done|]. split.
  - split; [by eapply core_inv_ext|done].
  - eapply effect_weaken; [done|]. intros y [Hy|Hy]; [by left|right]. by rewrite Hback.
Qed.

Lemma lru_pull_tail_does m Q F refs s orig cur total flags max_age :
  Z.land flags LRU_PULL_RETURN_ITEM = 0 -> tail_repair_time cfg = 0 -> lru_ids cur -> refs_bounded refs ->
  store_inv m Q F refs s ->
  exists n m', m' ⊆ m /\ does (lru_pull_tail cfg hash orig cur total flags max_age) s (n, None) m' refs.
Proof.
  intros Hf Ht Hcur Hb I. unfold lru_pull_tail. destruct (decide (orig = 0)).
  { exists 0, m. split; [done|]. by eapply does_ret. }
  assert (0 <= 5 < Z.of_nat (6 + size (mem s))) as Hfuel by lia.
  destruct (pull_loop_ok refs (Z.lor orig cur) orig cur total flags max_age _ Hf Ht Hcur Hb 5
    (aget (tails (lru s)) (Z.lor orig cur)) 0 m Q F s I (queue_tail _ _ _ _ _ _ I) Hfuel)
    as (r1 & hv1 & s2 & E & m' & Hm' & P).
  set (fin := fun rh : round * Z => let '(r, hv) := rh in
    match r with
    | Continue removed => mret (removed, None)
    | Stop it move_to_lru removed =>
        when (bool_decide (it <> 0))
          (when (bool_decide (move_to_lru <> 0))
             (wr it (fun i => i <| Heap.slabs_clsid := ITEM_clsid i |>);;
              wr it (fun i => i <| Heap.slabs_clsid := Z.lor (Heap.slabs_clsid i) move_to_lru |>);;
              item_link_q it);;
           when (bool_decide (Z.land flags LRU_PULL_RETURN_ITEM = 0)) (do_item_remove cfg it));;
        mret (removed,
          if decide (it <> 0 /\ cur = COLD_LRU /\ Z.land flags LRU_PULL_EVICT = 0 /\
                     Z.land flags LRU_PULL_RETURN_ITEM <> 0)
          then Some (it, hv) else None)
    end).
  assert ((gets (fun s => aget (tails (lru s)) (Z.lor orig cur)) ≫= fun search =>
    gets (fun s => (6 + size (mem s))%nat) ≫= fun fuel =>
    pull_loop cfg hash fuel (Z.lor orig cur) orig cur total flags max_age 5 search 0 ≫= fin) s = fin (r1, hv1) s2) as Es.
  { rewrite !gets_bind. by rewrite (M_bind_ok _ _ _ _ _ E). }
  destruct r1 as [n1|it w n1].
  - destruct P as (Q' & F' & I' & Ef). exists n1, m'. split; [done|]. exists Q', F', s2.
    split; [exact Es|done].
  - destruct P as (Q' & F' & Hl & Hit & Hr & Ef & P). exists n1, m'. split; [done|].
    assert (does (when (bool_decide (w <> 0))
       (wr it (fun i => i <| Heap.slabs_clsid := ITEM_clsid i |>);;
        wr it (fun i => i <| Heap.slabs_clsid := Z.lor (Heap.slabs_clsid i) w |>);;
        item_link_q it);;
      do_item_remove cfg it;; mret (n1, @None (Z * Z))) s2 (n1, None) m' refs) as (Q3 & F3 & s3 & E3 & I3 & Ef3).
    { apply (pull_finish m' refs Q' F'); try done.
      - destruct P as [[-> _]|(_ & _ & ? & _)]; [by right|by left].
      - destruct P as [[-> _]|(_ & ? & _)]; done.
      - intros ->. by destruct P as [[_ ?]|(? & _)].
      - intros Hw. destruct P as [[? _]|(_ & _ & _ & ? & ?)]; [done|by split]. }
    exists Q3, F3, s3. split; [|split; [done|]].
    + etransitivity; [exact Es|]. unfold fin. rewrite (bool_decide_true (it <> 0)) by lia. rewrite Hf.
      rewrite (decide_False (P := it <> 0 /\ _)) by tauto.
      rewrite <- E3, seq_assoc. done.
    + eapply effect_trans; [exact Ef|exact Ef3|]. intros y [Hy|Hy]; [by left|right]. unfold rupd.
      destruct (decide (y = it)) as [->|]; lia.
Qed.

(** ** Allocation *)

(** The memory of a chunk once it is made into an item of class [id]. *)
Definition good_new (sl : slabs_t) (id : Z) (i : item) : Prop :=
  ITEM_clsid i = id /\ has i ITEM_SLABBED = false /\ has i ITEM_CHUNKED = false /\
  has i ITEM_LINKED = false /\ refcount i = 1 /\ item_ok i /\ in_chunk (csize (getc sl id)) i /\ has i ITEM_CHUNK = false.

(** Chunk [x] of class [id] is handed out, and not an item yet. *)
Record pending (m : gmap (list Z) Z) (refs : Z -> Z) (id x : Z) (s : st) : Prop := {
  pe_unused : ~ used m refs x;
  pe_pos : 0 < x;
  pe_flags : it_flags (geti (mem s) x) = 0;
  pe_ref : refcount (geti (mem s) x) = 1;
  pe_clsid : Heap.slabs_clsid (geti (mem s) x) = 0;
  pe_body : bytes_ok (body (geti (mem s) x));
  pe_inv : exists Q F, (forall y, queue_of Q y <-> linked m y) /\
    forall s' f, same_parts s s' -> mem s' = seti (mem s) x f -> good_new (slb s) id (geti (mem s') x) ->
    core_inv m Q F (rupd refs x 1) s'
}.

Lemma free_split m Q F refs s id : core_inv m Q F refs s -> 1 <= id <= power_largest (slb s) ->
  exists U, class_chunks (getc (slb s) id) ≡ₚ F id ++ U.
Proof.
  intros I Hid. apply submseteq_Permutation, NoDup_submseteq.
  - apply (fl_dll _ _ _ (si_free _ _ _ _ _ _ (ci_slabs _ _ _ _ _ I) id Hid)).
  - intros y. by apply (si_sub _ _ _ _ _ _ (ci_slabs _ _ _ _ _ I)).
Qed.

Section alloc_step.
Variables (m : gmap (list Z) Z) (Q : queues) (F : free_lists) (refs : Z -> Z) (s : st)
  (size id x : Z) (h' : heap) (sl' : slabs_t) (l : list Z).
Hypothesis (I : core_inv m Q F refs s) (Hid : 1 <= id <= power_largest (slb s))
  (Is' : slab_inv cfg cap [] h' sl' (upd F id l)) (P : alloc_post cfg size id (mem s) (slb s) F x h' sl' l)
  (Hb' : bodies_ok h').

(** Chunks that were in use before, by whomever. *)
Lemma alloc_old_same y c : 1 <= c <= power_largest (slb s) -> y ∈ class_chunks (getc (slb s) c) ->
  y ∉ F id -> geti h' y = geti (mem s) y.
Proof.
  intros Hc Hch HF.
  destruct (chunk_in_page cfg _ _ _ _ _ _ _ (ci_slabs _ _ _ _ _ I) Hc Hch) as (q & Hq & Hin & _).
  eapply ap_frame; [exact P|exact Hc|exact Hq|exact Hin|done].
Qed.

Lemma alloc_used_same y : used m refs y -> geti h' y = geti (mem s) y.
Proof.
  intros Hy. destruct (ci_live _ _ _ _ _ I y Hy) as (Hc & Hch & HF & _).
  eapply alloc_old_same; [exact Hc|exact Hch|by apply HF].
Qed.

Lemma alloc_chunks_old y c : 1 <= c <= power_largest (slb s) -> y ∈ class_chunks (getc (slb s) c) -> y ∉ F c ->
  y ∈ class_chunks (getc sl' c) /\ (c = id -> y ∉ l /\ (x <> 0 -> y <> x)).
Proof.
  intros Hc Hy HF. destruct (free_split _ _ _ _ _ _ I Hid) as (U & HU).
  pose proof (ap_part _ _ _ _ _ _ _ _ _ _ P U HU) as HU'.
  destruct (decide (c = id)) as [->|Hne]; [|by rewrite (ap_other _ _ _ _ _ _ _ _ _ _ P) by (done || lia)].
  rewrite HU in Hy. apply elem_of_app in Hy as [?|Hy]; [done|].
  assert (y ∈ class_chunks (getc sl' id)) as Hy' by (rewrite HU'; apply elem_of_app; by right).
  split; [done|]. intros _. rewrite <- (ap_pl _ _ _ _ _ _ _ _ _ _ P) in Hid.
  pose proof (class_chunks_NoDup cfg _ _ _ _ _ _ Is' Hid) as Hnd. rewrite HU' in Hnd.
  apply NoDup_app in Hnd as (_ & Hd & _). split.
  - intros Hl. apply (Hd y); [|done]. destruct (decide _); [done|by apply elem_of_cons; right].
  - intros Hx ->. apply (Hd x); [|done]. rewrite decide_False by done. apply elem_of_cons. by left.
Qed.

Lemma alloc_classes : same_classes (slb s) sl'.
Proof. split; [by eapply ap_pl|]. intros i Hi. by eapply ap_geom. Qed.

Lemma alloc_not_old c : 1 <= c <= power_largest (slb s) -> x <> 0 -> (forall d, 1 <= d <= power_largest (slb s) -> x ∉ F d) ->
  x ∉ class_chunks (getc (slb s) c).
Proof.
  intros Hc Hx HF Hch.
  destruct (ap_chunk _ _ _ _ _ _ _ _ _ _ P Hx) as (_ & _ & _ & _ & _ & [E|[_ Hnew]]).
  - apply (HF id Hid). rewrite <- E. set_solver.
  - destruct (chunk_in_page cfg _ _ _ _ _ _ _ (ci_slabs _ _ _ _ _ I) Hc Hch) as (q & Hq & Hin & _).
    by apply (Hnew _ q Hc Hq).
Qed.

Lemma alloc_not_used : x <> 0 -> ~ used m refs x.
Proof.
  intros Hx Hu. destruct (ci_live _ _ _ _ _ I x Hu) as (Hc & Hch & HF & _).
  by apply (alloc_not_old _ Hc Hx HF).
Qed.

Lemma alloc_old_free y c d : 1 <= c <= power_largest (slb s) -> y ∈ class_chunks (getc (slb s) c) ->
  (forall e, 1 <= e <= power_largest (slb s) -> y ∉ F e) -> 1 <= d <= power_largest (slb s) -> y ∉ upd F id l d.
Proof.
  intros Hc Hy HF Hd. destruct (alloc_chunks_old y c Hc Hy (HF c Hc)) as [Hch Hid'].
  pose proof (ap_pl _ _ _ _ _ _ _ _ _ _ P) as Hpl.
  unfold upd. destruct (decide (d = id)) as [->|]; [|by apply HF].
  destruct (decide (c = id)) as [Ec|Ec]; [by apply Hid'|].
  intros Hl. apply Ec. eapply chunk_class_unique; [exact Is'|by rewrite Hpl|by rewrite Hpl|done|].
  apply (si_sub _ _ _ _ _ _ Is'); [by rewrite Hpl|]. unfold upd. by rewrite decide_True.
Qed.

(** Every structure is as it was, for a memory that has [h'] except at the new chunk. *)
Lemma alloc_core s' refs' :
  slb s' = sl' -> asc s' = asc s -> same_queues (lru s) (lru s') ->
  curr_items (stt s') = curr_items (stt s) -> curr_bytes (stt s') = curr_bytes (stt s) ->
  (forall y, y <> x \/ x = 0 -> geti (mem s') y = geti h' y) -> bodies_ok (mem s') ->
  (forall y, y <> x -> refs' y = refs y) -> (x = 0 -> refs' x = refs x) -> (x <> 0 -> refs' x = 1) ->
  (x <> 0 -> good_new sl' id (geti (mem s') x)) ->
  core_inv m Q (upd F id l) refs' s'.
Proof.
  intros E1 E2 E3 E4 E5 Hm Hbo Hr Hr0 Hr1 Hgood.
  assert (forall y, used m refs y -> (y <> x \/ x = 0) /\ geti (mem s') y = geti (mem s) y /\ refs' y = refs y) as Hold.
  { intros y Hy. assert (y <> x \/ x = 0) as Hne.
    { destruct (decide (x = 0)) as [|Hx]; [by right|left]. intros ->. by apply alloc_not_used. }
    split; [done|]. split; [by rewrite Hm, alloc_used_same|]. destruct (decide (y = x)) as [->|]; [|by apply Hr].
    apply Hr0. by destruct Hne. }
  assert (forall y, used m refs' y -> used m refs y \/ (y = x /\ x <> 0)) as Hnew.
  { intros y [Hy|Hy]; [by left; left|]. destruct (decide (y = x)) as [->|Hne].
    - destruct (decide (x = 0)) as [Hx|]; [|by right]. left. right. by rewrite <- Hr0.
    - left. right. by rewrite <- Hr. }
  assert (forall y, used m refs y -> used m refs' y) as Hkeep.
  { intros y Hy. destruct (Hold y Hy) as (_ & _ & E). destruct Hy as [Hy|Hy]; [by left|right]. by rewrite E. }
  pose proof (ap_pl _ _ _ _ _ _ _ _ _ _ P) as Hpl.
  destruct (free_split _ _ _ _ _ _ I Hid) as (U & HU).
  pose proof (ap_part _ _ _ _ _ _ _ _ _ _ P U HU) as HU'.
  split.
  - rewrite E1. eapply slab_inv_heap; [exact Is'|]. intros i y Hi Hy. apply Hm.
    destruct (decide (x = 0)) as [|Hx]; [by right|left]. intros ->.
    destruct (ap_chunk _ _ _ _ _ _ _ _ _ _ P Hx) as (Hc' & Hl & _).
    assert (i = id) as ->.
    { eapply chunk_class_unique; [exact Is'|done|by rewrite Hpl| |done].
      by apply (si_sub _ _ _ _ _ _ Is'). }
    apply Hl. unfold upd in Hy. by rewrite decide_True in Hy.
  - rewrite E1. eapply classes_ok_same; [|apply alloc_classes|apply I]. lia.
  - rewrite E1, Hpl. intros i y Hi Hy. unfold upd. destruct (decide (i = id)) as [->|Hne].
    + rewrite HU' in Hy. apply elem_of_app in Hy as [Hy|Hy].
      * destruct (decide (x = 0)) as [|Hx]; [by left|]. apply elem_of_cons in Hy as [->|Hy]; [|by left].
        right. left. right. rewrite Hr1 by done. lia.
      * assert (y ∈ class_chunks (getc (slb s) id)) as Hy' by (rewrite HU; set_solver).
        pose proof (class_chunks_NoDup cfg _ _ _ _ _ _ (ci_slabs _ _ _ _ _ I) Hid) as Hnd.
        rewrite HU in Hnd. apply NoDup_app in Hnd as (_ & Hd & _).
        destruct (ci_all _ _ _ _ _ I id y Hid Hy') as [Hf|[Hu|Hh]]; [by destruct (Hd y Hf)|right; auto..].
    + rewrite (ap_other _ _ _ _ _ _ _ _ _ _ P) in Hy by (done || lia).
      destruct (ci_all _ _ _ _ _ I i y Hi Hy) as [?|[?|?]]; [by left|right; auto..].
  - intros y j Hj. destruct (ci_held _ _ _ _ _ I y j Hj) as ((c & Hc & Hyc) & HyF & Hyu & Ey).
    destruct (alloc_chunks_old y c Hc Hyc (HyF c Hc)) as [Hch Hid'].
    assert (y <> x \/ x = 0) as Hyx.
    { destruct (decide (x = 0)) as [|Hx]; [by right|left]. intros ->. exact (alloc_not_old c Hc Hx HyF Hyc). }
    assert (geti (mem s') y = geti (mem s) y) as E by (rewrite Hm by done; exact (alloc_old_same y c Hc Hyc (HyF id Hid))).
    unfold held_chunk. rewrite E, E1, Hpl. split_and!; [by exists c| | |done].
    + intros d Hd. exact (alloc_old_free y c d Hc Hyc HyF Hd).
    + intros [?|[-> ?]]%Hnew; [done|]. by destruct Hyx.
  - intros y Hy. destruct (Hnew y Hy) as [Hy'|[-> Hx]].
    + destruct (Hold y Hy') as (_ & E & _). rewrite E. by apply I.
    + by destruct (Hgood Hx) as (_ & _ & _ & _ & _ & _ & _ & ?).
  - rewrite E2. eapply table_rep_frame; [apply I|]. intros k y Hy.
    assert (linked m y) as Hl by by exists k. destruct (Hold y (or_introl Hl)) as (_ & E & _). rewrite E.
    split_and!; [done|done|]. apply (has_dom _ _ ITEM_LINKED). rewrite E.
    by apply (live_flags _ _ _ _ _ _ I (or_introl Hl)).
  - eapply queue_frame; [apply I|exact E3|]. intros c y Hy.
    by destruct (Hold y (ci_q _ _ _ _ _ I c y Hy)) as (_ & -> & _).
  - intros y. destruct (decide (y = x)) as [->|]; [|rewrite Hr by done; by eapply I].
    destruct (decide (x = 0)) as [Hx|Hx]; [rewrite Hr0 by done; by eapply I|rewrite Hr1 by done; lia].
  - intros y Hy. destruct (Hnew y Hy) as [Hy'|[-> Hx]].
    + destruct (Hold y Hy') as (_ & E & Er).
      pose proof (ci_live _ _ _ _ _ I y Hy') as (H1 & H2 & H3 & H4 & H5 & H6 & H7 & H8 & H9 & H10).
      unfold live_item. rewrite E, Er, E1, Hpl. rewrite (proj1 (proj2 alloc_classes _ (proj1 H1))).
      destruct (alloc_chunks_old y _ H1 H2 (H3 _ H1)) as [Hch Hid'].
      split; [done|]. split; [done|]. split; [|by split_and!].
      intros c Hc. exact (alloc_old_free y _ c H1 H2 H3 Hc).
    + destruct (Hgood Hx) as (G1 & G2 & G3 & G4 & G5 & G6 & G7 & _).
      destruct (ap_chunk _ _ _ _ _ _ _ _ _ _ P Hx) as (Hc' & Hl & _).
      unfold live_item. rewrite E1, Hpl, G1, G4, G5, Hr1 by done.
      split; [done|]. split; [done|]. split; [|split_and!; try done].
      * intros c Hc Hy'. assert (c = id) as ->.
        { eapply chunk_class_unique; [exact Is'|by rewrite Hpl|by rewrite Hpl| |exact Hc'].
          apply (si_sub _ _ _ _ _ _ Is'); [by rewrite Hpl|done]. }
        apply Hl. unfold upd in Hy'. by rewrite decide_True in Hy'.
      * split; [done|]. intros Hlk. destruct (alloc_not_used Hx). by left.
  - intros c y Hy. apply Hkeep. by eapply I.
  - rewrite E4. apply I.
  - rewrite E5, (ci_bytes _ _ _ _ _ I). f_equal. apply sum_ntotal_ext. intros y Hy.
    apply table_items_elem in Hy. by destruct (Hold y (or_introl Hy)) as (_ & -> & _).
  - done.
Qed.
End alloc_step.

(** The outcome of an attempt: no chunk, or a chunk handed out. *)
Definition alloc_outcome (m : gmap (list Z) Z) (refs : Z -> Z) (id x : Z) (s s' : st) : Prop :=
  effect (used m refs) s s' /\
  ((x = 0 /\ exists Q F, store_inv m Q F refs s') \/ (x <> 0 /\ pending m refs id x s')).

Lemma alloc_outcome_trans m m' refs id x s s1 s2 : m' ⊆ m -> effect (used m refs) s s1 ->
  alloc_outcome m' refs id x s1 s2 -> alloc_outcome m' refs id x s s2.
Proof.
  intros Hm Ef [Ef' H]. split; [|done]. eapply effect_trans; [exact Ef|exact Ef'|].
  intros y. by apply used_subset.
Qed.

Lemma slabs_alloc_outcome m Q F refs s size id : store_inv m Q F refs s ->
  1 <= id <= power_largest (slb s) -> size <= csize (getc (slb s) id) ->
  exists x total s', slabs_alloc cfg size id 0 s = Ok ((x, total), s') /\ alloc_outcome m refs id x s s'.
Proof.
  intros [I HQ] Hid Hsz.
  destruct (do_slabs_alloc_inv cfg cap (mem s) (slb s) F size id 0 (ci_slabs _ _ _ _ _ I) Hid Hsz
    (co_len _ (ci_classes _ _ _ _ _ I) id Hid)) as (x & h' & sl' & l & E & Is' & P & Hl0 & _).
  assert (bodies_ok h') as Hb by (eapply bodies_alloc; [apply I|exact E]).
  exists x, (requested (getc (slb s) id)), ((with_mem s h') <| slb := sl' |>).
  split; [|split].
  - unfold slabs_alloc. by rewrite E.
  - split; [by eapply alloc_classes| |done]. intros y Hy. simpl.
    f_equal. by eapply alloc_used_same.
  - destruct (decide (x = 0)) as [Hx|Hx]; [left|right]; (split; [done|]).
    + exists Q, (upd F id l). split; [|done].
      eapply (alloc_core m Q F refs s size id x h' sl' l I Hid Is' P); try done; by intros.
    + destruct (ap_chunk _ _ _ _ _ _ _ _ _ _ P Hx) as (Hc & _ & Hrf & Hfl & Hcl & _).
      assert (1 <= id <= power_largest sl') as Hid' by (by rewrite (ap_pl _ _ _ _ _ _ _ _ _ _ P)).
      destruct (chunk_in_page cfg _ _ _ _ _ _ _ Is' Hid' Hc) as (q & _ & _ & _ & Hpos).
      split; simpl; try done; [by eapply alloc_not_used|].
      exists Q, (upd F id l). split; [done|]. intros s' f (E1 & E2 & E3 & E4 & E5) Em Hg. simpl in Em.
      eapply (alloc_core m Q F refs s size id x h' sl' l I Hid Is' P); try done.
      * intros y [Hy|?]; [|done]. rewrite Em, geti_seti_ne; congruence.
      * intros y. destruct (decide (y = x)) as [->|Hy].
        -- destruct Hg as (_ & _ & _ & _ & _ & [Hok _] & _). exact Hok.
        -- rewrite Em, geti_seti_ne by congruence. apply Hb.
      * intros y Hy. by rewrite rupd_ne.
      * intros _. apply rupd_eq.
Qed.

Lemma pending_parts m refs id x s s' : pending m refs id x s -> same_parts s s' -> mem s' = mem s ->
  pending m refs id x s'.
Proof.
  intros [H1 H2 H3 H4 H5 H6 (Q & F & HQ & H7)] (E1 & E2 & E3 & E4 & E5) Em.
  split; rewrite ?Em; try done. exists Q, F. split; [done|].
  intros s2 f (G1 & G2 & G3 & G4 & G5) Em2 Hg. eapply H7; [|exact Em2|by rewrite E1].
  split_and!; [congruence|congruence| |congruence|congruence].
  destruct E3 as (? & ? & ? & ?), G3 as (? & ? & ? & ?). split_and!; congruence.
Qed.

Lemma alloc_pull_loop_outcome refs ntotal id : tail_repair_time cfg = 0 -> refs_bounded refs ->
  forall n i m Q F s, store_inv m Q F refs s -> 1 <= id <= power_largest (slb s) ->
  ntotal <= csize (getc (slb s) id) ->
  exists x i' m' s', alloc_pull_loop cfg hash n i ntotal id s = Ok ((x, i'), s') /\ m' ⊆ m /\
    alloc_outcome m' refs id x s s'.
Proof.
  intros Ht Hb. induction n as [|n IH]; intros i m Q F s I Hid Hsz.
  { exists 0, i, m, s. split; [done|]. split; [done|]. split; [apply effect_refl|]. left. eauto. }
  assert (forall s1 m1, effect (used m1 refs) s s1 -> m1 ⊆ m ->
    1 <= id <= power_largest (slb s1) /\ ntotal <= csize (getc (slb s1) id)) as Hcls.
  { intros s1 m1 Ef _. destruct (ef_classes _ _ _ Ef) as [-> Hc]. split; [done|].
    by destruct (Hc id) as [-> _]; [lia|]. }
  assert (forall m1 Q1 F1 s1 i, m1 ⊆ m -> store_inv m1 Q1 F1 refs s1 -> effect (used m1 refs) s s1 ->
    exists x i' m' s', alloc_pull_loop cfg hash n i ntotal id s1 = Ok ((x, i'), s') /\ m' ⊆ m /\
      alloc_outcome m' refs id x s s') as Hnext.
  { intros m1 Q1 F1 s1 i1 Hm1 I1 Ef1. destruct (Hcls s1 m1 Ef1 Hm1) as [Hid1 Hsz1].
    destruct (IH i1 m1 Q1 F1 s1 I1 Hid1 Hsz1) as (x & i' & m' & s' & E & Hm' & O).
    exists x, i', m', s'. split; [done|]. split; [by trans m1|]. by eapply (alloc_outcome_trans m1). }
  simpl alloc_pull_loop.
  assert (exists m1, m1 ⊆ m /\ does (when (negb (lru_segmented cfg))
    (lru_pull_tail cfg hash id COLD_LRU 0 0 0;; mret tt)) s tt m1 refs) as (m1 & Hm1 & Q1 & F1 & s1 & E1 & I1 & Ef1).
  { destruct (lru_segmented cfg).
    - exists m. split; [done|]. exact (does_ret tt m Q F refs s I).
    - destruct (lru_pull_tail_does m Q F refs s id COLD_LRU 0 0 0) as (n1 & m1 & Hm1 & D); try done.
      { right. right. by left. }
      exists m1. split; [done|]. eapply does_bind; [exact D| |done]. intros. by eapply does_ret. }
  rewrite (M_bind_ok _ _ _ _ _ E1).
  destruct (Hcls s1 m1 Ef1 Hm1) as [Hid1 Hsz1].
  destruct (slabs_alloc_outcome m1 Q1 F1 refs s1 ntotal id I1 Hid1 Hsz1) as (x & total & s2 & E2 & O2).
  rewrite (M_bind_ok _ _ _ _ _ E2). cbv beta iota.
  assert (exists temp, (if temp_lru cfg then temp_lru_size id else mret 0) s2 = Ok (temp, s2)) as (temp & E3).
  { destruct (temp_lru cfg); [|by exists 0]. by eexists. }
  rewrite (M_bind_ok _ _ _ _ _ E3). cbv zeta.
  destruct O2 as [Ef2 [[-> (Q2 & F2 & I2)]|[Hx Hp]]].
  - rewrite decide_True by done.
    assert (effect (used m1 refs) s s2) as Ef02 by (by eapply effect_trans).
    destruct (lru_pull_tail_does m1 Q2 F2 refs s2 id COLD_LRU (u64 (total - temp)) LRU_PULL_EVICT 0)
      as (n3 & m3 & Hm3 & Q3 & F3 & s3 & E4 & I3 & Ef3); try done.
    { right. right. by left. }
    rewrite (M_bind_ok _ _ _ _ _ E4). cbv beta iota.
    assert (m3 ⊆ m) as Hm3' by (by trans m1).
    assert (effect (used m3 refs) s s3) as Ef03 by
      (eapply effect_trans; [exact Ef02|exact Ef3|]; intros y; by apply used_subset).
    destruct (decide (n3 <= 0)); [|by eapply Hnext].
    destruct (lru_segmented cfg).
    + destruct (lru_pull_tail_does m3 Q3 F3 refs s3 id HOT_LRU (u64 (total - temp)) 0 0)
        as (n4 & m4 & Hm4 & Q4 & F4 & s4 & E5 & I4 & Ef4); try done.
      { by left. }
      rewrite (M_bind_ok _ _ _ _ _ E5). eapply (Hnext m4); [by trans m3|exact I4|].
      eapply effect_trans; [exact Ef03|exact Ef4|]. intros y. by apply used_subset.
    + exists 0, i, m3, s3. split; [done|]. split; [done|]. split; [done|]. left. eauto.
  - rewrite decide_False by done. exists x, i, m1, s2. split; [done|]. split; [done|].
    split; [by eapply effect_trans|]. by right.
Qed.

Lemma do_item_alloc_pull_outcome m Q F refs s ntotal id : tail_repair_time cfg = 0 -> refs_bounded refs ->
  store_inv m Q F refs s -> 1 <= id <= power_largest (slb s) -> ntotal <= csize (getc (slb s) id) ->
  exists x m' s', do_item_alloc_pull cfg hash ntotal id s = Ok (x, s') /\ m' ⊆ m /\ alloc_outcome m' refs id x s s'.
Proof.
  intros Ht Hb I Hid Hsz.
  destruct (alloc_pull_loop_outcome refs ntotal id Ht Hb 10 0 m Q F s I Hid Hsz) as (x & i & m' & s1 & E & Hm & O).
  unfold do_item_alloc_pull. rewrite (M_bind_ok _ _ _ _ _ E). cbv beta iota.
  assert (exists s2, when (bool_decide (0 < i))
    (set_istat id (fun x => x <| direct_reclaims := u64 (direct_reclaims x + i) |>)) s1 = Ok (tt, s2) /\
    same_parts s1 s2 /\ mem s2 = mem s1 /\ same_env s1 s2) as (s2 & E2 & Hp & Em & En).
  { destruct (bool_decide _); eexists; (split; [reflexivity|]); by repeat split. }
  rewrite (M_bind_ok _ _ _ _ _ E2). exists x, m', s2. split; [done|]. split; [done|].
  destruct O as [Ef O]. split.
  - eapply effect_trans; [exact Ef|apply effect_parts; [symmetry; apply Hp|done|done]|done].
  - destruct O as [[-> (Q1 & F1 & I1 & HQ1)]|[Hx Hpe]].
    + left. split; [done|]. exists Q1, F1. split; [by eapply core_parts|done].
    + right. split; [done|]. by eapply pending_parts.
Qed.

(** *** do_item_alloc *)

Lemma resize_bytes n l : bytes_ok l -> bytes_ok (resize n 0 l).
Proof. intros H. apply Forall_resize; [done|exact H]. Qed.

Lemma poke_bytes l o bs : bytes_ok l -> bytes_ok bs -> bytes_ok (poke l o bs).
Proof.
  intros Hl Hb. unfold poke, write_bytes. apply Forall_app. split.
  - by apply Forall_take, resize_bytes.
  - apply Forall_app. split; [done|]. by apply Forall_drop, resize_bytes.
Qed.

Lemma poke_length l o bs : length (poke l o bs) = Nat.max (length l) (o + length bs).
Proof. unfold poke. rewrite write_bytes_length; rewrite length_resize; lia. Qed.

Lemma poke_take_here l bs : take (length bs) (poke l 0 bs) = bs.
Proof. unfold poke, write_bytes. rewrite take_0, app_nil_l. apply take_app_length. Qed.

Lemma poke_take_before l o bs n : (n <= o)%nat -> (n <= length l)%nat -> take n (poke l o bs) = take n l.
Proof.
  intros H1 H2. unfold poke, write_bytes. rewrite take_app_le.
  - rewrite take_take, Nat.min_l by lia. rewrite resize_spec, take_app_le by (rewrite length_take; lia).
    by rewrite take_take, Nat.min_l by lia.
  - rewrite length_take, length_resize. lia.
Qed.

Lemma dec_loop_bytes fuel : forall x acc, bytes_ok acc -> bytes_ok (dec_loop fuel x acc).
Proof.
  induction fuel as [|fuel IH]; intros x acc H; [done|]. simpl.
  assert (bytes_ok ((48 + x mod 10) :: acc)).
  { constructor; [|done]. unfold in_u. mod_lia. }
  destruct (decide _); [done|by apply IH].
Qed.

Lemma dec_u_bytes x : bytes_ok (dec_u x).
Proof. apply dec_loop_bytes. constructor. Qed.

Lemma inline_suffix_bytes flags n : bytes_ok (inline_suffix flags n).
Proof.
  unfold inline_suffix. apply Forall_take. repeat apply Forall_app_2; try apply dec_u_bytes;
    try (repeat constructor; done).
  unfold dec_d. destruct (decide _); [|apply dec_u_bytes]. constructor; [done|apply dec_u_bytes].
Qed.

Lemma le32_bytes_ok x : bytes_ok (le32_bytes x).
Proof. unfold le32_bytes. repeat constructor; try apply Z.mod_pos_bound; lia. Qed.

(** The size asked of the slab allocator. *)
Definition alloc_ntotal (nkey flags nbytes : Z) : Z :=
  let '(ntotal, _, _) := item_make_header cfg (nkey + 1) flags nbytes in
  if use_cas cfg then u64 (ntotal + 8) else ntotal.

Definition alloc_nsuffix (nkey flags nbytes : Z) : Z :=
  let '(_, _, n) := item_make_header cfg (nkey + 1) flags nbytes in n.

(** The item do_item_alloc makes of chunk [i]. *)
Definition new_item (key : list Z) (nkey flags exptime nbytes clsid : Z) (i : item) : item :=
  let '(_, suffix, nsuffix) := item_make_header cfg (nkey + 1) flags nbytes in
  let i := i <| next := 0 |> <| prev := 0 |> in
  let i := i <| Heap.slabs_clsid := clsid |> in
  let i := if use_cas cfg then set_flag ITEM_CAS i else i in
  let i := i <| Heap.nkey := u8 nkey |> <| Heap.nbytes := nbytes |>
             <| body ::= fun b => poke b 0 (take (Z.to_nat nkey) key) |> in
  let i := i <| Heap.exptime := exptime |> in
  let i := if inline_ascii_response cfg
           then i <| body ::= fun b => poke b (ITEM_suffix_off i) (take (Z.to_nat nsuffix) suffix) |>
           else if decide (0 < nsuffix)
           then i <| body ::= fun b => poke b (ITEM_suffix_off i) (le32_bytes flags) |> else i in
  let i := i <| Heap.nsuffix := nsuffix |> in
  i <| h_next := 0 |>.

Lemma new_item_fields key nkey flags exptime nbytes clsid i :
  bytes_ok key -> 0 <= nkey <= 250 -> nkey <= Z.of_nat (length key) -> bytes_ok (body i) -> it_flags i = 0 ->
  let j := new_item key nkey flags exptime nbytes clsid i in
  Heap.slabs_clsid j = clsid /\ Heap.nkey j = nkey /\ Heap.nbytes j = nbytes /\ Heap.exptime j = exptime /\
  Heap.nsuffix j = alloc_nsuffix nkey flags nbytes /\
  it_flags j = (if use_cas cfg then ITEM_CAS else 0) /\ refcount j = refcount i /\ bytes_ok (body j) /\
  nkey <= Z.of_nat (length (body j)) /\ ITEM_key j = take (Z.to_nat nkey) key.
Proof.
  intros Hk Hn Hl Hb Hf. unfold new_item, alloc_nsuffix.
  destruct (item_make_header cfg (nkey + 1) flags nbytes) as [[nt suffix] nsuffix] eqn:E.
  assert (bytes_ok suffix) as Hs.
  { unfold item_make_header in E. destruct (inline_ascii_response cfg); injection E as _ <- _;
      [apply inline_suffix_bytes|constructor]. }
  assert (u8 nkey = nkey) as Eu by (apply wrap_small; unfold in_u; lia).
  set (b1 := poke (body i) 0 (take (Z.to_nat nkey) key)).
  assert (length (take (Z.to_nat nkey) key) = Z.to_nat nkey) as Hlk by (rewrite length_take; lia).
  assert (bytes_ok b1) as Hb1 by (apply poke_bytes; [done|by apply Forall_take]).
  assert (Z.to_nat nkey <= length b1)%nat as Hlb1 by (unfold b1; rewrite poke_length, Hlk; lia).
  assert (take (Z.to_nat nkey) b1 = take (Z.to_nat nkey) key) as Ht1
    by (unfold b1; rewrite <- Hlk at 1; apply poke_take_here).
  assert (forall c sfx, bytes_ok sfx -> let b2 := poke b1 (Z.to_nat (nkey + 1)) sfx in
    bytes_ok b2 /\ nkey <= Z.of_nat (length b2) /\
    take (Z.to_nat nkey) b2 = take (Z.to_nat nkey) key /\ c = c :> Z) as Hb2.
  { intros c sfx Hsf. cbv zeta. split_and!; [by apply poke_bytes|rewrite poke_length; lia| |done].
    rewrite poke_take_before by lia. done. }
  destruct (use_cas cfg), (inline_ascii_response cfg); try destruct (decide (0 < nsuffix));
    unfold ITEM_key, ITEM_suffix_off, set_flag; simpl; rewrite ?Eu, ?Hf;
    fold b1; split_and!; try done; try lia;
    try (apply (Hb2 0); first [by apply Forall_take|apply le32_bytes_ok]).
Qed.

Definition new_clsid (id exptime t : Z) : Z :=
  if temp_lru cfg && bool_decide (u32 (exptime - t) <= temporary_ttl cfg) then Z.lor id TEMP_LRU
  else if lru_segmented cfg then Z.lor id HOT_LRU else Z.lor id COLD_LRU.

Lemma new_clsid_class id exptime t i : 0 <= id < 64 -> Heap.slabs_clsid i = new_clsid id exptime t ->
  ITEM_clsid i = id.
Proof.
  intros Hid E. unfold ITEM_clsid, clear. rewrite E. change (255 - 192) with (2 ^ 6 - 1).
  assert (exists w, new_clsid id exptime t = Z.lor id w /\ Z.land w (2 ^ 6 - 1) = 0) as (w & -> & Hw).
  { unfold new_clsid. repeat case_match; by eexists. }
  rewrite Z.land_lor_distr_l, Hw, Z.lor_0_r, land_mask by lia. apply Z.mod_small. lia.
Qed.

(** The assignments that make the chunk an item. *)
Lemma alloc_finish s x key nkey flags exptime nbytes id nt suffix nsuffix :
  item_make_header cfg (nkey + 1) flags nbytes = (nt, suffix, nsuffix) ->
  it_flags (geti (mem s) x) = 0 -> Heap.slabs_clsid (geti (mem s) x) = 0 ->
  (i ← rd x;
   massert (bool_decide (Heap.slabs_clsid i = 0));;
   wr x (fun i => i <| next := 0 |> <| prev := 0 |>);;
   t ← gets now;
   wr x (fun i => i <| Heap.slabs_clsid := new_clsid id exptime t |>);;
   when (use_cas cfg) (wr x (set_flag ITEM_CAS));;
   wr x (fun i => i <| Heap.nkey := u8 nkey |> <| Heap.nbytes := nbytes |>
                     <| body ::= fun b => poke b 0 (take (Z.to_nat nkey) key) |>);;
   wr x (fun i => i <| Heap.exptime := exptime |>);;
   (if inline_ascii_response cfg
    then wr x (fun i => i <| body ::= fun b => poke b (ITEM_suffix_off i) (take (Z.to_nat nsuffix) suffix) |>)
    else when (bool_decide (0 < nsuffix))
      (wr x (fun i => i <| body ::= fun b => poke b (ITEM_suffix_off i) (le32_bytes flags) |>)));;
   wr x (fun i => i <| Heap.nsuffix := nsuffix |>);;
   i ← rd x;
   when (has i ITEM_CHUNKED)
     (wr (ITEM_data_addr x i) (fun c => c <| next := 0 |> <| prev := 0 |> <| ch_used := 0 |>
        <| ch_size := 0 |> <| ch_head := x |> <| ch_orig_clsid := u8 0 |>));;
   wr x (fun i => i <| h_next := 0 |>);;
   mret x) s =
  Ok (x, with_mem s (seti (mem s) x
    (new_item key nkey flags exptime nbytes (new_clsid id exptime (now s))))).
Proof.
  intros E Hf Hc. rewrite rd_bind, Hc, massert_bind by done. rewrite wr_bind, gets_bind, wr_bind.
  unfold new_item. rewrite E. change (now (s <| mem := _ |>)) with (now s).
  destruct (use_cas cfg), (inline_ascii_response cfg); [| |..];
    try (destruct (decide (0 < nsuffix)) as [Hn|Hn];
      [rewrite (bool_decide_true (0 < nsuffix)) by done|rewrite (bool_decide_false (0 < nsuffix)) by done]);
    repeat first [rewrite wr_bind | rewrite mret_bind | rewrite when_bind_true by reflexivity
      | rewrite when_bind_false by reflexivity | rewrite rd_bind | progress cbv beta iota]; simpl mem;
    (rewrite when_bind_false; [|rewrite ?geti_seti_eq; unfold has; simpl; by rewrite Hf]);
    rewrite wr_bind; simpl mem; rewrite ?seti_seti; done.
Qed.

Lemma pending_item m refs id x s f s' : pending m refs id x s -> same_parts s s' -> same_env s s' ->
  mem s' = seti (mem s) x f -> good_new (slb s) id (f (geti (mem s) x)) ->
  (exists Q F, store_inv m Q F (rupd refs x 1) s') /\ effect (used m refs) s s'.
Proof.
  intros P Hp Hn Em Hg. destruct (pe_inv _ _ _ _ _ P) as (Q & F & HQ & H). split.
  - exists Q, F. split; [|exact HQ]. eapply H; [done|exact Em|]. by rewrite Em, geti_seti_eq.
  - split; [rewrite <- (proj1 Hp); apply same_classes_refl| |done].
    intros y Hy. rewrite Em, geti_seti_ne; [done|]. intros ->. by apply (pe_unused _ _ _ _ _ P).
Qed.

(** What a successful allocation leaves at [x]. *)
Record allocated (key : list Z) (nkey exptime nbytes : Z) (s' : st) (x : Z) : Prop := {
  al_key : ikey (mem s') x = take (Z.to_nat nkey) key;
  al_nbytes : Heap.nbytes (geti (mem s') x) = nbytes;
  al_exptime : Heap.exptime (geti (mem s') x) = exptime;
  al_nkey : Heap.nkey (geti (mem s') x) = nkey;
  al_suffix : 0 <= nsuffix (geti (mem s') x);
  al_linked : has (geti (mem s') x) ITEM_LINKED = false;
  al_fits : ITEM_ntotal (geti (mem s') x) <= csize (getc (slb s') (ITEM_clsid (geti (mem s') x)))
}.

Lemma alloc_size nkey flags nbytes : 0 <= nkey <= 250 -> 2 <= nbytes < 2 ^ 31 ->
  let nsuffix := alloc_nsuffix nkey flags nbytes in
  0 <= nsuffix < 256 /\
  alloc_ntotal nkey flags nbytes = sizeof_item + nkey + 1 + nsuffix + nbytes + (if use_cas cfg then 8 else 0).
Proof.
  intros Hn Hb. unfold alloc_nsuffix, alloc_ntotal, item_make_header.
  assert (u8 (nkey + 1) = nkey + 1) as -> by (apply wrap_small; unfold in_u; lia).
  assert (forall n, 0 <= n < 256 -> u64 (sizeof_item + (nkey + 1) + n + nbytes) = sizeof_item + (nkey + 1) + n + nbytes) as E.
  { intros n Hn'. apply wrap_small. unfold in_u, sizeof_item. norm_pow2. lia. }
  assert (forall n, 0 <= n < 256 -> (if use_cas cfg then u64 (u64 (sizeof_item + (nkey + 1) + n + nbytes) + 8)
    else u64 (sizeof_item + (nkey + 1) + n + nbytes)) =
    sizeof_item + nkey + 1 + n + nbytes + (if use_cas cfg then 8 else 0)) as E2.
  { intros n Hn'. rewrite E by done. destruct (use_cas cfg); [|unfold sizeof_item; lia].
    rewrite wrap_small; unfold in_u, sizeof_item; norm_pow2; lia. }
  destruct (inline_ascii_response cfg).
  - assert (0 <= u8 (inline_suffix_len flags nbytes) < 256) as Hr by (unfold wrap; mod_lia).
    cbv zeta iota. split; [done|]. by apply E2.
  - destruct (decide (flags = 0)); (split; [lia|]); by apply E2.
Qed.

Lemma new_item_good sl key nkey flags exptime nbytes id t i :
  bytes_ok key -> 0 <= nkey <= 250 -> nkey <= Z.of_nat (length key) -> 2 <= nbytes < 2 ^ 31 ->
  1 <= id < 64 -> bytes_ok (body i) -> it_flags i = 0 -> refcount i = 1 ->
  alloc_ntotal nkey flags nbytes <= csize (getc sl id) ->
  let j := new_item key nkey flags exptime nbytes (new_clsid id exptime t) i in
  good_new sl id j /\ ITEM_key j = take (Z.to_nat nkey) key /\ Heap.nbytes j = nbytes /\
  Heap.exptime j = exptime /\ Heap.nkey j = nkey /\ 0 <= nsuffix j /\ ITEM_ntotal j = alloc_ntotal nkey flags nbytes.
Proof.
  intros Hk Hn Hl Hnb Hid Hb Hf Hr Hfit.
  destruct (new_item_fields key nkey flags exptime nbytes (new_clsid id exptime t) i Hk Hn Hl Hb Hf)
    as (F1 & F2 & F3 & F4 & F5 & F6 & F7 & F8 & F9 & F10).
  cbv zeta. set (j := new_item _ _ _ _ _ _ _) in *.
  destruct (alloc_size nkey flags nbytes Hn Hnb) as [Hs E].
  assert (has j ITEM_CAS = use_cas cfg) as Hcas by (unfold has; rewrite F6; by destruct (use_cas cfg)).
  assert (forall f, f <> ITEM_CAS -> f = ITEM_SLABBED \/ f = ITEM_CHUNKED \/ f = ITEM_LINKED \/ f = ITEM_CHUNK -> has j f = false) as Hfl.
  { intros f _ [->|[->|[->| ->]]]; unfold has; rewrite F6; by destruct (use_cas cfg). }
  assert (ITEM_ntotal j = alloc_ntotal nkey flags nbytes) as Hnt.
  { unfold ITEM_ntotal. rewrite F2, F3, F5, Hcas, E. apply wrap_small. unfold in_u, sizeof_item.
    norm_pow2. destruct (use_cas cfg); lia. }
  split; [|split_and!; try done; rewrite F5; apply Hs].
  - split; [eapply new_clsid_class; [|exact F1]; lia|]. rewrite !Hfl by auto. rewrite F7.
    unfold item_ok, in_chunk. rewrite F2, F3, F5, Hnt. split_and!; try done; lia.
Qed.

Definition alloc_post_op (m : gmap (list Z) Z) (refs : Z -> Z) (key : list Z) (nkey exptime nbytes : Z)
    (s : st) (x : Z) (m' : gmap (list Z) Z) (s' : st) : Prop :=
  m' ⊆ m /\ effect (used m' refs) s s' /\
  ((x = 0 /\ exists Q F, store_inv m' Q F refs s') \/
   (x <> 0 /\ ~ used m' refs x /\ (exists Q F, store_inv m' Q F (rupd refs x 1) s') /\
    allocated key nkey exptime nbytes s' x)).

Lemma alloc_none m Q F refs s s' key nkey exptime nbytes : store_inv m Q F refs s ->
  same_parts s s' -> mem s' = mem s -> same_env s s' ->
  alloc_post_op m refs key nkey exptime nbytes s 0 m s'.
Proof.
  intros I Hp Hm Hn. split; [done|]. split; [apply effect_parts; [symmetry; apply Hp|done|done]|].
  left. split; [done|]. exists Q, F. destruct I as [I HQ]. split; [|done]. by eapply core_parts.
Qed.

Lemma do_item_alloc_spec m Q F refs s key nkey flags exptime nbytes :
  tail_repair_time cfg = 0 -> refs_bounded refs -> store_inv m Q F refs s ->
  bytes_ok key -> 0 <= nkey <= 250 -> nkey <= Z.of_nat (length key) -> nbytes < 2 ^ 31 ->
  alloc_ntotal nkey flags nbytes <= slab_chunk_size_max cfg ->
  exists x m' s', do_item_alloc cfg hash key nkey flags exptime nbytes s = Ok (x, s') /\
    alloc_post_op m refs key nkey exptime nbytes s x m' s'.
Proof.
  intros Ht Hb I Hk Hn Hl Hnb Hmax. unfold do_item_alloc.
  destruct (decide (nbytes < 2)).
  { exists 0, m, s. split; [done|]. by eapply alloc_none. }
  destruct (alloc_size nkey flags nbytes Hn ltac:(lia)) as [Hs Hsz]. cbv zeta in Hsz.
  revert Hmax Hsz. unfold alloc_ntotal. destruct (item_make_header cfg (nkey + 1) flags nbytes) as [[nt suffix] nsuffix] eqn:Eh.
  cbv zeta. set (ntotal := if use_cas cfg then u64 (nt + 8) else nt). intros Hmax Hsz.
  rewrite gets_bind. set (id := slabs_clsid cfg (slb s) ntotal). pose proof I as [Ic HQ].
  pose proof (si_pl _ _ _ _ _ _ (ci_slabs _ _ _ _ _ Ic)) as Hpl.
  destruct (slabs_clsid_bounds cfg (slb s) ntotal (co_sorted _ (ci_classes _ _ _ _ _ Ic)) ltac:(lia)) as [Hid0 Hid].
  fold id in Hid0, Hid.
  destruct (decide (id = 0)) as [|Hne].
  { exists 0, m, s. split; [done|]. by eapply alloc_none. }
  assert (0 < ntotal) as Hpos.
  { rewrite Hsz. unfold sizeof_item. destruct (use_cas cfg); lia. }
  destruct (decide (item_size_max cfg < ntotal)) as [Hbig|Hbig]; [destruct Hne; apply Hid0; by right|].
  destruct (Hid ltac:(lia)) as (Hidr & _ & Hfit). clear Hid Hid0.
  assert (ntotal <= csize (getc (slb s) id)) as Hcs.
  { destruct Hfit as [?|E]; [done|]. rewrite E. etransitivity; [exact Hmax|]. apply (ci_classes _ _ _ _ _ Ic). }
  rewrite decide_False by lia.
  destruct (do_item_alloc_pull_outcome m Q F refs s ntotal id Ht Hb I Hidr Hcs) as (x & m' & s1 & E1 & Hm & Ef1 & O).
  assert ((it ← do_item_alloc_pull cfg hash ntotal id; mret (it, 0)) s = Ok (x, 0, s1)) as E1'
    by by rewrite (M_bind_ok _ _ _ _ _ E1).
  rewrite (M_bind_ok _ _ _ _ _ E1'). cbv beta iota.
  destruct O as [[-> (Q1 & F1 & I1)]|[Hx P]].
  - rewrite decide_True by done. eexists 0, m', _. split; [reflexivity|]. split; [done|].
    pose proof (alloc_none m' Q1 F1 refs s1 (s1 <| lru ::= fun l => l <| itemstats ::=
      <[id := (default itemstats0 (itemstats l !! id)) <| outofmemory ::= inc64 |>]> |> |>)
      key nkey exptime nbytes I1 ltac:(by repeat split) eq_refl ltac:(done)) as (_ & Ef2 & O2).
    split; [by eapply effect_trans|exact O2].
  - rewrite decide_False by done.
    pose proof (alloc_finish s1 x key nkey flags exptime nbytes id nt suffix nsuffix Eh
      (pe_flags _ _ _ _ _ P) (pe_clsid _ _ _ _ _ P)) as E2.
    set (j := new_item key nkey flags exptime nbytes (new_clsid id exptime (now s1))) in E2.
    assert (ntotal <= csize (getc (slb s1) id)) as Hcs1
      by by rewrite (proj1 (proj2 (ef_classes _ _ _ Ef1) id (proj1 Hidr))).
    destruct (new_item_good (slb s1) key nkey flags exptime nbytes id (now s1) (geti (mem s1) x) Hk Hn Hl
      ltac:(lia) ltac:(unfold MAX_NUMBER_OF_SLAB_CLASSES in Hpl; lia) (pe_body _ _ _ _ _ P)
      (pe_flags _ _ _ _ _ P) (pe_ref _ _ _ _ _ P) ltac:(unfold alloc_ntotal; by rewrite Eh)) as (Hg & G1 & G2 & G3 & G5 & G6 & G4).
    fold j in Hg, G1, G2, G3, G4, G5, G6.
    destruct (pending_item _ _ _ _ _ j (with_mem s1 (seti (mem s1) x j)) P) as [Hinv Ef2]; try done.
    exists x, m', (with_mem s1 (seti (mem s1) x j)). split; [exact E2|]. split; [done|].
    split; [by eapply effect_trans|]. right. split; [done|]. split; [apply P|]. split; [done|].
    assert (geti (mem (with_mem s1 (seti (mem s1) x j))) x = j (geti (mem s1) x)) as Eg by apply geti_seti_eq.
    split; unfold ikey; rewrite Eg; try done; [apply Hg|].
    rewrite G4, (proj1 Hg). unfold alloc_ntotal. by rewrite Eh.
Qed.

End store.
