(* ===== verification/StoreSpec.v ===== *)
(** * The item store as a map with reference counts

    The abstract specification of items.c: a finite map from keys to items, and
    the number of references its clients hold on each.  Every operation a worker
    thread calls (under the item lock of the key) refines an operation on that
    state, whatever sequence of operations ran before, as long as clients keep
    their side: release only references they hold, link only new keys. *)

From S2P Require Import Prelude Decimal Hash Heap Assoc Settings Slabs BipBuffer Items StoreInv.

Inductive store_op :=
| OGet (key : list Z) (nkey : Z) (upd : bool)
| OTouch (key : list Z) (nkey exptime : Z)
| OAlloc (key : list Z) (nkey flags exptime nbytes : Z)
| OLink (it : Z)
| OUnlink (it : Z)
| OReplace (it new_it : Z)
| OUpdate (it : Z)
| ORemove (it : Z)
| OPull (id cur_lru total_bytes flags max_age : Z)
| OTick (t : Z).

Section spec.
Context (cfg : settings) (hash : hash_func) `{!HashFunction hash}.

(** The calls, with the hash value the callers compute from the key. *)
Definition hashed (it : Z) (f : Z -> M st Z) : M st Z := hv ← gets (fun s => item_hash hash (mem s) it); f hv.
Definition void (m : M st unit) : M st Z := m;; mret 0.

Definition store_step (o : store_op) : M st Z :=
  match o with
  | OGet k nk upd => do_item_get cfg k nk (hash 0 k (Z.to_nat nk)) upd
  | OTouch k nk t => do_item_touch cfg k nk t (hash 0 k (Z.to_nat nk))
  | OAlloc k nk fl ex nb => do_item_alloc cfg hash k nk fl ex nb
  | OLink it => hashed it (do_item_link cfg it)
  | OUnlink it => hashed it (fun hv => void (do_item_unlink cfg it hv))
  | OReplace it new_it => hashed it (do_item_replace cfg it new_it)
  | OUpdate it => void (do_item_update cfg it)
  | ORemove it => void (do_item_remove cfg it)
  | OPull id cur tot fl age => '(n, _) ← lru_pull_tail cfg hash id cur tot fl age; mret n
  | OTick t => void (modify (fun s => s <| now := t |>))
  end.

Fixpoint store_run (ops : list store_op) : M st (list Z) :=
  match ops with
  | [] => mret []
  | o :: ops => r ← store_step o; rs ← store_run ops; mret (r :: rs)
  end.

(** ** The specification *)

Abbreviation table := (gmap (list Z) Z).

(** What a client must ensure. *)
Definition op_ok (o : store_op) (m : table) (refs : Z -> Z) (s : st) : Prop :=
  refs_bounded refs /\
  match o with
  | OGet k nk _ | OTouch k nk _ => bytes_ok k /\ 0 <= nk <= Z.of_nat (length k)
  | OAlloc k nk fl _ nb => bytes_ok k /\ 0 <= nk <= 250 /\ nk <= Z.of_nat (length k) /\ nb < 2 ^ 31 /\
      alloc_ntotal cfg nk fl nb <= slab_chunk_size_max cfg
  | OLink it => 0 < refs it /\ ~ linked m it /\ m !! ikey (mem s) it = None
  | OUnlink it | OUpdate it => used m refs it
  | OReplace it new_it => linked m it /\ 0 < refs new_it /\ ~ linked m new_it /\
      ikey (mem s) new_it = ikey (mem s) it
  | ORemove it => 0 < refs it
  | OPull _ cur _ fl _ => lru_ids cur /\ Z.land fl LRU_PULL_RETURN_ITEM = 0
  | OTick _ => True
  end.

(** What the operation answers and does to the map and the references.  An
    allocation or a pull may drop items from the map; a new item is one that no
    client holds and the map does not have. *)
Definition spec_step (o : store_op) (s : st) (m : table) (refs : Z -> Z)
    (r : Z) (m' : table) (refs' : Z -> Z) (s' : st) : Prop :=
  match o with
  | OGet k nk _ | OTouch k nk _ =>
      (r, m', refs') = get_answer cfg m refs s (take (Z.to_nat nk) k)
  | OAlloc k nk _ ex nb =>
      m' ⊆ m /\ ((r = 0 /\ refs' = refs) \/
        (r <> 0 /\ ~ used m' refs r /\ refs' = rupd refs r 1 /\ allocated k nk ex nb s' r))
  | OLink it => r = 1 /\ m' = <[ikey (mem s) it := it]> m /\ refs' = refs
  | OUnlink it => r = 0 /\ refs' = refs /\
      m' = (if has (geti (mem s) it) ITEM_LINKED then delete (ikey (mem s) it) m else m)
  | OReplace it new_it => r = 1 /\ m' = <[ikey (mem s) it := new_it]> m /\ refs' = refs
  | OUpdate _ => r = 0 /\ m' = m /\ refs' = refs
  | ORemove it => r = 0 /\ m' = m /\ refs' = rupd refs it (refs it - 1)
  | OPull _ _ _ _ _ => m' ⊆ m /\ refs' = refs
  | OTick t => r = 0 /\ m' = m /\ refs' = refs
  end.

(** The items that are in the map after a step, and those a client held before
    and after it. *)
Definition held (m' : table) (refs refs' : Z -> Z) (y : Z) : Prop :=
  linked m' y \/ (0 < refs y /\ 0 < refs' y).

(** Along a run: every step is as specified, and keeps the contents of the items
    held. *)
Fixpoint spec_run (ops : list store_op) (s : st) (m : table) (refs : Z -> Z)
    (rs : list Z) (m' : table) (refs' : Z -> Z) (s' : st) : Prop :=
  match ops with
  | [] => rs = [] /\ m' = m /\ refs' = refs /\ s' = s
  | o :: ops => exists r rs1 s1 m1 refs1, rs = r :: rs1 /\ store_step o s = Ok (r, s1) /\
      spec_step o s m refs r m1 refs1 s1 /\ keeps (held m1 refs refs1) s s1 /\
      spec_run ops s1 m1 refs1 rs1 m' refs' s'
  end.

Fixpoint client_ok (ops : list store_op) (s : st) (m : table) (refs : Z -> Z) : Prop :=
  match ops with
  | [] => True
  | o :: ops => op_ok o m refs s /\
      forall r s1 m1 refs1, store_step o s = Ok (r, s1) -> spec_step o s m refs r m1 refs1 s1 ->
        client_ok ops s1 m1 refs1
  end.

(** ** Refinement *)

Context (cap : bound).
Abbreviation inv := (fun m refs s => exists Q F, store_inv cfg hash cap m Q F refs s).

(** What the page mover relies on while clients run: its variables are its own,
    and a class only gains pages, behind those it has. *)
Definition quiet (s s' : st) : Prop :=
  same_classes (slb s) (slb s') /\ rebal_kept (power_largest (slb s)) (rbl s) (rbl s').

Definition refines (o : store_op) (s : st) (m : table) (refs : Z -> Z) : Prop :=
  exists r s' m' refs', store_step o s = Ok (r, s') /\ spec_step o s m refs r m' refs' s' /\
    keeps (held m' refs refs') s s' /\ quiet s s' /\ inv m' refs' s'.

Lemma effect_quiet U s s' : effect U s s' -> quiet s s'.
Proof. intros [H1 _ (_ & H2 & _)]. done. Qed.

Lemma refines_does {A} (op : M st A) (f : A -> Z) o s m refs a m' refs' :
  store_step o s = (r ← op; mret (f r)) s -> does cfg hash cap op s a m' refs' ->
  (forall s', spec_step o s m refs (f a) m' refs' s') -> refines o s m refs.
Proof.
  intros E (Q & F & s' & E' & I & Ef) H. exists (f a), s', m', refs'.
  split; [by rewrite E, (M_bind_ok _ _ _ _ _ E')|]. split; [done|].
  split; [|split; [by eapply effect_quiet|by exists Q, F]].
  intros y Hy. apply (ef_keeps _ _ _ Ef). destruct Hy as [Hy|[_ Hy]]; [by left|by right].
Qed.

Lemma bind_ret {A} (op : M st A) s : (r ← op; mret r) s = op s.
Proof. unfold mbind, M_bind. by destruct (op s) as [[]| |]. Qed.

Lemma hashed_eq m Q F refs s it f : store_inv cfg hash cap m Q F refs s -> used m refs it ->
  hashed it f s = f (khash hash (ikey (mem s) it)) s.
Proof.
  intros [I _] Hx. unfold hashed. rewrite gets_bind, (item_hash_key hash); [done|].
  by eapply live_ok.
Qed.

Lemma step_refines o s m refs : tail_repair_time cfg = 0 ->
  inv m refs s -> op_ok o m refs s -> refines o s m refs.
Proof.
  intros Ht (Q & F & I) [Hb Ho].
  destruct o as [k nk upd|k nk t|k nk fl ex nb|it|it|it new_it|it|it|id cur tot fl age|t]; simpl in Ho.
  - destruct Ho as [Hk Hn]. pose proof (do_item_get_does _ _ _ _ _ _ _ _ _ _ upd I Hk Hn Hb) as H.
    destruct (get_answer _ _ _ _ _) as [[r m'] refs'] eqn:E.
    eapply (refines_does _ id); [by rewrite bind_ret|exact H|]. by intros.
  - destruct Ho as [Hk Hn]. pose proof (do_item_touch_does _ _ _ _ _ _ _ _ _ _ t I Hk Hn Hb) as H.
    destruct (get_answer _ _ _ _ _) as [[r m'] refs'] eqn:E.
    eapply (refines_does _ id); [by rewrite bind_ret|exact H|]. by intros.
  - destruct Ho as (Hk & Hn & Hl & Hnb & Hmax).
    destruct (do_item_alloc_spec _ _ _ _ _ _ _ _ k nk fl ex nb Ht Hb I Hk Hn Hl Hnb Hmax)
      as (x & m' & s' & E & Hm & Ef & [[-> Hinv]|(Hx & Hu & Hinv & Hal)]).
    + exists 0, s', m', refs. split; [done|]. split; [split; [done|by left]|].
      split; [|split; [by eapply effect_quiet|done]]. intros y Hy. apply (ef_keeps _ _ _ Ef). destruct Hy as [Hy|[_ Hy]]; [by left|by right].
    + exists x, s', m', (rupd refs x 1). split; [done|]. split; [split; [done|by right]|].
      split; [|split; [by eapply effect_quiet|done]]. intros y [Hy|[Hy _]]; apply (ef_keeps _ _ _ Ef); [by left|by right].
  - destruct Ho as (Hr & Hl & Hk).
    eapply (refines_does (do_item_link cfg it _) id); [by rewrite bind_ret; eapply hashed_eq; [exact I|right]| |].
    + by eapply do_item_link_does.
    + by intros.
  - eapply (refines_does (do_item_unlink cfg it _) (fun _ => 0));
      [by eapply (hashed_eq _ _ _ _ _ _ (fun hv => void (do_item_unlink cfg it hv)))|by eapply do_item_unlink_does|].
    by intros.
  - destruct Ho as (Hl & Hr & Hn & Hk).
    eapply (refines_does (do_item_replace cfg it new_it _) id); [by rewrite bind_ret; eapply hashed_eq; [exact I|left]| |].
    + by eapply do_item_replace_does.
    + by intros.
  - eapply (refines_does _ (fun _ => 0)); [reflexivity|eapply steady_does; [|exact I]|by intros].
    by apply do_item_update_steady.
  - eapply (refines_does _ (fun _ => 0)); [reflexivity|by eapply do_item_remove_does|by intros].
  - destruct Ho as [Hc Hf].
    destruct (lru_pull_tail_does _ _ _ _ _ _ _ _ id cur tot fl age Hf Ht Hc Hb I) as (n & m' & Hm & D).
    eapply (refines_does _ fst); [|exact D|by intros]. simpl.
    unfold mbind, M_bind. by destruct (lru_pull_tail _ _ _ _ _ _ _ _) as [[[] ]| |].
  - exists 0, (s <| now := t |>), m, refs. split; [done|]. split; [done|]. split; [by intros y _|].
    split; [by split; [apply same_classes_refl|]|]. exists Q, F. destruct I as [I HQ]. split; [|done]. eapply core_parts; [exact I|by repeat split|done].
Qed.

(** C1. The item store is a map with reference counts: whatever sequence of
    lookups, touches, allocations (which evict), links, unlinks, replacements,
    updates, releases and LRU pulls the clients run, every call returns, no assert
    fails, the answers and the effect on the map and on the references are the
    specified ones, an item that stays in the map or that a client keeps a
    reference to keeps its key and its data, and the invariant holds at the end. *)
Theorem store_refines_map ops s m refs : tail_repair_time cfg = 0 ->
  inv m refs s -> client_ok ops s m refs ->
  exists rs s' m' refs', store_run ops s = Ok (rs, s') /\
    spec_run ops s m refs rs m' refs' s' /\ inv m' refs' s'.
Proof.
  intros Ht. revert s m refs. induction ops as [|o ops IH]; intros s m refs I Hok.
  { by exists [], s, m, refs. }
  destruct Hok as [Ho Hok].
  destruct (step_refines o s m refs Ht I Ho) as (r & s1 & m1 & refs1 & E & Hs & Hk & _ & I1).
  destruct (IH s1 m1 refs1 I1 (Hok _ _ _ _ E Hs)) as (rs & s' & m' & refs' & Er & Hr & I').
  exists (r :: rs), s', m', refs'. split_and!; [|by exists r, rs, s1, m1, refs1|done].
  simpl. by rewrite (M_bind_ok _ _ _ _ _ E), (M_bind_ok _ _ _ _ _ Er).
Qed.
End spec.

(** ** The empty store *)

Lemma empty_queues h : queue_rep h lru0 (fun _ => []).
Proof.
  split; try done.
  - intros c. split_and!; try done. constructor.
  - intros c x H. by apply not_elem_of_nil in H.
Qed.

Lemma empty_store cfg hash `{!HashFunction hash} cap s :
  user_inv cfg cap (User ∅ (slb s) []) (fun _ => []) -> classes_ok cfg (slb s) ->
  table_rep hash ∅ (asc s) ∅ -> mem s = ∅ -> lru s = lru0 -> curr_items (stt s) = 0 -> curr_bytes (stt s) = 0 ->
  store_inv cfg hash (whole cap) ∅ (fun _ => []) (fun _ => []) (fun _ => 0) s.
Proof.
  intros U Hc Ht Em El E1 E2.
  assert (forall x, ~ used ∅ (fun _ => 0) x) as Hu by (intros x [[k Hk]|H]; [by rewrite lookup_empty in Hk|lia]).
  split; [split|]; rewrite ?Em, ?El, ?E1, ?E2; try done.
  - apply (ui_slabs _ _ _ _ U).
  - intros id x Hid Hx. pose proof (ui_part _ _ _ _ U id Hid) as Hp. simpl in Hp.
    apply Permutation_nil_r in Hp. rewrite Hp in Hx. by apply not_elem_of_nil in Hx.
  - apply empty_queues.
  - intros x Hx. by apply Hu in Hx.
  - intros c x Hx. by apply not_elem_of_nil in Hx.
  - intros y. constructor.
  - intros x. split; [intros [c Hx]; by apply not_elem_of_nil in Hx|intros Hl; destruct (Hu x); by left].
Qed.

Module Demo.
Definition hash : hash_func := fun _ => Murmur3.MurmurHash3_x86_32.
#[global] Instance demo_hash : HashFunction hash := murmur3_HashFunction.
Abbreviation cfg := Slabs.Demo.cfg.

Definition s0 : st :=
  St ∅ Slabs.Demo.s0 (assoc_globals <| hashpower := 2 |>) lru0 stats0 rebal0
    (Thread 0 0 0 ∅ (bipbuf_init (repeat 0 64) 64) 0) 1000 [].

Lemma store_inv0 : store_inv cfg hash (whole 100) ∅ (fun _ => []) (fun _ => []) (fun _ => 0) s0.
Proof.
  refine (empty_store cfg hash (whole 100) s0 Slabs.Demo.inv0 _ _ eq_refl eq_refl eq_refl eq_refl).
  - split; [apply sizes_sorted_dec; vm_compute; reflexivity|intros id _; reflexivity|vm_compute; discriminate].
  - destruct (assoc_init_rep hash 2 ∅ ltac:(lia)) as (a & Ha & Hr & _). injection Ha as <-. exact Hr.
Qed.

Definition k1 : list Z := [107; 49].
Definition k2 : list Z := [107; 50].

(** Seven items of 300 bytes, in three pages of 1024: the last one evicts. *)
Definition fill : list store_op :=
  [ OAlloc k1 2 0 0 300; OLink 1408; ORemove 1408; OAlloc k2 2 0 0 300; OLink 1024; ORemove 1024;
    OAlloc [107; 51] 2 0 0 300; OLink 8576; ORemove 8576; OAlloc [107; 52] 2 0 0 300; OLink 8192; ORemove 8192;
    OAlloc [107; 53] 2 0 0 300; OLink 4480; ORemove 4480; OAlloc [107; 54] 2 0 0 300; OLink 4096; ORemove 4096;
    OGet k1 2 true; ORemove 1408; OAlloc [107; 55] 2 0 0 300 ].

Definition view (r : res (list Z * st)) : option (list Z * Z * Z) :=
  match r with Ok (rs, s) => Some (rs, curr_items (stt s), curr_bytes (stt s)) | _ => None end.

Example fill_run : view (store_run cfg hash fill s0) =
  Some ([1408; 1; 0; 1024; 1; 0; 8576; 1; 0; 8192; 1; 0; 4480; 1; 0; 4096; 1; 0; 1408; 0; 1408], 5, 1795).
Proof. vm_compute. reflexivity. Qed.

(** An item allocated, linked, looked up by another client and unlinked. *)
Definition ops : list store_op :=
  [ OAlloc k1 2 0 0 300; OLink 1408; OGet [107; 49; 13] 2 true; ORemove 1408; OUnlink 1408; ORemove 1408 ].

Lemma bytes_dec l : forallb (fun x => (0 <=? x) && (x <? 256)) l = true -> bytes_ok l.
Proof.
  intros H. apply Forall_forall. intros x Hx. rewrite forallb_forall in H.
  specialize (H x (proj1 (list_elem_of_In _ _) Hx)). unfold in_u. norm_pow2. lia.
Qed.
Lemma k1_bytes : bytes_ok k1.
Proof. by apply bytes_dec. Qed.
Lemma kb_bytes : bytes_ok [107; 49; 13].
Proof. by apply bytes_dec. Qed.

Definition next_state (o : store_op) (s : st) : st :=
  match store_step cfg hash o s with Ok (_, s') => s' | _ => s end.
Definition st1 : st := next_state (OAlloc k1 2 0 0 300) s0.
Definition st2 : st := next_state (OLink 1408) st1.
Definition st3 : st := next_state (OGet [107; 49; 13] 2 true) st2.
Definition st4 : st := next_state (ORemove 1408) st3.
Definition st5 : st := next_state (OUnlink 1408) st4.

Lemma step1 : store_step cfg hash (OAlloc k1 2 0 0 300) s0 = Ok (1408, st1).
Proof. vm_compute. reflexivity. Qed.
Lemma step2 : store_step cfg hash (OLink 1408) st1 = Ok (1, st2).
Proof. vm_compute. reflexivity. Qed.
Lemma step3 : store_step cfg hash (OGet [107; 49; 13] 2 true) st2 = Ok (1408, st3).
Proof. vm_compute. reflexivity. Qed.
Lemma step4 : store_step cfg hash (ORemove 1408) st3 = Ok (0, st4).
Proof. vm_compute. reflexivity. Qed.
Lemma step5 : store_step cfg hash (OUnlink 1408) st4 = Ok (0, st5).
Proof. vm_compute. reflexivity. Qed.
Lemma alive2 : item_dead cfg (geti (mem st2) 1408) (now st2) = false.
Proof. vm_compute. reflexivity. Qed.
Lemma key4 : has (geti (mem st4) 1408) ITEM_LINKED = true.
Proof. vm_compute. reflexivity. Qed.
#[global] Opaque st1 st2 st3 st4 st5.

Lemma ok_inj {A B} (a a' : A) (b b' : B) : Ok (a, b) = Ok (a', b') -> a = a' /\ b = b'.
Proof. by intros [= -> ->]. Qed.

Lemma small_refs refs : (forall x, refs x < 3) -> refs_bounded refs.
Proof. intros H x. specialize (H x). lia. Qed.

Ltac small := apply small_refs; intros ?; unfold rupd; repeat destruct (decide _); lia.

Lemma ops_ok : client_ok cfg hash ops s0 ∅ (fun _ => 0).
Proof.
  split.
  { split; [small|]. split; [exact k1_bytes|]. split_and!; vm_compute; first [discriminate|reflexivity]. }
  intros r s1 m1 refs1 E [Hm Hs]. rewrite step1 in E. apply ok_inj in E as [<- <-].
  destruct Hs as [[H0 _]|(_ & Hu & -> & [Hkey _ _ _ _ _ _])]; [discriminate H0|].
  assert (m1 = ∅) as -> by (apply map_empty; intros k; destruct (m1 !! k) eqn:Ek; [|done];
    by apply (lookup_weaken _ ∅) in Ek).
  change (ikey (mem st1) 1408 = k1) in Hkey.
  split.
  { split; [small|]. split; [unfold rupd; by rewrite decide_True|]. split; [|apply lookup_empty].
    intros [k Hk]. by rewrite lookup_empty in Hk. }
  intros r s1 m1 refs1 E (_ & -> & ->). rewrite step2 in E. apply ok_inj in E as [<- <-]. rewrite Hkey.
  split.
  { split; [small|]. split; [exact kb_bytes|simpl; lia]. }
  intros r s1 m1 refs1 E Hs. rewrite step3 in E. apply ok_inj in E as [<- <-].
  change (take (Z.to_nat 2) [107; 49; 13]) with k1 in Hs.
  unfold spec_step, get_answer in Hs. rewrite lookup_insert_eq, alive2 in Hs. injection Hs as -> ->.
  split.
  { split; [small|]. unfold op_ok, rupd. by rewrite decide_True. }
  intros r s1 m1 refs1 E (_ & -> & ->). rewrite step4 in E. apply ok_inj in E as [<- <-].
  split.
  { split; [small|]. left. exists k1. apply lookup_insert_eq. }
  intros r s1 m1 refs1 E (_ & -> & _). rewrite step5 in E. apply ok_inj in E as [<- <-].
  split; [|by intros].
  split; [small|]. unfold op_ok, rupd. by rewrite !decide_True.
Qed.
End Demo.

Lemma store_refines_map_witness : exists rs s' m' refs',
  store_run Demo.cfg Demo.hash Demo.ops Demo.s0 = Ok (rs, s') /\
  spec_run Demo.cfg Demo.hash Demo.ops Demo.s0 ∅ (fun _ => 0) rs m' refs' s' /\
  exists Q F, store_inv Demo.cfg Demo.hash (whole 100) m' Q F refs' s'.
Proof.
  refine (store_refines_map Demo.cfg Demo.hash (whole 100) Demo.ops Demo.s0 ∅ (fun _ => 0) eq_refl _ Demo.ops_ok).
  exists (fun _ => []), (fun _ => []). exact Demo.store_inv0.
Defined.
