(* ===== verification/StoreOps.v ===== *)
(** * What the storage commands do to the item store

    do_store_item (src/slabs_curd/memcached.c) as an operation on the map from keys
    to items that [StoreSpec] specifies: every command's answer, its effect on the
    map and on the references, and the data append and prepend build. *)

From S2P Require Import Prelude Decimal Hash Heap Assoc Settings Slabs BipBuffer Items Store StoreInv StoreSpec.

(** Writes to the bytes of an item beyond its key. *)
Definition with_body (b : list Z) (i : item) : item := i <| body := b |>.
Definition same_key (b : list Z) (i : item) : Prop :=
  bytes_ok b /\ nkey i <= Z.of_nat (length b) /\ take (Z.to_nat (nkey i)) b = ITEM_key i.

Section store.
Context (cfg : settings) (hash : hash_func) `{!HashFunction hash} (cap : bound).
Abbreviation store_inv := (store_inv cfg hash cap).
Abbreviation core_inv := (core_inv cfg hash cap).
Abbreviation does := (does cfg hash cap).

Lemma does_refs {A} (op : M st A) s a m refs refs' : (forall x, refs x = refs' x) ->
  does op s a m refs -> does op s a m refs'.
Proof.
  intros E (Q & F & s' & Eq & [I HQ] & Ef). exists Q, F, s'. split; [done|].
  split; [split; [by eapply core_inv_ext|done]|]. eapply effect_weaken; [exact Ef|].
  intros y. unfold used. by rewrite E.
Qed.

Lemma core_body m Q F refs s x b : core_inv m Q F refs s -> used m refs x -> same_key b (geti (mem s) x) ->
  core_inv m Q F refs (with_mem s (seti (mem s) x (with_body b))).
Proof.
  intros I Hx (Hb & Hn & Hk). set (s' := with_mem _ _).
  pose proof (ci_live _ _ _ _ _ _ _ _ I x Hx) as Hlx. pose proof Hlx as (_ & _ & HF & _).
  assert (forall y, y <> x -> geti (mem s') y = geti (mem s) y) as Hne
    by (intros y Hy; apply geti_seti_ne; congruence).
  assert (geti (mem s') x = with_body b (geti (mem s) x)) as Ex by apply geti_seti_eq.
  assert (item_ok (geti (mem s') x)) as Hok.
  { rewrite Ex. destruct (live_ok _ _ _ _ _ _ _ _ _ I Hx) as [_ ?]. split; [done|]. simpl. lia. }
  assert (forall y, h_next (geti (mem s) y) = h_next (geti (mem s') y) /\ ikey (mem s) y = ikey (mem s') y /\
    ITEM_ntotal (geti (mem s') y) = ITEM_ntotal (geti (mem s) y)) as Hag.
  { intros y. destruct (decide (y = x)) as [->|Hy].
    - unfold ikey. rewrite Ex. split_and!; [done|by rewrite <- Hk|done].
    - unfold ikey. by rewrite Hne. }
  split; try apply I.
  - eapply slab_inv_heap; [apply I|]. intros i y Hi Hy. apply Hne. intros ->. by apply (HF i).
  - intros y j Hj. destruct (ci_held _ _ _ _ _ _ _ _ I y j Hj) as (H1 & H2 & H3 & H4).
    unfold held_chunk. by rewrite Hne by by intros ->.
  - intros y Hy. pose proof (ci_whole _ _ _ _ _ _ _ _ I y Hy).
    destruct (decide (y = x)) as [->|Hyx]; [by rewrite Ex|by rewrite Hne].
  - eapply table_rep_frame_key; [apply I|]. intros k y Hy. destruct (Hag y) as (E1 & E2 & _).
    split_and!; [done|done| |].
    + destruct (decide (y = x)) as [->|Hyx]; [done|]. rewrite Hne by done.
      eapply live_ok; [exact I|]. left. by exists k.
    + apply seti_dom. by destruct (table_item _ _ _ _ _ _ (ci_table _ _ _ _ _ _ _ _ I) Hy) as (_ & _ & _ & ?).
  - eapply queue_frame; [apply I|done|]. intros c y Hy.
    destruct (decide (y = x)) as [->|Hyx]; [by rewrite Ex|by rewrite Hne].
  - intros y Hy. pose proof (ci_live _ _ _ _ _ _ _ _ I y Hy) as Hly. unfold live_item in *.
    destruct (decide (y = x)) as [->|Hyx]; [|by rewrite Hne].
    destruct Hly as (Hc1 & Hly). split; [by rewrite Ex|]. rewrite Ex in *. destruct Hly as (?&?&?&?&?&?&?&?&?). by split_and!.
  - etransitivity; [exact (ci_bytes _ _ _ _ _ _ _ _ I)|]. f_equal. apply sum_ntotal_ext. intros y _. by destruct (Hag y) as (_ & _ & ?).
  - intros y. destruct (decide (y = x)) as [->|Hyx]; [rewrite Ex; exact Hb|rewrite Hne by done; apply (ci_bodies _ _ _ _ _ _ _ _ I y)].
Qed.

Lemma store_body m Q F refs s x b : store_inv m Q F refs s -> used m refs x -> same_key b (geti (mem s) x) ->
  store_inv m Q F refs (with_mem s (seti (mem s) x (with_body b))).
Proof. intros [I HQ] Hx Hb. split; [by apply core_body|done]. Qed.
End store.

Section commands.
Context (cfg : settings) (hash : hash_func) `{!HashFunction hash} (cap : bound).
Abbreviation store_inv := (store_inv cfg hash cap).
Abbreviation does := (does cfg hash cap).
Abbreviation inv := (fun m refs s => exists Q F, store_inv m Q F refs s).

(** The item a lookup of [k] finds, and the map once a dead one was dropped. *)
Definition live_at (m : gmap (list Z) Z) (s : st) (k : list Z) : option Z :=
  match m !! k with
  | Some x => if item_dead cfg (geti (mem s) x) (now s) then None else Some x
  | None => None
  end.
Definition purged (m : gmap (list Z) Z) (s : st) (k : list Z) : gmap (list Z) Z :=
  match live_at m s k with Some _ => m | None => delete k m end.
Definition take_ref (refs : Z -> Z) (o : option Z) : Z -> Z :=
  match o with Some x => rupd refs x (refs x + 1) | None => refs end.
Definition drop_ref (refs : Z -> Z) (x : Z) : Z -> Z :=
  if decide (x = 0) then refs else rupd refs x (refs x - 1).

(** Room for the references a command takes while it runs. *)
Definition roomy (refs : Z -> Z) : Prop := forall x, refs x < 2 ^ 16 - 16.

Lemma roomy_take refs o : roomy refs -> refs_bounded (take_ref refs o) /\ refs_bounded refs.
Proof.
  intros H. split; intros y; pose proof (H y) as Hy; [|lia]. destruct o as [x|]; simpl; [|lia].
  unfold rupd. case_decide; [subst y|]; lia.
Qed.

Lemma drop_take refs x y : x <> 0 -> drop_ref (take_ref refs (Some x)) x y = refs y.
Proof.
  intros Hx. unfold drop_ref, take_ref. rewrite decide_False, rupd_rupd, rupd_eq by done.
  apply rupd_id. lia.
Qed.

Lemma drop_ref_le refs x y : drop_ref refs x y <= refs y.
Proof. unfold drop_ref. case_decide; [lia|]. unfold rupd. case_decide; [subst y|]; lia. Qed.

Lemma live_at_linked m s k x : live_at m s k = Some x -> m !! k = Some x /\ purged m s k = m.
Proof.
  intros H. unfold purged. rewrite H. split; [|done]. revert H. unfold live_at.
  destruct (m !! k); [|done]. by destruct (item_dead _ _ _); intros [= ->].
Qed.

Lemma live_at_none m s k : live_at m s k = None -> purged m s k !! k = None.
Proof. intros H. unfold purged. rewrite H. apply lookup_delete_eq. Qed.

(** do_item_get on the key of an item the caller holds. *)
Lemma get_old m Q F refs s it : store_inv m Q F refs s -> used m refs it -> roomy refs ->
  let k := ikey (mem s) it in let old := live_at m s k in
  exists s1, do_item_get cfg (body (geti (mem s) it)) (nkey (geti (mem s) it)) (khash hash k) false s =
      Ok (default 0 old, s1) /\
    inv (purged m s k) (take_ref refs old) s1 /\ effect (used (purged m s k) (take_ref refs old)) s s1 /\
    (old <> None -> forall y, cas (geti (mem s1) y) = cas (geti (mem s) y) /\
       it_flags (geti (mem s1) y) = it_flags (geti (mem s) y)).
Proof.
  intros I Hu Hr k old. pose proof I as [Ic _]. pose proof (live_ok _ _ _ _ _ _ _ _ _ Ic Hu) as [Hb Hn].
  pose proof (do_item_get_does _ _ _ _ _ _ _ _ (body (geti (mem s) it)) (nkey (geti (mem s) it)) false
    I Hb Hn (proj2 (roomy_take _ None Hr))) as H.
  change (take (Z.to_nat (nkey (geti (mem s) it))) (body (geti (mem s) it))) with k in H.
  rewrite (caller_hash_key hash _ _ Hb Hn) in H.
  change (take (Z.to_nat (nkey (geti (mem s) it))) (body (geti (mem s) it))) with k in H.
  assert (get_answer cfg m refs s k = (default 0 old, purged m s k, take_ref refs old)) as Ea.
  { unfold get_answer, purged, old, live_at. destruct (m !! k) as [x|] eqn:Ek; [by destruct (item_dead _ _ _)|].
    by rewrite delete_id. }
  rewrite Ea in H. destruct H as (Q1 & F1 & s1 & E1 & I1 & Ef1). exists s1. split_and!; [done|by exists Q1, F1|done|].
  intros Ho. destruct old as [x|] eqn:Eo; [|done]. clear Ho Ea I1 Ef1. unfold old in Eo.
  destruct (live_at_linked _ _ _ _ Eo) as [Hk _].
  assert (s1 = bump x 1 s) as ->.
  { revert E1. unfold do_item_get. cbn [default].
    assert (st_assoc_find (body (geti (mem s) it)) (nkey (geti (mem s) it)) (khash hash k) s = Ok (x, s)) as Ef.
    { pose proof (table_find hash _ _ m _ _ (ci_table _ _ _ _ _ _ _ _ Ic) Hn) as Ef. unfold st_assoc_find.
      change (take (Z.to_nat (nkey (geti (mem s) it))) (body (geti (mem s) it))) with k in Ef.
      by rewrite Ef, Hk. }
    rewrite (M_bind_ok _ _ _ _ _ Ef). pose proof (live_pos _ _ _ _ _ _ _ _ _ Ic (or_introl (ex_intro _ k Hk) : used m refs x)).
    rewrite decide_False by lia. rewrite (M_bind_ok _ _ _ _ _ (refcount_incr_eq x s)), rd_bind, gets_bind.
    assert (geti (mem (bump x 1 s)) x = (geti (mem s) x) <| refcount := u16 (refcount (geti (mem s) x) + 1) |>)
      as -> by exact (geti_seti_eq _ _ _).
    unfold live_at in Eo. rewrite Hk in Eo. unfold item_dead in Eo.
    change (now (bump x 1 s)) with (now s).
    change (item_is_flushed cfg ((geti (mem s) x) <| refcount := u16 (refcount (geti (mem s) x) + 1) |>) (now s))
      with (item_is_flushed cfg (geti (mem s) x) (now s)).
    destruct (item_is_flushed _ _ _); [done|]. simpl in Eo |- *.
    destruct (decide (exptime (geti (mem s) x) <> 0 /\ exptime (geti (mem s) x) <= now s)) as [Hd|Hd];
      [by rewrite bool_decide_eq_true_2 in Eo|]. by intros [= <-]. }
  intros y. unfold bump, with_mem. simpl. rewrite geti_seti. by destruct (decide (x = y)) as [->|].
Qed.

(** The end of do_store_item: the references are dropped, and the cas unique read. *)
Lemma store_finish m Q F refs s old new it stored : store_inv m Q F refs s ->
  (old <> 0 -> 0 < refs old) -> (new <> 0 -> 0 < drop_ref refs old new) ->
  let refs' := drop_ref (drop_ref refs old) new in
  exists c s', (when (bool_decide (old <> 0)) (do_item_remove cfg old);;
     when (bool_decide (new <> 0)) (do_item_remove cfg new);;
     i ← rd it;
     mret (stored, if decide (stored = STORED) then Some (ITEM_get_cas i) else None)) s = Ok ((stored, c), s') /\
    inv m refs' s' /\ effect (used m refs') s s' /\
    c = if decide (stored = STORED) then Some (ITEM_get_cas (geti (mem s') it)) else None.
Proof.
  intros I Ho Hn refs'.
  assert (forall refs x, 0 <= refs x -> (x <> 0 -> 0 < refs x) -> forall Q F s, store_inv m Q F refs s ->
    does (when (bool_decide (x <> 0)) (do_item_remove cfg x)) s tt m (drop_ref refs x)) as Hd.
  { clear I Ho Hn refs'. intros refs0 x Hx0 Hx Q0 F0 s0 I. unfold drop_ref. destruct (decide (x = 0)) as [E|E].
    - rewrite bool_decide_eq_false_2 by tauto. by eapply does_ret.
    - rewrite bool_decide_eq_true_2 by done. eapply do_item_remove_does; [done|exact I|auto]. }
  assert (forall x, 0 <= refs x) as H0 by apply (ci_refs _ _ _ _ _ _ _ _ (proj1 I)).
  destruct (Hd refs old (H0 _) Ho Q F s I) as (Q1 & F1 & s1 & E1 & I1 & Ef1).
  destruct (Hd (drop_ref refs old) new (ci_refs _ _ _ _ _ _ _ _ (proj1 I1) _) Hn Q1 F1 s1 I1) as (Q2 & F2 & s2 & E2 & I2 & Ef2).
  eexists _, s2. split; [|split; [by exists Q2, F2|split; [|reflexivity]]].
  - rewrite (M_bind_ok _ _ _ _ _ E1), (M_bind_ok _ _ _ _ _ E2). reflexivity.
  - eapply effect_trans; [exact Ef1|exact Ef2|]. intros y [Hy|Hy]; [by left|right].
    pose proof (drop_ref_le (drop_ref refs old) new y). unfold refs' in Hy. lia.
Qed.
End commands.

Section plain.
Context (cfg : settings) (hash : hash_func) `{!HashFunction hash} (cap : bound).
Abbreviation store_inv := (store_inv cfg hash cap).
Abbreviation does := (does cfg hash cap).
Abbreviation inv := (fun m refs s => exists Q F, store_inv m Q F refs s).

Definition appends (comm : Z) : Prop := comm = NREAD_APPEND \/ comm = NREAD_PREPEND.
#[local] Instance appends_dec comm : Decision (appends comm).
Proof. unfold appends. apply _. Defined.

(** What add, set, replace and cas answer, and whether they store the item. *)
Definition plain_outcome (comm : Z) (old : option Z) (same_cas : bool) : store_item_type * bool :=
  match old with
  | Some _ =>
      if decide (comm = NREAD_ADD) then (NOT_STORED, false)
      else if decide (comm = NREAD_CAS) then if same_cas then (STORED, true) else (EXISTS, false)
      else (STORED, true)
  | None =>
      if decide (comm = NREAD_REPLACE) then (NOT_STORED, false)
      else if decide (comm = NREAD_CAS) then (NOT_FOUND, false)
      else (STORED, true)
  end.

Definition same_cas (s : st) (it : Z) (old : option Z) : bool :=
  match old with
  | Some x => bool_decide (ITEM_get_cas (geti (mem s) it) = ITEM_get_cas (geti (mem s) x))
  | None => false
  end.

Lemma content_key s s' x : content (geti (mem s') x) = content (geti (mem s) x) -> ikey (mem s') x = ikey (mem s) x.
Proof. intros E. apply ikey_agree. unfold content in E. congruence. Qed.

Lemma purged_sub m s k : purged cfg m s k ⊆ m.
Proof. unfold purged. destruct (live_at cfg m s k); [done|apply delete_subseteq]. Qed.

Lemma take_ref_le refs o y : refs y <= take_ref refs o y.
Proof. destruct o as [x|]; simpl; [|lia]. unfold rupd. case_decide; [subst y|]; lia. Qed.

(** The cascade of do_store_item, from the lookup on. *)
Definition store_choice (it old_it comm hv : Z) : M st (store_item_type * Z * Z) :=
  refused ← store_refused cfg it old_it comm hv;
  match refused with
  | Some r => mret (r, it, 0)
  | None => store_rest cfg hash it old_it comm hv
  end.

Definition store_end (old_it : Z) (r : store_item_type * Z * Z) : M st (store_item_type * option Z) :=
  let '(stored, it, new_it) := r in
  when (bool_decide (old_it <> 0)) (do_item_remove cfg old_it);;
  when (bool_decide (new_it <> 0)) (do_item_remove cfg new_it);;
  i ← rd it;
  mret (stored, if decide (stored = STORED) then Some (ITEM_get_cas i) else None).

Lemma bind_ext {A B} (op : M st A) (f g : A -> M st B) s : (forall a s', f a s' = g a s') ->
  (op ≫= f) s = (op ≫= g) s.
Proof. intros H. unfold mbind, M_bind. by destruct (op s) as [[a s']| |]. Qed.

Lemma do_store_item_eq it comm hv s : do_store_item cfg hash it comm hv s =
  (old_it ← do_item_get cfg (body (geti (mem s) it)) (nkey (geti (mem s) it)) hv false;
   r ← store_choice it old_it comm hv; store_end old_it r) s.
Proof.
  unfold do_store_item. rewrite rd_bind. apply bind_ext. intros old s1. unfold store_choice.
  rewrite bind_assoc. apply bind_ext. intros refused s2. apply bind_ext. by intros [[stored it'] new_it] s3.
Qed.

Lemma old_key m Q F refs s k x : store_inv m Q F refs s -> m !! k = Some x ->
  linked m x /\ ikey (mem s) x = k /\ x <> 0 /\ used m refs x.
Proof.
  intros I E. assert (linked m x) as Hl by by exists k. split_and!; [done| | |by left].
  - by eapply inv_key; [apply I|].
  - pose proof (live_pos _ _ _ _ _ _ _ _ _ (proj1 I) (or_introl Hl : used m refs x)). lia.
Qed.

(** Storing an item, in the place of an old one or not. *)
Definition store_it (old_it it hv : Z) : M st Z :=
  if decide (old_it <> 0) then do_item_replace cfg old_it it hv else do_item_link cfg it hv.

Lemma store_it_does m Q F refs s it k : store_inv m Q F refs s -> 0 < refs it -> ~ linked m it ->
  refs_bounded refs -> ikey (mem s) it = k ->
  does (store_it (default 0 (m !! k)) it (khash hash k)) s 1 (<[k := it]> m) refs.
Proof.
  intros I Hit Hnl Hb <-. unfold store_it. destruct (m !! ikey (mem s) it) as [x|] eqn:E; cbn [default from_option id].
  - destruct (old_key _ _ _ _ _ _ _ I E) as (Hl & Hk & Hx & _). rewrite decide_True by done. rewrite <- Hk.
    eapply do_item_replace_does; [done|exact I|done|done|done|done|by symmetry|done].
  - rewrite decide_False by tauto. by eapply do_item_link_does.
Qed.

Lemma store_rest_plain old_it it comm hv s : ~ appends comm ->
  store_rest cfg hash it old_it comm hv s = (store_it old_it it hv;; mret (STORED, it, 0)) s.
Proof. intros Ha. unfold store_rest. rewrite bool_decide_eq_false_2 by exact Ha. reflexivity. Qed.

Lemma stat_store m Q F refs s it k id f : store_inv m Q F refs s -> 0 < refs it -> ~ linked m it ->
  refs_bounded refs -> ikey (mem s) it = k ->
  does (set_slab_stat id f;; store_it (default 0 (m !! k)) it (khash hash k)) s 1 (<[k := it]> m) refs.
Proof.
  intros I Hit Hnl Hb Hk. eapply does_bind; [eapply steady_does; [apply steady_thr|exact I]| |].
  - intros Q1 F1 s1 I1 Ef1 E1. injection E1 as <-. by eapply store_it_does.
  - intros y [Hy|Hy]; [|by right]. destruct Hy as [k' [[_ <-]|[_ Hy]]%lookup_insert_Some]; [by right|left; by exists k'].
Qed.

Lemma does_then {A B} (op : M st A) (g : A -> M st B) s a b m refs : does op s a m refs ->
  (forall s', g a s' = Ok (b, s')) -> does (op ≫= g) s b m refs.
Proof.
  intros (Q' & F' & s' & E & I' & Ef) Hg. exists Q', F', s'. split; [|done].
  by rewrite (M_bind_ok _ _ _ _ _ E).
Qed.

Lemma does_rd {B} x (g : item -> M st B) s b m refs :
  does (g (geti (mem s) x)) s b m refs -> does (rd x ≫= g) s b m refs.
Proof. done. Qed.

Lemma plain_choice m Q F refs s it comm k : store_inv m Q F refs s -> 0 < refs it -> ~ linked m it ->
  refs_bounded refs -> ikey (mem s) it = k -> ~ appends comm ->
  let '(r, stored) := plain_outcome comm (m !! k) (same_cas s it (m !! k)) in
  does (store_choice it (default 0 (m !! k)) comm (khash hash k)) s (r, it, 0)
    (if stored then <[k := it]> m else m) refs.
Proof.
  intros I Hit Hnl Hb Hk Ha.
  assert (comm <> NREAD_APPEND /\ comm <> NREAD_PREPEND) as [Ha1 Ha2] by (unfold appends in Ha; tauto).
  pose proof (store_it_does _ _ _ _ _ _ _ I Hit Hnl Hb Hk) as Hst.
  pose proof (fun id f => stat_store _ _ _ _ _ _ _ id f I Hit Hnl Hb Hk) as Hstat.
  assert (forall hv s', store_rest cfg hash it (default 0 (m !! k)) comm hv s' =
    (store_it (default 0 (m !! k)) it hv;; mret (STORED, it, 0)) s') as Hrest by (intros; by apply store_rest_plain).
  assert (does (store_rest cfg hash it (default 0 (m !! k)) comm (khash hash k)) s (STORED, it, 0) (<[k := it]> m) refs)
    as Hr by (eapply does_eq; [apply Hrest|apply effect_refl|]; by eapply does_then).
  unfold store_choice, store_refused, plain_outcome. destruct (m !! k) as [x|] eqn:Eo; cbn [default from_option id] in *.
  - destruct (old_key _ _ _ _ _ _ _ I Eo) as (Hl & Hkx & Hx & Hu).
    destruct (decide (comm = NREAD_ADD)) as [->|Hadd].
    { rewrite bool_decide_eq_true_2 by done. apply (does_then _ _ _ (Some NOT_STORED)); [|done]. eapply does_then; [|done].
      eapply steady_does; [|exact I]. by apply do_item_update_steady. }
    rewrite !bool_decide_eq_false_2 by tauto.
    destruct (decide (comm = NREAD_CAS)) as [->|Hcas].
    2:{ rewrite bool_decide_eq_false_2 by done. exact Hr. }
    rewrite bool_decide_eq_true_2 by done. rewrite decide_False by done. unfold same_cas.
    destruct (decide (ITEM_get_cas (geti (mem s) it) = ITEM_get_cas (geti (mem s) x))) as [Hc|Hc].
    + rewrite bool_decide_eq_true_2 by done. apply (does_then _ _ _ (Some STORED)); [|done].
      apply does_rd, does_rd. rewrite decide_True by done.
      eapply does_eq; [apply seq_assoc|apply effect_refl|]. eapply does_then; [|done].
      specialize (Hstat (ITEM_clsid (geti (mem s) x)) (fun x => x <| cas_hits ::= inc64 |>)).
      unfold store_it in Hstat. rewrite decide_True in Hstat by done. exact Hstat.
    + rewrite bool_decide_eq_false_2 by done. apply (does_then _ _ _ (Some EXISTS)); [|done].
      apply does_rd, does_rd. rewrite decide_False by done.
      eapply does_then; [|done]. eapply steady_does; [apply steady_thr|exact I].
  - destruct (decide (comm = NREAD_REPLACE)) as [->|Hrep].
    { rewrite bool_decide_eq_false_2 by (intros [? _]; done). rewrite bool_decide_eq_true_2 by (split; [done|by left]).
      by eapply does_ret. }
    rewrite !bool_decide_eq_false_2 by tauto.
    destruct (decide (comm = NREAD_CAS)) as [->|Hcas].
    2:{ rewrite bool_decide_eq_false_2 by done. exact Hr. }
    rewrite bool_decide_eq_true_2 by done. rewrite decide_True by done.
    apply (does_then _ _ _ (Some NOT_FOUND)); [|done]. eapply does_then; [|done].
    eapply steady_does; [apply steady_thr|exact I].
Qed.
End plain.

Section commands_spec.
Context (cfg : settings) (hash : hash_func) `{!HashFunction hash} (cap : bound).
Abbreviation store_inv := (store_inv cfg hash cap).
Abbreviation inv := (fun m refs s => exists Q F, store_inv m Q F refs s).

Lemma linked_sub (m m' : gmap (list Z) Z) x : m' ⊆ m -> linked m' x -> linked m x.
Proof. intros H [k Hk]. exists k. by eapply lookup_weaken. Qed.

Lemma inv_refs m refs refs' s : (forall x, refs x = refs' x) -> inv m refs s -> inv m refs' s.
Proof. intros E (Q & F & I & HQ). exists Q, F. split; [by eapply core_inv_ext|done]. Qed.

(** The lookup of an item's own key leaves the item alone. *)
Record looked_up (m : gmap (list Z) Z) (refs : Z -> Z) (s s1 : st) (it : Z) (k : list Z) (old : option Z) : Prop := {
  lk_inv : inv (purged cfg m s k) (take_ref refs old) s1;
  lk_effect : effect (used (purged cfg m s k) (take_ref refs old)) s s1;
  lk_old : purged cfg m s k !! k = old;
  lk_key : ikey (mem s1) it = k;
  lk_held : 0 < take_ref refs old it;
  lk_unlinked : ~ linked (purged cfg m s k) it;
  lk_bounded : refs_bounded (take_ref refs old);
  lk_cas : same_cas s1 it old = same_cas s it old;
  lk_own : old <> None -> ITEM_get_cas (geti (mem s1) it) = ITEM_get_cas (geti (mem s) it)
}.

Lemma look_up m Q F refs s it : store_inv m Q F refs s -> 0 < refs it -> ~ linked m it -> roomy refs ->
  let k := ikey (mem s) it in let old := live_at cfg m s k in
  exists s1, do_item_get cfg (body (geti (mem s) it)) (nkey (geti (mem s) it)) (khash hash k) false s =
      Ok (default 0 old, s1) /\ looked_up m refs s s1 it k old.
Proof.
  intros I Hit Hnl Hr k old.
  destruct (get_old cfg hash cap m Q F refs s it I (or_intror Hit) Hr) as (s1 & E1 & I1 & Ef1 & Hc).
  fold k old in E1, I1, Ef1, Hc. exists s1. split; [done|].
  assert (0 < take_ref refs old it) as Hh by (pose proof (take_ref_le refs old it); lia).
  split; try done.
  - destruct old as [x|] eqn:E; [|by apply live_at_none]. by destruct (live_at_linked cfg _ _ _ _ E) as [? ->].
  - apply content_key. apply (ef_keeps _ _ _ Ef1). by right.
  - intros H. apply Hnl. by eapply linked_sub; [apply purged_sub|].
  - exact (proj1 (roomy_take _ old Hr)).
  - unfold same_cas. destruct old as [x|]; [|done]. unfold ITEM_get_cas, has.
    assert (Some x <> None) as Hx by done. destruct (Hc Hx it) as [-> ->], (Hc Hx x) as [-> ->]. done.
  - intros Hx. unfold ITEM_get_cas, has. by destruct (Hc Hx it) as [-> ->].
Qed.

(** C2. What add, set, replace and cas do, on an item the caller allocated and
    holds: the answer and the new map are those of the command on the map (a dead
    item of the key being dropped first), add, replace and cas store only under
    their condition, every reference taken on the way is released, the other
    items keep key and data, and c->cas is the cas unique of the item stored. *)
Theorem do_store_item_plain m Q F refs s it comm : store_inv m Q F refs s ->
  0 < refs it -> ~ linked m it -> roomy refs -> ~ appends comm ->
  let k := ikey (mem s) it in
  let old := live_at cfg m s k in
  let '(r, stored) := plain_outcome comm old (same_cas s it old) in
  let m' := if stored then <[k := it]> (purged cfg m s k) else purged cfg m s k in
  exists c s', do_store_item cfg hash it comm (khash hash k) s = Ok ((r, c), s') /\
    inv m' refs s' /\ effect (used m' refs) s s' /\
    c = if decide (r = STORED) then Some (ITEM_get_cas (geti (mem s') it)) else None.
Proof.
  intros I Hit Hnl Hr Ha k old.
  destruct (look_up m Q F refs s it I Hit Hnl Hr) as (s1 & E1 & [(Q1 & F1 & I1) Ef1 Ho Hk Hh Hl Hb Hc _]).
  fold k in E1, I1, Ef1, Ho, Hk, Hh, Hl, Hb, Hc. fold old in E1, I1, Ef1, Ho, Hk, Hh, Hl, Hb, Hc. pose proof (plain_choice cfg hash cap _ _ _ _ _ it comm k I1 Hh Hl Hb Hk Ha) as H.
  rewrite Ho, Hc in H. destruct (plain_outcome comm old (same_cas s it old)) as [r stored].
  destruct H as (Q2 & F2 & s2 & E2 & I2 & Ef2). set (m' := if stored then _ else _) in *.
  assert (forall x, old = Some x -> x <> 0) as Hx0.
  { intros x E. rewrite E in Ho. by destruct (old_key cfg hash cap _ _ _ _ _ _ _ I1 Ho) as (_ & _ & ? & _). }
  assert (forall y, drop_ref (drop_ref (take_ref refs old) (default 0 old)) 0 y = refs y) as Hd.
  { intros y. unfold drop_ref at 1. simpl. destruct old as [x|] eqn:E; simpl; [|done]. by apply drop_take, Hx0. }
  destruct (store_finish cfg hash cap m' Q2 F2 (take_ref refs old) s2 (default 0 old) 0 it r I2)
    as (c & s3 & E3 & I3 & Ef3 & Ec); [|done|].
  { destruct old as [x|]; simpl; [|done]. intros _. rewrite rupd_eq.
    pose proof (ci_refs _ _ _ _ _ _ _ _ (proj1 I) x). lia. }
  exists c, s3. split_and!; [|by eapply inv_refs| |done].
  - rewrite do_store_item_eq, (M_bind_ok _ _ _ _ _ E1), (M_bind_ok _ _ _ _ _ E2). exact E3.
  - assert (forall y, used m' (take_ref refs old) y -> used (purged cfg m s k) (take_ref refs old) y) as Hu.
    { intros y [Hy|Hy]; [|by right]. unfold m' in Hy. destruct stored; [|by left].
      destruct Hy as [k' [[_ <-]|[_ Hy]]%lookup_insert_Some]; [by right|left; by exists k']. }
    eapply effect_weaken; [eapply (effect_trans _ _ _ _ _ Ef1); [eapply (effect_trans _ _ _ _ _ Ef2); [exact Ef3|]|]|].
    + intros y [Hy|Hy]; [by left|right]. rewrite Hd in Hy. pose proof (take_ref_le refs old y). lia.
    + intros y [Hy|Hy]; [apply Hu; by left|right]. rewrite Hd in Hy. pose proof (take_ref_le refs old y). lia.
    + intros y [Hy|Hy]; [by left|right]. by rewrite Hd.
Qed.

(** ** append and prepend *)

(** The data of the combined item: one line end is dropped. *)
Definition joined (comm : Z) (o i : item) : list Z :=
  if decide (comm = NREAD_APPEND)
  then item_data o (nbytes o - 2) ++ item_data i (nbytes i)
  else item_data i (nbytes i - 2) ++ item_data o (nbytes o).

Lemma content_data s s' x n : content (geti (mem s') x) = content (geti (mem s) x) ->
  item_data (geti (mem s') x) n = item_data (geti (mem s) x) n /\ nbytes (geti (mem s') x) = nbytes (geti (mem s) x) /\
  suffix_flags cfg (geti (mem s') x) = suffix_flags cfg (geti (mem s) x).
Proof.
  unfold content, kview. intros [= E1 E2 E3 E4 E5]. unfold item_data, suffix_flags, ITEM_data_off, ITEM_suffix_off.
  by rewrite E1, E2, E3, E4.
Qed.

Lemma content_joined comm s s' x y : content (geti (mem s') x) = content (geti (mem s) x) ->
  content (geti (mem s') y) = content (geti (mem s) y) ->
  joined comm (geti (mem s') x) (geti (mem s') y) = joined comm (geti (mem s) x) (geti (mem s) y).
Proof.
  intros Hx Hy. unfold joined.
  destruct (content_data _ _ _ 0 Hx) as (_ & -> & _), (content_data _ _ _ 0 Hy) as (_ & -> & _).
  case_decide; by rewrite (proj1 (content_data _ _ _ _ Hx)), (proj1 (content_data _ _ _ _ Hy)).
Qed.

Lemma peek_length b o n : length (peek b o n) = n.
Proof. unfold peek. rewrite length_take, length_app, length_replicate. lia. Qed.

Lemma peek_bytes b o n : bytes_ok b -> bytes_ok (peek b o n).
Proof.
  intros Hb. unfold peek. apply Forall_take, Forall_app. split; [by apply Forall_drop|].
  apply Forall_replicate. unfold in_u. norm_pow2. lia.
Qed.

(** Two overlapping copies, the second from [k] bytes into the first. *)
Lemma peek_pokes b o x y k : (k <= length x <= k + length y)%nat ->
  peek (poke (poke b o x) (o + k) y) o (k + length y) = take k x ++ y.
Proof.
  intros H. assert (forall l o bs, (o + length bs <= length (poke l o bs))%nat) as Hp
    by (intros; rewrite poke_length; lia).
  unfold peek. rewrite take_app_le by (rewrite length_drop, poke_length; lia).
  unfold poke at 1. set (l1 := poke b o x). pose proof (Hp b o x) as Hl1. fold l1 in Hl1.
  set (l2 := resize _ 0 l1). assert (take (length l1) l2 = l1) as E1.
  { unfold l2. rewrite resize_ge by lia. by rewrite take_app_length. }
  assert (length l2 = Nat.max (length l1) (o + k + length y)) as L2 by apply length_resize.
  replace (take (k + length y) (drop o (write_bytes l2 (o + k) y)))
    with (slice (write_bytes l2 (o + k) y) o (o + k + length y))
    by (unfold slice; f_equal; lia).
  rewrite <- (slice_app _ o (o + k)) by lia. rewrite slice_write_same by lia. f_equal.
  rewrite slice_write_before by lia.
  assert (slice l2 o (o + k) = slice l1 o (o + k)) as ->.
  { rewrite <- E1. unfold slice. rewrite !firstn_skipn_comm, take_take. do 2 f_equal. lia. }
  unfold l1, poke. set (r := resize _ 0 b). transitivity (take k (slice (write_bytes r o x) o (o + length x))).
  - unfold slice. rewrite take_take. f_equal. lia.
  - rewrite slice_write_same; [done|]. unfold r. rewrite length_resize. lia.
Qed.

Lemma item_data_take i n m : 0 <= m <= n -> take (Z.to_nat m) (item_data i n) = item_data i m.
Proof.
  intros H. unfold item_data, peek. rewrite take_take, Nat.min_l by lia.
  rewrite !take_app, !take_replicate. do 2 f_equal. lia.
Qed.

Lemma wr_twice x f g s : (wr x f;; wr x g;; mret 0) s = Ok (0, with_mem s (seti (mem s) x (fun i => g (f i)))).
Proof. rewrite !wr_bind. unfold mret, M_ret. cbn. by rewrite seti_seti. Qed.

(** The two copies of _store_item_copy_data into an item that is not chunked. *)
Lemma two_writes s x bs1 off bs2 k : bytes_ok bs1 -> bytes_ok bs2 -> item_ok (geti (mem s) x) ->
  0 <= nsuffix (geti (mem s) x) -> bodies_ok (mem s) -> 0 <= off -> k = Z.to_nat off ->
  (k <= length bs1 <= k + length bs2)%nat ->
  exists b, (write_data x 0 bs1;; write_data x off bs2;; mret 0) s =
      Ok (0, with_mem s (seti (mem s) x (with_body b))) /\ same_key b (geti (mem s) x) /\
    peek b (ITEM_data_off (geti (mem s) x)) (k + length bs2) = take k bs1 ++ bs2.
Proof.
  intros H1 H2 [Hok Hn] Hsuf Hb Hoff -> Hk. set (i := geti (mem s) x) in *.
  set (b := poke (poke (body i) (ITEM_data_off i) bs1) (ITEM_data_off i + Z.to_nat off) bs2).
  exists b. split_and!.
  - unfold write_data. rewrite wr_twice. rewrite (seti_same _ _ _ (with_body b)); [done|].
    unfold with_body, b. fold i. change (Z.to_nat 0) with 0%nat. by rewrite Nat.add_0_r.
  - assert (Z.to_nat (nkey i) <= ITEM_data_off i)%nat as Hko by (unfold ITEM_data_off; lia).
    assert (Z.to_nat (nkey i) <= length (body i))%nat as Hkl by lia.
    split_and!.
    + by repeat apply poke_bytes.
    + unfold b. rewrite !poke_length. lia.
    + unfold b. rewrite !poke_take_before by (rewrite ?poke_length; lia). done.
  - unfold b. by apply peek_pokes.
Qed.

Lemma item_data_bytes h x n : bodies_ok h -> bytes_ok (item_data (geti h x) n).
Proof. intros H. apply peek_bytes, H. Qed.

Lemma copy_data_plain s x new it comm : appends comm -> bodies_ok (mem s) -> item_ok (geti (mem s) new) ->
  has (geti (mem s) new) ITEM_CHUNKED = false -> 0 <= nsuffix (geti (mem s) new) ->
  2 <= nbytes (geti (mem s) x) -> 2 <= nbytes (geti (mem s) it) ->
  exists b, _store_item_copy_data cfg hash comm x new it s =
      Ok (0, with_mem s (seti (mem s) new (with_body b))) /\ same_key b (geti (mem s) new) /\
    peek b (ITEM_data_off (geti (mem s) new))
      (Z.to_nat (nbytes (geti (mem s) it) + nbytes (geti (mem s) x) - 2)) =
      joined comm (geti (mem s) x) (geti (mem s) it).
Proof.
  intros Ha Hb Hok Hch Hsuf Hx Hi. unfold _store_item_copy_data, joined. rewrite !rd_bind, Hch.
  set (o := geti (mem s) x) in *. set (i := geti (mem s) it) in *.
  assert (forall j n, 0 <= n -> length (item_data j n) = Z.to_nat n) as Hl by (intros; apply peek_length).
  destruct (decide (comm = NREAD_APPEND)) as [|Hc].
  - destruct (two_writes s new (item_data o (nbytes o)) (nbytes o - 2) (item_data i (nbytes i)) (Z.to_nat (nbytes o - 2)))
      as (b & E & Hs & Hp); try done; try (by apply item_data_bytes); try lia.
    { rewrite !Hl by lia. lia. }
    exists b. split_and!; [exact E|done|]. rewrite Hl, item_data_take in Hp by lia. rewrite <- Hp. f_equal. lia.
  - destruct (two_writes s new (item_data i (nbytes i)) (nbytes i - 2) (item_data o (nbytes o)) (Z.to_nat (nbytes i - 2)))
      as (b & E & Hs & Hp); try done; try (by apply item_data_bytes); try lia.
    { rewrite !Hl by lia. lia. }
    exists b. split_and!; [exact E|done|]. rewrite Hl, item_data_take in Hp by lia. rewrite <- Hp. f_equal. lia.
Qed.

(** do_item_replace of an item that may have been evicted meanwhile. *)
Lemma replace_over m Q F refs s x y k : store_inv m Q F refs s -> used m refs x -> ikey (mem s) x = k ->
  0 < refs y -> ~ linked m y -> refs_bounded refs -> ikey (mem s) y = k -> m !! k = Some x \/ m !! k = None ->
  does cfg hash cap (do_item_replace cfg x y (khash hash k)) s 1 (<[k := y]> m) refs.
Proof.
  intros I Hx Hkx Hy Hny Hb Hky [Hm|Hm].
  - rewrite <- Hkx. eapply do_item_replace_does; [done|exact I|by exists k|done|done|done|by rewrite Hkx|done].
  - pose proof I as [Ic _]. destruct (live_flags _ _ _ _ _ _ _ _ _ Ic Hx) as (Hsl & _ & Hlk).
    assert (has (geti (mem s) x) ITEM_LINKED = false) as Hul.
    { destruct (has (geti (mem s) x) ITEM_LINKED); [|done]. destruct (proj1 Hlk eq_refl) as [k' Hk'].
      pose proof (inv_key _ _ _ _ _ _ _ _ _ _ Ic Hk') as E. rewrite Hkx in E. congruence. }
    unfold do_item_replace. apply (does_rd cfg hash cap). rewrite Hsl. simpl negb.
    eapply does_eq; [apply massert_bind; done|apply effect_refl|].
    eapply does_bind.
    + eapply do_item_unlink_does; [done|exact I|exact Hx|by rewrite Hkx].
    + intros Q1 F1 s1 I1 Ef1 E1. rewrite Hul in I1, Ef1.
      assert (ikey (mem s1) y = k) as Hky1.
      { rewrite <- Hky. apply content_key, (ef_keeps _ _ _ Ef1). by right. }
      rewrite <- Hky1. eapply do_item_link_does; [done|exact I1|done|done|done|by rewrite Hky1|done].
    + rewrite Hul. intros z [Hz|Hz]; [|by right].
      destruct Hz as [k' [[_ <-]|[_ Hz]]%lookup_insert_Some]; [by right|left; by exists k'].
Qed.

(** Whether append and prepend may store: the item's cas unique is 0 or right. *)
Definition cas_allows (s : st) (it x : Z) : Prop :=
  ITEM_get_cas (geti (mem s) it) = 0 \/ ITEM_get_cas (geti (mem s) it) = ITEM_get_cas (geti (mem s) x).
#[local] Instance cas_allows_dec s it x : Decision (cas_allows s it x).
Proof. unfold cas_allows. apply _. Defined.

(** The combined item fits a chunk. *)
Definition fits (s : st) (it x : Z) : Prop :=
  let i := geti (mem s) it in let o := geti (mem s) x in
  nkey i <= 250 /\ 2 <= nbytes o /\ 2 <= nbytes i /\ nbytes i + nbytes o - 2 < 2 ^ 31 /\
  alloc_ntotal cfg (nkey i) (suffix_flags cfg o) (nbytes i + nbytes o - 2) <= slab_chunk_size_max cfg.

(** The item the combination made, and the map after it was stored. *)
Record combined (m : gmap (list Z) Z) (s : st) (it x comm new : Z) (m2 : gmap (list Z) Z) (refs : Z -> Z) (s2 : st) : Prop := {
  cb_sub : m2 ⊆ m;
  cb_new : ~ used m2 refs new;
  cb_others : effect (fun y => used (<[ikey (mem s) it := new]> m2) refs y /\ y <> new) s s2;
  cb_key : ikey (mem s2) new = ikey (mem s) it;
  cb_nbytes : nbytes (geti (mem s2) new) = nbytes (geti (mem s) it) + nbytes (geti (mem s) x) - 2;
  cb_data : item_data (geti (mem s2) new) (nbytes (geti (mem s2) new)) =
    joined comm (geti (mem s) x) (geti (mem s) it)
}.

Lemma store_choice_appends it x comm hv s : appends comm -> x <> 0 ->
  store_choice cfg hash it x comm hv s = store_rest cfg hash it x comm hv s.
Proof.
  intros Ha Hx. unfold store_choice, store_refused.
  rewrite !bool_decide_eq_false_2; [done|..]; unfold appends in Ha; destruct Ha as [->| ->]; intuition discriminate.
Qed.

Lemma effect_body (U : Z -> Prop) s x b : ~ U x -> effect U s (with_mem s (seti (mem s) x (with_body b))).
Proof.
  intros Hx. split; [apply same_classes_refl| |done]. intros y Hy. simpl.
  by rewrite geti_seti_ne by (intros ->; done).
Qed.

Lemma append_choice m Q F refs s it x comm : tail_repair_time cfg = 0 -> store_inv m Q F refs s ->
  0 < refs it -> ~ linked m it -> refs_bounded refs -> 0 < refs x ->
  let k := ikey (mem s) it in m !! k = Some x -> appends comm -> fits s it x ->
  exists r s2, store_choice cfg hash it x comm (khash hash k) s = Ok (r, s2) /\
    ((~ cas_allows s it x /\ r = (EXISTS, it, 0) /\ s2 = s) \/
     (cas_allows s it x /\ r = (NOT_STORED, it, 0) /\ exists m2, m2 ⊆ m /\ inv m2 refs s2 /\ effect (used m2 refs) s s2) \/
     (cas_allows s it x /\ exists new m2, r = (STORED, new, new) /\ new <> 0 /\ combined m s it x comm new m2 refs s2 /\
        inv (<[k := new]> m2) (rupd refs new 1) s2)).
Proof.
  intros Ht I Hit Hnl Hb Hxr k Hk Ha (Hnk & Hnx & Hni & Hsz & Hfit).
  destruct (old_key cfg hash cap _ _ _ _ _ _ _ I Hk) as (Hl & Hkx & Hx0 & Hux).
  rewrite store_choice_appends by done. unfold store_rest. rewrite bool_decide_eq_true_2 by exact Ha.
  unfold store_combine at 1. rewrite bind_assoc, rd_bind, bind_assoc, rd_bind.
  destruct (decide (cas_allows s it x)) as [Hc|Hc].
  2:{ rewrite decide_True by (unfold cas_allows in Hc; tauto). eexists _, s. split; [reflexivity|]. by left. }
  rewrite decide_False by (unfold cas_allows in Hc; tauto).
  pose proof I as [Ic _]. destruct (live_ok _ _ _ _ _ _ _ _ _ Ic (or_intror Hit : used m refs it)) as [Hbi Hni0].
  destruct (do_item_alloc_spec cfg hash cap m Q F refs s (body (geti (mem s) it)) (nkey (geti (mem s) it))
    (suffix_flags cfg (geti (mem s) x)) (exptime (geti (mem s) x))
    (nbytes (geti (mem s) it) + nbytes (geti (mem s) x) - 2) Ht Hb I Hbi ltac:(lia) ltac:(lia) Hsz Hfit)
    as (new & m2 & s2 & E2 & Hsub & Ef2 & Hal).
  rewrite bind_assoc, (M_bind_ok _ _ _ _ _ E2).
  destruct Hal as [[-> I2]|(Hn0 & Hnu & (Q2 & F2 & I2) & Hal)].
  { rewrite decide_True by done. eexists _, s2. split; [reflexivity|]. right; left. split_and!; try done. by exists m2. }
  rewrite decide_False by done. set (refs2 := rupd refs new 1) in *.
  assert (used m2 refs2 new) as Hun by (right; unfold refs2; rewrite rupd_eq; lia).
  assert (used m2 refs it /\ used m2 refs x) as [Hui2 Hux2] by (split; by right).
  destruct (live_flags _ _ _ _ _ _ _ _ _ (proj1 I2) Hun) as (_ & Hch & _).
  pose proof (ef_keeps _ _ _ Ef2 it Hui2) as Hci. pose proof (ef_keeps _ _ _ Ef2 x Hux2) as Hcx.
  destruct (content_data s s2 it 0 Hci) as (_ & Eni & _), (content_data s s2 x 0 Hcx) as (_ & Enx & _).
  destruct (copy_data_plain s2 x new it comm Ha (ci_bodies _ _ _ _ _ _ _ _ (proj1 I2))
    (live_ok _ _ _ _ _ _ _ _ _ (proj1 I2) Hun) Hch (al_suffix _ _ _ _ _ _ Hal) ltac:(lia) ltac:(lia))
    as (b & E3 & Hsk & Hdata).
  rewrite bind_assoc, (M_bind_ok _ _ _ _ _ E3). rewrite decide_False by done.
  set (s3 := with_mem s2 (seti (mem s2) new (with_body b))) in *.
  pose proof (store_body cfg hash cap m2 Q2 F2 refs2 s2 new b I2 Hun Hsk) as I3. fold s3 in I3.
  assert (ikey (mem s3) new = k) as Hkn.
  { unfold ikey, s3. simpl. rewrite geti_seti_eq. destruct Hsk as (_ & _ & Hsk).
    etransitivity; [exact Hsk|]. apply (al_key _ _ _ _ _ _ Hal). }
  assert (effect (used m2 refs) s2 s3) as Ef3 by by apply effect_body.
  assert (ikey (mem s3) x = k) as Hkx3.
  { rewrite <- Hkx. apply content_key. rewrite (ef_keeps _ _ _ Ef3 x Hux2). exact Hcx. }
  destruct (replace_over m2 Q2 F2 refs2 s3 x new k I3) as (Q4 & F4 & s4 & E4 & I4 & Ef4); try done.
  { destruct Hux2 as [?|?]; [by left|right]. unfold refs2, rupd. case_decide; lia. }
  { unfold refs2. rewrite rupd_eq. lia. }
  { intros Hl2. apply Hnu. by left. }
  { intros y. unfold refs2, rupd. case_decide; [norm_pow2; lia|apply Hb]. }
  { destruct (m2 !! k) as [z|] eqn:Ez; [left|by right]. rewrite (lookup_weaken _ _ _ _ Ez Hsub) in Hk. congruence. }
  eexists _, s4. split.
  { rewrite mret_bind. cbv beta iota. rewrite decide_True by done. rewrite decide_True by done.
    rewrite (M_bind_ok _ _ _ _ _ E4). reflexivity. }
  right; right. split; [done|]. exists new, m2. split_and!; [done|done| |by exists Q4, F4].
  assert (content (geti (mem s4) new) = content (geti (mem s3) new)) as Hcn.
  { apply (ef_keeps _ _ _ Ef4). right. unfold refs2. rewrite rupd_eq. lia. }
  destruct (content_data s3 s4 new 0 Hcn) as (_ & Enn & _).
  assert (geti (mem s3) new = with_body b (geti (mem s2) new)) as E3n by apply geti_seti_eq.
  split; [done|done| |exact (eq_trans (content_key _ _ _ Hcn) Hkn)| |].
  - assert (forall y, used (<[k := new]> m2) refs y /\ y <> new -> used m2 refs y) as Hu.
    { intros y [[[k' [[_ <-]|[_ Hy]]%lookup_insert_Some]|Hy] Hne]; [done|left; by exists k'|by right]. }
    eapply effect_trans; [exact Ef2| |exact Hu].
    eapply effect_trans; [eapply effect_weaken; [exact Ef3|exact Hu]|eapply effect_weaken; [exact Ef4|]|done].
    intros y [[Hy|Hy] Hne]; [by left|right; unfold refs2; by rewrite rupd_ne].
  - rewrite Enn, E3n. simpl. by rewrite (al_nbytes _ _ _ _ _ _ Hal).
  - rewrite (proj1 (content_data s3 s4 new _ Hcn)), Enn, E3n. simpl. rewrite (al_nbytes _ _ _ _ _ _ Hal).
    unfold item_data. rewrite <- (content_joined comm s s2 x it) by done. rewrite <- Hdata, Eni, Enx. done.
Qed.

(** The answer of append and prepend, the new map, and the data stored. *)
Definition append_post (m : gmap (list Z) Z) (refs : Z -> Z) (s : st) (it comm : Z) (old : option Z)
    (r : store_item_type) (m' : gmap (list Z) Z) (s' : st) : Prop :=
  let k := ikey (mem s) it in
  match old with
  | None => r = NOT_STORED /\ m' = purged cfg m s k /\ effect (used m' refs) s s'
  | Some x =>
      (~ cas_allows s it x /\ r = EXISTS /\ m' = m /\ effect (used m' refs) s s') \/
      (cas_allows s it x /\ r = NOT_STORED /\ m' ⊆ m /\ effect (used m' refs) s s') \/
      (cas_allows s it x /\ r = STORED /\ exists new m2, m' = <[k := new]> m2 /\ combined m s it x comm new m2 refs s')
  end.

Lemma combined_from m s s1 s2 s3 it x comm new m2 refs refs1 : combined m s1 it x comm new m2 refs1 s2 ->
  effect (used m refs1) s s1 -> ikey (mem s1) it = ikey (mem s) it ->
  effect (used (<[ikey (mem s) it := new]> m2) refs) s2 s3 -> (forall y, refs y <= refs1 y) ->
  used m refs1 it -> used m refs1 x -> combined m s it x comm new m2 refs s3.
Proof.
  intros [H1 H2 H3 H4 H5 H6] Ef1 Ek Ef2 Hr Hit Hx. rewrite Ek in H3.
  assert (linked (<[ikey (mem s) it := new]> m2) new) as Hn by (eexists; apply lookup_insert_eq).
  pose proof (ef_keeps _ _ _ Ef2 new (or_introl Hn)) as Hcn.
  pose proof (ef_keeps _ _ _ Ef1 it Hit) as Hci. pose proof (ef_keeps _ _ _ Ef1 x Hx) as Hcx.
  destruct (content_data s2 s3 new 0 Hcn) as (_ & En & _).
  destruct (content_data s s1 it 0 Hci) as (_ & Eni & _), (content_data s s1 x 0 Hcx) as (_ & Enx & _).
  split; [done| | | | |].
  - intros [Hy|Hy]; apply H2; [by left|right]. specialize (Hr new). lia.
  - eapply effect_trans; [exact Ef1| |].
    + eapply effect_trans; [exact H3|eapply effect_weaken; [exact Ef2|by intros y [Hy _]]|].
      intros y [[Hy|Hy] Hne]; (split; [|done]); [by left|right; specialize (Hr y); lia].
    + intros y [[[k' [[_ <-]|[_ Hy]]%lookup_insert_Some]|Hy] Hne]; [done|left|right; specialize (Hr y); lia].
      exists k'. by eapply lookup_weaken.
  - rewrite (content_key _ _ _ Hcn), H4. by apply content_key.
  - by rewrite En, H5, Eni, Enx.
  - rewrite (proj1 (content_data s2 s3 new _ Hcn)), En, H6. by apply content_joined.
Qed.

(** C4. What append and prepend do, on an item the caller allocated and holds: no
    item of the key, NOT_STORED; a cas unique that is not the old item's, EXISTS;
    no memory, NOT_STORED; otherwise STORED, and the key is mapped to a new item
    whose data are those of the old and of the new item one after the other, the
    line end between them dropped.  Items evicted to make room leave the map; all
    others keep key and data, and every reference taken on the way is released. *)
Theorem do_store_item_append m Q F refs s it comm : tail_repair_time cfg = 0 -> store_inv m Q F refs s ->
  0 < refs it -> ~ linked m it -> roomy refs -> appends comm ->
  let k := ikey (mem s) it in
  let old := live_at cfg m s k in
  (forall x, old = Some x -> fits s it x) ->
  exists r c m' s', do_store_item cfg hash it comm (khash hash k) s = Ok ((r, c), s') /\
    inv m' refs s' /\ append_post m refs s it comm old r m' s'.
Proof.
  intros Ht I Hit Hnl Hr Ha k old Hfits.
  destruct (look_up m Q F refs s it I Hit Hnl Hr) as (s1 & E1 & [(Q1 & F1 & I1) Ef1 Ho Hk Hh Hl Hb Hc Hown]).
  fold k in E1, I1, Ef1, Ho, Hk, Hh, Hl, Hb, Hc, Hown. fold old in E1, I1, Ef1, Ho, Hk, Hh, Hl, Hb, Hc, Hown.
  assert (forall y, refs y <= take_ref refs old y) as Hle by (intros; apply take_ref_le).
  unfold append_post. fold k. clearbody old. destruct old as [x|]; cbn [default from_option id] in *.
  2:{ (* no such key *)
    assert (store_choice cfg hash it 0 comm (khash hash k) s1 = Ok ((NOT_STORED, it, 0), s1)) as E2.
    { unfold store_choice, store_refused. rewrite bool_decide_eq_false_2 by (intros [? _]; done).
      rewrite bool_decide_eq_true_2; [done|]. split; [done|]. destruct Ha as [->| ->]; tauto. }
    destruct (store_finish cfg hash cap _ Q1 F1 refs s1 0 0 it NOT_STORED I1) as (c & s3 & E3 & I3 & Ef3 & _); [done|done|].
    exists NOT_STORED, c, (purged cfg m s k), s3. split_and!; [|exact I3|done|done|].
    - rewrite do_store_item_eq, (M_bind_ok _ _ _ _ _ E1), (M_bind_ok _ _ _ _ _ E2). exact E3.
    - by eapply effect_trans. }
  specialize (Hfits x eq_refl).
  destruct (old_key cfg hash cap _ _ _ _ _ _ _ I1 Ho) as (Hlx & Hkx & Hx0 & Hux).
  assert (purged cfg m s k = m) as Em.
  { destruct (decide (m !! k = Some x)) as [Hm|Hm]; [|by destruct Hm; eapply lookup_weaken; [|apply purged_sub]].
    unfold purged in Ho |- *. destruct (live_at cfg m s k); [done|]. by rewrite lookup_delete_eq in Ho. }
  rewrite Em in *. set (refs1 := rupd refs x (refs x + 1)) in *.
  change (forall y, refs y <= refs1 y) in Hle. change (effect (used m refs1) s s1) in Ef1.
  pose proof (ci_refs _ _ _ _ _ _ _ _ (proj1 I) x) as Hrx.
  assert (0 < refs1 x) as Hx1 by (unfold refs1; rewrite rupd_eq; lia).
  assert (used m refs1 it) as Hui by by right.
  pose proof (ef_keeps _ _ _ Ef1 it Hui) as Hci. pose proof (ef_keeps _ _ _ Ef1 x Hux) as Hcx.
  assert (fits s1 it x) as Hfits1.
  { unfold fits in *. destruct (content_data s s1 it 0 Hci) as (_ & -> & _), (content_data s s1 x 0 Hcx) as (_ & -> & ->).
    assert (nkey (geti (mem s1) it) = nkey (geti (mem s) it)) as -> by (unfold content, kview in Hci; congruence). done. }
  assert (cas_allows s1 it x <-> cas_allows s it x) as Hcas.
  { unfold cas_allows. rewrite Hown by done. unfold same_cas in Hc.
    assert ((ITEM_get_cas (geti (mem s1) it) = ITEM_get_cas (geti (mem s1) x)) <->
            (ITEM_get_cas (geti (mem s) it) = ITEM_get_cas (geti (mem s) x))) as Hiff.
    { rewrite <- (bool_decide_eq_true (ITEM_get_cas (geti (mem s1) it) = _)), Hc. apply bool_decide_eq_true. }
    rewrite Hown in Hiff by done. tauto. }
  destruct (append_choice m Q1 F1 refs1 s1 it x comm Ht I1 Hh Hl Hb Hx1) as (r2 & s2 & E2 & Hcase); try done.
  { by rewrite Hk. }
  rewrite Hk in E2.
  assert (forall y, drop_ref (drop_ref refs1 x) 0 y = refs y) as Hd by (intros y; by apply drop_take).
  destruct Hcase as [(Hn & -> & ->)|[(Hy & -> & m2 & Hsub & (Q2 & F2 & I2) & Ef2)|
    (Hy & new & m2 & -> & Hn0 & Hcb & (Q2 & F2 & I2))]].
  - destruct (store_finish cfg hash cap m Q1 F1 refs1 s1 x 0 it EXISTS I1) as (c & s3 & E3 & I3 & Ef3 & _); [done|done|].
    exists EXISTS, c, m, s3. split_and!; [|by eapply inv_refs|].
    + rewrite do_store_item_eq, (M_bind_ok _ _ _ _ _ E1), (M_bind_ok _ _ _ _ _ E2). exact E3.
    + left. split_and!; [by rewrite <- Hcas|done|done|].
      eapply effect_weaken; [eapply effect_trans; [exact Ef1|exact Ef3|]|]; intros y [Hy|Hy]; try (by left); right.
      * rewrite Hd in Hy. specialize (Hle y). lia.
      * by rewrite Hd.
  - destruct (store_finish cfg hash cap m2 Q2 F2 refs1 s2 x 0 it NOT_STORED I2) as (c & s3 & E3 & I3 & Ef3 & _); [done|done|].
    exists NOT_STORED, c, m2, s3. split_and!; [|by eapply inv_refs|].
    + rewrite do_store_item_eq, (M_bind_ok _ _ _ _ _ E1), (M_bind_ok _ _ _ _ _ E2). exact E3.
    + right; left. split_and!; [by rewrite <- Hcas|done|done|].
      assert (forall y, used m2 refs y -> used m2 refs1 y) as Hu
        by (intros y [Hz|Hz]; [by left|right; specialize (Hle y); lia]).
      eapply effect_trans; [exact Ef1| |].
      * eapply effect_trans; [exact Ef2|eapply effect_weaken; [exact Ef3|]|exact Hu].
        intros y [Hz|Hz]; [by left|right; by rewrite Hd].
      * intros y Hz. destruct (Hu y Hz) as [?|?]; [left; by eapply linked_sub|by right].
  - assert (~ 0 < refs1 new) as Hnn by (intros ?; apply (cb_new _ _ _ _ _ _ _ _ _ Hcb); by right).
    assert (new <> x) as Hnx by (intros ->; done).
    pose proof (ci_refs _ _ _ _ _ _ _ _ (proj1 I) new) as Hrn. pose proof (Hle new) as Hln.
    set (refs2 := rupd refs1 new 1) in *.
    assert (refs2 x = refs x + 1) as Ex2 by (unfold refs2, refs1; by rewrite rupd_ne, rupd_eq).
    assert (forall y, drop_ref (drop_ref refs2 x) new y = refs y) as Hd2.
    { intros y. unfold drop_ref. rewrite !decide_False by done. rewrite Ex2. unfold refs2, refs1, rupd.
      repeat case_decide; subst; try lia. }
    destruct (store_finish cfg hash cap _ Q2 F2 refs2 s2 x new new STORED I2) as (c & s3 & E3 & I3 & Ef3 & _).
    { intros _. lia. }
    { intros _. unfold drop_ref. rewrite decide_False by done. rewrite rupd_ne by done. unfold refs2. rewrite rupd_eq. lia. }
    exists STORED, c, (<[k := new]> m2), s3. split_and!; [| by rewrite Hk in I3; eapply inv_refs|].
    + rewrite do_store_item_eq, (M_bind_ok _ _ _ _ _ E1), (M_bind_ok _ _ _ _ _ E2). exact E3.
    + right; right. split_and!; [by rewrite <- Hcas|done|]. exists new, m2. split; [done|].
      rewrite Hk in Ef3.
      eapply (combined_from m s s1 s2 s3 it x comm new m2 refs refs1); [exact Hcb|exact Ef1|exact Hk| |exact Hle|done|done].
      eapply effect_weaken; [exact Ef3|]. intros y [Hz|Hz]; [by left|right; by rewrite Hd2].
Qed.
End commands_spec.

(** ** Concrete runs *)

Module Runs.
Import StoreSpec.Demo.
Abbreviation cfg := StoreSpec.Demo.cfg.
Definition hv1 : Z := khash hash k1.

(** Stores the data [bs] under "k1" with a command. *)
Definition put (comm : Z) (bs : list Z) : M st (store_item_type * option Z) :=
  it ← do_item_alloc cfg hash k1 2 0 0 (Z.of_nat (length bs));
  write_data it 0 bs;;
  r ← do_store_item cfg hash it comm hv1;
  do_item_remove cfg it;;
  mret r.

(** The data a lookup of "k1" finds. *)
Definition look : M st (list Z) :=
  it ← do_item_get cfg k1 2 hv1 true;
  i ← rd it;
  do_item_remove cfg it;;
  mret (item_data i (nbytes i)).

Definition crlf : list Z := [13; 10].
Definition answer {A} (r : res (A * st)) : option A := match r with Ok (a, _) => Some a | _ => None end.

Example commands : answer ((
  r1 ← put NREAD_REPLACE (lit "a" ++ crlf); r2 ← put NREAD_ADD (lit "b" ++ crlf);
  r3 ← put NREAD_ADD (lit "c" ++ crlf); r4 ← put NREAD_APPEND (lit "de" ++ crlf);
  r5 ← put NREAD_PREPEND (lit "fg" ++ crlf); d ← look;
  mret ([r1.1; r2.1; r3.1; r4.1; r5.1], d)) s0) =
  Some ([NOT_STORED; STORED; NOT_STORED; STORED; STORED], lit "fgbde" ++ crlf).
Proof. vm_compute. reflexivity. Qed.

Example counters : answer ((
  put NREAD_SET (lit "9" ++ crlf);; a ← do_add_delta cfg hash k1 2 true 1 None hv1; d1 ← look;
  b ← do_add_delta cfg hash k1 2 false 3 None hv1; d2 ← look;
  c ← do_add_delta cfg hash k1 2 false 8 None hv1;
  e ← do_add_delta cfg hash k1 2 true (-1) None hv1;
  mret ([a; b; c; e], d1, d2)) s0) =
  Some ([(DELTA_OK, lit "10", None); (DELTA_OK, lit "7", None); (DELTA_OK, lit "0", None);
         (DELTA_OK, lit "18446744073709551615", None)], lit "10" ++ crlf, lit "7 " ++ crlf).
Proof. vm_compute. reflexivity. Qed.
End Runs.

Module Witness.
Import StoreSpec.Demo.
Abbreviation cfg := StoreSpec.Demo.cfg.
Abbreviation inv := (fun m refs s => exists Q F, store_inv cfg hash (whole 100) m Q F refs s).
Definition refs1 : Z -> Z := rupd (fun _ => 0) 1408 1.
Definition m2 : gmap (list Z) Z := <[k1 := 1408]> ∅.

Lemma alloc_ok n s m refs : (forall x, refs x < 3) -> n < 2 ^ 31 ->
  alloc_ntotal cfg 2 0 n <= slab_chunk_size_max cfg -> op_ok cfg (OAlloc k1 2 0 0 n) m refs s.
Proof.
  intros Hr Hn Hf. split; [by apply small_refs|]. split; [exact k1_bytes|]. split_and!; [done|done| |done|done].
  vm_compute. discriminate.
Qed.

Lemma refs1_small x : refs1 x < 3.
Proof. unfold refs1, rupd. case_decide; lia. Qed.

(** Allocation, from a state that satisfies the invariant. *)
Lemma alloc_state n s m refs r s' : inv m refs s -> (forall x, refs x < 3) -> n < 2 ^ 31 ->
  alloc_ntotal cfg 2 0 n <= slab_chunk_size_max cfg ->
  store_step cfg hash (OAlloc k1 2 0 0 n) s = Ok (r, s') -> r <> 0 ->
  exists m', m' ⊆ m /\ inv m' (rupd refs r 1) s' /\ ~ used m' refs r /\ allocated k1 2 0 n s' r.
Proof.
  intros I Hr Hn Hf E Hr0.
  destruct (step_refines cfg hash (whole 100) _ s m refs eq_refl I (alloc_ok n s m refs Hr Hn Hf))
    as (r2 & s2 & m' & refs' & E2 & [Hsub Hs] & _ & _ & I').
  rewrite E in E2. apply ok_inj in E2 as [<- <-]. destruct Hs as [[? _]|(_ & Hu & -> & Hal)]; [done|].
  by exists m'.
Qed.

Lemma st1_inv : inv ∅ refs1 st1 /\ ikey (mem st1) 1408 = k1.
Proof.
  destruct (alloc_state 300 s0 ∅ (fun _ => 0) 1408 st1) as (m' & Hm & I & _ & Hal);
    [exists (fun _ => []), (fun _ => []); exact store_inv0|done|done|vm_compute; discriminate|exact step1|done|].
  assert (m' = ∅) as -> by (apply map_empty; intros k; destruct (m' !! k) eqn:Ek; [|done];
    by apply (lookup_weaken _ ∅) in Ek).
  split; [exact I|]. exact (al_key _ _ _ _ _ _ Hal).
Qed.

Lemma st2_inv : inv m2 refs1 st2.
Proof.
  destruct st1_inv as [I Hk].
  assert (op_ok cfg (OLink 1408) ∅ refs1 st1) as Hok.
  { split; [apply small_refs, refs1_small|]. split; [unfold refs1; by rewrite rupd_eq|]. split; [|apply lookup_empty].
    intros [k Hx]. by rewrite lookup_empty in Hx. }
  destruct (step_refines cfg hash (whole 100) _ st1 ∅ refs1 eq_refl I Hok) as (r & s' & m' & refs' & E & (_ & -> & ->) & _ & _ & I').
  rewrite step2 in E. apply ok_inj in E as [_ <-]. by rewrite Hk in I'.
Qed.

(** A second item of the key "k1", while the first one is linked and held. *)
Definition st6 : st := next_state (OAlloc k1 2 0 0 5) st2.
Lemma step6 : store_step cfg hash (OAlloc k1 2 0 0 5) st2 = Ok (9056, st6).
Proof. vm_compute. reflexivity. Qed.
Lemma linked6 : has (geti (mem st6) 1408) ITEM_LINKED = true.
Proof. vm_compute. reflexivity. Qed.
Lemma alive6 : item_dead cfg (geti (mem st6) 1408) (now st6) = false.
Proof. vm_compute. reflexivity. Qed.
Lemma fits6 : fits cfg st6 9056 1408.
Proof. unfold fits. cbv zeta. split_and!; vm_compute; first [discriminate|reflexivity]. Qed.
Definition run6 : option store_item_type :=
  match do_store_item cfg hash 9056 NREAD_APPEND (khash hash k1) st6 with Ok (r, _, _) => Some r | _ => None end.
Lemma run6_stored : run6 = Some STORED.
Proof. vm_compute. reflexivity. Qed.
#[global] Opaque st6.

Definition refs6 : Z -> Z := rupd refs1 9056 1.
Lemma refs6_small x : refs6 x < 3.
Proof. unfold refs6. pose proof (refs1_small x). unfold rupd. case_decide; lia. Qed.

Lemma st6_inv : exists m, inv m refs6 st6 /\ ~ linked m 9056 /\ ikey (mem st6) 9056 = k1 /\ m !! k1 = Some 1408.
Proof.
  destruct (alloc_state 5 st2 m2 refs1 9056 st6 st2_inv refs1_small) as (m & Hm & I & Hu & Hal);
    [done|vm_compute; discriminate|exact step6|done|].
  exists m. split; [exact I|]. split; [intros Hl; apply Hu; by left|]. split; [exact (al_key _ _ _ _ _ _ Hal)|].
  destruct I as (Q & F & I & _).
  assert (used m refs6 1408) as Hx by (right; unfold refs6, refs1; rewrite rupd_ne by done; by rewrite rupd_eq).
  destruct (live_flags _ _ _ _ _ _ _ _ _ I Hx) as (_ & _ & Hl). apply proj1 in Hl. specialize (Hl linked6).
  destruct Hl as [k Hk]. pose proof (lookup_weaken _ _ _ _ Hk Hm) as Hk2. unfold m2 in Hk2.
  apply lookup_insert_Some in Hk2 as [[<- _]|[_ Hk2]]; [done|by rewrite lookup_empty in Hk2].
Qed.
End Witness.

Lemma do_store_item_plain_witness : exists c s',
  do_store_item Witness.cfg StoreSpec.Demo.hash 1408 NREAD_SET
    (khash StoreSpec.Demo.hash StoreSpec.Demo.k1) StoreSpec.Demo.st1 = Ok ((STORED, c), s').
Proof.
  destruct Witness.st1_inv as [(Q & F & I) Hk].
  pose proof (do_store_item_plain Witness.cfg StoreSpec.Demo.hash (whole 100) ∅ Q F Witness.refs1 StoreSpec.Demo.st1 1408 NREAD_SET I)
    as H.
  rewrite Hk in H. destruct H as (c & s' & E & _).
  - reflexivity.
  - intros [k Hx]. by rewrite lookup_empty in Hx.
  - intros x. pose proof (Witness.refs1_small x). lia.
  - intros [Hx|Hx]; discriminate Hx.
  - by exists c, s'.
Defined.

Lemma do_store_item_append_witness : exists c (m' : gmap (list Z) Z) s',
  do_store_item Witness.cfg StoreSpec.Demo.hash 9056 NREAD_APPEND
    (khash StoreSpec.Demo.hash StoreSpec.Demo.k1) Witness.st6 = Ok ((STORED, c), s') /\
  exists new (m2 : gmap (list Z) Z), m' = <[StoreSpec.Demo.k1 := new]> m2 /\
    item_data (geti (mem s') new) (nbytes (geti (mem s') new)) =
    joined NREAD_APPEND (geti (mem Witness.st6) 1408) (geti (mem Witness.st6) 9056).
Proof.
  destruct Witness.st6_inv as (m & (Q & F & I) & Hnl & Hk & Hm).
  pose proof (do_store_item_append Witness.cfg StoreSpec.Demo.hash (whole 100) m Q F Witness.refs6 Witness.st6 9056 NREAD_APPEND
    eq_refl I) as H. rewrite Hk in H. unfold live_at in H. rewrite Hm, Witness.alive6 in H.
  destruct H as (r & c & m' & s' & E & _ & P).
  - reflexivity.
  - exact Hnl.
  - intros x. pose proof (Witness.refs6_small x). lia.
  - by left.
  - intros x [= <-]. exact Witness.fits6.
  - assert (r = STORED) as ->.
    { pose proof Witness.run6_stored as Hr. unfold Witness.run6 in Hr. rewrite E in Hr. by injection Hr. }
    exists c, m', s'. split; [exact E|]. unfold append_post in P. rewrite Hk in P.
    destruct P as [(_ & Hr & _)|[(_ & Hr & _)|(_ & _ & new & m2 & Em & Hcb)]]; [discriminate Hr|discriminate Hr|].
    exists new, m2. split; [exact Em|]. exact (cb_data _ _ _ _ _ _ _ _ _ Hcb).
Defined.
