(* ===== verification/Rebalance.v ===== *)
(** * Moving slab pages between classes (src/memory_lru/slabs.c)

    The page mover takes the oldest page of one slab class, clears its chunks one
    by one - free chunks leave the free list, items are copied into another chunk
    of their class or evicted - and gives the page to another class or to the
    global pool.  It runs in a thread of its own; between two calls of
    slab_rebalance_move any client may use the store.

    The allocator and the item operations it calls are those of [Slabs] and
    [Items] (the functions of memory_lru/slabs.c and memory_lru/items.c are the
    same text).  The mover's tests of it->flags are read as it->it_flags;
    STORAGE_delete is empty and DEBUG_SLAB_MOVER is not defined. *)

From S2P Require Import Prelude Hash Heap Assoc Settings Slabs Items Store.

Definition SLAB_MOVE_MAX_LOOPS : Z := 1000.

(** What the flags of a chunk say when the mover has cleared it. *)
Definition CLEARED : Z := Z.lor ITEM_SLABBED ITEM_FETCHED.

Inductive move_status := MOVE_PASS | MOVE_FROM_SLAB | MOVE_FROM_LRU | MOVE_BUSY | MOVE_LOCKED.

#[export] Instance move_status_eq_dec : EqDecision move_status.
Proof. solve_decision. Defined.

Definition set_rbl (f : rebal_t -> rebal_t) : M st unit := modify (fun s => s <| rbl ::= f |>).
Definition set_slb (f : slabs_t -> slabs_t) : M st unit := modify (fun s => s <| slb ::= f |>).

Section rebalance.
Context (cfg : settings) (hash : hash_func).

(** &slabclass[slab_rebal.s_clsid] *)
Definition s_cls : M st slabclass_t := gets (fun s => getc (slb s) (s_clsid (rbl s))).
Definition set_s_cls (f : slabclass_t -> slabclass_t) : M st unit :=
  modify (fun s => s <| slb := setc (slb s) (s_clsid (rbl s)) f |>).

(** ** Starting *)

Definition st_grow_slab_list (id : Z) : M st Z := fun s =>
  let '(r, sl) := grow_slab_list id (slb s) in Ok (r, s <| slb := sl |>).

Definition slab_rebalance_start : M st Z :=
  r ← gets rbl;
  pl ← gets (fun s => power_largest (slb s));
  let no_go := if decide (s_clsid r < SLAB_GLOBAL_PAGE_POOL \/ pl < s_clsid r \/
                          d_clsid r < SLAB_GLOBAL_PAGE_POOL \/ pl < d_clsid r \/
                          s_clsid r = d_clsid r) then -2 else 0 in
  grown ← st_grow_slab_list (d_clsid r);
  let no_go := if decide (grown = 0) then -1 else no_go in
  c ← s_cls;
  let no_go := if decide (slabs c < 2) then -3 else no_go in
  if decide (no_go <> 0) then mret no_go
  else
    let start := nth 0 (slab_list c) 0 in
    set_rbl (fun r => r <| slab_start := start |> <| slab_end := start + u32 (csize c * perslab c) |>
                        <| slab_pos := start |>
                        <| done_ := if decide (s_clsid r = SLAB_GLOBAL_PAGE_POOL) then 1 else 0 |>
                        <| slab_rebalance_signal := 2 |>);;
    set_stats (fun x => x <| slab_reassign_running := true |>);;
    mret 0.

(** ** Clearing a chunk *)

(** The marks of a cleared chunk. *)
Definition clear_chunk (it : Z) : M st unit :=
  wr it (fun i => i <| refcount := 0 |> <| it_flags := CLEARED |>).

(** for (x = 0; x < s_cls->perslab; x++): a chunk of the class outside the page. *)
Fixpoint rebalance_alloc_loop (n : nat) (size id : Z) : M st Z :=
  match n with
  | O => mret 0
  | S n =>
      '(new_it, _) ← slabs_alloc cfg size id SLABS_ALLOC_NO_NEWPAGE;
      r ← gets rbl;
      if decide (new_it = 0) then mret 0
      else if decide (slab_start r <= new_it /\ new_it < slab_end r) then
        set_s_cls (fun p => p <| requested := u64 (requested p - size) |>);;
        clear_chunk new_it;;
        set_rbl (fun r => r <| inline_reclaim := u32 (inline_reclaim r + 1) |>);;
        rebalance_alloc_loop n size id
      else mret new_it
  end.

Definition slab_rebalance_alloc (size id : Z) : M st Z :=
  c ← s_cls; rebalance_alloc_loop (Z.to_nat (perslab c)) size id.

(** Detaches a chunk from the free list. *)
Definition slab_rebalance_cut_free (it : Z) : M st unit :=
  i ← rd it;
  massert (bool_decide (it_flags i = ITEM_SLABBED));;
  c ← s_cls;
  when (bool_decide (slots c = it)) (set_s_cls (fun p => p <| slots := next i |>));;
  when (negb (bool_decide (next i = 0))) (wr (next i) (fun n => n <| prev := prev i |>));;
  i ← rd it;
  when (negb (bool_decide (prev i = 0))) (wr (prev i) (fun p => p <| next := next i |>));;
  set_s_cls (fun p => p <| sl_curr := u32 (sl_curr p - 1) |>).

(** An item that was linked when it was looked at: the status, and the hash. *)
Definition move_linked (it : Z) : M st (move_status * Z) :=
  hv ← gets (fun s => item_hash hash (mem s) it);
  got ← trylock;
  if negb got then mret (MOVE_LOCKED, hv)
  else
    i ← rd it;
    let is_linked := has i ITEM_LINKED in
    rc ← refcount_incr it;
    status ←
      (if decide (rc = 2) then mret (if is_linked then MOVE_FROM_LRU else MOVE_BUSY)
       else if bool_decide (2 < rc) && is_linked then
         r ← gets rbl;
         when (bool_decide (SLAB_MOVE_MAX_LOOPS < busy_loops r))
           (set_rbl (fun r => r <| busy_deletes := u32 (busy_deletes r + 1) |>);;
            do_item_unlink cfg it hv);;
         mret MOVE_BUSY
       else mret MOVE_BUSY);
    (if decide (status = MOVE_BUSY) then refcount_decr it;; mret tt else mret tt);;
    mret (status, hv).

(** What to do about the chunk at slab_pos: the status, the item it belongs to,
    the chunk itself when it is one of a chunked item (0 otherwise), the hash. *)
Definition examine (pos : Z) : M st (move_status * Z * Z * Z) :=
  i ← rd pos;
  '(it, ch) ← (if has i ITEM_CHUNK then
                 h ← rd (ch_head i);
                 massert (has h ITEM_CHUNKED);;
                 mret (ch_head i, pos)
               else mret (pos, 0));
  i ← rd it;
  if decide (it_flags i = CLEARED) then mret (MOVE_PASS, it, ch, 0)
  else if has i ITEM_SLABBED then
    massert (bool_decide (ch = 0));;
    slab_rebalance_cut_free it;;
    mret (MOVE_FROM_SLAB, it, ch, 0)
  else if has i ITEM_LINKED then
    '(status, hv) ← move_linked it; mret (status, it, ch, hv)
  else mret (MOVE_BUSY, it, ch, 0).

(** ** Moving an item *)

(** memcpy(dst, src, ntotal) of a whole item.  The bytes behind the header are
    data->cas, when the item has one, and [body]. *)
Definition copy_item (ntotal : Z) (src dst : item) : item :=
  let n := Z.to_nat (ntotal - sizeof_item - (if has src ITEM_CAS then 8 else 0)) in
  src <| cas := if has src ITEM_CAS then cas src else cas dst |>
      <| body := poke (body dst) 0 (peek (body src) 0 n) |>.

(** memcpy(nch, ch, ch->used + sizeof(item_chunk)) *)
Definition copy_chunk (src dst : item) : item :=
  src <| cas := cas dst |> <| body := poke (body dst) 0 (peek (ch_data src) 0 (Z.to_nat (ch_used src))) |>.

(** while (fch) { fch->head = new_it; fch = fch->next; } *)
Fixpoint repoint_heads (fuel : nat) (fch new_it : Z) : M st unit :=
  match fuel with
  | O => nofuel
  | S fuel =>
      if decide (fch = 0) then mret tt
      else
        wr fch (fun c => c <| ch_head := new_it |>);;
        c ← rd fch;
        repoint_heads fuel (next c) new_it
  end.

(** The copy of a chunked item brings its first item_chunk with it, which lies in
    the item's own memory. *)
Definition copy_first_chunk (it new_it : Z) : M st unit :=
  i ← rd it;
  n ← rd new_it;
  c ← rd (ITEM_data_addr it i);
  wr (ITEM_data_addr new_it n) (fun _ => c).

Definition repoint_chunks (new_it : Z) : M st unit :=
  n ← rd new_it;
  let fch := ITEM_data_addr new_it n in
  c ← rd fch;
  massert (negb (bool_decide (next c = 0)));;
  wr (next c) (fun x => x <| prev := fch |>);;
  fuel ← gets (fun s => S (S (size (mem s))));
  repoint_heads fuel fch new_it.

(** The memory there is for the copy: the whole item, or the chunk [ch] of one. *)
Definition find_memory (it ch ntotal : Z) : M st Z :=
  i ← rd it;
  t ← gets now;
  if item_expired i t || item_is_flushed cfg i t then mret 0
  else
    r ← gets rbl;
    c ← s_cls;
    new_it ← slab_rebalance_alloc (if decide (ch = 0) then ntotal else csize c) (s_clsid r);
    when (bool_decide (new_it = 0))
      (set_rbl (fun r => r <| evictions_nomem := u32 (evictions_nomem r + 1) |>));;
    mret new_it.

Definition rescue_item (it new_it ntotal hv : Z) : M st Z :=
  n ← rd new_it;
  massert (negb (has n ITEM_CHUNKED));;
  i ← rd it;
  wr new_it (copy_item ntotal i);;
  when (has i ITEM_CHUNKED) (copy_first_chunk it new_it);;
  wr new_it (fun n => clear_flag ITEM_LINKED (n <| prev := 0 |> <| next := 0 |> <| h_next := 0 |>)
                        <| refcount := 0 |>);;
  do_item_replace cfg it new_it hv;;
  n ← rd new_it;
  when (has n ITEM_CHUNKED) (repoint_chunks new_it);;
  clear_chunk it;;
  set_rbl (fun r => r <| rescues := u32 (rescues r + 1) |>);;
  mret (u32 ntotal).

Definition rescue_chunk (it ch nch : Z) : M st Z :=
  c ← rd ch;
  wr (prev c) (fun p => p <| next := nch |>);;
  when (negb (bool_decide (next c = 0))) (wr (next c) (fun n => n <| prev := nch |>));;
  c ← rd ch;
  wr nch (copy_chunk c);;
  clear_chunk ch;;
  set_rbl (fun r => r <| chunk_rescues := u32 (chunk_rescues r + 1) |>);;
  refcount_decr it;;
  cl ← s_cls;
  mret (u32 (csize cl)).

Definition evict_item (it hv : Z) : M st unit :=
  i ← rd it;
  let ntotal := ITEM_ntotal i in
  do_item_unlink cfg it hv;;
  r ← gets rbl;
  lift_slabs (do_slabs_free cfg it ntotal (s_clsid r));;
  set_rbl (fun r => r <| busy_items := u32 (busy_items r + 1) |>).

(** case MOVE_FROM_LRU: what is added to was_busy. *)
Definition move_from_lru (it ch hv : Z) : M st Z :=
  i ← rd it;
  c ← s_cls;
  let ntotal := if bool_decide (ch = 0) && has i ITEM_CHUNKED then csize c else ITEM_ntotal i in
  new_it ← find_memory it ch ntotal;
  '(adjust, busy) ←
    (if decide (new_it = 0) then evict_item it hv;; mret (0, 1)
     else if decide (ch = 0) then a ← rescue_item it new_it ntotal hv; mret (a, 0)
     else a ← rescue_chunk it ch new_it; mret (a, 0));
  set_s_cls (fun p => p <| requested := u64 (requested p - adjust) |>);;
  mret busy.

Definition busy_chunk : M st Z :=
  set_rbl (fun r => r <| busy_items := u32 (busy_items r + 1) |>);; mret 1.

(** One turn of the loop of slab_rebalance_move. *)
Definition move_chunk : M st Z :=
  r ← gets rbl;
  '(status, it, ch, hv) ← examine (slab_pos r);
  busy ← (match status with
          | MOVE_FROM_LRU => move_from_lru it ch hv
          | MOVE_FROM_SLAB => clear_chunk it;; mret 0
          | MOVE_BUSY | MOVE_LOCKED => busy_chunk
          | MOVE_PASS => mret 0
          end);
  c ← s_cls;
  set_rbl (fun r => r <| slab_pos := slab_pos r + csize c |>);;
  mret busy.

(** for (x = 0; x < slab_bulk_check; x++) *)
Fixpoint move_loop (n : nat) (was_busy : Z) : M st Z :=
  match n with
  | O => mret was_busy
  | S n =>
      busy ← move_chunk;
      r ← gets rbl;
      if decide (slab_end r <= slab_pos r) then mret (was_busy + busy)
      else move_loop n (was_busy + busy)
  end.

(** At the end of the page: again from the top, or done. *)
Definition end_of_pass : M st unit :=
  r ← gets rbl;
  when (bool_decide (slab_end r <= slab_pos r))
    (if decide (busy_items r <> 0) then
       set_stats (fun x => x <| slab_reassign_busy_items := u64 (slab_reassign_busy_items x + busy_items r) |>);;
       set_rbl (fun r => r <| slab_pos := slab_start r |> <| busy_items := 0 |>
                           <| busy_loops := u32 (busy_loops r + 1) |>)
     else set_rbl (fun r => r <| done_ := u8 (done_ r + 1) |>)).

(** [bulk] is slab_bulk_check. *)
Definition slab_rebalance_move (bulk : nat) : M st Z :=
  was_busy ← move_loop bulk 0; end_of_pass;; mret was_busy.

(** ** Handing the page over *)

(** for (x = 0; x < s_cls->slabs; x++) s_cls->slab_list[x] = s_cls->slab_list[x+1];
    a read behind the array is undefined. *)
Fixpoint shift_loop (fuel : nat) (n x : Z) (l : list Z) : option (list Z) :=
  match fuel with
  | O => None
  | S fuel =>
      if decide (x < n) then
        match l !! Z.to_nat (x + 1) with
        | Some v => shift_loop fuel n (x + 1) (<[Z.to_nat x := v]> l)
        | None => None
        end
      else Some l
  end.

(** s_cls->slabs--, and the list moved down. *)
Definition take_first_page (s : slabs_t) (id : Z) : res slabs_t :=
  let p := getc s id in
  let n := u32 (slabs p - 1) in
  match shift_loop (S (length (slab_list p))) n 0 (slab_list p) with
  | Some l => Ok (setc s id (fun p => p <| slabs := n |> <| slab_list := l |>))
  | None => Abort
  end.

(** d_cls->slab_list[d_cls->slabs++] = page *)
Definition append_page (s : slabs_t) (id page : Z) : res slabs_t :=
  s ← slab_list_set id (slabs (getc s id)) page s;
  Ok (setc s id (fun p => p <| slabs := u32 (slabs p + 1) |>)).

(** Pages of the global pool go back to the system while memory is over its
    limit. *)
Fixpoint release_loop (fuel : nat) (s : slabs_t) : slabs_t :=
  match fuel with
  | O => s
  | S fuel =>
      if decide (mem_limit s < mem_malloced s) then
        let '(p, s) := get_page_from_global_pool s in
        if decide (p = 0) then s
        else release_loop fuel (s <| mem_malloced := u64 (mem_malloced s - slab_page_size cfg) |>)
      else s
  end.

Definition memory_release (s : slabs_t) : slabs_t :=
  if decide (mem_base s <> 0) then s
  else if negb (slab_reassign cfg) then s
  else release_loop (S (Z.to_nat (slabs (getc s SLAB_GLOBAL_PAGE_POOL)))) s.

Definition hand_over (h : heap) (s : slabs_t) (src dst page : Z) : res (heap * slabs_t) :=
  s ← take_first_page s src;
  s ← append_page s dst page;
  if decide (SLAB_GLOBAL_PAGE_POOL < dst) then
    split_slab_page_into_freelist cfg page dst (memset0 page (slab_page_size cfg) h) s
  else if decide (dst = SLAB_GLOBAL_PAGE_POOL) then
    Ok (h, memory_release (s <| mem_limit_reached := false |>))
  else Ok (h, s).

Definition finished (r : rebal_t) : rebal_t :=
  r <| busy_loops := 0 |> <| done_ := 0 |> <| s_clsid := 0 |> <| d_clsid := 0 |>
    <| slab_start := 0 |> <| slab_end := 0 |> <| slab_pos := 0 |> <| evictions_nomem := 0 |>
    <| inline_reclaim := 0 |> <| rescues := 0 |> <| chunk_rescues := 0 |> <| busy_deletes := 0 |>
    <| slab_rebalance_signal := 0 |>.

Definition count_move (r : rebal_t) (x : stats_t) : stats_t :=
  x <| slabs_moved ::= inc64 |>
    <| slab_reassign_rescues := u64 (slab_reassign_rescues x + rescues r) |>
    <| slab_reassign_evictions_nomem := u64 (slab_reassign_evictions_nomem x + evictions_nomem r) |>
    <| slab_reassign_inline_reclaim := u64 (slab_reassign_inline_reclaim x + inline_reclaim r) |>
    <| slab_reassign_chunk_rescues := u64 (slab_reassign_chunk_rescues x + chunk_rescues r) |>
    <| slab_reassign_busy_deletes := u64 (slab_reassign_busy_deletes x + busy_deletes r) |>
    <| slab_reassign_running := false |>.

Definition slab_rebalance_finish : M st unit :=
  r ← gets rbl;
  lift_slabs (fun h s => hand_over h s (s_clsid r) (d_clsid r) (slab_start r));;
  set_rbl finished;;
  set_stats (count_move r).

(** One turn of the mover's thread, from was_busy to was_busy; waiting for the
    next request and sleeping are left to the scheduler. *)
Definition rebalance_turn (bulk : nat) (was_busy : Z) : M st Z :=
  r ← gets rbl;
  was_busy ←
    (if decide (slab_rebalance_signal r = 1) then
       e ← slab_rebalance_start;
       when (bool_decide (e < 0)) (set_rbl (fun r => r <| slab_rebalance_signal := 0 |>));;
       mret 0
     else if bool_decide (slab_rebalance_signal r <> 0) && bool_decide (slab_start r <> 0) then
       slab_rebalance_move bulk
     else mret was_busy);
  r ← gets rbl;
  when (bool_decide (done_ r <> 0)) slab_rebalance_finish;;
  mret was_busy.

(** ** The other entry points *)

(** The new settings.maxbytes is the first component's second half. *)
Definition do_slabs_adjust_mem_limit (new_mem_limit : Z) (s : slabs_t) : bool * settings * slabs_t :=
  if decide (mem_base s <> 0) then (false, cfg, s)
  else (true, cfg <| maxbytes := new_mem_limit |>,
        memory_release (s <| mem_limit := new_mem_limit |> <| mem_limit_reached := false |>)).

Definition slabs_adjust_mem_requested (id old ntotal : Z) (s : slabs_t) : res slabs_t :=
  if decide (id < POWER_SMALLEST \/ power_largest s < id) then Abort
  else Ok (setc s id (fun p => p <| requested := u64 (requested p - old + ntotal) |>)).

(** The free chunks, *mem_flag, *total_bytes and *chunks_perslab. *)
Definition slabs_available_chunks (id : Z) (s : slabs_t) : Z * bool * Z * Z :=
  let p := getc s id in
  (sl_curr p, bool_decide (mem_limit s <= mem_malloced s), requested p, perslab p).
End rebalance.

(** ** The allocator's invariant along the hand-over *)

Lemma shift_loop_spec (l : list Z) : forall fuel n x, 0 <= x -> n + 1 <= Z.of_nat (length l) ->
  (Z.to_nat (n - x) < fuel)%nat ->
  exists l', shift_loop fuel n x l = Some l' /\ length l' = length l /\
    forall i, l' !! i = if decide (x <= Z.of_nat i < n) then l !! S i else l !! i.
Proof.
  intros fuel n. revert l. induction fuel as [|fuel IH]; intros l x Hx Hn Hf; [lia|]. simpl.
  destruct (decide (x < n)) as [Hlt|Hge].
  - destruct (lookup_lt_is_Some_2 l (Z.to_nat (x + 1))) as [v Hv]; [lia|]. rewrite Hv.
    destruct (IH (<[Z.to_nat x := v]> l) (x + 1)) as (l' & E & Hl & Hi); [lia|rewrite length_insert; lia|lia|].
    exists l'. split; [done|]. split; [by rewrite Hl, length_insert|]. intros i. rewrite Hi.
    destruct (decide (x + 1 <= Z.of_nat i < n)) as [H1|H1].
    + rewrite decide_True by lia. by rewrite list_lookup_insert_ne by lia.
    + destruct (decide (Z.of_nat i = x)) as [<-|Hne].
      * rewrite decide_True by lia. rewrite Nat2Z.id, list_lookup_insert_eq by lia.
        rewrite <- Hv. f_equal. lia.
      * rewrite decide_False by lia. by rewrite list_lookup_insert_ne by lia.
  - exists l. split; [done|]. split; [done|]. intros i. by rewrite decide_False by lia.
Qed.

(** The pages behind the first one. *)
Lemma shifted_pages (l l' : list Z) n : 0 <= n -> n + 1 <= Z.of_nat (length l) -> length l' = length l ->
  (forall i, l' !! i = if decide (0 <= Z.of_nat i < n) then l !! S i else l !! i) ->
  take (Z.to_nat n) l' = tl (take (Z.to_nat (n + 1)) l).
Proof.
  intros Hn Hl El Hi. destruct l as [|p l]; [simpl in *; lia|].
  replace (Z.to_nat (n + 1)) with (S (Z.to_nat n)) by lia. simpl.
  apply list_eq. intros i. destruct (decide (i < Z.to_nat n)%nat) as [Hlt|Hge].
  - rewrite !lookup_take_lt by done. by rewrite Hi, decide_True by lia.
  - rewrite !lookup_take_ge by lia. done.
Qed.

Section hand_over.
Context (cfg : settings).
Abbreviation page := (slab_page_size cfg).

(** The first page leaves its class. *)
Lemma take_first_page_inv cap h s F id p ps : slab_inv cfg cap [] h s F -> 0 <= id <= power_largest s ->
  pages (getc s id) = p :: ps -> (1 <= id -> forall x, x ∈ F id -> x ∉ page_chunks (getc s id) p) ->
  exists s', take_first_page s id = Ok s' /\ slab_inv cfg cap [p] h s' F /\
    sscalars s' = sscalars s /\ (forall i, i <> id -> getc s' i = getc s i) /\
    pages (getc s' id) = ps /\ lists (getc s' id) = lists (getc s id) /\
    list_size (getc s' id) = list_size (getc s id).
Proof.
  intros I Hid Hp HF.
  destruct (si_list _ _ _ _ _ _ I id Hid) as (Hs & Hlen & Hls).
  pose proof (si_cap _ _ _ _ _ _ I) as (Hc0 & Hc1 & Hc2).
  assert (1 <= slabs (getc s id)) as Hs1.
  { apply (f_equal length) in Hp. unfold pages in Hp. rewrite length_take in Hp. simpl in Hp. lia. }
  assert (u32 (slabs (getc s id) - 1) = slabs (getc s id) - 1) as Hu
    by (apply wrap_small; unfold in_u; norm_pow2; lia).
  unfold take_first_page. rewrite Hu.
  destruct (shift_loop_spec (slab_list (getc s id)) (S (length (slab_list (getc s id)))) (slabs (getc s id) - 1) 0)
    as (l & -> & El & Hl); [lia..|].
  eexists. split; [reflexivity|]. set (s' := setc s id _).
  assert (forall i, i <> id -> getc s' i = getc s i) as Hne by (intros; unfold s'; by rewrite getc_setc_ne).
  assert (getc s' id = (getc s id) <| slabs := slabs (getc s id) - 1 |> <| slab_list := l |>) as Heq
    by (unfold s'; by rewrite getc_setc_eq).
  assert (pages (getc s' id) = ps) as Hps.
  { rewrite Heq. unfold pages. simpl. rewrite (shifted_pages (slab_list (getc s id))); [|lia..|done|done].
    replace (slabs (getc s id) - 1 + 1) with (slabs (getc s id)) by lia.
    change (tl (pages (getc s id)) = ps). by rewrite Hp. }
  assert (all_pages s ≡ₚ p :: all_pages s') as Hperm.
  { destruct (all_pages_change cfg s s' id) as (L & -> & ->); [lia|done|intros; by rewrite Hne|].
    by rewrite Hp, Hps. }
  split; [|split_and!; [done|done|done|by rewrite Heq|by rewrite Heq]].
  split; try apply I.
  - split_and!; [lia|lia|]. change (remaining cfg s') with (remaining cfg s).
    apply Permutation_length in Hperm. simpl in *. lia.
  - intros i Hi. destruct (decide (i = id)) as [->|]; [|rewrite Hne by done; by apply I].
    rewrite Heq. by apply (si_class _ _ _ _ _ _ I).
  - intros i Hi. destruct (decide (i = id)) as [->|]; [|rewrite Hne by done; by apply I].
    rewrite Heq. simpl. lia.
  - intros i Hi. destruct (decide (i = id)) as [->|]; [|rewrite Hne by done; by apply I].
    eapply freelist_frame; [by apply (si_free _ _ _ _ _ _ I)|by rewrite Heq|done].
  - intros i x Hi Hx. destruct (decide (i = id)) as [->|]; [|rewrite Hne by done; by eapply I].
    pose proof (si_sub _ _ _ _ _ _ I id x Hi Hx) as Hch. apply class_chunk_page in Hch as (q & Hq & Hch).
    rewrite Hp in Hq. apply elem_of_cons in Hq as [->|Hq]; [by destruct (HF ltac:(lia) x Hx)|].
    apply class_chunk_page. exists q. rewrite Hps. split; [done|]. by rewrite Heq.
  - pose proof (si_src _ _ _ _ _ _ I) as Hsrc. unfold src_ok in *. change (mem_base s') with (mem_base s).
    change (mem_current s') with (mem_current s). change (mem_avail s') with (mem_avail s).
    change (mallocs s') with (mallocs s). rewrite app_nil_r, app_nil_l in Hsrc.
    destruct (decide (mem_base s = 0)).
    + rewrite Hperm in Hsrc. rewrite app_assoc, <- Permutation_cons_append. exact Hsrc.
    + setoid_rewrite Hperm in Hsrc. setoid_rewrite <- Permutation_cons_append. exact Hsrc.
Qed.

(** A page given back to the system. *)
Lemma drop_transit cap h s F p : slab_inv cfg cap [p] h s F -> slab_inv cfg cap [] h s F.
Proof.
  intros I. split; try apply I.
  - pose proof (si_cap _ _ _ _ _ _ I) as Hc. simpl in *. lia.
  - pose proof (si_src _ _ _ _ _ _ I) as Hsrc. unfold src_ok in *. destruct (decide (mem_base s = 0)).
    + apply spaced_app in Hsrc as (H1 & H2 & H3). apply spaced_app in H2 as (_ & H2 & _).
      apply spaced_app. split_and!; [done|done|]. intros a b Ha Hb. apply H3; [done|set_solver].
    + destruct Hsrc as (H1 & H2 & H3 & H4). rewrite app_nil_r. apply spaced_app in H1 as (H1 & _).
      split_and!; [done|done|done|]. intros q Hq. apply H4. set_solver.
Qed.

Lemma release_loop_inv cap h F fuel : forall s, slab_inv cfg cap [] h s F ->
  slab_inv cfg cap [] h (release_loop cfg fuel s) F /\
  (forall i, i <> 0 -> getc (release_loop cfg fuel s) i = getc s i) /\
  power_largest (release_loop cfg fuel s) = power_largest s.
Proof.
  induction fuel as [|fuel IH]; intros s I; [done|]. simpl.
  destruct (decide (mem_limit s < mem_malloced s)); [|done].
  pose proof (get_page_inv cfg cap h s F I) as H.
  destruct (get_page_from_global_pool s) as [p s1]. destruct H as (H & Hne & Hsc).
  injection Hsc as E1 E2 E3 E4 E5 E6 E7 E8 E9.
  destruct (decide (p = 0)) as [->|Hp].
  - destruct H as [(_ & -> & _)|(_ & ? & _)]; [done|lia].
  - destruct H as [(? & _)|(I1 & _)]; [done|]. apply drop_transit in I1.
    destruct (IH (s1 <| mem_malloced := u64 (mem_malloced s1 - page) |>)) as (J & Hg & Epl).
    { destruct I1. by split. }
    split; [exact J|]. split; [|by rewrite Epl, <- E4].
    intros i Hi. rewrite Hg by done. by apply Hne.
Qed.

Lemma memory_release_inv cap h s F : slab_inv cfg cap [] h s F ->
  slab_inv cfg cap [] h (memory_release cfg s) F /\
  (forall i, i <> 0 -> getc (memory_release cfg s) i = getc s i) /\
  power_largest (memory_release cfg s) = power_largest s.
Proof.
  intros I. unfold memory_release. destruct (decide _); [done|]. destruct (negb _); [done|].
  by apply release_loop_inv.
Qed.

(** The page is put behind those of its new class. *)
Lemma append_page_ok cap h s F id ptr : slab_inv cfg cap [ptr] h s F -> 0 <= id <= power_largest s ->
  slabs (getc s id) < list_size (getc s id) ->
  exists s', append_page s id ptr = Ok s' /\ sscalars s' = sscalars s /\
    (forall i, i <> id -> getc s' i = getc s i) /\ lists (getc s' id) = lists (getc s id) /\
    geom (getc s' id) = (csize (getc s id), perslab (getc s id), slabs (getc s id) + 1,
      <[Z.to_nat (slabs (getc s id)) := ptr]> (slab_list (getc s id)), list_size (getc s id)).
Proof.
  intros I Hid Hroom. destruct (si_list _ _ _ _ _ _ I id Hid) as (Hs & Hlen & Hls).
  pose proof (si_cap _ _ _ _ _ _ I) as (Hc0 & Hc1 & Hc2).
  assert (u32 (slabs (getc s id) + 1) = slabs (getc s id) + 1) as Hu
    by (apply wrap_small; unfold in_u; norm_pow2; lia).
  unfold append_page, slab_list_set. rewrite decide_True by lia. cbn [mbind res_bind].
  eexists. split; [reflexivity|]. split_and!; [done| |by rewrite !getc_setc_eq|].
  - intros i Hi. by rewrite !getc_setc_ne.
  - rewrite !getc_setc_eq. unfold geom. simpl. by rewrite Hu.
Qed.

(** What the hand-over leaves: the lists of pages, the free chunks and memory. *)
Record handed (h : heap) (s : slabs_t) (F : free_lists) (src dst p : Z) (ps : list Z)
    (h' : heap) (s' : slabs_t) (F' : free_lists) : Prop := {
  ho_pl : power_largest s' = power_largest s;
  ho_geom i : 1 <= i -> csize (getc s' i) = csize (getc s i) /\ perslab (getc s' i) = perslab (getc s i);
  ho_src : 1 <= src -> pages (getc s' src) = ps;
  ho_dst : 1 <= dst -> pages (getc s' dst) = pages (getc s dst) ++ [p];
  ho_other i : 1 <= i -> i <> src -> i <> dst -> pages (getc s' i) = pages (getc s i);
  ho_free i : 1 <= i -> F' i = if decide (i = dst) then reverse (page_chunks (getc s dst) p) ++ F dst else F i;
  ho_mem y i q : 1 <= i <= power_largest s -> q ∈ pages (getc s i) -> in_page page q y -> q <> p ->
    (1 <= dst -> y ∉ F dst) -> geti h' y = geti h y
}.

Lemma hand_over_inv cap h s F src dst p ps : slab_inv cfg cap [] h s F ->
  0 <= src <= power_largest s -> 0 <= dst <= power_largest s -> src <> dst ->
  pages (getc s src) = p :: ps -> slabs (getc s dst) < list_size (getc s dst) ->
  (1 <= src -> forall x, x ∈ F src -> x ∉ page_chunks (getc s src) p) ->
  exists h' s' F', hand_over cfg h s src dst p = Ok (h', s') /\ slab_inv cfg cap [] h' s' F' /\
    handed h s F src dst p ps h' s' F'.
Proof.
  intros I Hsrc Hdst Hne Hp Hroom HF. unfold hand_over.
  destruct (take_first_page_inv cap h s F src p ps I Hsrc Hp HF)
    as (s1 & -> & I1 & Hsc1 & Hg1 & Hp1 & Hl1 & Hls1).
  cbn [mbind res_bind]. injection Hsc1 as _ _ _ Epl _ _ _ _ _.
  assert (getc s1 dst = getc s dst) as Ed by by apply Hg1.
  destruct (append_page_ok cap h s1 F dst p I1) as (s2 & -> & Hsc2 & Hg2 & Hl2 & Hgeo2); [lia|by rewrite Ed|].
  cbn [mbind res_bind]. rewrite Ed in Hgeo2, Hl2.
  assert (power_largest s2 = power_largest s) as Epl2 by (injection Hsc2; congruence).
  assert (forall i, 1 <= i -> csize (getc s2 i) = csize (getc s i) /\ perslab (getc s2 i) = perslab (getc s i)) as Hcs2.
  { intros i Hi. destruct (decide (i = dst)) as [->|Hid]; [by injection Hgeo2|]. rewrite Hg2 by done.
    destruct (decide (i = src)) as [->|His]; [by injection Hl1|by rewrite Hg1]. }
  assert (forall i, i <> src -> i <> dst -> pages (getc s2 i) = pages (getc s i)) as Hother
    by (intros i H1 H2; by rewrite Hg2, Hg1).
  change SLAB_GLOBAL_PAGE_POOL with 0. destruct (decide (0 < dst)) as [Hd|Hd].
  - set (h1 := memset0 p page h).
    destruct (si_class _ _ _ _ _ _ I dst ltac:(lia)) as (Hc1 & Hc2 & Hc3 & Hc4).
    assert (forall i q y, 1 <= i <= power_largest s -> q ∈ pages (getc s i) -> in_page page q y -> q <> p ->
      ~ in_page page p y) as Hdisj.
    { intros i q y Hi Hq Hy Hqp Hy'. apply Hqp. eapply (pages_unique cfg s [] i src q p y);
        first [apply I|done|lia|rewrite Hp; set_solver]. }
    assert (forall i q, 1 <= i <= power_largest s -> i <> src -> q ∈ pages (getc s i) -> q <> p) as Hqp.
    { intros i q Hi His Hq ->. apply His.
      assert (in_page page p p) as Hpp by (unfold in_page; pose proof (si_page _ _ _ _ _ _ I); lia).
      eapply (pages_unique cfg s [] i src p p p);
        first [apply I|done|lia|rewrite Hp; set_solver]. }
    assert (forall i x, 1 <= i <= power_largest s -> x ∈ F i ->
      exists q, q ∈ pages (getc s i) /\ in_page page q x /\ q <> p) as HFp.
    { intros i x Hi Hx. pose proof (si_sub _ _ _ _ _ _ I i x Hi Hx) as Hch.
      apply class_chunk_page in Hch as (q & Hq & Hch). exists q. split; [done|].
      destruct (si_class _ _ _ _ _ _ I i Hi) as (K1 & K2 & K3 & _).
      destruct (page_chunk_in cfg _ _ _ K1 K2 K3 Hch) as [Hin _]. split; [done|]. intros ->.
      destruct (decide (i = src)) as [->|His]; [exact (HF ltac:(lia) x Hx Hch)|by apply (Hqp i p)]. }
    assert (forall y, ~ in_page page p y -> geti h1 y = geti h y) as Hh1
      by (intros y Hy; unfold h1; rewrite geti_memset0, decide_False by done; done).
    assert (freelist h1 (getc s2 dst) (F dst)) as Hfl.
    { eapply freelist_frame; [apply (si_free _ _ _ _ _ _ I); lia|injection Hl2; by intros|].
      intros x Hx. destruct (HFp dst x ltac:(lia) Hx) as (q & Hq & Hin & Hne').
      rewrite Hh1; [done|]. apply (Hdisj dst q x); [lia|done..]. }
    pose proof (pages_count cfg _ _ _ _ _ dst I1 ltac:(lia)) as Hcnt. rewrite Ed in Hcnt. simpl in Hcnt.
    pose proof (free_list_length cfg _ _ _ _ _ dst I1 ltac:(lia)) as Hfll. rewrite Ed in Hfll.
    destruct (si_cap _ _ _ _ _ _ I) as (_ & Hcap & _).
    destruct (si_list _ _ _ _ _ _ I dst ltac:(lia)) as (Hs & _).
    destruct (Hcs2 dst ltac:(lia)) as [Ecs Eps].
    assert (chunks_from (Z.to_nat (perslab (getc s2 dst))) p (csize (getc s2 dst)) = page_chunks (getc s dst) p) as Epc
      by (rewrite Ecs, Eps; by apply chunks_from_page).
    destruct (split_loop_spec cfg (Z.to_nat (perslab (getc s2 dst))) p dst h1 s2 (F dst))
      as (h' & s3 & Hsplit & Hfl3 & Hag3 & Hsc3 & Hg3 & Hne3 & _); [lia|by rewrite Ecs|done| |rewrite Eps; nia|].
    { rewrite Epc. intros x Hx. destruct (page_chunk_in cfg _ _ _ Hc1 Hc2 Hc3 Hx) as [Hin _]. split_and!.
      - intros HxF. destruct (HFp dst x ltac:(lia) HxF) as (q & Hq & Hin' & Hne'). apply (Hdisj dst q x); [lia|done..].
      - unfold in_page in Hin. assert (0 < p); [|lia].
        eapply (spaced_pos page); [apply (src_spaced cfg _ _ (si_src _ _ _ _ _ _ I1))|]. set_solver.
      - unfold h1. by rewrite geti_memset0, decide_True. }
    rewrite Epc in Hfl3, Hag3.
    unfold split_slab_page_into_freelist. rewrite Hsplit.
    set (l := reverse (page_chunks (getc s dst) p) ++ F dst) in *.
    assert (forall y i q, 1 <= i <= power_largest s -> q ∈ pages (getc s i) -> in_page page q y -> q <> p ->
      y ∉ F dst -> geti h' y = geti h y) as Hmem.
    { intros y i q Hi Hq Hy Hqp' HyF. rewrite Hag3; [by apply Hh1, (Hdisj i q)|done|].
      intros Hc. destruct (page_chunk_in cfg _ _ _ Hc1 Hc2 Hc3 Hc) as [Hin _]. by apply (Hdisj i q y). }
    destruct (page_given_inv cfg cap p h s1 F dst l h' s3 I1) as (I3 & Hp3); rewrite ?Ed; try done.
    + lia.
    + congruence.
    + intros i Hi. rewrite Hne3, Hg2 by done. done.
    + by rewrite (Hg3 dst).
    + intros x [Hx|Hx]%elem_of_app; [right; by apply elem_of_reverse|by left].
    + intros i x Hi Hid Hx. destruct (HFp i x ltac:(lia) Hx) as (q & Hq & Hin & Hqp'). rewrite Epl in Hi.
      apply (Hmem x i q); try done. intros HxF. apply Hid.
      eapply (chunk_class_unique cfg cap [] h s F); [exact I|lia|lia|by eapply I|eapply I; [lia|done]].
    + exists h', s3, (upd F dst l). split; [done|]. split; [done|]. rewrite Ed in Hp3.
      split; try done.
      * injection Hsc3. congruence.
      * intros i Hi. destruct (Hcs2 i Hi) as [<- <-]. by injection (Hg3 i).
      * intros _. rewrite Hne3 by done. by rewrite Hg2.
      * intros i Hi H1 H2. rewrite Hne3 by done. by apply Hother.
      * intros y i q Hi Hq Hy Hqp' HyF. apply (Hmem y i q); try done. by apply HyF; lia.
  - assert (dst = 0) as -> by lia. rewrite decide_True by done.
    destruct (page_given_inv cfg cap p h s1 F 0 [] h s2 I1) as (I3 & _); rewrite ?Ed; try done.
    + lia.
    + by intros x Hx%not_elem_of_nil.
    + destruct (memory_release_inv cap h (s2 <| mem_limit_reached := false |>) (upd F 0 [])) as (J & Hg & Ep).
      { destruct I3. by split. }
      eexists h, _, _. split; [reflexivity|]. split; [exact J|].
      split; rewrite ?Ep; try done.
      * intros i Hi. rewrite Hg by lia. by apply Hcs2.
      * intros _. rewrite Hg by lia. change (pages (getc s2 src) = ps). by rewrite Hg2.
      * intros i Hi H1 H2. rewrite Hg by lia. by apply Hother.
      * intros i Hi. unfold upd. by rewrite !decide_False by lia.
Qed.
End hand_over.
