(* ===== verification/Mover.v ===== *)
(** * One chunk changes hands

    What the page mover's small steps do to the invariant of the whole store:
    chunks that pass between the free list, the mover and the table, the copy of
    an item and what it has in common with it, and the loop that looks for memory
    outside the page. *)

From S2P Require Import Prelude Decimal Hash Heap Assoc Settings Slabs BipBuffer Items Store StoreInv StoreSpec StoreOps Rebalance.

(** ** do_item_link does not look at the reference count

    The copy of an item has no reference when do_item_replace links it; the laws of
    do_item_link are for an item somebody refers to. *)

Section blind.
Context (x d : Z).

Definition blind {A} (op : M st A) : Prop := forall s,
  op (bump x d s) = match op s with Ok (a, s') => Ok (a, bump x d s') | Abort => Abort | NoFuel => NoFuel end.

Lemma blind_bind {A B} (op1 : M st A) (op2 : A -> M st B) : blind op1 -> (forall a, blind (op2 a)) -> blind (op1 ≫= op2).
Proof. intros H1 H2 s. unfold mbind, M_bind. rewrite H1. by destruct (op1 s) as [[a s']| |]; [apply H2|..]. Qed.

Lemma blind_ret {A} (a : A) : blind (mret a).
Proof. done. Qed.

Lemma blind_massert b : blind (massert b).
Proof. intros s. by destruct b. Qed.

Lemma blind_when b op : blind op -> blind (when b op).
Proof. by destruct b. Qed.

Lemma blind_gets {A} (g : st -> A) : (forall s h, g (with_mem s h) = g s) -> blind (gets g).
Proof. intros Hg s. unfold gets, bump. by rewrite Hg. Qed.

Lemma blind_modify f : (forall s h, f (with_mem s h) = with_mem (f s) h) -> (forall s, mem (f s) = mem s) -> blind (modify f).
Proof. intros Hf Hm s. unfold modify, bump. by rewrite Hf, Hm. Qed.

Lemma blind_rd {A} y (k : item -> M st A) : (forall i n, k (i <| refcount := n |>) = k i) -> (forall i, blind (k i)) ->
  blind (rd y ≫= k).
Proof.
  intros Hk Hb s. rewrite !rd_bind. unfold bump at 1. simpl. rewrite geti_seti.
  destruct (decide (x = y)) as [<-|]; [rewrite Hk|]; apply Hb.
Qed.

Lemma seti_commute h y f g : (forall i, f (g i) = g (f i)) -> seti (seti h x g) y f = seti (seti h y f) x g.
Proof.
  intros Hc. destruct (decide (x = y)) as [<-|Hne].
  - rewrite !seti_seti. by apply seti_same.
  - Local Transparent geti seti. unfold seti, geti. rewrite !lookup_insert_ne by done. by rewrite insert_insert_ne.
    Local Opaque geti seti.
Qed.

Lemma blind_wr y f : (forall i, f (i <| refcount := u16 (refcount i + d) |>) = (f i) <| refcount := u16 (refcount (f i) + d) |>) ->
  blind (wr y f).
Proof.
  intros Hf s. pose proof (seti_commute (mem s) y f _ Hf) as E.
  transitivity (Ok (tt, with_mem s (seti (seti (mem s) x (fun i => i <| refcount := u16 (refcount i + d) |>)) y f))); [done|].
  rewrite E. done.
Qed.

Lemma blind_incr {B} (k : M st B) : blind k -> blind (refcount_incr x;; k).
Proof.
  intros Hk s. unfold mbind, M_bind. rewrite !refcount_incr_eq.
  assert (bump x 1 (bump x d s) = bump x d (bump x 1 s)) as ->; [|apply Hk]. unfold bump. simpl.
  rewrite !seti_seti. f_equal. apply seti_same.
  assert (forall r, u16 (u16 (r + d) + 1) = u16 (u16 (r + 1) + d)) as E
    by (intros r; rewrite !wrap_add_l; f_equal; lia).
  simpl. by rewrite E.
Qed.

Lemma blind_assoc_insert hv : blind (st_assoc_insert x hv).
Proof.
  intros s. pose proof (seti_commute (mem s) x (fun i => i <| h_next := bucket (asc s) (bucket_of (asc s) hv) |>)
    (fun i => i <| refcount := u16 (refcount i + d) |>) ltac:(done)) as E.
  unfold st_assoc_insert, assoc_insert, bump. cbv zeta. simpl mem. simpl asc. cbv iota beta.
  unfold with_mem. simpl. by rewrite E.
Qed.

Lemma blind_link cfg hv : blind (do_item_link cfg x hv).
Proof.
  unfold do_item_link, set_new_cas, item_link_q, do_item_link_q, item_stats_sizes_add, stats_sizes_change, set_lru,
    set_stats, get_cas_id.
  repeat first
    [ apply blind_rd; [done|intros] | apply blind_incr | apply blind_assoc_insert
    | apply blind_ret | apply blind_massert | apply blind_when | apply blind_gets; [done]
    | apply blind_modify; [done|done] | apply blind_wr; [done]
    | apply blind_bind; [|intros] | case_match ].
Qed.
End blind.

(** do_item_link does not change when items expire. *)
Definition same_exptime {A} (op : M st A) : Prop := forall s,
  match op s with Ok (_, s') => forall y, exptime (geti (mem s') y) = exptime (geti (mem s) y) | _ => True end.

Lemma exp_bind {A B} (op1 : M st A) (op2 : A -> M st B) : same_exptime op1 -> (forall a, same_exptime (op2 a)) ->
  same_exptime (op1 ≫= op2).
Proof.
  intros H1 H2 s. unfold mbind, M_bind. specialize (H1 s). destruct (op1 s) as [[a s1]| |]; [|done..].
  specialize (H2 a s1). destruct (op2 a s1) as [[b s2]| |]; [|done..]. intros y. by rewrite H2.
Qed.

Lemma exp_nomem f : (forall s, mem (f s) = mem s) -> same_exptime (modify f).
Proof. intros Hf s y. by rewrite Hf. Qed.

Lemma exp_wr x f : (forall i, exptime (f i) = exptime i) -> same_exptime (wr x f).
Proof. intros Hf s y. simpl. rewrite geti_seti. by destruct (decide _). Qed.

Lemma exp_massert b : same_exptime (massert b).
Proof. intros s. by destruct b. Qed.

Lemma exp_assoc_insert x hv : same_exptime (st_assoc_insert x hv).
Proof. intros s y. simpl. rewrite geti_seti. by destruct (decide _). Qed.

Lemma exp_link cfg x hv : same_exptime (do_item_link cfg x hv).
Proof.
  unfold do_item_link, set_new_cas, item_link_q, do_item_link_q, item_stats_sizes_add, stats_sizes_change, set_lru,
    set_stats, get_cas_id, refcount_incr, when.
  repeat first
    [ apply exp_assoc_insert | apply exp_massert | apply exp_nomem; done | apply exp_wr; done
    | apply exp_bind; [|intros] | done | case_match ].
Qed.

(** ** The copy of an item *)

Definition data_len (i : item) : Z := nkey i + 1 + nsuffix i + nbytes i.

(** What an item is to a client: its key, its data, its flags and its lifetime. *)
Definition value (i : item) :=
  (nkey i, nbytes i, nsuffix i, exptime i, has i ITEM_CAS, peek (body i) 0 (Z.to_nat (data_len i))).

Lemma value_content i j : content i = content j -> exptime i = exptime j -> value i = value j.
Proof. unfold content, kview, value, data_len. intros [= -> -> -> -> ->] ->. done. Qed.

Lemma peek_0 b n : (n <= length b)%nat -> peek b 0 n = take n b.
Proof. intros H. unfold peek. simpl. rewrite drop_0. by rewrite take_app_le by lia. Qed.

Lemma ntotal_eq i c : in_chunk c i -> item_ok i ->
  ITEM_ntotal i = sizeof_item + data_len i + (if has i ITEM_CAS then 8 else 0).
Proof.
  intros (H1 & H2 & H3 & _) (_ & H4 & _). unfold ITEM_ntotal, data_len, sizeof_item. rewrite wrap_small; [lia|].
  unfold in_u. norm_pow2. destruct (has i ITEM_CAS); lia.
Qed.

Lemma copy_item_value c i dst : in_chunk c i -> item_ok i -> bytes_ok (body dst) ->
  let j := copy_item (ITEM_ntotal i) i dst in
  value j = value i /\ bytes_ok (body j) /\ nkey i <= Z.of_nat (length (body j)) /\ ITEM_key j = ITEM_key i.
Proof.
  intros Hf Hok Hd. unfold copy_item. rewrite (ntotal_eq i c Hf Hok).
  replace (sizeof_item + data_len i + _ - sizeof_item - _) with (data_len i) by lia.
  destruct Hf as (H1 & H2 & H3 & _), Hok as (Hb & H4 & H5). cbv zeta.
  set (n := Z.to_nat (data_len i)). set (bs := peek (body i) 0 n).
  assert (length bs = n) as Hl by apply peek_length.
  assert (Z.to_nat (nkey i) <= n)%nat as Hn by (unfold n, data_len; lia).
  assert (n <= length (poke (body dst) 0 bs))%nat as Hlp by (rewrite poke_length; lia).
  assert (take n (poke (body dst) 0 bs) = bs) as Ht by (rewrite <- Hl; apply poke_take_here).
  split_and!.
  - unfold value. change (data_len (_ <| body := _ |>)) with (data_len i). fold n. simpl.
    rewrite peek_0, Ht by done. done.
  - simpl. apply poke_bytes; [done|]. by apply peek_bytes.
  - simpl. lia.
  - unfold ITEM_key. simpl. transitivity (take (Z.to_nat (nkey i)) bs).
    + rewrite <- Ht at 2. rewrite take_take. f_equal. lia.
    + unfold bs, peek. simpl. rewrite take_take, drop_0, take_app_le; [f_equal; lia|lia].
Qed.

(** ** One chunk changes hands *)

Section chunk.
Context (cfg : settings) (hash : hash_func) `{!HashFunction hash} (cap : Z).
Abbreviation core := (fun H => core_inv cfg hash (Bound cap H)).
Abbreviation store := (fun H => store_inv cfg hash (Bound cap H)).

(** What else is the same when chunk [x] goes from one of the free list, the
    clients and the mover to another. *)
Record rest_same (m : gmap (list Z) Z) (H H' : gmap Z item) (F F' : free_lists) (refs refs' : Z -> Z) (s s' : st) (x : Z) : Prop := {
  rs_pl : power_largest (slb s') = power_largest (slb s);
  rs_geom i : geom (getc (slb s') i) = geom (getc (slb s) i);
  rs_asc : asc s' = asc s;
  rs_lru : same_queues (lru s) (lru s');
  rs_items : curr_items (stt s') = curr_items (stt s);
  rs_bytes : curr_bytes (stt s') = curr_bytes (stt s);
  rs_refs y : y <> x -> refs' y = refs y;
  rs_moved y : y <> x -> H' !! y = H !! y;
  rs_free y d : y <> x -> 1 <= d <= power_largest (slb s) -> y ∈ F' d <-> y ∈ F d;
  rs_mem y : y <> x -> used m refs y \/ is_Some (H !! y) -> geti (mem s') y = geti (mem s) y
}.

Lemma same_classes_pl sl sl' : power_largest sl' = power_largest sl ->
  (forall i, geom (getc sl' i) = geom (getc sl i)) -> same_classes sl sl'.
Proof.
  intros E Hg. split; [done|]. intros id _. rewrite (proj2 (geom_chunks _ _ (Hg id))). by injection (Hg id).
Qed.

Lemma core_reassign H H' m Q F F' refs refs' s s' id x :
  core H m Q F refs s -> 1 <= id <= power_largest (slb s) -> x ∈ class_chunks (getc (slb s) id) ->
  ~ linked m x -> ~ queue_of Q x -> 0 <= refs' x ->
  slab_inv cfg cap [] (mem s') (slb s') F' -> bodies_ok (mem s') ->
  rest_same m H H' F F' refs refs' s s' x ->
  (0 < refs' x -> live_item m F' refs' s' x /\ has (geti (mem s') x) ITEM_CHUNK = false) ->
  (forall i, H' !! x = Some i -> refs' x = 0 /\ (forall d, 1 <= d <= power_largest (slb s) -> x ∉ F' d) /\
     geti (mem s') x = (i <| h_next := h_next (geti (mem s') x) |>)) ->
  x ∈ F' id \/ 0 < refs' x \/ is_Some (H' !! x) ->
  core H' m Q F' refs' s'.
Proof.
  intros I Hid Hx Hnl Hnq Hr0 Is Hbo [E1 E2 E3 E4 E5 E6 Hr Hm Hf Hmem] Hlive Hheld Hall.
  assert (forall y, y <> x -> used m refs' y <-> used m refs y) as Hu
    by (intros y Hy; unfold used; by rewrite Hr).
  assert (forall y, linked m y -> y <> x) as Hlx by (intros y Hy ->; done).
  assert (forall y, linked m y -> geti (mem s') y = geti (mem s) y) as Hlm
    by (intros y Hy; apply Hmem; [auto|left; by left]).
  assert (forall i, class_chunks (getc (slb s') i) = class_chunks (getc (slb s) i)) as Ech
    by (intros i; apply geom_chunks, E2).
  split; rewrite ?E5, ?E6; try apply I; try done.
  - eapply classes_ok_same; [|by apply same_classes_pl|apply I]. rewrite <- E1. apply (si_pl _ _ _ _ _ _ Is).
  - rewrite E1. intros i y Hi. rewrite Ech. intros Hy. destruct (decide (y = x)) as [->|Hne].
    + assert (i = id) as -> by (eapply chunk_class_unique; [apply I|done|done|done|done]).
      destruct Hall as [?|[?|?]]; [by left|right; left; by right|by right; right].
    + rewrite Hf, Hu, Hm by done. apply (ci_all _ _ _ _ _ _ _ _ I i y Hi Hy).
  - intros y i Hi. destruct (decide (y = x)) as [->|Hne].
    + destruct (Hheld i Hi) as (Hr' & HF & Em). split_and!; [| | |done].
      * exists id. by rewrite E1, Ech.
      * by rewrite E1.
      * intros [?|?]; [done|lia].
    + simpl in Hi. rewrite Hm in Hi by done.
      destruct (ci_held _ _ _ _ _ _ _ _ I y i Hi) as ((d & Hd & Hy) & HF & Hnu & Em).
      unfold held_chunk. rewrite E1, Hmem by eauto. split_and!; [| | |done].
      * exists d. by rewrite Ech.
      * intros e He. rewrite Hf by done. by apply HF.
      * by rewrite Hu.
  - intros y Hy. destruct (decide (y = x)) as [->|Hne].
    + apply Hlive. by destruct Hy.
    + apply Hu in Hy; [|done]. rewrite Hmem by auto. by apply (ci_whole _ _ _ _ _ _ _ _ I).
  - rewrite E3. eapply table_rep_frame; [apply I|]. intros k y Hy.
    assert (linked m y) as Hl by by exists k. rewrite Hlm by done. split_and!; [done|done|].
    apply (has_dom _ _ ITEM_LINKED). rewrite Hlm by done.
    by apply (ci_live _ _ _ _ _ _ _ _ I y (or_introl Hl)).
  - eapply queue_frame; [apply I|exact E4|]. intros d y Hy. symmetry. f_equal.
    apply Hmem; [intros ->; apply Hnq; by exists d|]. left. by eapply I.
  - intros y. destruct (decide (y = x)) as [->|]; [done|]. rewrite Hr by done. by eapply I.
  - intros y Hy. destruct (decide (y = x)) as [->|Hne].
    + apply Hlive. by destruct Hy.
    + apply Hu in Hy; [|done].
      pose proof (ci_live _ _ _ _ _ _ _ _ I y Hy) as (H1 & H2 & H3 & H4).
      assert (csize (getc (slb s') (ITEM_clsid (geti (mem s) y))) = csize (getc (slb s) (ITEM_clsid (geti (mem s) y)))) as Ecs
        by (by injection (E2 (ITEM_clsid (geti (mem s) y)))).
      unfold live_item. rewrite E1, Hr, Hmem, Ech, Ecs by auto. split; [done|]. split; [done|].
      split; [|done]. intros d Hd. rewrite Hf by done. by apply H3.
  - intros d y Hy. apply Hu; [intros ->; apply Hnq; by exists d|]. by eapply I.
  - rewrite (ci_bytes _ _ _ _ _ _ _ _ I). f_equal. apply sum_ntotal_ext. intros y Hy.
    apply table_items_elem in Hy. by rewrite Hlm.
Qed.

(** The same on the whole store. *)
Lemma store_reassign H H' m Q F F' refs refs' s s' id x :
  store H m Q F refs s -> 1 <= id <= power_largest (slb s) -> x ∈ class_chunks (getc (slb s) id) ->
  ~ linked m x -> 0 <= refs' x ->
  slab_inv cfg cap [] (mem s') (slb s') F' -> bodies_ok (mem s') ->
  rest_same m H H' F F' refs refs' s s' x ->
  (0 < refs' x -> live_item m F' refs' s' x /\ has (geti (mem s') x) ITEM_CHUNK = false) ->
  (forall i, H' !! x = Some i -> refs' x = 0 /\ (forall d, 1 <= d <= power_largest (slb s) -> x ∉ F' d) /\
     geti (mem s') x = (i <| h_next := h_next (geti (mem s') x) |>)) ->
  x ∈ F' id \/ 0 < refs' x \/ is_Some (H' !! x) ->
  store H' m Q F' refs' s'.
Proof.
  intros [I HQ] Hid Hx Hnl. intros. split; [|done]. eapply core_reassign; try done. intros Hq. by apply Hnl, HQ.
Qed.

Lemma held_nowhere H m Q F refs s x i : store H m Q F refs s -> H !! x = Some i -> held_chunk m F refs s x i.
Proof. intros [I _] Hx. by apply (ci_held _ _ _ _ _ _ _ _ I). Qed.

Lemma held_not_linked m F refs s x i : held_chunk m F refs s x i -> ~ linked m x.
Proof. intros (_ & _ & Hu & _) Hl. apply Hu. by left. Qed.

Lemma held_refs H m Q F refs s x i : store H m Q F refs s -> H !! x = Some i -> refs x = 0.
Proof.
  intros I Hx. destruct (held_nowhere _ _ _ _ _ _ _ _ I Hx) as (_ & _ & Hu & _).
  pose proof (ci_refs _ _ _ _ _ _ _ _ (proj1 I) x). destruct (decide (0 < refs x)); [|lia].
  destruct Hu. by right.
Qed.

(** Memory written at one chunk that is in no free list. *)
Lemma slab_inv_seti F h sl x f : slab_inv cfg cap [] h sl F ->
  (forall d, 1 <= d <= power_largest sl -> x ∉ F d) -> slab_inv cfg cap [] (seti h x f) sl F.
Proof.
  intros I HF. eapply slab_inv_heap; [exact I|]. intros d y Hd Hy. rewrite geti_seti_ne; [done|].
  intros <-. by apply (HF d).
Qed.

Lemma seti_rest m H H' F refs refs' s x f : (forall y, y <> x -> refs' y = refs y) ->
  (forall y, y <> x -> H' !! y = H !! y) -> rest_same m H H' F F refs refs' s (with_mem s (seti (mem s) x f)) x.
Proof.
  intros Hr Hm. split; try done. intros y Hne _. simpl. by rewrite geti_seti_ne.
Qed.

(** The mover writes a chunk it holds. *)
Lemma store_held_wr H m Q F refs s x i f : store H m Q F refs s -> H !! x = Some i ->
  bytes_ok (body (f (geti (mem s) x))) ->
  store (<[x := f (geti (mem s) x)]> H) m Q F refs (with_mem s (seti (mem s) x f)).
Proof.
  intros I Hx Hb. pose proof (held_nowhere _ _ _ _ _ _ _ _ I Hx) as Hh.
  pose proof Hh as ((id & Hid & Hch) & HF & _). pose proof (held_refs _ _ _ _ _ _ _ _ I Hx) as Hr.
  eapply (store_reassign H); [exact I|exact Hid|exact Hch|by eapply held_not_linked|lia|..]; simpl.
  - apply slab_inv_seti; [apply I|done].
  - intros y. rewrite geti_seti. destruct (decide (x = y)) as [<-|]; [done|]. apply (ci_bodies _ _ _ _ _ _ _ _ (proj1 I)).
  - apply seti_rest; [done|]. intros y Hne. by rewrite lookup_insert_ne.
  - lia.
  - intros j. rewrite lookup_insert_eq, geti_seti_eq. intros [= <-]. split_and!; try done. by destruct (f _).
  - right. right. rewrite lookup_insert_eq. eauto.
Qed.

(** The mover takes an item nobody but itself refers to. *)
Lemma store_take H m Q F refs s x f : store H m Q F refs s -> ~ linked m x -> refs x = 1 ->
  bytes_ok (body (f (geti (mem s) x))) ->
  store (<[x := f (geti (mem s) x)]> H) m Q F (rupd refs x 0) (with_mem s (seti (mem s) x f)).
Proof.
  intros I Hnl Hr Hb. assert (used m refs x) as Hu by (right; lia).
  pose proof (ci_live _ _ _ _ _ _ _ _ (proj1 I) x Hu) as (Hid & Hch & HF & _).
  eapply (store_reassign H); [exact I|exact Hid|exact Hch|done|by rewrite rupd_eq|..]; simpl.
  - apply slab_inv_seti; [apply I|done].
  - intros y. rewrite geti_seti. destruct (decide (x = y)) as [<-|]; [done|]. apply (ci_bodies _ _ _ _ _ _ _ _ (proj1 I)).
  - apply seti_rest; [intros; by rewrite rupd_ne|]. intros y Hne. by rewrite lookup_insert_ne.
  - rewrite rupd_eq. lia.
  - intros j. rewrite lookup_insert_eq, geti_seti_eq, rupd_eq. intros [= <-]. split_and!; try done. by destruct (f _).
  - right. right. rewrite lookup_insert_eq. eauto.
Qed.

(** A chunk the mover holds becomes an item with one reference. *)
Lemma store_adopt H m Q F refs s x i f id : store H m Q F refs s -> H !! x = Some i ->
  x ∈ class_chunks (getc (slb s) id) -> 1 <= id <= power_largest (slb s) -> good_new (slb s) id (f (geti (mem s) x)) ->
  store (delete x H) m Q F (rupd refs x 1) (with_mem s (seti (mem s) x f)).
Proof.
  intros I Hx Hch Hid (G1 & G2 & G3 & G4 & G5 & G6 & G7 & G8).
  pose proof (held_nowhere _ _ _ _ _ _ _ _ I Hx) as Hh. pose proof Hh as (_ & HF & _).
  pose proof (held_not_linked _ _ _ _ _ _ Hh) as Hnl.
  eapply (store_reassign H); [exact I|exact Hid|exact Hch|done|by rewrite rupd_eq|..]; simpl.
  - apply slab_inv_seti; [apply I|done].
  - intros y. rewrite geti_seti. destruct (decide (x = y)) as [<-|]; [apply G6|]. apply (ci_bodies _ _ _ _ _ _ _ _ (proj1 I)).
  - apply seti_rest; [intros; by rewrite rupd_ne|]. intros y Hne. by rewrite lookup_delete_ne.
  - intros _. simpl. unfold live_item. simpl. rewrite geti_seti_eq, rupd_eq, G1, G4, G5.
    split_and!; first [done|lia].
  - intros j. by rewrite lookup_delete_eq.
  - right. left. rewrite rupd_eq. lia.
Qed.

(** *** What the mover's operations leave alone *)

(** The variables of the move under way, but for the counters. *)
Definition move_of (r : rebal_t) :=
  (slab_start r, slab_end r, slab_pos r, s_clsid r, d_clsid r, busy_loops r, done_ r, slab_rebalance_signal r).

(** What a step of the mover does besides moving items; [b]: it found a busy
    chunk. *)
Record mkept (b : Z) (s s' : st) : Prop := {
  mk_classes : same_classes (slb s) (slb s');
  mk_now : now s' = now s;
  mk_locks : trylocks s = [] -> trylocks s' = [];
  mk_move : move_of (rbl s') = move_of (rbl s);
  mk_busy : busy_items (rbl s') = busy_items (rbl s) + b
}.

Lemma mkept_refl s : mkept 0 s s.
Proof. split; first [done|apply same_classes_refl|lia]. Qed.

Lemma mkept_trans b1 b2 s1 s2 s3 : mkept b1 s1 s2 -> mkept b2 s2 s3 -> mkept (b1 + b2) s1 s3.
Proof.
  intros [H1 H2 H3 H4 H5] [K1 K2 K3 K4 K5]. split; [by eapply same_classes_trans|congruence|auto|congruence|lia].
Qed.

Lemma mkept_parts s s' : slb s' = slb s -> now s' = now s -> trylocks s' = trylocks s -> rbl s' = rbl s -> mkept 0 s s'.
Proof.
  intros E1 E2 E3 E4. split; rewrite ?E1, ?E2, ?E3, ?E4; first [done|apply same_classes_refl|lia].
Qed.

Lemma mkept_effect U s s' : effect U s s' -> slab_rebalance_signal (rbl s) <> 0 -> mkept 0 s s'.
Proof.
  intros [H1 _ (H2 & H3 & H4)] Hs. assert (rbl s' = rbl s) as E by (destruct H3 as [?|[? _]]; [done|congruence]).
  split; rewrite ?E; first [done|lia].
Qed.

(** *** Free chunks *)

Lemma pl_getc_geom s id f : (forall p, geom (f p) = geom p) -> forall i, geom (getc (setc s id f) i) = geom (getc s i).
Proof. intros Hf i. rewrite getc_setc. destruct (decide (id = i)) as [->|]; [apply Hf|done]. Qed.

(** The links of the free list after the detachment. *)
Lemma cut_free_list h h' p q l1 x l2 : freelist h p (l1 ++ x :: l2) ->
  slots q = (if decide (slots p = x) then next (geti h x) else slots p) -> sl_curr q = sl_curr p - 1 ->
  (forall y, y <> x -> geti h' y = (geti h y)
     <| next := if decide (y <> 0 /\ y = prev (geti h x)) then next (geti h x) else next (geti h y) |>
     <| prev := if decide (y <> 0 /\ y = next (geti h x)) then prev (geti h x) else prev (geti h y) |>) ->
  freelist h' q (l1 ++ l2).
Proof.
  intros [Hd Hc Hf] Hs Hcur Hag. pose proof Hd as (Hseg & _ & _ & Hnd).
  destruct (dseg_elem _ _ _ _ _ _ Hseg) as (Hx0 & _).
  assert (forall y, y ∈ l1 ++ l2 -> y <> x /\ y ∈ l1 ++ x :: l2) as Hyx.
  { intros y Hy. apply NoDup_app in Hnd as (_ & Hd1 & Hd2). apply NoDup_cons in Hd2 as [Hd2 _].
    split; [|set_solver]. intros ->. apply elem_of_app in Hy as [Hy|Hy]; [|done]. apply (Hd1 x Hy). set_solver. }
  pose proof (dll_remove h h' _ _ l1 x l2 Hd) as Hrm. cbv zeta in Hrm.
  destruct Hrm as (R1 & R2 & R3 & R4).
  { intros y Hy0 Hy. rewrite (Hag y Hy). unfold links. simpl.
    f_equal; (destruct (decide (y <> 0 /\ _)) as [[_ ?]|?]; [by rewrite decide_True|by rewrite decide_False by tauto]). }
  split.
  - rewrite Hs. by split_and!.
  - rewrite Hcur, Hc, !length_app. simpl. lia.
  - intros y Hy. destruct (Hyx y Hy) as [Hne Hin]. rewrite (Hag y Hne). by apply Hf.
Qed.

Lemma clear_chunk_eq x s : clear_chunk x s =
  Ok (tt, with_mem s (seti (mem s) x (fun i => i <| refcount := 0 |> <| it_flags := CLEARED |>))).
Proof. done. Qed.

Definition cleared_item (i : item) : item := i <| refcount := 0 |> <| it_flags := CLEARED |>.

Lemma set_s_cls_bind {B} f (k : unit -> M st B) s :
  (set_s_cls f ≫= k) s = k tt (s <| slb := setc (slb s) (s_clsid (rbl s)) f |>).
Proof. done. Qed.

Lemma s_cls_bind {B} (k : slabclass_t -> M st B) s : (s_cls ≫= k) s = k (getc (slb s) (s_clsid (rbl s))) s.
Proof. done. Qed.

(** slab_rebalance_cut_free and the marks that follow. *)
Lemma cut_free_run s x : let i := geti (mem s) x in let id := s_clsid (rbl s) in
  it_flags i = ITEM_SLABBED -> x <> 0 -> next i <> x -> prev i <> x ->
  exists h' sl', (slab_rebalance_cut_free x;; clear_chunk x) s = Ok (tt, (with_mem s h') <| slb := sl' |>) /\
    (forall y, y <> x -> geti h' y = (geti (mem s) y)
      <| next := if decide (y <> 0 /\ y = prev i) then next i else next (geti (mem s) y) |>
      <| prev := if decide (y <> 0 /\ y = next i) then prev i else prev (geti (mem s) y) |>) /\
    geti h' x = cleared_item i /\ sscalars sl' = sscalars (slb s) /\
    (forall c, c <> id -> getc sl' c = getc (slb s) c) /\
    getc sl' id = (getc (slb s) id) <| slots := if decide (slots (getc (slb s) id) = x) then next i else slots (getc (slb s) id) |>
      <| sl_curr := u32 (sl_curr (getc (slb s) id) - 1) |>.
Proof.
  intros i id Hfl Hx0 Hn Hp.
  set (n := next i) in *. set (p := prev i) in *.
  set (sl1 := if decide (slots (getc (slb s) id) = x) then setc (slb s) id (fun p => p <| slots := n |>) else slb s).
  set (h1 := if decide (n = 0) then mem s else seti (mem s) n (fun y => y <| prev := p |>)).
  set (h2 := if decide (p = 0) then h1 else seti h1 p (fun y => y <| next := n |>)).
  exists (seti h2 x (fun i => i <| refcount := 0 |> <| it_flags := CLEARED |>)), (setc sl1 id (fun p => p <| sl_curr := u32 (sl_curr p - 1) |>)).
  assert (geti h1 x = i) as E1.
  { unfold h1. destruct (decide (n = 0)); [done|]. by rewrite geti_seti_ne. }
  assert (geti h2 x = i) as E2.
  { unfold h2. destruct (decide (p = 0)); [done|]. by rewrite geti_seti_ne. }
  split; [|split_and!].
  - unfold mbind at 1, M_bind at 1. unfold slab_rebalance_cut_free.
    rewrite rd_bind. fold i. rewrite massert_bind by by apply bool_decide_eq_true.
    rewrite s_cls_bind. fold id n.
    assert (forall k : unit -> M st unit, (when (bool_decide (slots (getc (slb s) id) = x)) (set_s_cls (fun p => p <| slots := n |>)) ≫= k) s =
      k tt (s <| slb := sl1 |>)) as Ew.
    { intros k. unfold sl1. destruct (decide (slots (getc (slb s) id) = x)).
      - by rewrite bool_decide_true.
      - rewrite bool_decide_false by done. by destruct s. }
    rewrite Ew. clear Ew.
    assert (forall k : unit -> M st unit, (when (negb (bool_decide (n = 0))) (wr n (fun y => y <| prev := p |>)) ≫= k) (s <| slb := sl1 |>) =
      k tt ((with_mem s h1) <| slb := sl1 |>)) as Ew.
    { intros k. unfold h1. destruct (decide (n = 0)).
      - rewrite bool_decide_true by done. by destruct s.
      - by rewrite bool_decide_false. }
    fold p. rewrite Ew. clear Ew. rewrite rd_bind. simpl mem. rewrite E1. fold p n.
    assert (forall k : unit -> M st unit, (when (negb (bool_decide (p = 0))) (wr p (fun y => y <| next := n |>)) ≫= k) ((with_mem s h1) <| slb := sl1 |>) =
      k tt ((with_mem s h2) <| slb := sl1 |>)) as Ew.
    { intros k. unfold h2. destruct (decide (p = 0)).
      - by rewrite bool_decide_true.
      - by rewrite bool_decide_false. }
    rewrite Ew. done.
  - intros y Hy. rewrite geti_seti_ne by congruence. unfold h2, h1.
    destruct (decide (p = 0)) as [Ep|Ep], (decide (n = 0)) as [En|En]; rewrite ?geti_seti;
      repeat (destruct (decide _)); try (exfalso; intuition congruence);
      repeat match goal with H : _ /\ _ |- _ => destruct H end; simplify_eq; simpl; try done; try congruence;
      by destruct (geti (mem s) y).
  - by rewrite geti_seti_eq, E2.
  - unfold sl1. by destruct (decide _).
  - intros c Hc. rewrite getc_setc_ne by congruence. unfold sl1. destruct (decide _); [by rewrite getc_setc_ne by congruence|done].
  - rewrite getc_setc_eq. unfold sl1. destruct (decide _); [by rewrite getc_setc_eq|]. by destruct (getc _ id).
Qed.

(** Where a chunk of the class can be. *)
Lemma chunk_cases H m Q F refs s id x : store H m Q F refs s -> 1 <= id <= power_largest (slb s) ->
  x ∈ class_chunks (getc (slb s) id) -> x ∈ F id \/ used m refs x \/ is_Some (H !! x).
Proof. intros [I _] Hid Hx. exact (ci_all _ _ _ _ _ _ _ _ I id x Hid Hx). Qed.

Lemma free_not_used H m Q F refs s id x : store H m Q F refs s -> 1 <= id <= power_largest (slb s) ->
  x ∈ F id -> ~ used m refs x.
Proof.
  intros [I _] Hid Hx Hu. destruct (ci_live _ _ _ _ _ _ _ _ I x Hu) as (_ & _ & HF & _). by apply (HF id).
Qed.

Lemma free_not_held H m Q F refs s id x : store H m Q F refs s -> 1 <= id <= power_largest (slb s) ->
  x ∈ F id -> H !! x = None.
Proof.
  intros I Hid Hx. destruct (H !! x) as [i|] eqn:E; [|done].
  destruct (held_nowhere _ _ _ _ _ _ _ _ I E) as (_ & HF & _). by destruct (HF id Hid).
Qed.

(** What the clients' items are does not change. *)
Definition same_items (m : gmap (list Z) Z) (refs : Z -> Z) (s s' : st) : Prop :=
  forall y, used m refs y -> geti (mem s') y = geti (mem s) y.

(** A free chunk of the page leaves the free list. *)
Lemma free_chunk_moved H m Q F refs s x : store H m Q F refs s -> let id := s_clsid (rbl s) in
  1 <= id <= power_largest (slb s) -> x ∈ F id ->
  exists F' s', (slab_rebalance_cut_free x;; clear_chunk x) s = Ok (tt, s') /\
    store (<[x := cleared_item (geti (mem s) x)]> H) m Q F' refs s' /\ mkept 0 s s' /\ same_items m refs s s'.
Proof.
  intros I id Hid Hx. pose proof I as [Ic _].
  pose proof (ci_slabs _ _ _ _ _ _ _ _ Ic : slab_inv cfg cap [] (mem s) (slb s) F) as Is.
  pose proof (si_free _ _ _ _ _ _ Is id Hid) as Hfl. pose proof (si_sub _ _ _ _ _ _ Is id x Hid Hx) as Hch.
  pose proof (free_not_used _ _ _ _ _ _ _ _ I Hid Hx) as Hnu.
  pose proof (free_not_held _ _ _ _ _ _ _ _ I Hid Hx) as Hnh.
  destruct (fl_free _ _ _ Hfl x Hx) as [Hflag _].
  pose proof (fl_dll _ _ _ Hfl) as (Hseg & _ & _ & Hnd).
  assert (0 ∉ F id) as H0 by (intros H0; by eapply dseg_nonzero in H0).
  destruct (dseg_self_next _ _ _ _ x Hseg Hnd H0 H0 Hx) as [Hn Hp].
  destruct (cut_free_run s x Hflag ltac:(by intros ->) Hn Hp) as (h' & sl' & E & Hag & Ex & Hsc & Hne & Heq).
  fold id in Hne, Heq.
  pose proof Hx as Hx'. apply list_elem_of_split in Hx' as (l1 & l2 & EF).
  assert (forall y, y <> x -> y ∉ F id -> geti h' y = geti (mem s) y) as Hout.
  { intros y Hy HyF. rewrite (Hag y Hy). rewrite EF in Hseg, HyF.
    destruct (dseg_elem _ _ _ _ _ _ Hseg) as (_ & En & Ep).
    rewrite !decide_False; [by destruct (geti (mem s) y)| |].
    - intros [Hy0 ->]. destruct (last l1) as [z|] eqn:El; simpl in Ep; [|congruence].
      apply HyF. rewrite Ep. apply last_Some_elem_of in El. set_solver.
    - intros [Hy0 ->]. destruct l2 as [|z l2]; simpl in En; [congruence|]. apply HyF. rewrite En. set_solver. }
  assert (sl_curr (getc (slb s) id) = Z.of_nat (length (F id))) as Hcur by apply Hfl.
  assert (u32 (sl_curr (getc (slb s) id) - 1) = sl_curr (getc (slb s) id) - 1) as Hu32.
  { apply wrap_small. pose proof (free_list_length _ _ _ _ _ _ id Is Hid) as Hb.
    pose proof (pages_count _ _ _ _ _ _ id Is ltac:(lia)) as Hc. simpl in Hc.
    destruct (si_class _ _ _ _ _ _ Is id Hid) as (_ & ? & _ & Hcap). rewrite EF, length_app in Hb, Hcur. simpl in Hb, Hcur.
    destruct (si_list _ _ _ _ _ _ Is id ltac:(lia)) as (? & _). unfold in_u. nia. }
  assert (forall i, geom (getc sl' i) = geom (getc (slb s) i)) as Hg.
  { intros i. destruct (decide (i = id)) as [->|]; [by rewrite Heq|by rewrite Hne]. }
  assert (freelist h' (getc sl' id) (l1 ++ l2)) as Hfl'.
  { rewrite EF in Hfl. eapply cut_free_list; [exact Hfl|by rewrite Heq|rewrite Heq; exact Hu32|exact Hag]. }
  assert (x ∉ l1 ++ l2) as Hx12.
  { rewrite EF in Hnd. apply NoDup_app in Hnd as (_ & Hd & Hnd). apply NoDup_cons in Hnd as [Hnd _].
    intros [Hx'|Hx']%elem_of_app; [apply (Hd x Hx'); set_solver|done]. }
  assert (slab_inv cfg cap [] h' sl' (upd F id (l1 ++ l2))) as Is'.
  { eapply slab_inv_lists; [exact Is|exact Hid|exact Hsc|exact Hg| |exact Hfl'|..].
    - intros i Hi. by rewrite Hne.
    - intros y Hy. eapply Is; [done|]. rewrite EF. set_solver.
    - intros i y Hi Hii Hy. assert (y ∉ F id) as HyF.
      { intros HyF. apply Hii. eapply chunk_class_unique; [exact Is|done|done|by eapply Is|by eapply Is]. }
      apply Hout; [by intros ->|done]. }
  assert (same_items m refs s ((with_mem s h') <| slb := sl' |>)) as Hsame.
  { intros y Hy. apply Hout; [by intros ->|]. intros HyF. exact (free_not_used _ _ _ _ _ _ _ _ I Hid HyF Hy). }
  exists (upd F id (l1 ++ l2)), ((with_mem s h') <| slb := sl' |>). split; [exact E|].
  split; [|split; [|exact Hsame]].
  - eapply (store_reassign H); [exact I|exact Hid|exact Hch| | | | |split|..]; simpl; try done.
    + intros Hl. apply Hnu. by left.
    + apply Ic.
    + intros y. destruct (decide (y = x)) as [->|Hy]; [rewrite Ex|rewrite (Hag y Hy)]; apply (ci_bodies _ _ _ _ _ _ _ _ Ic).
    + by injection Hsc.
    + intros y Hy. by rewrite lookup_insert_ne.
    + intros y d Hy Hd. unfold upd. destruct (decide (d = id)) as [->|]; [|done]. rewrite EF. set_solver.
    + intros y Hy [Hu|[j Hj]]; [by apply Hsame|]. apply Hout; [done|]. intros HyF.
      by rewrite (free_not_held _ _ _ _ _ _ _ _ I Hid HyF) in Hj.
    + intros Hr. destruct Hnu. by right.
    + intros i. rewrite lookup_insert_eq, Ex. intros [= <-]. split_and!.
      * pose proof (ci_refs _ _ _ _ _ _ _ _ Ic x). destruct (decide (0 < refs x)); [destruct Hnu; by right|lia].
      * intros d Hd. unfold upd. destruct (decide (d = id)) as [->|Hdn]; [done|]. intros Hxd. apply Hdn.
        eapply chunk_class_unique; [exact Is|done|done|by eapply Is|done].
      * by destruct (geti (mem s) x).
    + right. right. rewrite lookup_insert_eq. eauto.
  - split; first [by apply same_classes_geom|done|simpl; lia].
Qed.

(** *** Memory for a copy *)

(** A chunk from the free list, if there is one; without asking for a new page. *)
Lemma slabs_alloc_no_newpage H m Q F refs s size id : store H m Q F refs s ->
  1 <= id <= power_largest (slb s) -> size <= csize (getc (slb s) id) ->
  exists x t s', slabs_alloc cfg size id SLABS_ALLOC_NO_NEWPAGE s = Ok ((x, t), s') /\
    ((x = 0 /\ s' = s) \/
     (0 < x /\ x ∈ F id /\ geti (mem s') x = ((geti (mem s) x) <| it_flags := 0 |> <| refcount := 1 |>) /\
      (exists F', store (<[x := geti (mem s') x]> H) m Q F' refs s') /\ mkept 0 s s' /\ same_items m refs s s')).
Proof.
  intros I Hid Hsz. pose proof I as [Ic _].
  pose proof (ci_slabs _ _ _ _ _ _ _ _ Ic : slab_inv cfg cap [] (mem s) (slb s) F) as Is.
  pose proof (si_free _ _ _ _ _ _ Is id Hid) as Hfl. pose proof (fl_curr _ _ _ Hfl) as Hcur.
  unfold slabs_alloc, do_slabs_alloc. rewrite decide_False by (unfold POWER_SMALLEST; lia).
  rewrite decide_False; cycle 1.
  { intros Hn. apply Hn. destruct (F id) as [|y l] eqn:EF; [by left|right].
    assert (slots (getc (slb s) id) = y) as -> by apply (fl_dll _ _ _ Hfl). apply (fl_free _ _ _ Hfl). set_solver. }
  rewrite decide_False by lia. rewrite decide_False by (intros [_ Hf]; by apply Hf). cbn [mbind res_bind].
  destruct (F id) as [|x l] eqn:EF.
  { rewrite decide_False by (intros Hn; by apply Hn). exists 0, (requested (getc (slb s) id)), s. split; [by destruct s|by left]. }
  rewrite decide_True by (rewrite Hcur; simpl; lia).
  pose proof (freelist_pop_inv cfg cap (mem s) (slb s) F size id x l Is Hid EF) as Hpop.
  destruct (freelist_pop size id (mem s) (slb s)) as [[it h'] sl'] eqn:Epop.
  destruct Hpop as (-> & Is' & Hxl & Hag & Ex & Hsc & Hg & _). cbn [mbind res_bind].
  assert (x ∈ F id) as Hx by (rewrite EF; set_solver).
  pose proof (si_sub _ _ _ _ _ _ Is id x Hid Hx) as Hch.
  destruct (chunk_in_page cfg _ _ _ _ _ _ _ Is Hid Hch) as (_ & _ & _ & _ & Hpos).
  pose proof (free_not_used _ _ _ _ _ _ _ _ I Hid Hx) as Hnu.
  destruct (fl_free _ _ _ Hfl x) as [Hflag _]; [set_solver|].
  assert (bodies_ok h') as Hbo.
  { eapply bodies_pop; [apply Ic|exact Epop]. }
  eexists x, _, ((with_mem s h') <| slb := sl' |>). split; [reflexivity|]. right.
  assert (same_items m refs s ((with_mem s h') <| slb := sl' |>)) as Hsame.
  { intros y Hy. apply Hag. intros HyF. exact (free_not_used _ _ _ _ _ _ _ _ I Hid HyF Hy). }
  split; [done|]. split; [set_solver|]. split; [|split; [|split; [|exact Hsame]]].
  - simpl. rewrite Ex, Hflag. done.
  - exists (upd F id l).
    eapply (store_reassign H); [exact I|exact Hid|exact Hch| | | |exact Hbo|split|..]; simpl; try done.
    + intros Hl. apply Hnu. by left.
    + apply Ic.
    + by injection Hsc.
    + intros y Hy. by rewrite lookup_insert_ne.
    + intros y d Hy Hd. unfold upd. destruct (decide (d = id)) as [->|]; [|done]. rewrite EF. set_solver.
    + intros y Hy [Hu|[j Hj]]; [by apply Hsame|]. apply Hag. intros HyF.
      by rewrite (free_not_held _ _ _ _ _ _ _ _ I Hid HyF) in Hj.
    + intros Hr. destruct Hnu. by right.
    + intros i. rewrite lookup_insert_eq. intros [= <-]. split_and!.
      * pose proof (ci_refs _ _ _ _ _ _ _ _ Ic x). destruct (decide (0 < refs x)); [destruct Hnu; by right|lia].
      * intros d Hd. unfold upd. destruct (decide (d = id)) as [->|Hdn]; [done|]. intros Hxd. apply Hdn.
        eapply chunk_class_unique; [exact Is|done|done|by eapply Is|done].
      * by destruct (geti h' x).
    + right. right. rewrite lookup_insert_eq. eauto.
  - split; first [by apply same_classes_geom|done|simpl; lia].
Qed.
(** Statistics of the class. *)
Lemma store_stats H m Q F refs s f : store H m Q F refs s -> 1 <= s_clsid (rbl s) <= power_largest (slb s) ->
  (forall p, geom (f p) = geom p /\ same_lists p (f p)) ->
  let s' := s <| slb := setc (slb s) (s_clsid (rbl s)) f |> in
  store H m Q F refs s' /\ mkept 0 s s'.
Proof.
  intros [I HQ] Hid Hf s'. set (id := s_clsid (rbl s)) in *.
  assert (forall i, geom (getc (slb s') i) = geom (getc (slb s) i)) as Hg
    by (apply pl_getc_geom; intros p; apply Hf).
  assert (forall i, class_chunks (getc (slb s') i) = class_chunks (getc (slb s) i)) as Ech
    by (intros i; apply geom_chunks, Hg).
  assert (slab_inv cfg cap [] (mem s) (slb s') F) as Is.
  { pose proof (ci_slabs _ _ _ _ _ _ _ _ I : slab_inv cfg cap [] (mem s) (slb s) F) as Is.
    eapply (slab_inv_ext _ _ _ _ _ (upd F id (F id))).
    { intros i. unfold upd. by destruct (decide (i = id)) as [->|]. }
    eapply slab_inv_lists; [exact Is|exact Hid|done|exact Hg| | |intros y Hy; by eapply Is|done].
    - intros i Hi. simpl. by rewrite getc_setc_ne by congruence.
    - eapply freelist_frame; [by apply Is| |done]. simpl. rewrite getc_setc_eq. apply Hf. }
  split; [split; [|exact HQ]|split; first [by apply same_classes_geom|done|simpl; lia]].
  split; try apply I; try exact Is.
  - apply (classes_ok_same cfg (slb s)); [apply (si_pl _ _ _ _ _ _ Is)|by apply same_classes_geom|apply I].
  - intros i y Hi. rewrite Ech. by apply I.
  - intros y j Hy. destruct (ci_held _ _ _ _ _ _ _ _ I y j Hy) as ((d & Hd & Hy') & ? & ? & ?).
    split_and!; try done. exists d. by rewrite Ech.
  - intros y Hy. pose proof (ci_live _ _ _ _ _ _ _ _ I y Hy) as Hly. unfold live_item in *. simpl in Hg, Ech |- *.
    assert (csize (getc (setc (slb s) id f) (ITEM_clsid (geti (mem s) y))) = csize (getc (slb s) (ITEM_clsid (geti (mem s) y)))) as ->
      by (by injection (Hg (ITEM_clsid (geti (mem s) y)))).
    by rewrite Ech.
Qed.

Lemma store_parts H m Q F refs s s' : store H m Q F refs s -> same_parts s s' -> mem s' = mem s -> store H m Q F refs s'.
Proof. intros [I HQ] Hp Hm. split; [|done]. by eapply core_parts. Qed.
(** The chunks the mover has cleared so far. *)
Definition cleared_in (r : rebal_t) (H : gmap Z item) : Prop :=
  forall x i, H !! x = Some i -> it_flags i = CLEARED /\ slab_start r <= x < slab_end r.

Lemma cleared_insert r H x i : cleared_in r H -> it_flags i = CLEARED -> slab_start r <= x < slab_end r ->
  cleared_in r (<[x := i]> H).
Proof. intros HH Hi Hx y j [[<- <-]|[Hne Hy]]%lookup_insert_Some; [done|by apply HH]. Qed.

Lemma cleared_move r r' H : move_of r' = move_of r -> cleared_in r H -> cleared_in r' H.
Proof. intros [= E1 E2 _ _ _ _ _ _] HH x i Hx. rewrite E1, E2. by apply HH. Qed.

Lemma set_rbl_bind {B} f (k : unit -> M st B) s : (set_rbl f ≫= k) s = k tt (s <| rbl ::= f |>).
Proof. done. Qed.
Lemma rbl_bind {B} (k : rebal_t -> M st B) s : (gets rbl ≫= k) s = k (rbl s) s.
Proof. done. Qed.
Lemma wr_bind' {B} x f (k : unit -> M st B) s : (wr x f ≫= k) s = k tt (with_mem s (seti (mem s) x f)).
Proof. done. Qed.

Lemma mkept_rbl s f : move_of (f (rbl s)) = move_of (rbl s) -> mkept (busy_items (f (rbl s)) - busy_items (rbl s)) s (s <| rbl ::= f |>).
Proof. intros Hf. split; simpl; first [done|apply same_classes_refl|lia]. Qed.

Lemma same_items_refl m refs s : same_items m refs s s.
Proof. by intros y. Qed.
Lemma same_items_trans m refs s1 s2 s3 : same_items m refs s1 s2 -> same_items m refs s2 s3 -> same_items m refs s1 s3.
Proof. intros H1 H2 y Hy. by rewrite H2, H1. Qed.

Lemma chunks_kept sl sl' id x : same_classes sl sl' -> 1 <= id -> x ∈ class_chunks (getc sl id) ->
  x ∈ class_chunks (getc sl' id).
Proof.
  intros [_ H] Hid (q & Hq & Hx)%class_chunk_page. destruct (H id Hid) as (E1 & E2 & [l E3]).
  apply class_chunk_page. exists q. rewrite E3. split; [apply elem_of_app; by left|]. unfold page_chunks in *. by rewrite E1, E2.
Qed.

(** What slab_rebalance_alloc leaves: the chunks of the page among those it was
    given are cleared. *)
Definition alloc_left (m : gmap (list Z) Z) Q refs (s : st) (H : gmap Z item) (new : Z) (s' : st) : Prop :=
  exists H' F', mkept 0 s s' /\ same_items m refs s s' /\ H ⊆ H' /\ cleared_in (rbl s) H' /\
    ((new = 0 /\ store H' m Q F' refs s') \/
     (0 < new /\ store (<[new := geti (mem s') new]> H') m Q F' refs s' /\
      ~ (slab_start (rbl s) <= new < slab_end (rbl s)) /\ it_flags (geti (mem s') new) = 0 /\
      new ∈ class_chunks (getc (slb s') (s_clsid (rbl s))))).

Lemma rebalance_alloc_loop_ok n size : forall H m Q F refs s, store H m Q F refs s -> cleared_in (rbl s) H ->
  1 <= s_clsid (rbl s) <= power_largest (slb s) -> size <= csize (getc (slb s) (s_clsid (rbl s))) ->
  exists new s', rebalance_alloc_loop cfg n size (s_clsid (rbl s)) s = Ok (new, s') /\ alloc_left m Q refs s H new s'.
Proof.
  induction n as [|n IH]; intros H m Q F refs s I HH Hid Hsz; simpl.
  { exists 0, s. split; [done|]. exists H, F. split_and!; try done; [apply mkept_refl|by left]. }
  destruct (slabs_alloc_no_newpage H m Q F refs s size _ I Hid Hsz) as (x & t & s1 & E1 & Hx).
  rewrite (M_bind_ok _ _ _ _ _ E1). rewrite rbl_bind.
  destruct Hx as [[-> ->]|(Hx0 & HxF & Ex & (F1 & I1) & K1 & J1)].
  { rewrite decide_True by done. exists 0, s. split; [done|]. exists H, F. split_and!; try done; [apply mkept_refl|by left]. }
  assert (move_of (rbl s1) = move_of (rbl s)) as Em by apply K1.
  pose proof Em as [= Es Ee _ Ec _ _ _ _].
  pose proof (si_sub _ _ _ _ _ _ (ci_slabs _ _ _ _ _ _ _ _ (proj1 I) : slab_inv cfg cap [] (mem s) (slb s) F) _ x Hid HxF) as Hch.
  assert (power_largest (slb s1) = power_largest (slb s)) as Epl by apply K1.
  rewrite decide_False by lia. rewrite Es, Ee. destruct (decide (slab_start (rbl s) <= x < slab_end (rbl s))) as [Hin|Hout].
  2: { exists x, s1. split; [done|]. exists H, F1. split_and!; try done. right.
     split_and!; try done; [by rewrite Ex|]. by eapply chunks_kept; [apply K1|lia|]. }
  rewrite set_s_cls_bind. edestruct (store_stats _ _ _ _ _ s1 (fun p => p <| requested := u64 (requested p - size) |>) I1) as [I2 K2];
    [by rewrite Ec, Epl|done|].
  set (s2 := s1 <| slb := _ |>) in *. rewrite (M_bind_ok _ _ _ _ _ (clear_chunk_eq x s2)).
  assert (bytes_ok (body (cleared_item (geti (mem s2) x)))) as Hb by apply (ci_bodies _ _ _ _ _ _ _ _ (proj1 I2)).
  pose proof (store_held_wr _ _ _ _ _ _ x _ cleared_item I2 (lookup_insert_eq _ _ _) Hb) as I3.
  rewrite insert_insert_eq in I3.
  set (s3 := with_mem s2 (seti (mem s2) x cleared_item)) in *. fold cleared_item. fold s3.
  rewrite set_rbl_bind. set (f := fun r => r <| inline_reclaim := u32 (inline_reclaim r + 1) |>).
  pose proof (store_parts _ _ _ _ _ _ (s3 <| rbl ::= f |>) I3 ltac:(by repeat split) eq_refl) as I4.
  pose proof (mkept_rbl s3 f eq_refl) as K4. change (busy_items _ - busy_items _) with (busy_items (rbl s3) - busy_items (rbl s3)) in K4.
  rewrite Z.sub_diag in K4.
  set (s4 := s3 <| rbl ::= f |>) in *.
  assert (mkept 0 s s4) as K.
  { eapply (mkept_trans 0 0); [exact K1|]. eapply (mkept_trans 0 0); [exact K2|].
    eapply (mkept_trans 0 0); [by apply (mkept_parts s2 s3)|exact K4]. }
  assert (same_items m refs s s4) as J.
  { intros y Hy. simpl. rewrite geti_seti_ne; [by apply J1|]. intros <-.
    exact (free_not_used _ _ _ _ _ _ _ _ I Hid HxF Hy). }
  assert (H !! x = None) as HxH by exact (free_not_held _ _ _ _ _ _ _ _ I Hid HxF).
  assert (s_clsid (rbl s4) = s_clsid (rbl s)) as Ec4 by exact Ec.
  pose proof (mk_classes _ _ _ K) as [Epl4 Hcl4].
  assert (cleared_in (rbl s4) (<[x:=cleared_item (geti (mem s2) x)]> H)) as HH4.
  { apply (cleared_move (rbl s)); [apply K|]. by apply cleared_insert. }
  destruct (IH _ _ _ _ _ s4 I4 HH4) as (new & s' & E & H' & F' & K' & J' & HS & HC & Hnew).
  { by rewrite Ec4, Epl4. }
  { rewrite Ec4. by rewrite (proj1 (Hcl4 (s_clsid (rbl s)) ltac:(lia))). }
  rewrite Ec4 in E. exists new, s'. split; [exact E|]. exists H', F'.
  assert (slab_start (rbl s4) = slab_start (rbl s)) as Es4 by exact Es.
  assert (slab_end (rbl s4) = slab_end (rbl s)) as Ee4 by exact Ee.
  split; [by eapply (mkept_trans 0 0)|]. split; [by eapply same_items_trans|].
  split; [etransitivity; [by apply insert_subseteq|exact HS]|].
  split; [apply (cleared_move (rbl s4)); [symmetry; apply K|exact HC]|].
  destruct Hnew as [?|(N1 & N2 & N3 & N4 & N5)]; [by left|right]. rewrite Es4, Ee4 in N3. split_and!; try done.
  by rewrite Ec4 in N5.
Qed.
Lemma seti_id h x : is_Some (h !! x) -> seti h x id = h.
Proof.
  Local Transparent geti seti. intros [i Hi]. unfold seti, geti. rewrite Hi. by apply insert_id.
  Local Opaque geti seti.
Qed.

Lemma bump_back x s : is_Some (mem s !! x) -> in_u 16 (refcount (geti (mem s) x)) -> bump x (-1) (bump x 1 s) = s.
Proof.
  intros Hd Hr. unfold bump. simpl. rewrite seti_seti.
  assert (seti (mem s) x (fun i => i <| refcount := u16 (refcount i + 1) |> <| refcount := u16 (u16 (refcount i + 1) + -1) |>) = mem s) as E.
  { rewrite (seti_same _ _ _ id); [by apply seti_id|]. simpl.
    rewrite wrap_add_l. replace (refcount (geti (mem s) x) + 1 + -1) with (refcount (geti (mem s) x)) by lia.
    rewrite wrap_small by done. by destruct (geti (mem s) x). }
  unfold with_mem. simpl. rewrite E. by destruct s.
Qed.

(** An item the mover holds is linked while nobody refers to it. *)
Lemma link_held H m Q F refs s x i id : store (<[x := i]> H) m Q F refs s -> H !! x = None ->
  1 <= id <= power_largest (slb s) -> x ∈ class_chunks (getc (slb s) id) -> is_Some (mem s !! x) ->
  refcount (geti (mem s) x) = 0 -> good_new (slb s) id ((geti (mem s) x) <| refcount := 1 |>) ->
  let k := ikey (mem s) x in m !! k = None ->
  exists Q' s', do_item_link cfg x (khash hash k) s = Ok (1, s') /\ store H (<[k := x]> m) Q' F refs s' /\
    effect (fun y => used m refs y \/ y = x) s s' /\ exptime (geti (mem s') x) = exptime (geti (mem s) x).
Proof.
  intros I HH Hid Hch Hd Hr Hg k Hk.
  pose proof (held_nowhere _ _ _ _ _ _ _ _ I (lookup_insert_eq _ _ _)) as Hh.
  pose proof (held_not_linked _ _ _ _ _ _ Hh) as Hnl. pose proof (held_refs _ _ _ _ _ _ _ _ I (lookup_insert_eq _ _ _)) as Hrx.
  assert (u16 (refcount (geti (mem s) x) + 1) = 1) as Hu by by rewrite Hr.
  pose proof (store_adopt _ _ _ _ _ _ x i (fun i => i <| refcount := u16 (refcount i + 1) |>) id I
    (lookup_insert_eq _ _ _) Hch Hid ltac:(cbv beta; by rewrite Hu)) as I1.
  rewrite delete_insert_id in I1 by done. change (with_mem s _) with (bump x 1 s) in I1.
  assert (ikey (mem (bump x 1 s)) x = k) as Ek.
  { apply ikey_agree. simpl. by rewrite geti_seti_eq. }
  destruct (do_item_link_inv _ _ _ _ _ _ _ _ x I1) as (Q' & s1 & E & I2 & Ef);
    [rewrite rupd_eq; lia|rewrite rupd_eq; lia|done|by rewrite Ek|]. rewrite Ek in E, I2.
  pose proof (blind_link x (-1) cfg (khash hash k) (bump x 1 s)) as Eb. rewrite E, bump_back in Eb; [|done|].
  2:{ rewrite Hr. unfold in_u. lia. }
  exists Q', (bump x (-1) s1). split; [done|]. destruct I2 as [I2 HQ2].
  assert (linked (<[k := x]> m) x) as Hl by (exists k; apply lookup_insert_eq).
  pose proof (live_refcount _ _ _ _ _ _ _ _ _ I2 (or_introl Hl)) as Hrc.
  rewrite (proj2 (proj2 (proj2 (live_flags _ _ _ _ _ _ _ _ _ I2 (or_introl Hl)))) Hl), rupd_eq in Hrc.
  destruct (bump_inv _ _ _ _ _ _ _ _ x (-1) I2 (or_introl Hl)) as [_ I3]; [rewrite rupd_eq; lia|lia|by left|].
  rewrite rupd_eq in I3. split; [|split].
  - split; [|done]. eapply core_inv_ext; [|exact I3]. intros y. rewrite rupd_rupd. apply rupd_id. lia.
  - eapply (effect_trans (fun y => used m refs y \/ y = x)); [eapply (effect_seti _ s (bump x 1 s)); done|
      eapply (effect_trans (fun y => used m refs y \/ y = x)); [eapply effect_weaken; [exact Ef|]|
      eapply (effect_seti _ s1 (bump x (-1) s1)); done|done]|done].
    intros y [[Hy|Hy]| ->]; [by left|right..]; unfold rupd; destruct (decide _); done || lia.
  - pose proof (exp_link cfg x (khash hash k) s) as He. rewrite Eb in He. apply He.
Qed.
Lemma store_ext H m Q F refs refs' s : (forall x, refs x = refs' x) -> store H m Q F refs s -> store H m Q F refs' s.
Proof. intros E [I HQ]. split; [|done]. by eapply core_inv_ext. Qed.

(** The copy in place, before it is linked. *)
Definition fresh_copy (i d : item) : item :=
  clear_flag ITEM_LINKED ((copy_item (ITEM_ntotal i) i d) <| prev := 0 |> <| next := 0 |> <| h_next := 0 |>) <| refcount := 0 |>.

Lemma fresh_copy_eq i d : let c := copy_item (ITEM_ntotal i) i d in
  fresh_copy i d = Item 0 0 0 (time i) (exptime i) (nbytes i) 0 (nsuffix i) (clear (it_flags i) ITEM_LINKED)
    (Heap.slabs_clsid i) (nkey i) (cas c) (body c).
Proof. by destruct i, d. Qed.

Lemma fresh_copy_good sl i d : in_chunk (csize (getc sl (ITEM_clsid i))) i -> item_ok i -> bytes_ok (body d) ->
  has i ITEM_SLABBED = false -> has i ITEM_CHUNKED = false -> has i ITEM_CHUNK = false ->
  let j := fresh_copy i d in
  good_new sl (ITEM_clsid i) (j <| refcount := 1 |>) /\ value j = value i /\ ITEM_key j = ITEM_key i /\
  refcount j = 0 /\ bytes_ok (body j) /\ nbytes j = nbytes i.
Proof.
  intros Hf Hok Hd H1 H2 H3 j. destruct (copy_item_value _ i d Hf Hok Hd) as (C1 & C2 & C3 & C4).
  unfold j. rewrite fresh_copy_eq. clear j. set (c := copy_item (ITEM_ntotal i) i d) in *.
  set (j := Item _ _ _ _ _ _ _ _ _ _ _ _ _).
  assert (forall f, Z.land 254 f = f -> has j f = has i f) as Hfl by (intros f; apply (has_clear_flag ITEM_LINKED f i)).
  assert (value c = value j) as Ev.
  { unfold value. rewrite (Hfl ITEM_CAS) by done. done. }
  assert (ITEM_ntotal i = ITEM_ntotal j) as En by (unfold ITEM_ntotal; by rewrite (Hfl ITEM_CAS)).
  pose proof Hok as (_ & Hn & _). rewrite <- Ev. split; [|split_and!; done].
  assert (has j ITEM_LINKED = false) as Hl by by apply (has_clear_same ITEM_LINKED i).
  unfold good_new. change (has (j <| refcount := 1 |>)) with (has j).
  rewrite Hl, !Hfl by done.
  assert (in_chunk (csize (getc sl (ITEM_clsid i))) (j <| refcount := 1 |>)) as Hin
    by (eapply (in_chunk_agree _ i); [done|done|done|exact En|exact Hf]).
  assert (item_ok (j <| refcount := 1 |>)) as Hok' by (split; [exact C2|split; [exact Hn|exact C3]]).
  exact (conj eq_refl (conj H1 (conj H2 (conj eq_refl (conj eq_refl (conj Hok' (conj Hin H3))))))).
Qed.
End chunk.
