(* ===== verification/Relocate.v ===== *)
(** * Moving one item out of the page

    What slab_rebalance_move does about a linked item: the copy takes its place in
    the table and in its queue, or the item is evicted; and the whole turn of the
    loop, whatever it finds in the chunk. *)

From S2P Require Import Prelude Decimal Hash Heap Assoc Settings Slabs BipBuffer Items Store StoreInv StoreSpec StoreOps Rebalance Mover.

#[local] Arguments store_take {cfg hash cap H m Q F refs s} x f.
#[local] Arguments store_held_wr {cfg hash cap H m Q F refs s} x {i} f.
#[local] Arguments held_nowhere {cfg hash cap H m Q F refs s x i}.
#[local] Arguments held_refs {cfg hash cap H m Q F refs s x i}.
#[local] Arguments store_ext {cfg hash cap H m Q F refs refs' s}.
#[local] Arguments store_parts {cfg hash cap H m Q F refs s s'}.
#[local] Arguments link_held {cfg hash HashFunction0 cap H m Q F refs s} x {i} id.
#[local] Arguments linked_delete {cfg hash cap m Q F refs s k x} y.
#[local] Arguments linked_key {cfg hash cap m Q F refs s x}.
#[local] Arguments live_flags {cfg hash cap m Q F refs s x}.
#[local] Arguments ci_live {cfg hash cap m Q F refs s} c0 {x}.
#[local] Arguments ci_whole {cfg hash cap m Q F refs s} c0 {x}.
#[local] Arguments ci_bodies {cfg hash cap m Q F refs s} c0.
#[local] Arguments ci_slabs {cfg hash cap m Q F refs s} c0.
#[local] Arguments ci_refs {cfg hash cap m Q F refs s} c0 x.
#[local] Arguments trylock_keeps {cfg hash cap m Q F refs s}.
#[local] Arguments bump_inv {cfg hash cap m Q F refs s} x d.
#[local] Arguments live_refcount {cfg hash cap m Q F refs s x}.
#[local] Arguments live_ok {cfg hash cap m Q F refs s x}.
#[local] Arguments slabs_free_inv {cfg hash HashFunction0 cap m Q F refs s} x r.
#[local] Arguments do_item_unlink_inv {cfg hash HashFunction0 cap m Q F refs s k x}.

(** ** No operation of the mover changes when an item expires *)

Definition exp_heap (h h' : heap) : Prop := forall y, exptime (geti h' y) = exptime (geti h y).

Lemma exp_seti h x f : (forall i, exptime (f i) = exptime i) -> exp_heap h (seti h x f).
Proof. intros Hf y. rewrite geti_seti. by destruct (decide _). Qed.

Lemma exp_trans h1 h2 h3 : exp_heap h1 h2 -> exp_heap h2 h3 -> exp_heap h1 h3.
Proof. intros H1 H2 y. by rewrite H2. Qed.

Lemma exp_push id it h s : exp_heap h (freelist_push id it h s).1.
Proof.
  unfold freelist_push. cbv zeta. set (h1 := seti h it _). assert (exp_heap h h1) as H1 by by apply exp_seti.
  simpl. destruct (decide _); [done|]. eapply exp_trans; [exact H1|by apply exp_seti].
Qed.

Lemma exp_free_chunks fuel : forall c h s h' s', free_chunks fuel c h s = Ok (h', s') -> exp_heap h h'.
Proof.
  induction fuel as [|fuel IH]; intros c h s h' s'; simpl; [done|].
  destruct (decide (c = 0)); [by intros [= <- _]|]. destruct (decide _); [done|].
  pose proof (exp_push (Heap.slabs_clsid (geti h c)) c
    (seti h c (fun i => i <| it_flags := ITEM_SLABBED |> <| Heap.slabs_clsid := 0 |>)) s) as Hp.
  unfold freelist_push in *. simpl in Hp. intros E%IH. eapply exp_trans; [|exact E].
  eapply exp_trans; [|exact Hp]. by apply exp_seti.
Qed.

Lemma exp_free cfg p n id h s h' s' : do_slabs_free cfg p n id h s = Ok (h', s') -> exp_heap h h'.
Proof.
  unfold do_slabs_free. destruct (decide _); [done|]. destruct (has _ _).
  - unfold do_slabs_free_chunked.
    set (h1 := seti h p _). set (c := ch_orig_clsid _). set (r := next _).
    set (h2 := if decide (r = 0) then _ else _). pose proof (exp_push c p h2 s) as Hp.
    destruct (freelist_push c p h2 s) as [h3 s3]. simpl in Hp. intros E%exp_free_chunks.
    assert (exp_heap h h1) as H1 by by apply exp_seti.
    eapply exp_trans; [exact H1|]. eapply exp_trans; [|exact E]. eapply exp_trans; [|exact Hp]. unfold h2.
    destruct (decide _); [done|by apply exp_seti].
  - set (h1 := seti h p _). pose proof (exp_push id p h1 s) as Hp.
    destruct (freelist_push id p h1 s) as [h2 s2]. simpl in Hp. intros [= <- _].
    eapply exp_trans; [|exact Hp]. by apply exp_seti.
Qed.

Lemma exp_lift cfg p n id : same_exptime (lift_slabs (do_slabs_free cfg p n id)).
Proof.
  intros s. unfold lift_slabs. destruct (do_slabs_free _ _ _ _ _ _) as [[h sl]| |] eqn:E; simpl; [|done..].
  by eapply exp_free.
Qed.

Lemma exp_assoc_delete key nk hv : same_exptime (st_assoc_delete key nk hv).
Proof.
  intros s. unfold st_assoc_delete, assoc_delete. destruct (_hashitem_before _ _ _ _ _) as [l| |]; simpl; [|done..].
  destruct (decide _); simpl; [|done]. destruct l; simpl.
  - by apply exp_seti.
  - intros y. rewrite !geti_seti. by repeat destruct (decide _).
Qed.

Ltac exp_tac t :=
  repeat first
    [ t | apply exp_lift | apply exp_assoc_delete | apply exp_link | apply exp_massert | apply exp_nomem; done
    | apply exp_wr; done | apply exp_bind; [|intros] | done | case_match ].

Lemma exp_unlink cfg it hv : same_exptime (do_item_unlink cfg it hv).
Proof.
  unfold do_item_unlink, set_stats, item_stats_sizes_remove, stats_sizes_change, item_unlink_q, do_item_unlink_q,
    do_item_remove, item_free, refcount_decr, set_lru, when. exp_tac fail.
Qed.

Lemma exp_replace cfg it new hv : same_exptime (do_item_replace cfg it new hv).
Proof. unfold do_item_replace. exp_tac ltac:(apply exp_unlink). Qed.

Lemma exp_evict cfg it hv : same_exptime (evict_item cfg it hv).
Proof. unfold evict_item, set_rbl. exp_tac ltac:(apply exp_unlink). Qed.

(** What an item is to a client has not changed. *)
Definition same_value (s s' : st) (y : Z) : Prop :=
  content (geti (mem s') y) = content (geti (mem s) y) /\ exptime (geti (mem s') y) = exptime (geti (mem s) y).

Lemma same_value_value s s' y : same_value s s' y -> value (geti (mem s') y) = value (geti (mem s) y).
Proof. intros [? ?]. by apply value_content. Qed.

Lemma exp_of {A} (op : M st A) s a s' y : same_exptime op -> op s = Ok (a, s') ->
  exptime (geti (mem s') y) = exptime (geti (mem s) y).
Proof. intros H E. specialize (H s). rewrite E in H. apply H. Qed.

Section relocate.
Context (cfg : settings) (hash : hash_func) `{!HashFunction hash} (cap : Z).
Abbreviation store := (fun H => store_inv cfg hash (Bound cap H)).

Lemma nbytes_dom h x : nbytes (geti h x) <> 0 -> is_Some (h !! x).
Proof.
  Local Transparent geti. unfold geti. destruct (h !! x); [eauto|]. by intros [].
  Local Opaque geti.
Qed.

Lemma repl_eq it new hv s : has (geti (mem s) it) ITEM_SLABBED = false ->
  do_item_replace cfg it new hv s = (do_item_unlink cfg it hv;; do_item_link cfg new hv) s.
Proof. intros Hs. unfold do_item_replace. rewrite rd_bind, massert_bind; [done|by rewrite Hs]. Qed.

Lemma when_false_bind {B} op (k : unit -> M st B) s : (when false op ≫= k) s = k tt s.
Proof. done. Qed.

(** Writing the copy. *)
Lemma rescue_item_copy it new ntotal hv s : let i := geti (mem s) it in
  has (geti (mem s) new) ITEM_CHUNKED = false -> has i ITEM_CHUNKED = false -> ntotal = ITEM_ntotal i ->
  rescue_item cfg it new ntotal hv s =
  (do_item_replace cfg it new hv;; n ← rd new; when (has n ITEM_CHUNKED) (repoint_chunks new);; clear_chunk it;;
   set_rbl (fun r => r <| rescues := u32 (rescues r + 1) |>);; mret (u32 ntotal))
    (with_mem s (seti (mem s) new (fresh_copy i))).
Proof.
  intros i Hn Hi ->. unfold rescue_item. rewrite rd_bind, massert_bind by (by rewrite Hn).
  rewrite rd_bind. fold i. rewrite Hi, wr_bind', when_false_bind, wr_bind'.
  unfold with_mem at 1. simpl mem. by rewrite seti_seti.
Qed.
(** The copy takes the item's place. *)
Lemma replace_held H m Q F refs s it new j : let i := geti (mem s) it in let k := ikey (mem s) it in
  store (<[new := j]> H) m Q F (rupd refs it 1) s -> H !! new = None -> geti (mem s) new = j ->
  good_new (slb s) (ITEM_clsid i) (j <| refcount := 1 |>) -> ITEM_key j = ITEM_key i -> refcount j = 0 ->
  new ∈ class_chunks (getc (slb s) (ITEM_clsid i)) -> linked m it -> slab_rebalance_signal (rbl s) <> 0 ->
  exists Q' F' s', do_item_replace cfg it new (khash hash k) s = Ok (1, s') /\
    store H (<[k := new]> m) Q' F' (rupd refs it 1) s' /\ ~ linked (<[k := new]> m) it /\ mkept 0 s s' /\
    keeps (fun y => y = new \/ used m refs y /\ y <> it) s s' /\ exptime (geti (mem s') new) = exptime j.
Proof.
  intros i k I HH Hj G1 G3 G4 Hch Hl Hsig. pose proof I as [Ic _].
  destruct (live_flags Ic (or_introl Hl)) as (Hsl & _ & _).
  destruct (ci_live Ic (or_introl Hl)) as (Hid & _). fold i in Hid.
  pose proof (linked_key Ic Hl) as Hmk. fold k in Hmk.
  destruct (do_item_unlink_inv I Hmk) as (Q3 & F3 & s3 & E3 & I3 & Ef3 & _).
  destruct (held_nowhere I3 (lookup_insert_eq _ _ _)) as (_ & _ & Hnu3 & En3).
  assert (it <> new) as Hne.
  { intros <-. destruct (held_nowhere I (lookup_insert_eq _ _ _)) as (_ & _ & Hnu & _). apply Hnu. by left. }
  assert (ikey (mem s3) new = k) as Ek3 by (unfold ikey; rewrite En3; exact G3).
  destruct (ef_classes _ _ _ Ef3) as [Epl3 Hcl3].
  destruct (link_held new (ITEM_clsid i) I3 HH) as (Q4 & s4 & E4 & I4 & Ef4 & Hx4).
  { by rewrite Epl3. }
  { apply (chunks_kept _ _ _ _ (ef_classes _ _ _ Ef3)); [lia|done]. }
  { apply nbytes_dom. rewrite En3. destruct G1 as (_ & _ & _ & _ & _ & _ & (_ & _ & Hnb & _) & _).
    simpl in *. lia. }
  { by rewrite En3. }
  { rewrite En3. unfold good_new in *. rewrite (proj1 (Hcl3 (ITEM_clsid i) (proj1 Hid))). exact G1. }
  { rewrite Ek3. apply lookup_delete_eq. }
  rewrite Ek3 in E4, I4. rewrite insert_delete_eq in I4.
  exists Q4, F3, s4. split.
  { rewrite repl_eq by exact Hsl. by rewrite (M_bind_ok _ _ _ _ _ E3). }
  split; [done|]. split; [|split; [|split]].
  - rewrite <- insert_delete_eq. intros [?|Hx]%linked_insert; [done| |apply lookup_delete_eq].
    by apply (linked_delete it Ic Hmk) in Hx as [_ ?].
  - eapply (mkept_trans 0 0 s s3); [by eapply mkept_effect|]. eapply mkept_effect; [exact Ef4|].
    destruct (ef_env _ _ _ Ef3) as (_ & [->|[? _]] & _); done.
  - intros y Hy. assert (y = new \/ used (delete k m) (rupd refs it 1) y) as Hu.
    { destruct Hy as [?|[Hy Hyi]]; [by left|right]. destruct Hy as [Hy|Hy]; [left|right; by rewrite rupd_ne].
      by apply (linked_delete y Ic Hmk). }
    rewrite (ef_keeps _ _ _ Ef4 y) by tauto. destruct Hu as [->|Hu]; [|by apply (ef_keeps _ _ _ Ef3)].
    rewrite En3, Hj. apply content_h_next.
  - rewrite Hx4, En3. done.
Qed.

(** The item is copied and the copy takes its place. *)
Lemma rescue_item_ok H m Q F refs s it new : let i := geti (mem s) it in let k := ikey (mem s) it in
  store (<[new := geti (mem s) new]> H) m Q F (rupd refs it 1) s -> H !! new = None ->
  it_flags (geti (mem s) new) = 0 -> new ∈ class_chunks (getc (slb s) (ITEM_clsid i)) ->
  linked m it -> refs it = 0 -> slab_rebalance_signal (rbl s) <> 0 ->
  exists Q' F' s', rescue_item cfg it new (ITEM_ntotal i) (khash hash k) s = Ok (u32 (ITEM_ntotal i), s') /\
    store (<[it := geti (mem s') it]> H) (<[k := new]> m) Q' F' refs s' /\
    it_flags (geti (mem s') it) = CLEARED /\ mkept 0 s s' /\
    (forall y, used m refs y /\ y <> it -> same_value s s' y) /\ value (geti (mem s') new) = value i.
Proof.
  intros i k I HH Hfl Hch Hl Hr Hsig. pose proof I as [Ic _].
  destruct (live_flags Ic (or_introl Hl)) as (Hsl & Hck & _). fold i in Hsl, Hck.
  destruct (ci_live Ic (or_introl Hl)) as (Hid & _ & _ & _ & _ & _ & _ & _ & Hok & Hin).
  fold i in Hid, Hok, Hin. pose proof (ci_whole Ic (or_introl Hl)) as Hwh. fold i in Hwh.
  destruct (held_nowhere I (lookup_insert_eq _ _ _)) as (_ & _ & Hnu & _).
  assert (it <> new) as Hne by (intros ->; apply Hnu; by left).
  destruct (fresh_copy_good (slb s) i (geti (mem s) new) Hin Hok (ci_bodies Ic new) Hsl Hck Hwh)
    as (G1 & G2 & G3 & G4 & G5 & G6).
  rewrite rescue_item_copy; [|unfold has; by rewrite Hfl|done|done].
  pose proof (store_held_wr new (fresh_copy i) I (lookup_insert_eq _ _ _) G5) as I2.
  rewrite insert_insert_eq in I2. fold i. set (s2 := with_mem s (seti (mem s) new (fresh_copy i))) in *.
  set (j := fresh_copy i (geti (mem s) new)) in *. assert (geti (mem s2) new = j) as Ej by apply geti_seti_eq.
  assert (geti (mem s2) it = i) as E2 by (simpl; by rewrite geti_seti_ne).
  assert (ikey (mem s2) it = k) as Ek2 by (unfold ikey; by rewrite E2).
  assert (forall y, y <> new -> geti (mem s2) y = geti (mem s) y) as E2o by (intros y Hy; simpl; by rewrite geti_seti_ne).
  assert (mkept 0 s s2) as K2 by by apply mkept_parts.
  assert (slb s2 = slb s /\ rbl s2 = rbl s) as [El2 Er2] by done. clearbody j s2.
  destruct (replace_held H m Q F refs s2 it new j I2 HH Ej) as (Q4 & F4 & s4 & E4 & I4 & Hnl & K4 & J4 & Hx4);
    rewrite ?E2, ?Ek2, ?El2, ?Er2; try done.
  rewrite Ek2 in E4, I4, Hnl. rewrite (M_bind_ok _ _ _ _ _ E4), rd_bind.
  assert (linked (<[k := new]> m) new) as Hln by (exists k; apply lookup_insert_eq).
  rewrite (proj1 (proj2 (live_flags (proj1 I4) (or_introl Hln)))), when_false_bind.
  rewrite (M_bind_ok _ _ _ _ _ (clear_chunk_eq it s4)), set_rbl_bind. fold cleared_item.
  pose proof (store_take it cleared_item I4 Hnl (rupd_eq _ _ _) (ci_bodies (proj1 I4) it)) as I5.
  set (s5 := with_mem s4 (seti (mem s4) it cleared_item)) in *.
  set (f := fun r => r <| rescues := u32 (rescues r + 1) |>).
  exists Q4, F4, (s5 <| rbl ::= f |>). split; [done|].
  assert (geti (mem s5) it = cleared_item (geti (mem s4) it)) as E5 by apply geti_seti_eq.
  split; [|split; [|split; [|split]]].
  - change (geti (mem (s5 <| rbl ::= f |>)) it) with (geti (mem s5) it). rewrite E5.
    eapply store_ext; [|eapply store_parts; [exact I5|by repeat split|done]].
    intros y. rewrite rupd_rupd. apply rupd_id. lia.
  - change (it_flags (geti (mem s5) it) = CLEARED). by rewrite E5.
  - eapply (mkept_trans 0 0 s s2); [done|]. eapply (mkept_trans 0 0 s2 s4); [done|].
    eapply (mkept_trans 0 0 s4 s5); [by apply mkept_parts|].
    pose proof (mkept_rbl s5 f eq_refl) as K. change (busy_items (f (rbl s5))) with (busy_items (rbl s5)) in K.
    by rewrite Z.sub_diag in K.
  - intros y [Hy Hyi]. assert (y <> new) as Hyn.
    { intros ->. apply Hnu. destruct Hy as [?|?]; [by left|right]. by rewrite rupd_ne. }
    assert (geti (mem (s5 <| rbl ::= f |>)) y = geti (mem s4) y) as E by (simpl; by rewrite geti_seti_ne by congruence).
    unfold same_value. rewrite E, (J4 y) by by right. rewrite (exp_of _ _ _ _ y (exp_replace _ _ _ _) E4). by rewrite E2o.
  - change (value (geti (mem s5) new) = value i). simpl. rewrite geti_seti_ne by done. rewrite <- G2.
    apply value_content; [|done]. rewrite (J4 new) by by left. by rewrite Ej.
Qed.
Lemma content_ntotal i j : content i = content j -> ITEM_ntotal i = ITEM_ntotal j.
Proof. unfold content, kview, ITEM_ntotal. by intros [= -> _ -> -> ->]. Qed.

Lemma same_refcount h x : is_Some (h !! x) -> seti h x (fun i => i <| refcount := refcount (geti h x) |>) = h.
Proof. intros Hd. rewrite (seti_same _ _ _ id); [by apply seti_id|]. by destruct (geti h x). Qed.

Lemma live_class H m Q F refs s x id : store H m Q F refs s -> used m refs x -> 1 <= id <= power_largest (slb s) ->
  x ∈ class_chunks (getc (slb s) id) -> ITEM_clsid (geti (mem s) x) = id.
Proof.
  intros [I _] Hu Hid Hx. destruct (ci_live I Hu) as (H1 & H2 & _).
  eapply (chunk_class_unique cfg cap [] (mem s) (slb s) F); [apply (ci_slabs I)|done..].
Qed.

(** The item leaves the table and its chunk goes to the free list. *)
Lemma evict_item_ok H m Q F refs s it : let i := geti (mem s) it in let k := ikey (mem s) it in
  store H m Q F (rupd refs it 1) s -> linked m it -> refs it = 0 -> slab_rebalance_signal (rbl s) <> 0 ->
  ITEM_clsid i = s_clsid (rbl s) -> 0 <= busy_items (rbl s) < 2 ^ 32 - 1 ->
  exists Q' F' s', evict_item cfg it (khash hash k) s = Ok (tt, s') /\
    store H (delete k m) Q' F' refs s' /\ mkept 1 s s' /\
    (forall y, used m refs y /\ y <> it -> same_value s s' y).
Proof.
  intros i k I Hl Hr Hsig Hcls Hb. pose proof I as [Ic _].
  pose proof (linked_key Ic Hl) as Hmk. fold k in Hmk.
  destruct (ci_live Ic (or_introl Hl)) as (Hid & Hch & _). fold i in Hid, Hch.
  destruct (do_item_unlink_inv I Hmk) as (Q1 & F1 & s1 & E1 & I1 & Ef1 & _).
  assert (used (delete k m) (rupd refs it 1) it) as Hu by (right; by rewrite rupd_eq).
  pose proof (ef_keeps _ _ _ Ef1 it Hu) as Hc. pose proof (content_ntotal _ _ Hc) as Hnt. fold i in Hnt.
  destruct (ef_classes _ _ _ Ef1) as [Epl _].
  assert (ITEM_clsid (geti (mem s1) it) = ITEM_clsid i) as Hcl1.
  { eapply live_class; [exact I1|exact Hu|by rewrite Epl|]. apply (chunks_kept _ _ _ _ (ef_classes _ _ _ Ef1)); [lia|done]. }
  assert (~ linked (delete k m) it) as Hnl by by intros [_ ?]%(linked_delete it Ic Hmk).
  assert (is_Some (mem s1 !! it)) as Hd.
  { apply nbytes_dom. destruct (ci_live (proj1 I1) Hu) as (_ & _ & _ & _ & _ & _ & _ & _ & _ & (_ & _ & ? & _)). lia. }
  destruct (slabs_free_inv it (refcount (geti (mem s1) it)) (proj1 I1) Hnl (rupd_eq _ _ _))
    as (F2 & h2 & sl2 & E2 & I2 & J2 & C2).
  { intros c Hq. apply Hnl, (proj2 I1). by exists c. }
  rewrite same_refcount in E2 by done. rewrite Hnt, Hcl1, Hcls in E2.
  assert (rbl s1 = rbl s) as Er by (destruct (ef_env _ _ _ Ef1) as (_ & [?|[? _]] & _); done).
  set (f := fun r => r <| busy_items := u32 (busy_items r + 1) |>).
  set (s2 := (with_mem s1 h2) <| slb := sl2 |>) in *.
  assert (evict_item cfg it (khash hash k) s = Ok (tt, s2 <| rbl ::= f |>)) as Ev.
  { unfold evict_item. rewrite rd_bind, (M_bind_ok _ _ _ _ _ E1), rbl_bind, Er.
    unfold mbind at 1, M_bind at 1, lift_slabs. fold i. rewrite E2. done. }
  exists Q1, F2, (s2 <| rbl ::= f |>). split; [exact Ev|]. split; [|split].
  - eapply store_ext; [|eapply (store_parts (s := s2)); [split; [exact I2|apply I1]|by repeat split|done]].
    intros y. rewrite rupd_rupd. apply rupd_id. lia.
  - assert (mkept 0 s s1) as K1 by by eapply mkept_effect.
    assert (u32 (busy_items (rbl s2) + 1) = busy_items (rbl s) + 1) as Eb.
    { change (rbl s2) with (rbl s1). rewrite Er. apply wrap_small. unfold in_u. lia. }
    destruct K1 as [G1 G2 G3 G4 G5]. split.
    + eapply same_classes_trans; [exact G1|exact C2].
    + exact G2.
    + exact G3.
    + exact G4.
    + exact Eb.
  - intros y [Hy Hyi]. assert (used (delete k m) (rupd refs it 1) y) as Hu2.
    { destruct Hy as [Hy|Hy]; [left|right; by rewrite rupd_ne]. by apply (linked_delete y Ic Hmk). }
    split; [|exact (exp_of _ _ _ _ y (exp_evict _ _ _) Ev)].
    rewrite <- (ef_keeps _ _ _ Ef1 y Hu2). change (content (geti h2 y) = content (geti (mem s1) y)).
    rewrite J2; [done|]. destruct Hu2 as [?|?]; [by left|right]. rewrite rupd_rupd. rewrite !rupd_ne in * by done. done.
Qed.
(** ** One item of the page *)

(** The items of [m'] are those of [m], some of them somewhere else; an item a
    client holds stays where it is. *)
Record relocated (m : gmap (list Z) Z) (refs : Z -> Z) (s : st) (m' : gmap (list Z) Z) (s' : st) : Prop := {
  re_map k y : m' !! k = Some y -> exists x, m !! k = Some x /\
    (y = x /\ same_value s s' y \/ refs x = 0 /\ value (geti (mem s') y) = value (geti (mem s) x));
  re_held y : 0 < refs y -> same_value s s' y
}.

Lemma same_value_refl s y : same_value s s y.
Proof. done. Qed.

Lemma same_value_trans s1 s2 s3 y : same_value s1 s2 y -> same_value s2 s3 y -> same_value s1 s3 y.
Proof. intros [H1 H2] [H3 H4]. split; congruence. Qed.

Lemma relocated_same m m' refs s s' : m' ⊆ m -> (forall y, used m' refs y -> same_value s s' y) -> relocated m refs s m' s'.
Proof.
  intros Hm H. split.
  - intros k y Hk. exists y. split; [by eapply lookup_weaken|]. left. split; [done|]. apply H. left. by exists k.
  - intros y Hy. apply H. by right.
Qed.

Lemma relocated_trans m1 m2 m3 refs s1 s2 s3 : relocated m1 refs s1 m2 s2 -> relocated m2 refs s2 m3 s3 ->
  relocated m1 refs s1 m3 s3.
Proof.
  intros [H1 K1] [H2 K2]. split.
  - intros k z Hz. destruct (H2 k z Hz) as (y & Hy & C2). destruct (H1 k y Hy) as (x & Hx & C1).
    exists x. split; [done|]. destruct C2 as [[-> V2]|[R2 V2]], C1 as [[-> V1]|[R1 V1]].
    + left. split; [done|by eapply same_value_trans].
    + right. split; [done|]. by rewrite (same_value_value _ _ _ V2).
    + right. split; [done|]. rewrite V2. by apply same_value_value.
    + right. split; [done|congruence].
  - intros y Hy. eapply same_value_trans; [by apply K1|by apply K2].
Qed.

(** What the mover needs of its own variables while it clears the page. *)
Record moving (s : st) : Prop := {
  mv_class : 1 <= s_clsid (rbl s) <= power_largest (slb s);
  mv_signal : slab_rebalance_signal (rbl s) <> 0;
  mv_busy : 0 <= busy_items (rbl s) < 2 ^ 32 - 1
}.

Definition in_the_page (r : rebal_t) (x : Z) : Prop := slab_start r <= x < slab_end r.

Lemma find_memory_ok H m Q F refs s it : store H m Q F refs s -> used m refs it -> cleared_in (rbl s) H ->
  moving s -> ITEM_clsid (geti (mem s) it) = s_clsid (rbl s) ->
  exists new s', find_memory cfg it 0 (ITEM_ntotal (geti (mem s) it)) s = Ok (new, s') /\
    alloc_left cfg hash cap m Q refs s H new s'.
Proof.
  intros I Hu HH [Mc _ _] Hcls. unfold find_memory. rewrite rd_bind, gets_bind.
  destruct (_ || _).
  { exists 0, s. split; [done|]. exists H, F. split_and!; try done; [apply mkept_refl|by left]. }
  rewrite rbl_bind, s_cls_bind, (decide_True (P := 0 = 0)) by done.
  destruct (ci_live (proj1 I) Hu) as (_ & _ & _ & _ & _ & _ & _ & _ & _ & (_ & _ & _ & Hin)). rewrite Hcls in Hin.
  destruct (rebalance_alloc_loop_ok cfg hash cap (Z.to_nat (perslab (getc (slb s) (s_clsid (rbl s)))))
    (ITEM_ntotal (geti (mem s) it)) H m Q F refs s I HH Mc Hin) as (new & s1 & E & Hal).
  assert (slab_rebalance_alloc cfg (ITEM_ntotal (geti (mem s) it)) (s_clsid (rbl s)) s = Ok (new, s1)) as E1
    by (unfold slab_rebalance_alloc; by rewrite s_cls_bind).
  rewrite (M_bind_ok _ _ _ _ _ E1). destruct (decide (new = 0)) as [->|Hn].
  2: { rewrite bool_decide_false by done. by exists new, s1. }
  rewrite bool_decide_true by done. eexists 0, _. split; [reflexivity|].
  destruct Hal as (H' & F' & K & J & HS & HC & [[_ I1]|[? _]]); [|lia].
  set (f := fun r => r <| evictions_nomem := u32 (evictions_nomem r + 1) |>).
  exists H', F'. split_and!; try done.
  - eapply (mkept_trans 0 0); [exact K|]. pose proof (mkept_rbl s1 f eq_refl) as K2.
    change (busy_items (f (rbl s1))) with (busy_items (rbl s1)) in K2. by rewrite Z.sub_diag in K2.
  - left. split; [done|]. eapply store_parts; [exact I1|by repeat split|done].
Qed.
Lemma same_items_value m refs s s' y : same_items m refs s s' -> used m refs y -> same_value s s' y.
Proof. intros H Hy. unfold same_value. by rewrite H. Qed.

Lemma moving_kept s s' : mkept 0 s s' -> moving s -> moving s'.
Proof.
  intros [[Epl _] _ _ Em Eb] [M1 M2 M3]. injection Em as _ _ _ Ec _ _ _ Es. split; [by rewrite Ec, Epl|by rewrite Es|lia].
Qed.

(** What one chunk's turn leaves: [b], it was busy; [P], about its chunk. *)
Definition turned (H : gmap Z item) (m : gmap (list Z) Z) (refs : Z -> Z) (s : st) (b : Z) (s' : st) : Prop :=
  exists H' m' Q' F', store H' m' Q' F' refs s' /\ mkept b s s' /\ H ⊆ H' /\ cleared_in (rbl s) H' /\
    relocated m refs s m' s' /\
    (forall y, in_the_page (rbl s) y -> used m' refs y -> used m refs y) /\
    (b = 0 -> is_Some (H' !! slab_pos (rbl s))) /\ (refs (slab_pos (rbl s)) = 0 -> trylocks s = [] -> ~ used m' refs (slab_pos (rbl s))).

Lemma used_table m refs it n y : y <> it -> used m (rupd refs it n) y -> used m refs y.
Proof. intros Hne [Hy|Hy]; [by left|right]. by rewrite rupd_ne in Hy. Qed.

Lemma adjust_ok H m Q F refs s adj : store H m Q F refs s -> moving s ->
  exists s', set_s_cls (fun p => p <| requested := u64 (requested p - adj) |>) s = Ok (tt, s') /\
    store H m Q F refs s' /\ mkept 0 s s' /\ mem s' = mem s.
Proof.
  intros I [Mc _ _]. destruct (store_stats cfg hash cap H m Q F refs s (fun p => p <| requested := u64 (requested p - adj) |>) I Mc)
    as [I' K]; [done|]. eexists. split; [reflexivity|]. done.
Qed.

(** MOVE_FROM_LRU, the item copied. *)
Lemma rescued_ok H H1 m Q F refs s s1 it new : let i := geti (mem s) it in let k := ikey (mem s) it in
  slab_pos (rbl s) = it -> linked m it -> refs it = 0 -> moving s -> in_the_page (rbl s) it ->
  mkept 0 s s1 -> same_items m (rupd refs it 1) s s1 -> H ⊆ H1 -> cleared_in (rbl s) H1 ->
  store (<[new := geti (mem s1) new]> H1) m Q F (rupd refs it 1) s1 ->
  ~ in_the_page (rbl s) new -> it_flags (geti (mem s1) new) = 0 ->
  new ∈ class_chunks (getc (slb s1) (ITEM_clsid i)) ->
  exists s2, rescue_item cfg it new (ITEM_ntotal i) (khash hash k) s1 = Ok (u32 (ITEM_ntotal i), s2) /\
    turned H m refs s 0 s2.
Proof.
  intros i k Ep Hl Hr Hm Hin K1 J1 HS HC I1 Hout Hfl Hch.
  assert (geti (mem s1) it = i) as Ei by (apply J1; by left).
  assert (ikey (mem s1) it = k) as Ek by (unfold ikey; by rewrite Ei).
  assert (H1 !! new = None) as Hn.
  { destruct (H1 !! new) as [j|] eqn:E; [|done]. destruct Hout. by apply (HC new j). }
  destruct (rescue_item_ok H1 m Q F refs s1 it new I1 Hn Hfl) as (Q2 & F2 & s2 & E2 & I2 & Hf2 & K2 & J2 & Hv);
    [by rewrite Ei|done|done|by apply (moving_kept s s1)|]. rewrite Ei, Ek in E2. rewrite Ek in I2. rewrite Ei in Hv.
  exists s2. split; [exact E2|]. exists (<[it := geti (mem s2) it]> H1), (<[k := new]> m), Q2, F2.
  assert (H1 !! it = None) as Hi1.
  { destruct (H1 !! it) as [j|] eqn:E; [|done].
    assert ((<[new := geti (mem s1) new]> H1) !! it = Some j) as E' by (rewrite lookup_insert_ne; [done|by intros ->]).
    destruct (held_nowhere I1 E') as (_ & _ & Hnu & _). destruct Hnu. by left. }
  assert (forall k' y, (<[k := new]> m) !! k' = Some y -> k' = k /\ y = new \/ y <> it /\ m !! k' = Some y) as Hmk.
  { intros k' y [[-> ->]|[Hne Hy]]%lookup_insert_Some; [by left|right]. split; [|done]. intros ->. apply Hne.
    rewrite <- Ek. exact (inv_key _ _ _ _ _ _ _ _ _ _ (proj1 I1) Hy). }
  split; [done|]. split; [by eapply (mkept_trans 0 0)|].
  split; [etransitivity; [exact HS|by apply insert_subseteq]|]. split; [by apply cleared_insert|].
  split; [|split; [|split]].
  - split.
    + intros k' y [[-> ->]|[Hne Hy]]%Hmk.
      * exists it. split; [rewrite <- Ek; apply (linked_key (proj1 I1) Hl)|]. by right.
      * exists y. split; [done|]. left. split; [done|]. assert (used m refs y) as Hu by (left; by exists k').
        eapply same_value_trans; [|by apply J2]. eapply same_items_value; [exact J1|]. left. by exists k'.
    + intros y Hy. assert (y <> it) as Hne by (intros ->; lia).
      eapply same_value_trans; [|apply J2; split; [by right|done]].
      eapply same_items_value; [exact J1|]. right. by rewrite rupd_ne.
  - intros y Hy [[k' [[_ ->]|[_ Hk]]%Hmk]|?]; [done|left; by exists k'|by right].
  - intros _. rewrite Ep, lookup_insert_eq. eauto.
  - intros _ _. rewrite Ep. intros [[k' [[_ ->]|[? _]]%Hmk]|?]; [done|done|lia].
Qed.
(** MOVE_FROM_LRU, the item evicted. *)
Lemma evicted_ok H H1 m Q F refs s s1 it : let i := geti (mem s) it in let k := ikey (mem s) it in
  slab_pos (rbl s) = it -> linked m it -> refs it = 0 -> moving s ->
  mkept 0 s s1 -> same_items m (rupd refs it 1) s s1 -> H ⊆ H1 -> cleared_in (rbl s) H1 ->
  store H1 m Q F (rupd refs it 1) s1 -> ITEM_clsid i = s_clsid (rbl s) ->
  exists s2, evict_item cfg it (khash hash k) s1 = Ok (tt, s2) /\ turned H m refs s 1 s2.
Proof.
  intros i k Ep Hl Hr Hm K1 J1 HS HC I1 Hcls.
  assert (geti (mem s1) it = i) as Ei by (apply J1; by left).
  assert (ikey (mem s1) it = k) as Ek by (unfold ikey; by rewrite Ei).
  destruct (moving_kept _ _ K1 Hm) as [M1 M2 M3].
  assert (s_clsid (rbl s1) = s_clsid (rbl s)) as Ec by (pose proof (mk_move _ _ _ K1) as Em; by injection Em).
  destruct (evict_item_ok H1 m Q F refs s1 it I1 Hl Hr M2) as (Q2 & F2 & s2 & E2 & I2 & K2 & J2);
    [by rewrite Ei, Ec|done|]. rewrite Ek in E2, I2.
  pose proof (linked_key (proj1 I1) Hl) as Hk. rewrite Ek in Hk.
  pose proof (fun y => linked_delete y (proj1 I1) Hk) as Hdel.
  exists s2. split; [exact E2|]. exists H1, (delete k m), Q2, F2.
  split; [done|]. split; [by eapply (mkept_trans 0 1)|]. split; [done|]. split; [done|].
  assert (forall y, used (delete k m) refs y -> used m refs y /\ y <> it) as Hu.
  { intros y [[? ?]%Hdel|Hy]; [split; [by left|done]|]. split; [by right|]. intros ->. lia. }
  split; [|split; [|split]].
  - apply relocated_same; [apply delete_subseteq|]. intros y Hy%Hu.
    eapply same_value_trans; [|by apply J2]. eapply same_items_value; [exact J1|].
    destruct Hy as [[?|?] ?]; [by left|right]. by rewrite rupd_ne.
  - intros y _ Hy. by apply Hu.
  - done.
  - intros _ _. rewrite Ep. by intros [_ ?]%Hu.
Qed.

Lemma turned_then H m refs s b s1 s2 : turned H m refs s b s1 ->
  (forall H' m' Q F, store H' m' Q F refs s1 -> store H' m' Q F refs s2) -> mkept 0 s1 s2 -> mem s2 = mem s1 ->
  turned H m refs s b s2.
Proof.
  intros (H' & m' & Q & F & I & K & HS & HC & R & T1 & T2 & T3) Hst K2 Em.
  exists H', m', Q, F. split; [by apply Hst|]. split; [rewrite <- (Z.add_0_r b); by eapply mkept_trans|].
  split; [done|]. split; [done|]. split; [|done].
  assert (forall y, same_value s s1 y -> same_value s s2 y) as V by (unfold same_value; intros y; by rewrite Em).
  destruct R as [R1 R2]. split; [|auto]. intros k y Hk. destruct (R1 k y Hk) as (x & Hx & C).
  exists x. rewrite Em. split; [done|]. destruct C as [[? ?]|?]; [left|right]; auto.
Qed.

Lemma move_from_lru_ok H m Q F refs s it : let k := ikey (mem s) it in
  store H m Q F (rupd refs it 1) s -> cleared_in (rbl s) H -> moving s -> slab_pos (rbl s) = it ->
  linked m it -> refs it = 0 -> it ∈ class_chunks (getc (slb s) (s_clsid (rbl s))) -> in_the_page (rbl s) it ->
  exists b s', move_from_lru cfg it 0 (khash hash k) s = Ok (b, s') /\ b ∈ [0; 1] /\ turned H m refs s b s'.
Proof.
  intros k I HH Hm Ep Hl Hr Hch Hin. set (i := geti (mem s) it).
  assert (used m (rupd refs it 1) it) as Hu by by left.
  assert (ITEM_clsid i = s_clsid (rbl s)) as Hcls by (eapply live_class; [exact I|done|apply Hm|done]).
  destruct (find_memory_ok H m Q F _ s it I Hu HH Hm Hcls) as (new & s1 & E1 & H1 & F1 & K1 & J1 & HS & HC & Hnew).
  unfold move_from_lru. rewrite rd_bind, s_cls_bind. fold i in E1 |- *.
  destruct (live_flags (proj1 I) Hu) as (_ & Hck & _). fold i in Hck.
  assert ((if bool_decide (0 = 0) && has i ITEM_CHUNKED then csize (getc (slb s) (s_clsid (rbl s))) else ITEM_ntotal i)
    = ITEM_ntotal i) as -> by (rewrite Hck; by rewrite andb_false_r).
  rewrite (M_bind_ok _ _ _ _ _ E1).
  assert (exists adj b s2, (if decide (new = 0) then evict_item cfg it (khash hash k);; mret (0, 1)
     else if decide (0 = 0) then a ← rescue_item cfg it new (ITEM_ntotal i) (khash hash k); mret (a, 0)
     else a ← rescue_chunk it 0 new; mret (a, 0)) s1 = Ok ((adj, b), s2) /\ b ∈ [0; 1] /\ turned H m refs s b s2)
    as (adj & b & s2 & E2 & Hb & T).
  { destruct Hnew as [[-> I1]|(Hn0 & I1 & Hout & Hfl & Hchn)].
    - destruct (evicted_ok H H1 m Q F1 refs s s1 it Ep Hl Hr Hm K1 J1 HS HC I1 Hcls) as (s2 & E2 & T).
      exists 0, 1, s2. rewrite decide_True by done. rewrite (M_bind_ok _ _ _ _ _ E2). split; [done|].
      split; [set_solver|done].
    - rewrite <- Hcls in Hchn.
      destruct (rescued_ok H H1 m Q F1 refs s s1 it new Ep Hl Hr Hm Hin K1 J1 HS HC I1 Hout Hfl Hchn) as (s2 & E2 & T).
      exists (u32 (ITEM_ntotal i)), 0, s2. rewrite decide_False by lia. rewrite decide_True by done.
      rewrite (M_bind_ok _ _ _ _ _ E2). split; [done|]. split; [set_solver|done]. }
  rewrite (M_bind_ok _ _ _ _ _ E2).
  exists b, (s2 <| slb := setc (slb s2) (s_clsid (rbl s2)) (fun p => p <| requested := u64 (requested p - adj) |>) |>).
  split; [done|]. split; [done|].
  pose proof T as (H' & m' & Q' & F' & I2 & K2 & _). destruct Hm as [M1 M2 M3].
  assert (1 <= s_clsid (rbl s2) <= power_largest (slb s2)) as M1'.
  { pose proof (mk_move _ _ _ K2) as Em. injection Em as _ _ _ Ec _ _ _ _. rewrite Ec.
    by rewrite (proj1 (mk_classes _ _ _ K2)). }
  assert (forall H m Q F, store H m Q F refs s2 -> store H m Q F refs (s2 <| slb := setc (slb s2) (s_clsid (rbl s2))
    (fun p => p <| requested := u64 (requested p - adj) |>) |>) /\ mkept 0 s2 (s2 <| slb := setc (slb s2) (s_clsid (rbl s2))
    (fun p => p <| requested := u64 (requested p - adj) |>) |>)) as Hst.
  { intros H0 m0 Q0 F0 I0. eapply (store_stats cfg hash cap H0 m0 Q0 F0 refs s2 _ I0 M1'). done. }
  eapply turned_then; [exact T| |by eapply Hst|done]. intros H0 m0 Q0 F0 I0. by apply Hst.
Qed.
(** ** The chunk under slab_pos, whatever it is *)

(** The switch on the status. *)
Definition react (status : move_status) (it ch hv : Z) : M st Z :=
  match status with
  | MOVE_FROM_LRU => move_from_lru cfg it ch hv
  | MOVE_FROM_SLAB => clear_chunk it;; mret 0
  | MOVE_BUSY | MOVE_LOCKED => busy_chunk
  | MOVE_PASS => mret 0
  end.

Definition turn (pos : Z) : M st Z :=
  '(status, it, ch, hv) ← examine cfg hash pos; react status it ch hv.

Lemma move_chunk_eq s : move_chunk cfg hash s =
  (b ← turn (slab_pos (rbl s)); c ← s_cls; set_rbl (fun r => r <| slab_pos := slab_pos r + csize c |>);; mret b) s.
Proof.
  unfold move_chunk, turn. rewrite rbl_bind. unfold mbind, M_bind.
  destruct (examine cfg hash _ s) as [[[[[status it] ch] hv] s1]| |]; [by destruct status|done..].
Qed.

Lemma busy_turned H m m' Q F refs s s1 : store H m' Q F refs s1 -> mkept 0 s s1 -> moving s -> cleared_in (rbl s) H ->
  m' ⊆ m -> (forall y, used m' refs y -> same_value s s1 y) -> (refs (slab_pos (rbl s)) = 0 -> trylocks s = [] -> False) ->
  exists s2, busy_chunk s1 = Ok (1, s2) /\ turned H m refs s 1 s2.
Proof.
  intros I K Hm HH Hsub V T3. set (f := fun r => r <| busy_items := u32 (busy_items r + 1) |>).
  exists (s1 <| rbl ::= f |>). split; [done|]. exists H, m', Q, F.
  split; [eapply store_parts; [exact I|by repeat split|done]|]. split; [|split; [done|split; [done|split; [|split; [|split; [done|]]]]]].
  - eapply (mkept_trans 0 1); [exact K|]. pose proof (mkept_rbl s1 f eq_refl) as K2.
    assert (busy_items (f (rbl s1)) - busy_items (rbl s1) = 1) as E.
    { simpl. destruct (moving_kept _ _ K Hm) as [_ _ Hb]. rewrite wrap_small; [lia|]. unfold in_u. lia. }
    by rewrite E in K2.
  - by apply relocated_same.
  - intros y _ [[k Hk]|Hy]; [left; exists k; by eapply lookup_weaken|by right].
  - intros H0 H1. by destruct (T3 H0 H1).
Qed.

Lemma turned_from H m refs s s1 b s' : mkept 0 s s1 -> (forall y, same_value s s1 y) ->
  turned H m refs s1 b s' -> turned H m refs s b s'.
Proof.
  intros K V (H' & m' & Q & F & I & K2 & HS & HC & R & T1 & T2 & T3).
  pose proof (mk_move _ _ _ K) as Em. pose proof Em as [= E1 E2 E3 _ _ _ _ _].
  exists H', m', Q, F. unfold in_the_page in *. rewrite E1, E2, E3 in *.
  split; [done|]. split; [by eapply (mkept_trans 0 b)|]. split; [done|]. split; [by eapply cleared_move|].
  split; [|split; [done|split; [done|]]].
  - eapply relocated_trans; [apply (relocated_same m m); [done|intros; apply V]|exact R].
  - intros Hr Ht. by apply T3, (mk_locks _ _ _ K).
Qed.

Lemma bump_same x d s y : same_value s (bump x d s) y.
Proof. unfold same_value. simpl. rewrite geti_seti. by destruct (decide _) as [->|]. Qed.

Lemma mkept_bump x d s : mkept 0 s (bump x d s).
Proof. by apply mkept_parts. Qed.

(** An item that stays busy too long loses its place in the table; its clients
    keep it. *)
Lemma unlink_busy H m Q F refs s it : store H m Q F (rupd refs it (refs it + 1)) s -> moving s -> linked m it ->
  0 < refs it -> exists m' Q' F' s',
  (r ← gets rbl;
   when (bool_decide (SLAB_MOVE_MAX_LOOPS < busy_loops r))
     (set_rbl (fun r => r <| busy_deletes := u32 (busy_deletes r + 1) |>);;
      do_item_unlink cfg it (khash hash (ikey (mem s) it)))) s = Ok (tt, s') /\
  store H m' Q' F' (rupd refs it (refs it + 1)) s' /\ mkept 0 s s' /\ m' ⊆ m /\
  (forall y, used m' refs y -> same_value s s' y).
Proof.
  intros I Hm Hl Hr. rewrite rbl_bind. destruct (bool_decide _).
  2: { exists m, Q, F, s. split; [done|]. split; [done|]. split; [apply mkept_refl|]. done. }
  unfold when. rewrite set_rbl_bind. set (f := fun r => r <| busy_deletes := u32 (busy_deletes r + 1) |>).
  set (s1 := s <| rbl ::= f |>).
  assert (store H m Q F (rupd refs it (refs it + 1)) s1) as I1 by (eapply store_parts; [exact I|by repeat split|done]).
  pose proof (linked_key (proj1 I1) Hl) as Hk.
  destruct (do_item_unlink_inv I1 Hk) as (Q2 & F2 & s2 & E2 & I2 & Ef2 & _).
  exists (delete (ikey (mem s1) it) m), Q2, F2, s2. split; [exact E2|]. split; [done|]. split; [|split; [apply delete_subseteq|]].
  - pose proof (mkept_rbl s f eq_refl) as K. change (busy_items (f (rbl s))) with (busy_items (rbl s)) in K.
    rewrite Z.sub_diag in K. eapply (mkept_trans 0 0); [exact K|]. eapply mkept_effect; [exact Ef2|].
    change (slab_rebalance_signal (rbl s1)) with (slab_rebalance_signal (rbl s)). apply Hm.
  - intros y Hy. assert (used (delete (ikey (mem s1) it) m) (rupd refs it (refs it + 1)) y) as Hu.
    { destruct Hy as [Hy|Hy]; [by left|right]. unfold rupd. destruct (decide _) as [->|]; lia. }
    exact (conj (ef_keeps _ _ _ Ef2 y Hu) (exp_of _ _ _ _ y (exp_unlink _ _ _) E2)).
Qed.

Lemma release_ref H m Q F refs s it : store H m Q F (rupd refs it (refs it + 1)) s -> 0 < refs it -> refs it < 2 ^ 16 - 8 ->
  store H m Q F refs (bump it (-1) s).
Proof.
  intros [I HQ] Hr Hb. assert (used m (rupd refs it (refs it + 1)) it) as Hu by (right; rewrite rupd_eq; lia).
  pose proof (live_refcount I Hu) as Hrc. rewrite rupd_eq in Hrc.
  destruct (bump_inv it (-1) I Hu) as [_ I']; rewrite ?rupd_eq; [lia|destruct (has _ _); lia|right; lia|].
  rewrite rupd_eq in I'. split; [|done]. eapply core_inv_ext; [|exact I']. intros y. rewrite rupd_rupd.
  apply rupd_id. lia.
Qed.

(** An item in use that is linked. *)
Lemma linked_turn H m Q F refs s it : store H m Q F refs s -> cleared_in (rbl s) H -> moving s -> refs_bounded refs ->
  slab_pos (rbl s) = it -> in_the_page (rbl s) it -> it ∈ class_chunks (getc (slb s) (s_clsid (rbl s))) -> linked m it ->
  exists b s', ('(status, hv) ← move_linked cfg hash it; react status it 0 hv) s = Ok (b, s') /\ b ∈ [0; 1] /\
    turned H m refs s b s'.
Proof.
  intros I HH Hm Hrb Ep Hin Hch Hl. assert (used m refs it) as Hu by by left.
  assert (item_hash hash (mem s) it = khash hash (ikey (mem s) it)) as Ehv.
  { apply (item_hash_key hash). by eapply (live_ok (proj1 I)). }
  destruct (trylock_keeps I) as (got & s1 & Et & I1 & Ef1 & Hgot & Em1 & El1 & Er1).
  assert (mkept 0 s s1) as K1 by (eapply mkept_effect; [exact Ef1|apply Hm]).
  assert (forall y, same_value s s1 y) as V1 by (intros y; unfold same_value; by rewrite Em1).
  pose proof (moving_kept _ _ K1 Hm) as Hm1.
  set (hv := khash hash (ikey (mem s) it)) in *.
  assert (ikey (mem s1) it = ikey (mem s) it) as Ek1 by by rewrite Em1.
  destruct (live_flags (proj1 I1) Hu) as (_ & _ & Hlk). pose proof (proj2 Hlk Hl) as Hlk1.
  pose proof (live_refcount (proj1 I1) Hu) as Hrc. rewrite Hlk1 in Hrc.
  pose proof (ci_refs (proj1 I) it) as Hr0. pose proof (Hrb it) as Hrb'.
  assert (refcount (geti (mem s1) it) + 1 = 2 + refs it) as Hrc1 by lia.
  destruct (bump_inv it 1 (proj1 I1) Hu) as [Eu I2]; [lia|lia|by left|]. rewrite Hrc1 in Eu.
  set (s2 := bump it 1 s1) in *. assert (store H m Q F (rupd refs it (refs it + 1)) s2) as I2' by (split; [exact I2|apply I1]).
  assert (mkept 0 s s2) as K2 by (eapply (mkept_trans 0 0); [exact K1|apply mkept_bump]).
  assert (forall y, same_value s s2 y) as V2 by (intros y; eapply same_value_trans; [apply V1|apply bump_same]).
  assert (moving s2) as Hm2 by by apply (moving_kept s s2).
  assert (ikey (mem s2) it = ikey (mem s) it) as Ek2.
  { apply ikey_agree. simpl. rewrite geti_seti_eq. by rewrite Em1. }
  destruct got; cycle 1.
  { assert (move_linked cfg hash it s = Ok ((MOVE_LOCKED, hv), s1)) as E
      by (unfold move_linked; rewrite gets_bind, Ehv, (M_bind_ok _ _ _ _ _ Et); done).
    rewrite (M_bind_ok _ _ _ _ _ E). destruct (busy_turned H m m Q F refs s s1 I1 K1 Hm HH) as (s' & E' & T); [done|by intros|..].
    { intros _ Hlocks. by specialize (Hgot Hlocks). }
    exists 1, s'. split; [exact E'|]. split; [set_solver|done]. }
  destruct (decide (refs it = 0)) as [Er|Er].
  - rewrite Er in *. change (2 + 0) with 2 in Eu, Hrc1. change (0 + 1) with 1 in I2'.
    assert (move_linked cfg hash it s = Ok ((MOVE_FROM_LRU, hv), s2)) as E.
    { unfold move_linked. rewrite gets_bind, Ehv, (M_bind_ok _ _ _ _ _ Et). cbn [negb].
      rewrite rd_bind, Hlk1, (M_bind_ok _ _ _ _ _ (refcount_incr_eq it s1)). rewrite Hrc1, Eu.
      rewrite (decide_True (P := 2 = 2)) by done. done. }
    rewrite (M_bind_ok _ _ _ _ _ E). cbv beta iota. unfold react.
    assert (slb s2 = slb s /\ rbl s2 = rbl s) as [El2 Er2] by done.
    destruct (move_from_lru_ok H m Q F refs s2 it I2') as (b & s' & E' & Hb & T);
      rewrite ?El2, ?Er2; try done. rewrite Ek2 in E'. exists b, s'. split; [done|]. split; [done|].
    by eapply turned_from.
  - assert (0 < refs it) as Hpos by lia.
    destruct (unlink_busy H m Q F refs s2 it I2' Hm2 Hl Hpos) as (m' & Q' & F' & s3 & E3 & I3 & K3 & Hsub & V3).
    rewrite Ek2 in E3. fold hv in E3.
    assert (move_linked cfg hash it s = Ok ((MOVE_BUSY, hv), bump it (-1) s3)) as E.
    { unfold move_linked. rewrite gets_bind, Ehv, (M_bind_ok _ _ _ _ _ Et). cbn [negb].
      rewrite rd_bind, Hlk1, (M_bind_ok _ _ _ _ _ (refcount_incr_eq it s1)). rewrite Hrc1, Eu.
      rewrite (decide_False (P := 2 + refs it = 2)) by lia. rewrite bool_decide_true by lia. cbn [andb]. fold s2.
      rewrite rbl_bind in E3.
      assert ((r ← gets rbl; when (bool_decide (SLAB_MOVE_MAX_LOOPS < busy_loops r))
        (set_rbl (fun r0 => r0 <| busy_deletes := u32 (busy_deletes r0 + 1) |>);; do_item_unlink cfg it hv);; mret MOVE_BUSY) s2 =
        Ok (MOVE_BUSY, s3)) as E4 by (rewrite rbl_bind, (M_bind_ok _ _ _ _ _ E3); done).
      rewrite (M_bind_ok _ _ _ _ _ E4). rewrite (decide_True (P := MOVE_BUSY = MOVE_BUSY)) by done.
      unfold mbind, M_bind. by rewrite refcount_decr_eq. }
    rewrite (M_bind_ok _ _ _ _ _ E). cbv beta iota. unfold react.
    destruct (busy_turned H m m' Q' F' refs s (bump it (-1) s3)) as (s' & E' & T).
    + by apply release_ref.
    + eapply (mkept_trans 0 0); [exact K2|]. eapply (mkept_trans 0 0); [exact K3|apply mkept_bump].
    + done.
    + done.
    + done.
    + intros y Hy. eapply same_value_trans; [apply V2|]. eapply same_value_trans; [by apply V3|apply bump_same].
    + intros H0. rewrite Ep in H0. done.
    + exists 1, s'. split; [done|]. split; [set_solver|done].
Qed.
Lemma flags_cleared i : it_flags i = CLEARED -> has i ITEM_CHUNK = false.
Proof. unfold has. by intros ->. Qed.

Lemma turn_whole pos s : let i := geti (mem s) pos in has i ITEM_CHUNK = false ->
  turn pos s = (if decide (it_flags i = CLEARED) then mret 0
    else if has i ITEM_SLABBED then slab_rebalance_cut_free pos;; clear_chunk pos;; mret 0
    else if has i ITEM_LINKED then '(status, hv) ← move_linked cfg hash pos; react status pos 0 hv
    else busy_chunk) s.
Proof.
  intros i Hc. unfold turn, examine. unfold mbind at 1, M_bind at 1. rewrite rd_bind. fold i. rewrite Hc.
  unfold mbind at 1, M_bind at 1, mret at 1, M_ret at 1. rewrite rd_bind. fold i.
  destruct (decide _); [done|]. destruct (has i ITEM_SLABBED).
  - rewrite massert_bind by done. unfold mbind, M_bind. by destruct (slab_rebalance_cut_free pos s) as [[]| |].
  - destruct (has i ITEM_LINKED); [|done]. unfold mbind, M_bind. by destruct (move_linked cfg hash pos s) as [[[]]| |].
Qed.

(** Every chunk of the page, whatever is in it. *)
Lemma turn_ok H m Q F refs s : let pos := slab_pos (rbl s) in store H m Q F refs s -> cleared_in (rbl s) H ->
  moving s -> refs_bounded refs -> in_the_page (rbl s) pos -> pos ∈ class_chunks (getc (slb s) (s_clsid (rbl s))) ->
  exists b s', turn pos s = Ok (b, s') /\ b ∈ [0; 1] /\ turned H m refs s b s' /\ (~ used m refs pos -> b = 0).
Proof.
  intros pos I HH Hm Hrb Hin Hch.
  destruct (chunk_cases cfg hash cap H m Q F refs s _ pos I (mv_class _ Hm) Hch) as [Hf|[Hu|[i Hi]]].
  - pose proof (ci_slabs (proj1 I) : slab_inv cfg cap [] (mem s) (slb s) F) as Is.
    destruct (fl_free _ _ _ (si_free _ _ _ _ _ _ Is _ (mv_class _ Hm)) pos Hf) as [Hfl _].
    destruct (free_chunk_moved cfg hash cap H m Q F refs s pos I (mv_class _ Hm) Hf) as (F' & s' & E & I' & K & J).
    exists 0, s'. split; [|split; [set_solver|split; [|done]]].
    + rewrite turn_whole by (unfold has; by rewrite Hfl). rewrite decide_False by (by rewrite Hfl).
      assert (has (geti (mem s) pos) ITEM_SLABBED = true) as -> by (unfold has; by rewrite Hfl).
      rewrite seq_assoc. by rewrite (M_bind_ok _ _ _ _ _ E).
    + pose proof (free_not_held cfg hash cap H m Q F refs s _ pos I (mv_class _ Hm) Hf) as Hn.
      pose proof (free_not_used cfg hash cap H m Q F refs s _ pos I (mv_class _ Hm) Hf) as Hnu.
      exists (<[pos := cleared_item (geti (mem s) pos)]> H), m, Q, F'. split; [done|]. split; [done|].
      split; [by apply insert_subseteq|]. split; [by apply cleared_insert|]. split; [|split; [done|split; [|done]]].
      * apply relocated_same; [done|]. intros y Hy. by eapply same_items_value.
      * intros _. fold pos. rewrite lookup_insert_eq. eauto.
  - destruct (live_flags (proj1 I) Hu) as (Hsl & _ & Hlk). pose proof (ci_whole (proj1 I) Hu) as Hwh.
    rewrite turn_whole by done. rewrite decide_False by (intros E; unfold has in Hsl; by rewrite E in Hsl).
    rewrite Hsl. destruct (has (geti (mem s) pos) ITEM_LINKED).
    + destruct (linked_turn H m Q F refs s pos) as (b & s' & E & Hb & T); try done; [by apply Hlk|]. by exists b, s'.
    + assert (0 < refs pos) as Hr by (destruct Hu as [Hl|?]; [by apply Hlk in Hl|done]).
      destruct (busy_turned H m m Q F refs s s I (mkept_refl s) Hm HH) as (s' & E & T); [done|done|fold pos; lia|].
      exists 1, s'. split; [done|]. split; [set_solver|]. split; [done|]. by intros Hnu.
  - destruct (held_nowhere I Hi) as (_ & _ & Hnu & Ei). destruct (HH pos i Hi) as [Hc _].
    assert (it_flags (geti (mem s) pos) = CLEARED) as Hfl by (rewrite Ei; exact Hc).
    rewrite turn_whole by by apply flags_cleared. rewrite decide_True by done.
    exists 0, s. split; [done|]. split; [set_solver|]. split; [|done]. exists H, m, Q, F. split; [done|]. split; [apply mkept_refl|].
    split; [done|]. split; [done|]. split; [|split; [done|split; [|done]]].
    + by apply relocated_same.
    + intros _. fold pos. eauto.
Qed.

(** ** One turn of the loop *)

(** What is the same when slab_pos moves on. *)
Definition but_pos (r : rebal_t) :=
  (slab_start r, slab_end r, s_clsid r, d_clsid r, busy_loops r, done_ r, slab_rebalance_signal r).

Record stepped (H : gmap Z item) (m : gmap (list Z) Z) (refs : Z -> Z) (s : st) (b : Z)
    (H' : gmap Z item) (m' : gmap (list Z) Z) (s' : st) : Prop := {
  sp_inv : exists Q F, store H' m' Q F refs s';
  sp_classes : same_classes (slb s) (slb s');
  sp_now : now s' = now s;
  sp_locks : trylocks s = [] -> trylocks s' = [];
  sp_rbl : but_pos (rbl s') = but_pos (rbl s);
  sp_busy : busy_items (rbl s') = busy_items (rbl s) + b;
  sp_held : H ⊆ H';
  sp_cleared : cleared_in (rbl s) H';
  sp_items : relocated m refs s m' s';
  sp_page y : in_the_page (rbl s) y -> used m' refs y -> used m refs y
}.

Lemma move_chunk_ok H m Q F refs s : let pos := slab_pos (rbl s) in store H m Q F refs s -> cleared_in (rbl s) H ->
  moving s -> refs_bounded refs -> in_the_page (rbl s) pos -> pos ∈ class_chunks (getc (slb s) (s_clsid (rbl s))) ->
  exists b H' m' s', move_chunk cfg hash s = Ok (b, s') /\ 0 <= b <= 1 /\ stepped H m refs s b H' m' s' /\
    slab_pos (rbl s') = pos + csize (getc (slb s) (s_clsid (rbl s))) /\
    (b = 0 -> is_Some (H' !! pos)) /\ (refs pos = 0 -> trylocks s = [] -> ~ used m' refs pos) /\
    (~ used m refs pos -> b = 0).
Proof.
  intros pos I HH Hm Hrb Hin Hch.
  destruct (turn_ok H m Q F refs s I HH Hm Hrb Hin Hch) as (b & s1 & E & Hb & (H' & m' & Q' & F' & I' & K & HS & HC & R & T1 & T2 & T3) & T4).
  destruct K as [K1 K2 K3 K4 K5]. pose proof K4 as [= G1 G2 G3 G4 G5 G6 G7 G8].
  assert (csize (getc (slb s1) (s_clsid (rbl s1))) = csize (getc (slb s) (s_clsid (rbl s)))) as Ec.
  { rewrite G4. destruct K1 as [_ K1]. by apply K1, Hm. }
  exists b, H', m', (s1 <| rbl ::= fun r => r <| slab_pos := slab_pos r + csize (getc (slb s1) (s_clsid (rbl s1))) |> |>).
  split; [|split; [|split; [|split; [|split; [|split]]]]].
  - rewrite move_chunk_eq. fold pos. rewrite (M_bind_ok _ _ _ _ _ E), s_cls_bind, set_rbl_bind. done.
  - rewrite !elem_of_cons in Hb. destruct Hb as [->|[->|[]%elem_of_nil]]; lia.
  - split; try done.
    + exists Q', F'. eapply store_parts; [exact I'|by repeat split|done].
    + unfold but_pos. simpl. congruence.
    + destruct R as [R1 R2]. by split.
  - simpl. rewrite Ec, G3. done.
  - exact T2.
  - exact T3.
  - exact T4.
Qed.
End relocate.
