(* ===== verification/PageMove.v ===== *)
(** * A page's way from one class to another

    The mover's own invariant from slab_rebalance_start to slab_rebalance_finish,
    the passes over the page, and the theorems on runs in which the mover's steps
    and the clients' operations alternate. *)

From S2P Require Import Prelude Decimal Hash Heap Assoc Settings Slabs BipBuffer Items Store StoreInv StoreSpec StoreOps Rebalance Mover Relocate.

#[local] Arguments held_nowhere {cfg hash cap H m Q F refs s x i}.
#[local] Arguments store_ext {cfg hash cap H m Q F refs refs' s}.
#[local] Arguments store_parts {cfg hash cap H m Q F refs s s'}.
#[local] Arguments ci_live {cfg hash cap m Q F refs s} c0 {x}.
#[local] Arguments ci_whole {cfg hash cap m Q F refs s} c0 {x}.
#[local] Arguments ci_all {cfg hash cap m Q F refs s} c0 {id x}.
#[local] Arguments ci_bodies {cfg hash cap m Q F refs s} c0.
#[local] Arguments ci_slabs {cfg hash cap m Q F refs s} c0.
#[local] Arguments ci_refs {cfg hash cap m Q F refs s} c0 x.
#[local] Arguments ci_q {cfg hash cap m Q F refs s} c0 {c x}.

Section pagemove.
Context (cfg : settings) (hash : hash_func) `{!HashFunction hash} (cap : Z).
Abbreviation store := (fun H => store_inv cfg hash (Bound cap H)).
Abbreviation page_size := (slab_page_size cfg).

(** ** Handing the page over *)

(** The chunks the mover holds are those of page [p] of class [src]; of a page of
    the global pool, none. *)
Definition page_held (H : gmap Z item) (sl : slabs_t) (src p : Z) : Prop :=
  forall x, is_Some (H !! x) <-> 1 <= src /\ x ∈ page_chunks (getc sl src) p.

(** A chunk in use is not in the page. *)
Lemma used_elsewhere H m Q F refs s src p ps y : store H m Q F refs s -> 0 <= src <= power_largest (slb s) ->
  pages (getc (slb s) src) = p :: ps -> page_held H (slb s) src p -> used m refs y ->
  exists q, q ∈ pages (getc (slb s) (ITEM_clsid (geti (mem s) y))) /\ in_page page_size q y /\ q <> p /\
    y ∈ page_chunks (getc (slb s) (ITEM_clsid (geti (mem s) y))) q /\ ~ in_page page_size p y.
Proof.
  intros I Hsrc Hp Hh Hu. destruct (ci_live (proj1 I) Hu) as (Hid & Hch & _).
  pose proof (ci_slabs (proj1 I) : slab_inv cfg cap [] (mem s) (slb s) F) as Is.
  set (id := ITEM_clsid _) in *. apply class_chunk_page in Hch as (q & Hq & Hch).
  destruct (si_class _ _ _ _ _ _ Is id Hid) as (C1 & C2 & C3 & _).
  destruct (page_chunk_in cfg _ _ _ C1 C2 C3 Hch) as [Hin _].
  assert (in_page page_size p y -> False) as Hnp.
  { intros Hin'. destruct (pages_unique cfg (slb s) [] id src q p y) as [E1 E2];
      [apply Is|lia|done|done|rewrite Hp; apply list_elem_of_here|done|done|].
    rewrite E1, E2 in Hch. destruct (proj2 (Hh y)) as [i Hi]; [split; [lia|done]|].
    by destruct (held_nowhere I Hi) as (_ & _ & ? & _). }
  exists q. split_and!; try done. by intros ->.
Qed.

Lemma pages_NoDup_head H m Q F refs s src p ps : store H m Q F refs s -> 0 <= src <= power_largest (slb s) ->
  pages (getc (slb s) src) = p :: ps -> p ∉ ps.
Proof.
  intros I Hsrc Hp Hin. pose proof (ci_slabs (proj1 I) : slab_inv cfg cap [] (mem s) (slb s) F) as Is.
  pose proof (src_spaced cfg _ _ (si_src _ _ _ _ _ _ Is)) as Hs. rewrite app_nil_r in Hs.
  rewrite (all_pages_split cfg (slb s) src Hsrc), Hp in Hs. destruct Hs as (_ & Hs & _).
  specialize (Hs p). pose proof (si_page _ _ _ _ _ _ Is). destruct Hs; [apply elem_of_app; by left|lia..].
Qed.
Section handed.
Context (H : gmap Z item) (m : gmap (list Z) Z) (Q : queues) (F F' : free_lists) (refs : Z -> Z) (s : st)
  (src dst p : Z) (ps : list Z) (h' : heap) (sl' : slabs_t).
Context (I : store H m Q F refs s) (Hsrc : 0 <= src <= power_largest (slb s)) (Hdst : 0 <= dst <= power_largest (slb s))
  (Hne : src <> dst) (Hp : pages (getc (slb s) src) = p :: ps) (Hh : page_held H (slb s) src p)
  (HO : handed cfg (mem s) (slb s) F src dst p ps h' sl' F').

(** A page of a class, before and after. *)
Lemma handed_pages i q : 1 <= i <= power_largest (slb s) ->
  q ∈ pages (getc sl' i) <-> (q ∈ pages (getc (slb s) i) /\ (i = src -> q <> p)) \/ (i = dst /\ q = p).
Proof.
  intros Hi. pose proof (pages_NoDup_head _ _ _ _ _ _ _ _ _ I Hsrc Hp) as Hnd.
  destruct (decide (i = src)) as [->|Hs]; [|destruct (decide (i = dst)) as [->|Hd]].
  - rewrite (ho_src _ _ _ _ _ _ _ _ _ _ _ HO) by lia. rewrite Hp, elem_of_cons. split; [|tauto].
    intros Hq. left. split; [by right|]. by intros _ ->.
  - rewrite (ho_dst _ _ _ _ _ _ _ _ _ _ _ HO) by lia. rewrite elem_of_app, list_elem_of_singleton. tauto.
  - rewrite (ho_other _ _ _ _ _ _ _ _ _ _ _ HO) by (done || lia). tauto.
Qed.

Lemma handed_chunks i q : 1 <= i -> page_chunks (getc sl' i) q = page_chunks (getc (slb s) i) q.
Proof. intros Hi. destruct (ho_geom _ _ _ _ _ _ _ _ _ _ _ HO i Hi) as [E1 E2]. unfold page_chunks. by rewrite E1, E2. Qed.

Lemma handed_used y : used m refs y -> let c := ITEM_clsid (geti (mem s) y) in
  geti h' y = geti (mem s) y /\ y ∈ class_chunks (getc sl' c) /\
  forall d, 1 <= d <= power_largest (slb s) -> y ∉ F' d.
Proof.
  intros Hu c. destruct (used_elsewhere _ _ _ _ _ _ _ _ _ _ I Hsrc Hp Hh Hu) as (q & Hq & Hin & Hqp & Hch & Hnp).
  fold c in Hq, Hch. destruct (ci_live (proj1 I) Hu) as (Hid & _ & HF & _). fold c in Hid.
  pose proof (ci_slabs (proj1 I) : slab_inv cfg cap [] (mem s) (slb s) F) as Is.
  split; [|split].
  - apply (ho_mem _ _ _ _ _ _ _ _ _ _ _ HO y c q); try done. intros ?. by apply HF; lia.
  - apply class_chunk_page. exists q. rewrite handed_chunks by lia. split; [|done]. apply handed_pages; [done|].
    by left.
  - intros d Hd. rewrite (ho_free _ _ _ _ _ _ _ _ _ _ _ HO) by lia. destruct (decide (d = dst)) as [->|]; [|by apply HF].
    rewrite elem_of_app, elem_of_reverse. intros [Hy|?]; [|by apply (HF dst)].
    destruct (si_class _ _ _ _ _ _ Is dst Hd) as (C1 & C2 & C3 & _).
    destruct (page_chunk_in cfg _ _ _ C1 C2 C3 Hy) as [? _]. done.
Qed.

Lemma handed_classes : classes_ok cfg (slb s) -> classes_ok cfg sl'.
Proof.
  pose proof (ci_slabs (proj1 I) : slab_inv cfg cap [] (mem s) (slb s) F) as Is.
  pose proof (si_pl _ _ _ _ _ _ Is) as Hpl. pose proof (ho_pl _ _ _ _ _ _ _ _ _ _ _ HO) as E.
  pose proof (ho_geom _ _ _ _ _ _ _ _ _ _ _ HO) as Hg.
  intros [H1 H2 H3]. split; rewrite ?E.
  - intros i j Hi Hj. rewrite E in Hj. destruct (Hg i ltac:(lia)) as [-> _], (Hg j ltac:(lia)) as [-> _]. by apply H1.
  - intros id Hid. destruct (Hg id ltac:(lia)) as [Ec Ep]. rewrite (newslab_len_ext cfg _ _ Ec Ep). by apply H2.
  - by destruct (Hg (power_largest (slb s)) ltac:(lia)) as [-> _].
Qed.

(** Every chunk has an owner, those of the page the new free list. *)
Lemma handed_chunk id x : 1 <= id <= power_largest sl' -> x ∈ class_chunks (getc sl' id) -> x ∈ F' id \/ used m refs x.
Proof.
  pose proof (ci_slabs (proj1 I) : slab_inv cfg cap [] (mem s) (slb s) F) as Is.
  rewrite (ho_pl _ _ _ _ _ _ _ _ _ _ _ HO). intros Hid (q & Hq & Hx)%class_chunk_page.
  rewrite handed_chunks in Hx by lia. rewrite (ho_free _ _ _ _ _ _ _ _ _ _ _ HO) by lia.
  apply handed_pages in Hq as [[Hq Hqp]|[-> ->]]; [|left|lia].
  2: { rewrite decide_True by done. apply elem_of_app. left. by apply elem_of_reverse. }
  assert (x ∈ class_chunks (getc (slb s) id)) as Hc by (apply class_chunk_page; by exists q).
  destruct (ci_all (proj1 I) Hid Hc) as [Hf|[Hu|Hi]]; [left|by right|].
  { destruct (decide (id = dst)) as [->|]; [|done]. apply elem_of_app. by right. }
  apply Hh in Hi as [Hs Hx']. destruct (si_class _ _ _ _ _ _ Is id Hid) as (C1 & C2 & C3 & _).
  destruct (si_class _ _ _ _ _ _ Is src ltac:(lia)) as (D1 & D2 & D3 & _).
  destruct (page_chunk_in cfg _ _ _ C1 C2 C3 Hx) as [Hin _], (page_chunk_in cfg _ _ _ D1 D2 D3 Hx') as [Hin' _].
  destruct (pages_unique cfg (slb s) [] id src q p x) as [E1 E2];
    [apply Is|lia|done|done|rewrite Hp; apply list_elem_of_here|done|done|]. by destruct (Hqp E1).
Qed.

Lemma handed_live y : used m refs y -> live_item m F' refs ((with_mem s h') <| slb := sl' |>) y.
Proof.
  intros Hu. destruct (handed_used y Hu) as (Em & Hch & HF').
  destruct (ci_live (proj1 I) Hu) as (Hid & _ & _ & L).
  unfold live_item. change (mem ((with_mem s h') <| slb := sl' |>)) with h'.
  change (slb ((with_mem s h') <| slb := sl' |>)) with sl'. rewrite Em, (ho_pl _ _ _ _ _ _ _ _ _ _ _ HO).
  split; [done|]. split; [done|]. split; [done|]. by rewrite (proj1 (ho_geom _ _ _ _ _ _ _ _ _ _ _ HO _ (proj1 Hid))).
Qed.

(** The page given away: the store holds what it held. *)
Lemma handed_store : slab_inv cfg cap [] h' sl' F' -> bodies_ok h' ->
  store ∅ m Q F' refs ((with_mem s h') <| slb := sl' |>).
Proof.
  intros Is' Hb. pose proof I as [Ic HQ]. split; [|done].
  assert (forall y, linked m y -> geti h' y = geti (mem s) y) as Hlm by (intros y Hy; by apply handed_used; left).
  split; try done.
  - by apply handed_classes, Ic.
  - intros id x Hid Hx. destruct (handed_chunk id x Hid Hx) as [?|?]; [by left|right; by left].
  - intros x Hu. change (mem ((with_mem s h') <| slb := sl' |>)) with h'. rewrite (proj1 (handed_used x Hu)). by apply (ci_whole Ic).
  - eapply table_rep_frame; [apply Ic|]. intros k y Hy. assert (linked m y) as Hl by by exists k.
    change (mem ((with_mem s h') <| slb := sl' |>)) with h'. rewrite Hlm by done. split; [done|]. split; [done|].
    apply (has_dom _ _ ITEM_LINKED). rewrite Hlm by done. by apply (ci_live Ic (or_introl Hl)).
  - eapply queue_frame; [apply Ic|by repeat split|]. intros c y Hy. change (mem ((with_mem s h') <| slb := sl' |>)) with h'.
    by rewrite (proj1 (handed_used y (ci_q Ic Hy))).
  - apply Ic.
  - intros y Hu. by apply handed_live.
  - intros c y. apply (ci_q Ic).
  - apply Ic.
  - change (mem ((with_mem s h') <| slb := sl' |>)) with h'. change (stt ((with_mem s h') <| slb := sl' |>)) with (stt s). rewrite (ci_bytes _ _ _ _ _ _ _ _ Ic). f_equal.
    apply sum_ntotal_ext. intros y Hy%table_items_elem. by rewrite Hlm.
Qed.
End handed.

Lemma bodies_hand_over h sl src dst p h' sl' : bodies_ok h -> hand_over cfg h sl src dst p = Ok (h', sl') -> bodies_ok h'.
Proof.
  intros Hb. unfold hand_over. destruct (take_first_page _ _) as [sl1| |]; simpl; [|done..].
  destruct (append_page _ _ _) as [sl2| |]; simpl; [|done..].
  destruct (decide _).
  - apply bodies_split. intros y. rewrite geti_memset0. destruct (decide _); [constructor|apply Hb].
  - destruct (decide _); by intros [= <- _].
Qed.

(** What slab_rebalance_finish does. *)
Record finished_as (m : gmap (list Z) Z) (refs : Z -> Z) (s s' : st) : Prop := {
  fi_items y : used m refs y -> geti (mem s') y = geti (mem s) y;
  fi_rbl : rbl s' = finished (rbl s);
  fi_now : now s' = now s;
  fi_locks : trylocks s' = trylocks s;
  fi_pl : power_largest (slb s') = power_largest (slb s);
  fi_geom i : 1 <= i -> csize (getc (slb s') i) = csize (getc (slb s) i) /\ perslab (getc (slb s') i) = perslab (getc (slb s) i);
  fi_src : 1 <= s_clsid (rbl s) -> pages (getc (slb s') (s_clsid (rbl s))) = tl (pages (getc (slb s) (s_clsid (rbl s))));
  fi_dst : 1 <= d_clsid (rbl s) ->
    pages (getc (slb s') (d_clsid (rbl s))) = pages (getc (slb s) (d_clsid (rbl s))) ++ [slab_start (rbl s)];
  fi_other i : 1 <= i -> i <> s_clsid (rbl s) -> i <> d_clsid (rbl s) -> pages (getc (slb s') i) = pages (getc (slb s) i);
  fi_free : 1 <= d_clsid (rbl s) -> sl_curr (getc (slb s') (d_clsid (rbl s))) =
    sl_curr (getc (slb s) (d_clsid (rbl s))) + perslab (getc (slb s) (d_clsid (rbl s)))
}.

Lemma finish_ok H m Q F refs s ps : let r := rbl s in store H m Q F refs s ->
  0 <= s_clsid r <= power_largest (slb s) -> 0 <= d_clsid r <= power_largest (slb s) -> s_clsid r <> d_clsid r ->
  pages (getc (slb s) (s_clsid r)) = slab_start r :: ps -> page_held H (slb s) (s_clsid r) (slab_start r) ->
  slabs (getc (slb s) (d_clsid r)) < list_size (getc (slb s) (d_clsid r)) ->
  exists F' s', slab_rebalance_finish cfg s = Ok (tt, s') /\ store ∅ m Q F' refs s' /\ finished_as m refs s s'.
Proof.
  intros r I Hs Hd Hne Hp Hh Hroom. pose proof (ci_slabs (proj1 I) : slab_inv cfg cap [] (mem s) (slb s) F) as Is.
  destruct (hand_over_inv cfg cap (mem s) (slb s) F (s_clsid r) (d_clsid r) (slab_start r) ps Is Hs Hd Hne Hp Hroom)
    as (h' & sl' & F' & E & Is' & HO).
  { intros H1 x Hx Hx'. destruct (proj2 (Hh x)) as [i Hi]; [done|].
    destruct (held_nowhere I Hi) as (_ & HF & _). by apply (HF (s_clsid r)); [lia|]. }
  pose proof (handed_store _ _ _ _ _ _ _ _ _ _ _ _ _ I Hs Hd Hne Hp Hh HO Is' (bodies_hand_over _ _ _ _ _ _ _ (ci_bodies (proj1 I)) E)) as I'.
  set (s1 := (with_mem s h') <| slb := sl' |>) in *.
  exists F', ((s1 <| rbl ::= finished |>) <| stt ::= count_move r |>). split; [|split].
  - unfold slab_rebalance_finish. rewrite rbl_bind. fold r. unfold mbind at 1, M_bind at 1, lift_slabs.
    rewrite E. done.
  - eapply store_parts; [exact I'|by repeat split|done].
  - split; try apply HO; try done.
    + intros y Hy. by apply (handed_used _ _ _ _ _ _ _ _ _ _ _ _ _ I Hs Hd Hne Hp Hh HO).
    + intros H1. change (pages (getc sl' (s_clsid r)) = tl (pages (getc (slb s) (s_clsid r)))). rewrite Hp. by apply HO.
    + intros H1. change (1 <= d_clsid r) in H1. change (sl_curr (getc sl' (d_clsid r)) = sl_curr (getc (slb s) (d_clsid r)) + perslab (getc (slb s) (d_clsid r))).
      pose proof (ho_pl _ _ _ _ _ _ _ _ _ _ _ HO) as Epl.
      rewrite (fl_curr _ _ _ (si_free _ _ _ _ _ _ Is' (d_clsid r) ltac:(lia))), (ho_free _ _ _ _ _ _ _ _ _ _ _ HO) by lia.
      rewrite decide_True by done. rewrite length_app, length_reverse.
      rewrite (fl_curr _ _ _ (si_free _ _ _ _ _ _ Is (d_clsid r) ltac:(lia))). unfold page_chunks.
      rewrite length_fmap, length_seqZ. destruct (si_class _ _ _ _ _ _ Is (d_clsid r) ltac:(lia)) as (_ & ? & _). lia.
Qed.

(** ** The passes over the page *)

Definition chunk_at (s : st) (k : Z) : Z := slab_start (rbl s) + csize (getc (slb s) (s_clsid (rbl s))) * k.
Definition page_len (s : st) : Z := perslab (getc (slb s) (s_clsid (rbl s))).

(** The mover has a page to move. *)
Record asked (s : st) : Prop := {
  as_signal : slab_rebalance_signal (rbl s) = 2;
  as_src : 0 <= s_clsid (rbl s) <= power_largest (slb s);
  as_dst : 0 <= d_clsid (rbl s) <= power_largest (slb s);
  as_ne : s_clsid (rbl s) <> d_clsid (rbl s);
  as_page : 1 <= s_clsid (rbl s) -> head (pages (getc (slb s) (s_clsid (rbl s)))) = Some (slab_start (rbl s))
}.

(** slab_pos is at chunk [k] of the page; the chunks before it are cleared, unless
    something was busy. *)
Record pass (k : Z) (H : gmap Z item) (s : st) : Prop := {
  pa_asked : asked s;
  pa_src : 1 <= s_clsid (rbl s);
  pa_end : slab_end (rbl s) = chunk_at s (page_len s);
  pa_pos : slab_pos (rbl s) = chunk_at s k;
  pa_k : 0 <= k <= page_len s;
  pa_done : done_ (rbl s) = 0;
  pa_busy : 0 <= busy_items (rbl s) <= k;
  pa_cleared j : busy_items (rbl s) = 0 -> 0 <= j < k -> is_Some (H !! chunk_at s j);
  pa_held : cleared_in (rbl s) H
}.

(** A later state of the same pass. *)
Lemma pass_kept s s' : same_classes (slb s) (slb s') -> but_pos (rbl s') = but_pos (rbl s) -> asked s ->
  asked s' /\ (1 <= s_clsid (rbl s) -> page_len s' = page_len s /\ forall k, chunk_at s' k = chunk_at s k).
Proof.
  intros [Epl Hc] [= E1 E2 E3 E4 E5 E6 E7] [A1 A2 A3 A4 A5]. split.
  - split; rewrite ?E3, ?E4, ?Epl, ?E7, ?E1; try done. intros H1. specialize (A5 H1).
    destruct (Hc (s_clsid (rbl s)) H1) as (_ & _ & [l Hl]). rewrite Hl.
    by destruct (pages (getc (slb s) (s_clsid (rbl s)))).
  - intros H1. unfold page_len, chunk_at. rewrite E3, E1. by destruct (Hc (s_clsid (rbl s)) H1) as (-> & -> & _).
Qed.

Section source.
Context (H : gmap Z item) (m : gmap (list Z) Z) (Q : queues) (F : free_lists) (refs : Z -> Z) (s : st).
Context (I : store H m Q F refs s) (k : Z) (P : pass k H s).

Lemma pass_class : 1 <= s_clsid (rbl s) <= power_largest (slb s) /\ 0 < csize (getc (slb s) (s_clsid (rbl s))) /\
  page_len s < 2 ^ 31 /\ csize (getc (slb s) (s_clsid (rbl s))) * page_len s <= page_size < 2 ^ 31.
Proof.
  pose proof (ci_slabs (proj1 I) : slab_inv cfg cap [] (mem s) (slb s) F) as Is.
  pose proof (as_src _ (pa_asked _ _ _ P)) as Hs. pose proof (pa_src _ _ _ P) as H1.
  destruct (si_class _ _ _ _ _ _ Is (s_clsid (rbl s)) ltac:(lia)) as (C1 & C2 & C3 & _).
  pose proof (si_page _ _ _ _ _ _ Is). unfold page_len. split_and!; lia || nia.
Qed.

Lemma pass_chunk_elem j : 0 <= j < page_len s -> let x := chunk_at s j in
  x ∈ page_chunks (getc (slb s) (s_clsid (rbl s))) (slab_start (rbl s)) /\
  x ∈ class_chunks (getc (slb s) (s_clsid (rbl s))) /\ in_the_page (rbl s) x.
Proof.
  intros Hj x. destruct pass_class as (Hs & Hc & Hl & Hp).
  assert (x ∈ page_chunks (getc (slb s) (s_clsid (rbl s))) (slab_start (rbl s))) as Hx.
  { apply page_chunks_elem; [done|unfold page_len in *; lia|]. by exists j. }
  split; [done|]. split.
  - apply class_chunk_page. exists (slab_start (rbl s)). split; [|done].
    pose proof (as_page _ (pa_asked _ _ _ P) (pa_src _ _ _ P)) as Hh.
    destruct (pages _); [done|]. injection Hh as ->. apply list_elem_of_here.
  - unfold in_the_page. rewrite (pa_end _ _ _ P). unfold x, chunk_at. nia.
Qed.

Lemma pass_moving : moving s.
Proof.
  destruct pass_class as (Hs & _ & Hl & _). pose proof (pa_busy _ _ _ P). pose proof (pa_k _ _ _ P).
  split; [done| |lia]. by rewrite (as_signal _ (pa_asked _ _ _ P)).
Qed.

(** What the mover holds lies in the page. *)
Lemma held_in_page x : is_Some (H !! x) ->
  x ∈ page_chunks (getc (slb s) (s_clsid (rbl s))) (slab_start (rbl s)).
Proof.
  intros [i Hi]. destruct (held_nowhere I Hi) as ((id & Hid & Hch) & _). destruct pass_class as (Hs & Hc & Hl & Hp).
  destruct (pa_held _ _ _ P x i Hi) as [_ Hin]. rewrite (pa_end _ _ _ P) in Hin. unfold chunk_at in Hin.
  pose proof (ci_slabs (proj1 I) : slab_inv cfg cap [] (mem s) (slb s) F) as Is.
  apply class_chunk_page in Hch as (q & Hq & Hx). destruct (si_class _ _ _ _ _ _ Is id Hid) as (C1 & C2 & C3 & _).
  destruct (page_chunk_in cfg _ _ _ C1 C2 C3 Hx) as [Hqx _].
  assert (slab_start (rbl s) ∈ pages (getc (slb s) (s_clsid (rbl s)))) as Hst.
  { pose proof (as_page _ (pa_asked _ _ _ P) (pa_src _ _ _ P)) as Hh.
    destruct (pages (getc (slb s) (s_clsid (rbl s)))) as [|q' l]; [done|]. injection Hh as ->. apply list_elem_of_here. }
  destruct (pages_unique cfg (slb s) [] id (s_clsid (rbl s)) q (slab_start (rbl s)) x) as [<- <-];
    [apply Is|lia|lia|done|done|done|unfold in_page; lia|done].
Qed.
End source.

(** Several turns of the loop. *)
Lemma stepped_refl H m Q F refs s : store H m Q F refs s -> cleared_in (rbl s) H ->
  stepped cfg hash cap H m refs s 0 H m s.
Proof.
  intros I HH. split; try done; [by exists Q, F|lia|]. by apply relocated_same.
Qed.

Lemma stepped_trans H1 m1 refs s1 b1 H2 m2 s2 b2 H3 m3 s3 : stepped cfg hash cap H1 m1 refs s1 b1 H2 m2 s2 ->
  stepped cfg hash cap H2 m2 refs s2 b2 H3 m3 s3 -> stepped cfg hash cap H1 m1 refs s1 (b1 + b2) H3 m3 s3.
Proof.
  intros [G1 G2 G3 G4 G5 G6 G7 G8 G9 G10] [K1 K2 K3 K4 K5 K6 K7 K8 K9 K10].
  pose proof G5 as [= E1 E2 _ _ _ _ _]. unfold in_the_page, cleared_in in *. rewrite E1, E2 in *.
  split; [done|by eapply same_classes_trans|congruence|auto|congruence|lia|by etransitivity|done|
    by eapply relocated_trans|auto].
Qed.

(** Nobody holds anything in the page and no lock is taken: a chunk the mover has
    passed is in use no more, and one that was not in use was not busy. *)
Definition unheld (refs : Z -> Z) (s : st) : Prop :=
  trylocks s = [] /\ forall y, in_the_page (rbl s) y -> refs y = 0.

Lemma unheld_kept H m refs s b H' m' s' : stepped cfg hash cap H m refs s b H' m' s' -> unheld refs s -> unheld refs s'.
Proof.
  intros [_ _ _ G4 [= E1 E2 _ _ _ _ _] _ _ _ _ _] [U1 U2]. split; [auto|].
  unfold in_the_page in *. by rewrite E1, E2.
Qed.

Lemma pass_chunk H m Q F refs s k : store H m Q F refs s -> pass k H s -> k < page_len s -> refs_bounded refs ->
  exists b H' m' s', move_chunk cfg hash s = Ok (b, s') /\ stepped cfg hash cap H m refs s b H' m' s' /\
    pass (k + 1) H' s' /\ page_len s' = page_len s /\ (forall j, chunk_at s' j = chunk_at s j) /\
    (unheld refs s -> ~ used m' refs (chunk_at s k)) /\ (~ used m refs (chunk_at s k) -> b = 0).
Proof.
  intros I P Hk Hrb. pose proof P as [A A1 Ae Ap Ak Ad Ab Ac Ah].
  destruct (pass_chunk_elem _ _ _ _ _ _ I k P k) as (_ & Hch & Hin); [lia|]. rewrite <- Ap in Hch, Hin.
  destruct (move_chunk_ok cfg hash cap H m Q F refs s I Ah (pass_moving _ _ _ _ _ _ I k P) Hrb Hin Hch)
    as (b & H' & m' & s' & E & Hb & S & Epos & T1 & T2 & T3).
  exists b, H', m', s'. pose proof S as [_ G2 _ _ G5 G6 G7 G8 _ _].
  destruct (pass_kept s s' G2 G5 A) as [A' [El Ec]]; [done|].
  pose proof G5 as [= E1 E2 E3 E4 E5 E6 E7].
  split; [done|]. split; [done|]. split; [|split; [done|split; [done|split]]].
  - split; try done.
    + by rewrite E3.
    + by rewrite El, Ec, E2.
    + rewrite Epos, Ap, Ec. unfold chunk_at. lia.
    + rewrite El. lia.
    + congruence.
    + rewrite G6. lia.
    + intros j Hz Hj. rewrite Ec. assert (busy_items (rbl s) = 0 /\ b = 0) as [Hz1 Hz2] by lia.
      destruct (decide (j = k)) as [->|Hne]; [rewrite <- Ap; by apply T1|].
      destruct (Ac j Hz1) as [i Hi]; [lia|]. exists i. by eapply lookup_weaken.
    + unfold cleared_in in *. by rewrite E1, E2.
  - intros [U1 U2]. rewrite <- Ap. apply T2; [by apply U2|done].
  - by rewrite <- Ap.
Qed.

Lemma move_loop_ok n : forall H m Q F refs s k acc, store H m Q F refs s -> pass k H s -> k < page_len s ->
  refs_bounded refs ->
  exists w b H' m' s' k', move_loop cfg hash n acc s = Ok (w, s') /\ stepped cfg hash cap H m refs s b H' m' s' /\
    pass k' H' s' /\ page_len s' = page_len s /\ (forall j, chunk_at s' j = chunk_at s j) /\
    k <= k' /\ ((0 < n)%nat -> k < k') /\
    (unheld refs s -> forall j, k <= j < k' -> ~ used m' refs (chunk_at s j)) /\
    ((forall j, k <= j < k' -> ~ used m refs (chunk_at s j)) -> b = 0).
Proof.
  induction n as [|n IH]; intros H m Q F refs s k acc I P Hk Hrb; cbn [move_loop].
  { exists acc, 0, H, m, s, k. split; [done|]. split; [eapply stepped_refl; [exact I|apply P]|].
    split_and!; first [done|lia]. }
  destruct (pass_chunk H m Q F refs s k I P Hk Hrb) as (b1 & H1 & m1 & s1 & E1 & S1 & P1 & El1 & Ec1 & T1 & T2).
  rewrite (M_bind_ok _ _ _ _ _ E1), rbl_bind. destruct (decide (slab_end (rbl s1) <= slab_pos (rbl s1))) as [Hd|Hd].
  { exists (acc + b1), b1, H1, m1, s1, (k + 1). split_and!; try done; try lia.
    - intros U j Hj. assert (j = k) as -> by lia. by apply T1.
    - intros U. apply T2, U. lia. }
  destruct (sp_inv _ _ _ _ _ _ _ _ _ _ _ S1) as (Q1 & F1 & I1).
  assert (k + 1 < page_len s1) as Hk1.
  { rewrite (pa_end _ _ _ P1), (pa_pos _ _ _ P1) in Hd. pose proof (pa_k _ _ _ P1). unfold chunk_at in Hd.
    destruct (decide (k + 1 = page_len s1)) as [E|]; [rewrite E in Hd; lia|lia]. }
  destruct (IH H1 m1 Q1 F1 refs s1 (k + 1) (acc + b1) I1 P1 Hk1 Hrb)
    as (w & b2 & H2 & m2 & s2 & k' & E2 & S2 & P2 & El2 & Ec2 & Hk' & _ & U1 & U2).
  exists w, (b1 + b2), H2, m2, s2, k'. split; [done|]. split; [by eapply stepped_trans|]. split; [done|].
  split; [congruence|]. split; [intros j; by rewrite Ec2|]. split; [lia|]. split; [lia|].
  pose proof (fun j Hj => pass_chunk_elem _ _ _ _ _ _ I1 _ P1 j Hj) as Hpage.
  assert (forall j, 0 <= j < page_len s -> in_the_page (rbl s) (chunk_at s j)) as Hin
    by (intros j Hj; by apply (pass_chunk_elem _ _ _ _ _ _ I _ P)).
  pose proof (pa_k _ _ _ P2) as Hk2. rewrite El2, El1 in Hk2. pose proof (pa_k _ _ _ P) as Hk0. split.
  - intros U j Hj Hu. assert (in_the_page (rbl s1) (chunk_at s1 j)) as Hin1 by (apply Hpage; rewrite El1; lia).
    destruct (decide (j = k)) as [->|].
    + apply (T1 U). rewrite <- Ec1 in Hu |- *. by eapply (sp_page _ _ _ _ _ _ _ _ _ _ _ S2).
    + apply (U1 (unheld_kept _ _ _ _ _ _ _ _ S1 U) j); [lia|]. by rewrite Ec1.
  - intros U. rewrite T2 by (apply U; lia). rewrite U2; [done|]. intros j Hj Hu. rewrite Ec1 in Hu.
    apply (U j); [lia|]. eapply (sp_page _ _ _ _ _ _ _ _ _ _ _ S1); [|done]. apply Hin. lia.
Qed.

(** The page is clear and waits to be handed over. *)
Record cleared_page (H : gmap Z item) (s : st) : Prop := {
  cp_asked : asked s;
  cp_done : done_ (rbl s) <> 0;
  cp_busy : busy_items (rbl s) = 0;
  cp_held : page_held H (slb s) (s_clsid (rbl s)) (slab_start (rbl s))
}.

(** What slab_rebalance_move may do to the store. *)
Definition moved_on (m : gmap (list Z) Z) (refs : Z -> Z) (s : st) (m' : gmap (list Z) Z) (s' : st) : Prop :=
  relocated m refs s m' s' /\ same_classes (slb s) (slb s') /\ now s' = now s /\ (trylocks s = [] -> trylocks s' = []) /\
  (slab_start (rbl s'), slab_end (rbl s'), s_clsid (rbl s'), d_clsid (rbl s'), slab_rebalance_signal (rbl s')) =
  (slab_start (rbl s), slab_end (rbl s), s_clsid (rbl s), d_clsid (rbl s), slab_rebalance_signal (rbl s)).

Definition idle_page (m : gmap (list Z) Z) (refs : Z -> Z) (s : st) : Prop :=
  forall j, 0 <= j < page_len s -> ~ used m refs (chunk_at s j).

(** The end of a pass. *)
Lemma end_of_pass_ok H m Q F refs s k : store H m Q F refs s -> pass k H s -> 0 < page_len s ->
  exists s', end_of_pass s = Ok (tt, s') /\ store H m Q F refs s' /\ moved_on m refs s m s' /\ mem s' = mem s /\ slb s' = slb s /\
    (k < page_len s /\ s' = s \/
     k = page_len s /\ busy_items (rbl s) <> 0 /\ pass 0 H s' /\ busy_items (rbl s') = 0 \/
     k = page_len s /\ busy_items (rbl s) = 0 /\ cleared_page H s').
Proof.
  intros I P Hl. pose proof P as [A A1 Ae Ap Ak Ad Ab Ac Ah]. destruct (pass_class _ _ _ _ _ _ I k P) as (Hs & Hc & _).
  assert (forall f g, let s' := (s <| stt ::= g |>) <| rbl ::= f |> in
    (curr_items (g (stt s)) = curr_items (stt s)) -> curr_bytes (g (stt s)) = curr_bytes (stt s) ->
    (slab_start (f (rbl s)), slab_end (f (rbl s)), s_clsid (f (rbl s)), d_clsid (f (rbl s)), slab_rebalance_signal (f (rbl s))) =
    (slab_start (rbl s), slab_end (rbl s), s_clsid (rbl s), d_clsid (rbl s), slab_rebalance_signal (rbl s)) ->
    store H m Q F refs s' /\ moved_on m refs s m s' /\ asked s') as Hf.
  { intros f g s' Eg Eg' Ef. split; [eapply store_parts; [exact I|by repeat split|done]|]. split.
    - split; [by apply relocated_same|]. split; [apply same_classes_refl|]. by repeat split.
    - injection Ef as E1 E2 E3 E4 E5. destruct A as [A2 A3 A4 A5 A6].
      split; unfold s'; simpl; rewrite ?E1, ?E3, ?E4, ?E5; done. }
  unfold end_of_pass. rewrite rbl_bind, Ae, Ap. destruct (decide (k < page_len s)) as [Hlt|Hge].
  { rewrite bool_decide_false by (unfold chunk_at; nia). exists s. split; [done|].
    destruct (Hf id id) as (H1 & H2 & _); [done..|]. destruct s. repeat (split; [done|]). by left. }
  assert (k = page_len s) as -> by lia. rewrite bool_decide_true by done. unfold when.
  destruct (decide (busy_items (rbl s) = 0)) as [Hb|Hb].
  - rewrite (decide_False (P := busy_items (rbl s) <> 0)) by (intros ?; done).
    destruct (Hf (fun r => r <| done_ := u8 (done_ r + 1) |>) id) as (H1 & H2 & H3); [done..|].
    eexists. split; [reflexivity|]. destruct s as [s1 s2 s3 s4 s5 s6 s7 s8 s9]. repeat (split; [done|]). right. right.
    split; [done|]. split; [done|]. split; [done| |done|].
    + simpl in *. rewrite Ad. done.
    + intros x. split.
      * intros Hx. split; [done|]. exact (held_in_page _ _ _ _ _ _ I _ P x Hx).
      * intros [_ Hx]. unfold page_len in *. simpl in Hx. apply page_chunks_elem in Hx as (j & Hj & ->);
          [|done|simpl in Hl; lia]. by apply Ac.
  - rewrite (decide_True (P := busy_items (rbl s) <> 0)) by done.
    destruct (Hf (fun r => r <| slab_pos := slab_start r |> <| busy_items := 0 |> <| busy_loops := u32 (busy_loops r + 1) |>)
      (fun x => x <| slab_reassign_busy_items := u64 (slab_reassign_busy_items x + busy_items (rbl s)) |>)) as (H1 & H2 & H3); [done..|].
    eexists. split; [reflexivity|]. repeat (split; [done|]). right. left.
    split; [done|]. split; [done|]. split; [|done]. split; try done.
    + unfold chunk_at. simpl. lia.
    + simpl. fold (page_len s). change (0 <= 0 <= page_len s). lia.
    + intros j _. lia.
Qed.

Lemma moved_on_stepped H m refs s b H' m' s' : stepped cfg hash cap H m refs s b H' m' s' -> moved_on m refs s m' s'.
Proof.
  intros [_ G2 G3 G4 [= E1 E2 E3 E4 E5 E6 E7] _ _ _ G9 _]. split; [done|]. repeat (split; [done|]). congruence.
Qed.

Lemma moved_on_trans m1 m2 m3 refs s1 s2 s3 : moved_on m1 refs s1 m2 s2 -> moved_on m2 refs s2 m3 s3 -> moved_on m1 refs s1 m3 s3.
Proof.
  intros (G1 & G2 & G3 & G4 & G5) (K1 & K2 & K3 & K4 & K5). split; [by eapply relocated_trans|].
  split; [by eapply same_classes_trans|]. split; [congruence|]. split; [auto|congruence].
Qed.

Lemma unheld_moved m refs s m' s' : moved_on m refs s m' s' -> unheld refs s -> unheld refs s'.
Proof.
  intros (_ & _ & _ & G4 & [= E1 E2 _ _ _]) [U1 U2]. split; [auto|]. unfold in_the_page in *. by rewrite E1, E2.
Qed.

(** slab_rebalance_move gets at least one chunk further, begins again at the top
    of the page, or is done; in a page in which nothing is in use it finds
    nothing busy. *)
Lemma move_ok H m Q F refs s k bulk : store H m Q F refs s -> pass k H s -> k < page_len s -> refs_bounded refs ->
  exists w H' m' s', slab_rebalance_move cfg hash bulk s = Ok (w, s') /\ moved_on m refs s m' s' /\
    (exists Q' F', store H' m' Q' F' refs s') /\ page_len s' = page_len s /\ (forall j, chunk_at s' j = chunk_at s j) /\
    (idle_page m refs s -> busy_items (rbl s) = 0 -> idle_page m' refs s' /\ busy_items (rbl s') = 0) /\
    ((exists k', pass k' H' s' /\ k' < page_len s' /\ k <= k' /\ ((0 < bulk)%nat -> k < k') /\
        (unheld refs s -> (forall j, 0 <= j < k -> ~ used m refs (chunk_at s j)) ->
           forall j, 0 <= j < k' -> ~ used m' refs (chunk_at s j))) \/
     (pass 0 H' s' /\ ~ (idle_page m refs s /\ busy_items (rbl s) = 0) /\ busy_items (rbl s') = 0 /\
        (unheld refs s -> (forall j, 0 <= j < k -> ~ used m refs (chunk_at s j)) -> idle_page m' refs s')) \/
     cleared_page H' s').
Proof.
  intros I P Hk Hrb. destruct (move_loop_ok bulk H m Q F refs s k 0 I P Hk Hrb)
    as (w & b & H1 & m1 & s1 & k1 & E1 & S1 & P1 & El & Ec & Hk1 & Hpr & U1 & U2).
  destruct (sp_inv _ _ _ _ _ _ _ _ _ _ _ S1) as (Q1 & F1 & I1). pose proof (pa_k _ _ _ P) as Hk0.
  pose proof (pa_k _ _ _ P1) as Hk1'.
  destruct (end_of_pass_ok H1 m1 Q1 F1 refs s1 k1 I1 P1) as (s2 & E2 & I2 & M2 & Em2 & Es2 & C); [lia|].
  assert (forall j, 0 <= j < page_len s -> in_the_page (rbl s) (chunk_at s j)) as Hin
    by (intros j Hj; by apply (pass_chunk_elem _ _ _ _ _ _ I _ P)).
  assert (forall j, 0 <= j < page_len s -> used m1 refs (chunk_at s j) -> used m refs (chunk_at s j)) as Hu
    by (intros j Hj; by apply (sp_page _ _ _ _ _ _ _ _ _ _ _ S1), Hin).
  assert (page_len s2 = page_len s /\ forall j, chunk_at s2 j = chunk_at s j) as [El2 Ec2].
  { destruct M2 as (_ & _ & _ & _ & [= Er1 _ Er2 _ _]). unfold page_len, chunk_at in *. rewrite Es2, Er2, Er1. done. }
  assert (unheld refs s -> (forall j, 0 <= j < k -> ~ used m refs (chunk_at s j)) ->
    forall j, 0 <= j < k1 -> ~ used m1 refs (chunk_at s j)) as Hun.
  { intros U Hpre j Hj. destruct (decide (j < k)); [|apply U1; [done|lia]]. intros Hx. apply (Hpre j); [lia|].
    apply Hu; [lia|done]. }
  assert (idle_page m refs s -> b = 0) as Hb0 by (intros U; apply U2; intros j Hj; apply U; lia).
  pose proof (sp_busy _ _ _ _ _ _ _ _ _ _ _ S1) as Hb.
  exists w, H1, m1, s2. split; [unfold slab_rebalance_move; rewrite (M_bind_ok _ _ _ _ _ E1), (M_bind_ok _ _ _ _ _ E2); done|].
  split; [eapply moved_on_trans; [by eapply moved_on_stepped|done]|]. split; [by exists Q1, F1|]. split; [done|]. split; [done|].
  split.
  { intros U Hz. split; [intros j Hj Hx; rewrite El2 in Hj; rewrite Ec2 in Hx; apply (U j Hj); by apply Hu|].
    specialize (Hb0 U). destruct C as [[_ ->]|[(_ & ? & _)|(_ & _ & C)]]; [lia|lia|apply C]. }
  destruct C as [[Hlt ->]|[(-> & Hz & P2 & Hz2)|(_ & _ & C)]]; [left|right; left|by right; right].
  - exists k1. split_and!; first [done|lia].
  - split; [done|]. split; [|split; [done|]].
    + intros [U Hz']. specialize (Hb0 U). lia.
    + intros U Hpre j Hj. rewrite Ec2. apply Hun; [done..|lia].
Qed.

(** ** Every page is cleared in the end *)

(** The mover on its own, for at most [fuel] calls. *)
Fixpoint move_until_done (bulk fuel : nat) : M st unit :=
  match fuel with
  | O => nofuel
  | S fuel => r ← gets rbl;
      if decide (done_ r <> 0) then mret tt
      else _ ← slab_rebalance_move cfg hash bulk; move_until_done bulk fuel
  end.

(** What is known of the page: nothing (2), what is behind slab_pos is not in use
    (1), nothing in it is (0). *)
Definition stage_ok (t : nat) (k : Z) (m : gmap (list Z) Z) (refs : Z -> Z) (s : st) : Prop :=
  match t with
  | O => idle_page m refs s /\ busy_items (rbl s) = 0
  | 1%nat => forall j, 0 <= j < k -> ~ used m refs (chunk_at s j)
  | _ => True
  end.

Lemma pass_ends bulk fuel : forall t H m Q F refs s k, (0 < bulk)%nat -> store H m Q F refs s -> pass k H s ->
  k < page_len s -> refs_bounded refs -> unheld refs s -> (t <= 2)%nat -> stage_ok t k m refs s ->
  Z.of_nat t * page_len s + (page_len s - k) < Z.of_nat fuel ->
  exists H' m' s', move_until_done bulk fuel s = Ok (tt, s') /\ moved_on m refs s m' s' /\
    (exists Q' F', store H' m' Q' F' refs s') /\ cleared_page H' s'.
Proof.
  induction fuel as [|fuel IH]; intros t H m Q F refs s k Hbk I P Hk Hrb U Ht St Hf;
    pose proof (pa_k _ _ _ P) as Hk0; [nia|]. cbn [move_until_done].
  rewrite rbl_bind, (decide_False (P := done_ (rbl s) <> 0)) by (rewrite (pa_done _ _ _ P); intros ?; done).
  destruct (move_ok H m Q F refs s k bulk I P Hk Hrb) as (w & H1 & m1 & s1 & E1 & M1 & (Q1 & F1 & I1) & El & Ec & U1 & C).
  rewrite (M_bind_ok _ _ _ _ _ E1). pose proof (unheld_moved _ _ _ _ _ M1 U) as V.
  assert (forall t' k', pass k' H1 s1 -> k' < page_len s1 -> (t' <= 2)%nat -> stage_ok t' k' m1 refs s1 ->
    Z.of_nat t' * page_len s1 + (page_len s1 - k') < Z.of_nat fuel ->
    exists H' m' s', move_until_done bulk fuel s1 = Ok (tt, s') /\ moved_on m refs s m' s' /\
      (exists Q' F', store H' m' Q' F' refs s') /\ cleared_page H' s') as Next.
  { intros t' k' P' Hk' Ht' St' Hf'.
    destruct (IH t' H1 m1 Q1 F1 refs s1 k' Hbk I1 P' Hk' Hrb V Ht' St' Hf') as (H2 & m2 & s2 & E2 & M2 & I2 & C2).
    exists H2, m2, s2. split; [done|]. split; [by eapply moved_on_trans|done]. }
  destruct C as [(k' & P1 & Hk' & Hle & Hlt & Hpre)|[(P1 & Hn & Hz & Hpre)|C]].
  - specialize (Hlt Hbk). apply (Next t k' P1); [lia|done| |rewrite El; lia].
    destruct t as [|[|t]]; [by apply U1; apply St| |done]. intros j Hj. rewrite Ec. by apply Hpre.
  - destruct t as [|[|t]]; [by destruct Hn| |].
    + apply (Next 0%nat 0 P1); [lia|lia|split; [by apply Hpre|done]|].
      rewrite El. change (Z.of_nat 1) with 1 in Hf. lia.
    + apply (Next 1%nat 0 P1); [lia|lia|intros j Hj; lia|]. assert (t = 0%nat) as -> by lia.
      rewrite El. change (Z.of_nat 2) with 2 in Hf. change (Z.of_nat 1) with 1. lia.
  - exists H1, m1, s1. destruct fuel as [|fuel]; [nia|]. cbn [move_until_done].
    rewrite rbl_bind, (decide_True (P := done_ (rbl s1) <> 0)) by apply C. split; [done|]. split; [done|]. split; [by exists Q1, F1|done].
Qed.

(** ** Starting *)

(** The classes' lists of pages in other arrays. *)
Lemma store_slabs H m Q F refs s sl' : store H m Q F refs s -> slab_inv cfg cap [] (mem s) sl' F ->
  same_classes (slb s) sl' -> (forall i, pages (getc sl' i) = pages (getc (slb s) i)) ->
  store H m Q F refs (s <| slb := sl' |>).
Proof.
  intros [I HQ] Is' Hcl Hp. split; [|done]. pose proof (ci_slabs I : slab_inv cfg cap [] (mem s) (slb s) F) as Is.
  pose proof Hcl as [Epl Hc].
  assert (forall i, 1 <= i -> class_chunks (getc sl' i) = class_chunks (getc (slb s) i)) as Ech.
  { intros i Hi. unfold class_chunks, page_chunks. destruct (Hc i Hi) as (-> & -> & _). by rewrite Hp. }
  split; try done; try apply I.
  - eapply classes_ok_same; [apply Is|exact Hcl|apply I].
  - intros id x. change (slb (s <| slb := sl' |>)) with sl'. rewrite Epl. intros Hid. rewrite Ech by lia. by apply (ci_all I).
  - intros x i Hi. destruct (ci_held _ _ _ _ _ _ _ _ I x i Hi) as ((id & Hid & Hx) & H2 & H3). unfold held_chunk.
    change (slb (s <| slb := sl' |>)) with sl'. rewrite Epl. split; [|done]. exists id. rewrite Ech by lia. done.
  - intros x Hu. destruct (ci_live I Hu) as (L1 & L2 & L3 & L4). unfold live_item.
    change (slb (s <| slb := sl' |>)) with sl'. change (mem (s <| slb := sl' |>)) with (mem s).
    rewrite Epl, Ech by lia. split; [done|]. split; [done|]. split; [done|].
    by destruct (Hc (ITEM_clsid (geti (mem s) x)) (proj1 L1)) as (-> & _).
Qed.
End pagemove.
