(* ===== verification/MoverSpec.v ===== *)
(** * The page mover among the clients

    The clients' operations and the mover's steps in any order: the store stays
    the map with reference counts of [StoreSpec], whose items a step of the mover
    can only put elsewhere or evict; a page nobody uses is cleared after a bounded
    number of steps; and the page arrives in its new class. *)

From S2P Require Import Prelude Decimal Hash Heap Assoc Settings Slabs BipBuffer Items Store StoreInv StoreSpec StoreOps Rebalance Mover Relocate PageMove.

#[local] Arguments held_nowhere {cfg hash cap H m Q F refs s x i}.
#[local] Arguments ci_slabs {cfg hash cap m Q F refs s} c0.

(** The steps: of a client, and of the mover's thread; slab_rebalance_thread gives
    up a request that cannot be started. *)
Inductive sys_step :=
| Client (o : store_op)
| Start
| Move (bulk : nat)
| Finish.

Section system.
Context (cfg : settings) (hash : hash_func) `{!HashFunction hash}.

Definition start_or_drop : M st Z :=
  e ← slab_rebalance_start;
  when (bool_decide (e < 0)) (set_rbl (fun r => r <| slab_rebalance_signal := 0 |>));; mret e.

Definition sys_do (o : sys_step) : M st Z :=
  match o with
  | Client o => store_step cfg hash o
  | Start => start_or_drop
  | Move bulk => slab_rebalance_move cfg hash bulk
  | Finish => slab_rebalance_finish cfg;; mret 0
  end.

Fixpoint sys_run (ops : list sys_step) : M st (list Z) :=
  match ops with
  | [] => mret []
  | o :: ops => r ← sys_do o; rs ← sys_run ops; mret (r :: rs)
  end.

(** One turn of slab_rebalance_thread is a Start or a Move, and a Finish when the
    page is done. *)
Lemma rebalance_turn_steps bulk w s : rebalance_turn cfg hash bulk w s =
  (w ← (if decide (slab_rebalance_signal (rbl s) = 1) then _ ← sys_do Start; mret 0
        else if bool_decide (slab_rebalance_signal (rbl s) <> 0) && bool_decide (slab_start (rbl s) <> 0)
             then sys_do (Move bulk) else mret w);
   r ← gets rbl;
   _ ← (if decide (done_ r <> 0) then sys_do Finish else mret 0);
   mret w) s.
Proof.
  unfold rebalance_turn. rewrite rbl_bind.
  assert (forall w s, (r ← gets rbl; when (bool_decide (done_ r <> 0)) (slab_rebalance_finish cfg);; mret w : M st Z) s =
    (r ← gets rbl; _ ← (if decide (done_ r <> 0) then sys_do Finish else mret 0); mret w : M st Z) s) as Hf.
  { intros w' s'. rewrite !rbl_bind. destruct (decide (done_ (rbl s') <> 0)) as [Hd|Hd].
    - rewrite bool_decide_true by done. unfold when, sys_do, mbind, M_bind.
      by destruct (slab_rebalance_finish cfg s') as [[[]]| |].
    - by rewrite bool_decide_false by done. }
  destruct (decide _) as [Hs|Hs]; [|destruct (_ && _)].
  - unfold sys_do, start_or_drop. unfold mbind, M_bind, when.
    destruct (slab_rebalance_start s) as [[e s1]| |]; [|done..]. destruct (bool_decide (e < 0)); apply Hf.
  - unfold mbind at 1 4, M_bind at 1 4. simpl. destruct (slab_rebalance_move _ _ _ _) as [[w' s1]| |]; [apply Hf|done..].
  - apply Hf.
Qed.

(** ** The specification *)

Abbreviation table := (gmap (list Z) Z).

(** When a step may be taken. slab_rebalance_finish does not look whether the list
    of its class still has room, nor whether the page it took from the global pool
    is still there: both are up to the clients. *)
Definition sys_ok (o : sys_step) (m : table) (refs : Z -> Z) (s : st) : Prop :=
  let r := rbl s in
  match o with
  | Client o => op_ok cfg o m refs s
  | Start => slab_rebalance_signal r = 1
  | Move _ => slab_rebalance_signal r <> 0 /\ slab_rebalance_signal r <> 1 /\ done_ r = 0 /\ refs_bounded refs
  | Finish => done_ r <> 0 /\ slabs (getc (slb s) (d_clsid r)) < list_size (getc (slb s) (d_clsid r)) /\
      (s_clsid r = SLAB_GLOBAL_PAGE_POOL -> head (pages (getc (slb s) SLAB_GLOBAL_PAGE_POOL)) = Some (slab_start r))
  end.

Definition sys_spec (o : sys_step) (s : st) (m : table) (refs : Z -> Z) (r : Z) (m' : table) (refs' : Z -> Z) (s' : st) : Prop :=
  match o with
  | Client o => spec_step cfg o s m refs r m' refs' s' /\ keeps (held m' refs refs') s s'
  | Start | Finish => m' = m /\ refs' = refs /\ same_items m refs s s'
  | Move _ => refs' = refs /\ relocated m refs s m' s'
  end.

Fixpoint sys_spec_run (ops : list sys_step) (s : st) (m : table) (refs : Z -> Z)
    (rs : list Z) (m' : table) (refs' : Z -> Z) (s' : st) : Prop :=
  match ops with
  | [] => rs = [] /\ m' = m /\ refs' = refs /\ s' = s
  | o :: ops => exists r rs1 s1 m1 refs1, rs = r :: rs1 /\ sys_do o s = Ok (r, s1) /\
      sys_spec o s m refs r m1 refs1 s1 /\ sys_spec_run ops s1 m1 refs1 rs1 m' refs' s'
  end.

Fixpoint sys_client_ok (ops : list sys_step) (s : st) (m : table) (refs : Z -> Z) : Prop :=
  match ops with
  | [] => True
  | o :: ops => sys_ok o m refs s /\
      forall r s1 m1 refs1, sys_do o s = Ok (r, s1) -> sys_spec o s m refs r m1 refs1 s1 ->
        sys_client_ok ops s1 m1 refs1
  end.

(** ** The invariant *)

Context (cap : Z).
Abbreviation store := (fun H => store_inv cfg hash (Bound cap H)).

(** What the mover is at: waiting, at chunk [k] of a page, or done with it. *)
Definition waiting (H : gmap Z item) (s : st) : Prop :=
  H = ∅ /\ done_ (rbl s) = 0 /\ busy_items (rbl s) = 0 /\
  (slab_rebalance_signal (rbl s) = 0 \/
   slab_rebalance_signal (rbl s) = 1 /\ 0 <= s_clsid (rbl s) <= power_largest (slb s) /\
     0 <= d_clsid (rbl s) <= power_largest (slb s)).

Definition phase (H : gmap Z item) (s : st) : Prop :=
  waiting H s \/ (exists k, pass k H s /\ k < page_len s) \/ cleared_page H s.

(** A page of any class has a chunk. *)
Definition has_chunks (sl : slabs_t) : Prop := forall i, 1 <= i <= power_largest sl -> 1 <= perslab (getc sl i).

Definition sys_inv (m : table) (refs : Z -> Z) (s : st) : Prop :=
  has_chunks (slb s) /\ exists H, (exists Q F, store H m Q F refs s) /\ phase H s.

Lemma has_chunks_kept sl sl' : same_classes sl sl' -> has_chunks sl -> has_chunks sl'.
Proof. intros [E Hc] Hh i Hi. rewrite E in Hi. destruct (Hc i ltac:(lia)) as (_ & -> & _). by apply Hh. Qed.

(** The clients leave the mover's variables alone. *)
Lemma phase_quiet H s s' : quiet s s' -> phase H s -> phase H s'.
Proof.
  intros [Hcl Hr] Ph. destruct Hr as [Er|(Hs0 & sr & ds & sg & cur & Er & Hq)].
  2: { left. assert (waiting H s) as (-> & W1 & W2 & _).
       { destruct Ph as [?|[(k & [[A _ _ _ _] _ _ _ _ _ _ _ _] & _)|[[A _ _ _ _] _ _ _]]]; [done|lia..]. }
       destruct Hcl as [Epl _]. unfold waiting. rewrite Er, Epl. simpl. split; [done|]. split; [done|]. split; [done|].
       destruct Hq as [(-> & ? & ?)|(-> & _)]; [by right|by left]. }
  assert (but_pos (rbl s') = but_pos (rbl s)) as Eb by by rewrite Er.
  destruct Ph as [W|[(k & P & Hk)|[A C1 C2 C3]]].
  - left. destruct Hcl as [Epl _]. unfold waiting in *. by rewrite Er, Epl.
  - right. left. exists k. pose proof P as [A B1 B2 B3 B4 B5 B6 B7 B8].
    destruct (pass_kept s s' Hcl Eb A) as [A' [El Ec]]; [done|].
    split; [|by rewrite El]. split; rewrite ?Er, ?El, ?Ec; try done. intros j. rewrite Ec. apply B7.
  - right. right. destruct (pass_kept s s' Hcl Eb A) as [A' _]. split; rewrite ?Er; try done.
    intros x. rewrite (C3 x). unfold page_chunks. split; intros [H1 Hx]; (split; [done|]);
      destruct Hcl as [_ Hc]; destruct (Hc _ H1) as (E1 & E2 & _); by rewrite E1, E2 in *.
Qed.

(** slab_rebalance_start *)
Lemma first_page p : 2 <= slabs p -> slabs p <= Z.of_nat (length (slab_list p)) ->
  head (pages p) = Some (nth 0 (slab_list p) 0).
Proof.
  intros H1 H2. unfold pages. destruct (slab_list p) as [|q l]; [simpl in *; lia|].
  destruct (Z.to_nat (slabs p)) eqn:E; [lia|done].
Qed.

Lemma no_page_held sl p : page_held ∅ sl 0 p.
Proof. intros x. rewrite lookup_empty. split; [by intros [? ?]|lia]. Qed.

Definition started (r : rebal_t) (c : slabclass_t) : rebal_t :=
  let start := nth 0 (slab_list c) 0 in
  r <| slab_start := start |> <| slab_end := start + u32 (csize c * perslab c) |> <| slab_pos := start |>
    <| done_ := if decide (s_clsid r = SLAB_GLOBAL_PAGE_POOL) then 1 else 0 |> <| slab_rebalance_signal := 2 |>.

Lemma start_run s : let r := rbl s in
  let '(grown, sl) := grow_slab_list (d_clsid r) (slb s) in
  let c := getc sl (s_clsid r) in
  exists e s', slab_rebalance_start s = Ok (e, s') /\
    (e < 0 /\ s' = s <| slb := sl |> \/
     e = 0 /\ s_clsid r <> d_clsid r /\ grown <> 0 /\ 2 <= slabs c /\
     s' = (s <| slb := sl |> <| rbl := started r c |>) <| stt ::= fun x => x <| slab_reassign_running := true |> |>).
Proof.
  intros r. destruct (grow_slab_list (d_clsid r) (slb s)) as [grown sl] eqn:Eg. intros c.
  unfold slab_rebalance_start. rewrite rbl_bind, gets_bind. fold r. cbv zeta.
  unfold mbind at 1, M_bind at 1, st_grow_slab_list. rewrite Eg, s_cls_bind.
  change (getc (slb (s <| slb := sl |>)) (s_clsid (rbl (s <| slb := sl |>)))) with c.
  set (b1 := _ \/ _). set (n1 := if decide b1 then -2 else 0). set (n2 := if decide (grown = 0) then -1 else n1).
  set (n3 := if decide (slabs c < 2) then -3 else n2).
  assert (n3 < 0 \/ n3 = 0 /\ s_clsid r <> d_clsid r /\ grown <> 0 /\ 2 <= slabs c) as Hn.
  { unfold n3, n2, n1. destruct (decide (slabs c < 2)); [lia|]. destruct (decide (grown = 0)); [lia|].
    destruct (decide b1) as [|Hb]; [lia|]. right. unfold b1 in Hb. split; [done|]. split; [tauto|]. split; [done|lia]. }
  clearbody n3. destruct Hn as [Hn|(-> & H1 & H2 & H3)].
  - rewrite decide_True by lia. exists n3, (s <| slb := sl |>). split; [done|]. by left.
  - rewrite decide_False by lia. eexists 0, _. split; [reflexivity|]. right. done.
Qed.

Lemma start_ok m Q F refs s : store ∅ m Q F refs s -> waiting ∅ s -> slab_rebalance_signal (rbl s) = 1 ->
  has_chunks (slb s) ->
  exists e s', slab_rebalance_start s = Ok (e, s') /\ store ∅ m Q F refs s' /\ mem s' = mem s /\
    same_classes (slb s) (slb s') /\
    (e < 0 /\ rbl s' = rbl s \/ e = 0 /\ (pass 0 ∅ s' \/ cleared_page ∅ s')).
Proof.
  intros I (_ & Wd & Wb & Ws) Hsig Hch. destruct Ws as [?|(_ & Hs & Hd)]; [lia|].
  pose proof (ci_slabs (proj1 I) : slab_inv cfg cap [] (mem s) (slb s) F) as Is.
  pose proof (pages_count cfg _ _ _ _ _ (d_clsid (rbl s)) Is Hd) as Hcnt. simpl in Hcnt.
  pose proof (grow_slab_list_inv cfg cap [] (mem s) (slb s) F (d_clsid (rbl s)) Is Hd ltac:(lia)) as G.
  pose proof (start_run s) as R. cbv zeta in R.
  destruct (grow_slab_list (d_clsid (rbl s)) (slb s)) as [grown sl]. destruct G as (Is' & _ & Hg & Esl).
  assert (power_largest sl = power_largest (slb s)) as Epl by by rewrite Esl.
  assert (same_classes (slb s) sl) as Hcl.
  { split; [done|]. intros i _. destruct (Hg i) as (El & Ep & _). rewrite Ep. by injection El. }
  destruct R as (e & s' & E & C).
  assert (store ∅ m Q F refs (s <| slb := sl |>)) as I1.
  { eapply store_slabs; [exact I|done|done|]. intros i. apply Hg. }
  exists e, s'. split; [done|]. destruct C as [[He ->]|(-> & Hne & _ & Hsl & ->)].
  { do 3 (split; [done|]). by left. }
  set (c := getc sl (s_clsid (rbl s))) in *. set (s1 := s <| slb := sl |>) in *.
  assert (store ∅ m Q F refs ((s1 <| rbl := started (rbl s) c |>) <| stt ::= fun x => x <| slab_reassign_running := true |> |>)) as I2
    by (eapply store_parts; [exact I1|by repeat split|done]).
  do 3 (split; [done|]). right. split; [done|].
  destruct (si_list _ _ _ _ _ _ Is' (s_clsid (rbl s)) ltac:(lia)) as (L1 & L2 & _). fold c in L1, L2.
  set (s2 := (s1 <| rbl := started (rbl s) c |>) <| stt ::= _ |>).
  assert (asked s2) as A.
  { split; try done; unfold s2; simpl; [by rewrite Epl|by rewrite Epl|]. intros _. fold c. apply first_page; lia. }
  destruct (decide (s_clsid (rbl s) = 0)) as [Hz|Hz]; [right|left].
  - split; [done| |done|].
    + change (done_ (rbl s2)) with (if decide (s_clsid (rbl s) = SLAB_GLOBAL_PAGE_POOL) then 1 else 0).
      by rewrite decide_True.
    + change (s_clsid (rbl s2)) with (s_clsid (rbl s)). rewrite Hz. apply no_page_held.
  - destruct (si_class _ _ _ _ _ _ Is' (s_clsid (rbl s)) ltac:(lia)) as (C1 & C2 & C3 & _). fold c in C1, C2, C3.
    pose proof (si_page _ _ _ _ _ _ Is').
    split; try done.
    + change (s_clsid (rbl s2)) with (s_clsid (rbl s)). lia.
    + change (nth 0 (slab_list c) 0 + u32 (csize c * perslab c) = nth 0 (slab_list c) 0 + csize c * perslab c).
      rewrite wrap_small; [done|]. unfold in_u. norm_pow2. nia.
    + unfold chunk_at. change (nth 0 (slab_list c) 0 = nth 0 (slab_list c) 0 + csize c * 0). lia.
    + change (done_ (rbl s2)) with (if decide (s_clsid (rbl s) = SLAB_GLOBAL_PAGE_POOL) then 1 else 0).
      by rewrite decide_False.
    + change (busy_items (rbl s2)) with (busy_items (rbl s)). lia.
    + intros j _. lia.
Qed.

(** ** Every step is as specified *)

Lemma start_or_drop_ok m refs s : sys_inv m refs s -> slab_rebalance_signal (rbl s) = 1 ->
  exists e s', start_or_drop s = Ok (e, s') /\ mem s' = mem s /\ sys_inv m refs s'.
Proof.
  intros (Hch & H & (Q & F & I) & Ph) Hsig.
  assert (waiting H s) as W.
  { destruct Ph as [?|[(k & [[A _ _ _ _] _ _ _ _ _ _ _ _] & _)|[[A _ _ _ _] _ _ _]]]; [done|lia..]. }
  pose proof W as (-> & Wd & Wb & _).
  destruct (start_ok m Q F refs s I W Hsig Hch) as (e & s1 & E & I1 & Em & Hcl & C).
  unfold start_or_drop. pose proof (has_chunks_kept _ _ Hcl Hch) as Hch1.
  destruct C as [[He Er]|[-> Ph1]].
  - set (s2 := s1 <| rbl ::= fun r => r <| slab_rebalance_signal := 0 |> |>). exists e, s2.
    rewrite (M_bind_ok _ _ _ _ _ E), bool_decide_true by done. split; [done|]. split; [done|]. split; [done|]. exists ∅.
    split; [exists Q, F; eapply store_parts; [exact I1|by repeat split|done]|].
    left. unfold waiting, s2. simpl. rewrite Er. split; [done|]. split; [done|]. split; [done|]. by left.
  - exists 0, s1. rewrite (M_bind_ok _ _ _ _ _ E). split; [done|]. split; [done|]. split; [done|]. exists ∅.
    split; [by exists Q, F|]. destruct Ph1 as [P|C]; [right; left|by right; right]. exists 0. split; [done|].
    pose proof (as_src _ (pa_asked _ _ _ P)). pose proof (pa_src _ _ _ P). specialize (Hch1 (s_clsid (rbl s1))).
    unfold page_len. lia.
Qed.

Lemma moving_pass m refs s : sys_inv m refs s -> slab_rebalance_signal (rbl s) <> 0 -> slab_rebalance_signal (rbl s) <> 1 ->
  done_ (rbl s) = 0 -> exists H Q F k, store H m Q F refs s /\ pass k H s /\ k < page_len s.
Proof.
  intros (_ & H & (Q & F & I) & Ph) H0 H1 Hd.
  destruct Ph as [(_ & _ & _ & [?|[? _]])|[(k & P & Hk)|[_ ? _ _]]]; try done. by exists H, Q, F, k.
Qed.

Lemma move_step_ok m refs s bulk : sys_inv m refs s -> sys_ok (Move bulk) m refs s ->
  exists w m' s', slab_rebalance_move cfg hash bulk s = Ok (w, s') /\ relocated m refs s m' s' /\ sys_inv m' refs s'.
Proof.
  intros Inv (H0 & H1 & Hd & Hrb). destruct (moving_pass _ _ _ Inv H0 H1 Hd) as (H & Q & F & k & I & P & Hk).
  destruct (move_ok cfg hash cap H m Q F refs s k bulk I P Hk Hrb) as (w & H' & m' & s' & E & (R & Hcl & _) & I' & El & _ & _ & C).
  exists w, m', s'. split; [done|]. split; [done|]. split; [by eapply has_chunks_kept; [|apply Inv]|].
  exists H'. split; [done|]. destruct C as [(k' & P' & Hk' & _)|[(P' & _)|C]].
  - right. left. by exists k'.
  - right. left. exists 0. split; [done|]. pose proof (pa_k _ _ _ P). lia.
  - by right; right.
Qed.

Lemma finish_step_ok m refs s : sys_inv m refs s -> sys_ok Finish m refs s ->
  exists s', slab_rebalance_finish cfg s = Ok (tt, s') /\ finished_as m refs s s' /\ sys_inv m refs s'.
Proof.
  intros (Hch & H & (Q & F & I) & Ph) (Hd & Hroom & Hpool).
  destruct Ph as [(_ & ? & _)|[(k & [_ _ _ _ _ ? _ _ _] & _)|[[A1 A2 A3 A4 A5] _ Cb Ch]]]; [done..|].
  assert (exists ps, pages (getc (slb s) (s_clsid (rbl s))) = slab_start (rbl s) :: ps) as [ps Hp].
  { assert (head (pages (getc (slb s) (s_clsid (rbl s)))) = Some (slab_start (rbl s))) as Hh.
    { destruct (decide (s_clsid (rbl s) = 0)) as [Hz|]; [|apply A5; lia]. rewrite Hz. by apply Hpool. }
    destruct (pages (getc (slb s) (s_clsid (rbl s)))) as [|q ps]; [done|]. injection Hh as ->. by exists ps. }
  destruct (finish_ok cfg hash cap H m Q F refs s ps I A2 A3 A4 Hp Ch Hroom) as (F' & s' & E & I' & Fi).
  exists s'. split; [done|]. split; [done|]. split.
  - intros i Hi. rewrite (fi_pl _ _ _ _ Fi) in Hi. rewrite (proj2 (fi_geom _ _ _ _ Fi i ltac:(lia))). by apply Hch.
  - exists ∅. split; [by exists Q, F'|]. left. unfold waiting. rewrite (fi_rbl _ _ _ _ Fi). simpl.
    split; [done|]. split; [done|]. split; [done|by left].
Qed.

Lemma sys_step_ok o s m refs : tail_repair_time cfg = 0 -> sys_inv m refs s -> sys_ok o m refs s ->
  exists r s' m' refs', sys_do o s = Ok (r, s') /\ sys_spec o s m refs r m' refs' s' /\ sys_inv m' refs' s'.
Proof.
  intros Ht Inv Ho. destruct o as [o| |bulk|].
  - destruct Inv as (Hch & H & (Q & F & I) & Ph).
    destruct (step_refines cfg hash (Bound cap H) o s m refs Ht) as (r & s' & m' & refs' & E & Hs & Hk & Hq & I'); [by exists Q, F|done|].
    exists r, s', m', refs'. split; [done|]. split; [done|]. split; [by eapply has_chunks_kept; [apply Hq|]|].
    exists H. split; [done|]. by eapply phase_quiet.
  - destruct (start_or_drop_ok m refs s Inv Ho) as (e & s' & E & Em & Inv'). exists e, s', m, refs.
    split; [done|]. split; [|done]. split; [done|]. split; [done|]. intros y _. by rewrite Em.
  - destruct (move_step_ok m refs s bulk Inv Ho) as (w & m' & s' & E & R & Inv'). by exists w, s', m', refs.
  - destruct (finish_step_ok m refs s Inv Ho) as (s' & E & Fi & Inv'). exists 0, s', m, refs.
    split; [unfold sys_do; by rewrite (M_bind_ok _ _ _ _ _ E)|]. split; [|done]. split; [done|]. split; [done|].
    intros y Hy. by apply (fi_items _ _ _ _ Fi).
Qed.

(** A page that is done has nothing in use in it. *)
Lemma cleared_idle H m Q F refs s : store H m Q F refs s -> cleared_page H s -> 1 <= s_clsid (rbl s) -> idle_page m refs s.
Proof.
  intros I [[_ A2 _ _ _] _ _ Ch] Hs j Hj Hu. pose proof (ci_slabs (proj1 I) : slab_inv cfg cap [] (mem s) (slb s) F) as Is.
  destruct (si_class _ _ _ _ _ _ Is (s_clsid (rbl s)) ltac:(lia)) as (C1 & C2 & _).
  destruct (proj2 (Ch (chunk_at s j))) as [i Hi].
  - split; [done|]. apply page_chunks_elem; [done|done|]. by exists j.
  - by destruct (held_nowhere I Hi) as (_ & _ & ? & _).
Qed.

(** C3. Moving a page is invisible to the clients, with tail_repair_time 0 and no
    chunked items. In every interleaving of their operations with whole calls of the
    mover's three functions that [sys_ok] allows, every step returns (no assert
    fails, no array is overrun), the operations do to the map and to the references
    what [StoreSpec] says, and a step of the mover keeps every item where it was or
    puts one nobody holds somewhere else with the same key, data, flags and lifetime,
    or evicts it; starts and hand-overs touch no item. [sys_ok] asks that a start or
    a move comes when the mover is in that phase, and that at a hand-over the new
    class has room in its slab_list and a page of the global pool is still where it
    was: the code looks at neither, and [finish_without_room] (C31) shows what happens
    then. A call of slab_rebalance_move is one step, although the C function lets go
    of slabs_lock while it copies an item under its item lock. *)
Theorem mover_refines_map ops s m refs : tail_repair_time cfg = 0 -> sys_inv m refs s -> sys_client_ok ops s m refs ->
  exists rs s' m' refs', sys_run ops s = Ok (rs, s') /\ sys_spec_run ops s m refs rs m' refs' s' /\ sys_inv m' refs' s'.
Proof.
  intros Ht. revert s m refs. induction ops as [|o ops IH]; intros s m refs I Hok.
  { by exists [], s, m, refs. }
  destruct Hok as [Ho Hok].
  destruct (sys_step_ok o s m refs Ht I Ho) as (r & s1 & m1 & refs1 & E & Hs & I1).
  destruct (IH s1 m1 refs1 I1 (Hok _ _ _ _ E Hs)) as (rs & s' & m' & refs' & Er & Hr & I').
  exists (r :: rs), s', m', refs'. split_and!; [|by exists r, rs, s1, m1, refs1|done].
  simpl. by rewrite (M_bind_ok _ _ _ _ _ E), (M_bind_ok _ _ _ _ _ Er).
Qed.

(** C8. A page nobody uses gets cleared: when no client holds an item in it and no
    item lock is taken, calls of slab_rebalance_move, each for at least one chunk,
    make slab_rebal.done true within three times the chunks of a page, wherever
    slab_pos stood and whatever was found busy before; nothing in the page is in
    use then. *)
Theorem page_gets_cleared m refs s bulk : sys_inv m refs s -> slab_rebalance_signal (rbl s) = 2 -> (0 < bulk)%nat ->
  refs_bounded refs -> unheld refs s ->
  exists m' s', move_until_done cfg hash bulk (S (Z.to_nat (3 * page_len s))) s = Ok (tt, s') /\
    relocated m refs s m' s' /\ done_ (rbl s') <> 0 /\ sys_inv m' refs s' /\
    (1 <= s_clsid (rbl s) -> idle_page m' refs s').
Proof.
  intros Inv Hsig Hbk Hrb U. pose proof Inv as (Hch & H & (Q & F & I) & Ph).
  destruct Ph as [(_ & _ & _ & [?|[? _]])|[(k & P & Hk)|C]]; [lia..| |].
  - pose proof (pa_k _ _ _ P) as Hk0.
    destruct (pass_ends cfg hash cap bulk (S (Z.to_nat (3 * page_len s))) 2 H m Q F refs s k Hbk I P Hk Hrb U)
      as (H' & m' & s' & E & (R & Hcl & _ & _ & Er) & (Q' & F' & I') & C); [done|done|lia|].
    exists m', s'. split; [done|]. split; [done|]. split; [apply C|]. split.
    + split; [by eapply has_chunks_kept|]. exists H'. split; [by exists Q', F'|]. by right; right.
    + intros Hs. eapply cleared_idle; [exact I'|exact C|]. injection Er as _ _ -> _ _. done.
  - exists m, s. cbn [move_until_done]. rewrite rbl_bind, (decide_True (P := done_ (rbl s) <> 0)) by apply C.
    split; [done|]. split; [by apply relocated_same|]. split; [apply C|]. split; [done|].
    intros Hs. by eapply cleared_idle.
Qed.

(** C16. slab_rebalance_finish gives the page away: it leaves the front of its
    class's list and is behind the pages of its new class, whose free chunks are
    more by those of a page; no other class changes, no item in use is touched,
    and the mover waits for its next request. *)
Theorem page_handed_over m refs s : sys_inv m refs s -> sys_ok Finish m refs s ->
  exists s', slab_rebalance_finish cfg s = Ok (tt, s') /\ finished_as m refs s s' /\ sys_inv m refs s'.
Proof. apply finish_step_ok. Qed.

(** C31. slab_rebalance_finish does not make room for the page: when the list of the
    new class is full it writes behind the array. ([Full] is a run that gets
    there: the clients take the place slab_rebalance_start had made.) *)
Theorem finish_without_room m refs s : sys_inv m refs s -> done_ (rbl s) <> 0 ->
  slabs (getc (slb s) (d_clsid (rbl s))) = list_size (getc (slb s) (d_clsid (rbl s))) ->
  slab_rebalance_finish cfg s = Abort.
Proof.
  intros (_ & H & (Q & F & I) & Ph) Hd Hfull. pose proof (ci_slabs (proj1 I) : slab_inv cfg cap [] (mem s) (slb s) F) as Is.
  assert (asked s) as [_ _ A3 A4 _] by by destruct Ph as [(_ & ? & _)|[(k & [_ _ _ _ _ ? _ _ _] & _)|[? _ _ _]]].
  destruct (si_list _ _ _ _ _ _ Is _ A3) as (_ & Hlen & _).
  unfold slab_rebalance_finish. rewrite rbl_bind. unfold mbind, M_bind, lift_slabs, hand_over, take_first_page.
  destruct (shift_loop _ _ _ _) as [l|]; [|done]. cbn [mbind res_bind]. unfold append_page, slab_list_set.
  rewrite getc_setc_ne by done. by rewrite decide_False by lia.
Qed.
End system.

(** ** A page moved *)

(** Three items fill a page and a half; one of them stays in the table. The first
    page goes to class 1 and the item to the second page. *)
Module Demo.
Abbreviation cfg := StoreSpec.Demo.cfg.
Abbreviation hash := StoreSpec.Demo.hash.
Abbreviation k1 := StoreSpec.Demo.k1.
Abbreviation k2 := StoreSpec.Demo.k2.

Definition q0 : st := StoreSpec.Demo.s0
  <| rbl := (rebal0) <| s_clsid := 7 |> <| d_clsid := 1 |> <| slab_rebalance_signal := 1 |> |>.

Definition ops : list sys_step :=
  [ Client (OAlloc k1 2 0 0 300); Client (OAlloc k2 2 0 0 300); Client (OAlloc k2 2 0 0 300);
    Client (OLink 1408); Client (ORemove 1408); Client (ORemove 1024); Client (ORemove 8576);
    Start; Move 1; Move 10; Finish; Client (OGet k1 2 true) ].

Definition next_state (o : sys_step) (s : st) : st := match sys_do cfg hash o s with Ok (_, s') => s' | _ => s end.
Definition q1 : st := next_state (Client (OAlloc k1 2 0 0 300)) q0.
Definition q2 : st := next_state (Client (OAlloc k2 2 0 0 300)) q1.
Definition q3 : st := next_state (Client (OAlloc k2 2 0 0 300)) q2.
Definition q4 : st := next_state (Client (OLink 1408)) q3.
Definition q5 : st := next_state (Client (ORemove 1408)) q4.
Definition q6 : st := next_state (Client (ORemove 1024)) q5.
Definition q7 : st := next_state (Client (ORemove 8576)) q6.
Definition q8 : st := next_state Start q7.
Definition q9 : st := next_state (Move 1) q8.
Definition q10 : st := next_state (Move 10) q9.
Definition q11 : st := next_state Finish q10.

Lemma mover_step1 : sys_do cfg hash (Client (OAlloc k1 2 0 0 300)) q0 = Ok (1408, q1).
Proof. vm_compute. reflexivity. Qed.
Lemma mover_step2 : sys_do cfg hash (Client (OAlloc k2 2 0 0 300)) q1 = Ok (1024, q2).
Proof. vm_compute. reflexivity. Qed.
Lemma mover_step3 : sys_do cfg hash (Client (OAlloc k2 2 0 0 300)) q2 = Ok (8576, q3).
Proof. vm_compute. reflexivity. Qed.
Lemma mover_step4 : sys_do cfg hash (Client (OLink 1408)) q3 = Ok (1, q4).
Proof. vm_compute. reflexivity. Qed.
Lemma mover_step5 : sys_do cfg hash (Client (ORemove 1408)) q4 = Ok (0, q5).
Proof. vm_compute. reflexivity. Qed.
Lemma mover_step6 : sys_do cfg hash (Client (ORemove 1024)) q5 = Ok (0, q6).
Proof. vm_compute. reflexivity. Qed.
Lemma mover_step7 : sys_do cfg hash (Client (ORemove 8576)) q6 = Ok (0, q7).
Proof. vm_compute. reflexivity. Qed.
Lemma mover_step8 : sys_do cfg hash Start q7 = Ok (0, q8).
Proof. vm_compute. reflexivity. Qed.
Lemma mover_step9 : sys_do cfg hash (Move 1) q8 = Ok (0, q9).
Proof. vm_compute. reflexivity. Qed.
Lemma mover_step10 : sys_do cfg hash (Move 10) q9 = Ok (0, q10).
Proof. vm_compute. reflexivity. Qed.
Lemma mover_step11 : sys_do cfg hash Finish q10 = Ok (0, q11).
Proof. vm_compute. reflexivity. Qed.

(** The item is found in the second page. *)
Example found : match sys_do cfg hash (Client (OGet k1 2 true)) q11 with
  | Ok (r, s) => r = 8576 /\ pages (getc (slb s) 1) = [1024] /\ pages (getc (slb s) 7) = [8192]
  | _ => False
  end.
Proof. vm_compute. repeat split. Qed.

Lemma ready7 : slab_rebalance_signal (rbl q7) = 1.
Proof. vm_compute. reflexivity. Qed.
Lemma moving8 : slab_rebalance_signal (rbl q8) = 2 /\ done_ (rbl q8) = 0.
Proof. vm_compute. split; reflexivity. Qed.
Lemma moving9 : slab_rebalance_signal (rbl q9) = 2 /\ done_ (rbl q9) = 0.
Proof. vm_compute. split; reflexivity. Qed.
Lemma done10 : done_ (rbl q10) = 1 /\ s_clsid (rbl q10) = 7 /\ d_clsid (rbl q10) = 1 /\
  slabs (getc (slb q10) 1) = 0 /\ list_size (getc (slb q10) 1) = 16.
Proof. vm_compute. repeat split. Qed.

Lemma mover_inv0 : sys_inv cfg hash 100 ∅ (fun _ => 0) q0.
Proof.
  split.
  - intros i Hi. assert (forallb (fun i => 1 <=? perslab (getc (slb q0) i)) (seqZ 1 8) = true) as Hf by (vm_compute; reflexivity).
    rewrite forallb_forall in Hf. apply Z.leb_le, (Hf i), list_elem_of_In, elem_of_seqZ.
    change (power_largest (slb q0)) with (power_largest (slb StoreSpec.Demo.s0)) in Hi.
    assert (power_largest (slb StoreSpec.Demo.s0) = 8) as E by (vm_compute; reflexivity). lia.
  - exists ∅. split.
    + exists (fun _ => []), (fun _ => []). eapply store_parts; [exact StoreSpec.Demo.store_inv0|by repeat split|done].
    + left. split; [done|]. split; [done|]. split; [done|]. right. split; [done|].
      vm_compute. repeat split; discriminate.
Qed.
#[global] Opaque q1 q2 q3 q4 q5 q6 q7 q8 q9 q10 q11.

Ltac small := apply StoreSpec.Demo.small_refs; intros ?; unfold rupd; repeat destruct (decide _); lia.
Ltac next step := intros ? ? ? ? E Hs; rewrite step in E; apply StoreSpec.Demo.ok_inj in E as [<- <-].
Ltac alloc_ok := split; [small|]; split; [by apply StoreSpec.Demo.bytes_dec|]; split_and!; vm_compute; first [discriminate|reflexivity].
Ltac held_ref := unfold sys_ok, op_ok, rupd; repeat destruct (decide _); lia.

Lemma table_sub_empty (m : gmap (list Z) Z) : m ⊆ ∅ -> m = ∅.
Proof.
  intros Hm. apply map_empty. intros k. destruct (m !! k) eqn:Ek; [|done]. by apply (lookup_weaken _ ∅) in Ek.
Qed.

Lemma ok8 m refs : refs_bounded refs -> sys_ok cfg (Move 1) m refs q8.
Proof. intros Hb. destruct moving8 as [M1 M2]. unfold sys_ok. rewrite M1, M2. clear M1 M2. done. Qed.
Lemma ok9 m refs : refs_bounded refs -> sys_ok cfg (Move 10) m refs q9.
Proof. intros Hb. destruct moving9 as [M1 M2]. unfold sys_ok. rewrite M1, M2. clear M1 M2. done. Qed.
Lemma ok10 m refs : sys_ok cfg Finish m refs q10.
Proof.
  destruct done10 as (D1 & D2 & D3 & D4 & D5). unfold sys_ok. rewrite D1, D2, D3, D4, D5. clear.
  split; [done|]. split; [lia|done].
Qed.

Lemma mover_ops_ok : sys_client_ok cfg hash ops q0 ∅ (fun _ => 0).
Proof.
  split; [alloc_ok|]. next mover_step1. destruct Hs as [[->%table_sub_empty [[Hz _]|(_ & _ & -> & _)]] _]; [discriminate Hz|].
  split; [alloc_ok|]. next mover_step2. destruct Hs as [[->%table_sub_empty [[Hz _]|(_ & _ & -> & _)]] _]; [discriminate Hz|].
  split; [alloc_ok|]. next mover_step3. destruct Hs as [[->%table_sub_empty [[Hz _]|(_ & _ & -> & _)]] _]; [discriminate Hz|].
  split.
  { split; [small|]. split; [held_ref|]. split; [intros [k Hk]; by rewrite lookup_empty in Hk|apply lookup_empty]. }
  next mover_step4. destruct Hs as [(_ & -> & ->) _].
  split; [split; [small|held_ref]|]. next mover_step5. destruct Hs as [(_ & -> & ->) _].
  split; [split; [small|held_ref]|]. next mover_step6. destruct Hs as [(_ & -> & ->) _].
  split; [split; [small|held_ref]|]. next mover_step7. destruct Hs as [(_ & -> & ->) _].
  split; [exact ready7|]. next mover_step8. destruct Hs as (-> & -> & _).
  split; [apply ok8; small|]. next mover_step9. destruct Hs as (-> & _).
  split; [apply ok9; small|]. next mover_step10. destruct Hs as (-> & _).
  split; [apply ok10|].
  next mover_step11. destruct Hs as (-> & -> & _).
  split; [|by intros]. split; [small|]. split; [by apply StoreSpec.Demo.bytes_dec|]. simpl. lia.
Qed.

(** The invariant along the run. *)
Lemma drive o s s' r m refs : sys_inv cfg hash 100 m refs s -> sys_do cfg hash o s = Ok (r, s') -> sys_ok cfg o m refs s ->
  exists m' refs', sys_spec cfg o s m refs r m' refs' s' /\ sys_inv cfg hash 100 m' refs' s'.
Proof.
  intros I E Ho. destruct (sys_step_ok cfg hash 100 o s m refs eq_refl I Ho) as (r' & s1 & m' & refs' & E' & Hs & I').
  rewrite E in E'. apply StoreSpec.Demo.ok_inj in E' as [<- <-]. by exists m', refs'.
Qed.

Definition refs3 : Z -> Z := rupd (rupd (rupd (fun _ => 0) 1408 1) 1024 1) 8576 1.

Lemma inv3 : sys_inv cfg hash 100 ∅ refs3 q3.
Proof.
  destruct (drive _ _ _ _ _ _ mover_inv0 mover_step1) as (m1 & refs1 & Hs & I1); [alloc_ok|].
  destruct Hs as [[->%table_sub_empty [[Hz _]|(_ & _ & -> & _)]] _]; [discriminate Hz|].
  destruct (drive _ _ _ _ _ _ I1 mover_step2) as (m2 & refs2 & Hs & I2); [alloc_ok|].
  destruct Hs as [[->%table_sub_empty [[Hz _]|(_ & _ & -> & _)]] _]; [discriminate Hz|].
  destruct (drive _ _ _ _ _ _ I2 mover_step3) as (m3 & refs3' & Hs & I3); [alloc_ok|].
  destruct Hs as [[->%table_sub_empty [[Hz _]|(_ & _ & -> & _)]] _]; [discriminate Hz|]. exact I3.
Qed.

Lemma inv8 : exists m refs, sys_inv cfg hash 100 m refs q8 /\ forall x, refs x = 0.
Proof.
  assert (sys_ok cfg (Client (OLink 1408)) ∅ refs3 q3) as Ho.
  { unfold refs3. split; [small|]. split; [held_ref|]. split; [intros [k Hk]; by rewrite lookup_empty in Hk|apply lookup_empty]. }
  destruct (drive _ _ _ _ _ _ inv3 mover_step4 Ho) as (m4 & refs4 & [(_ & -> & ->) _] & I4). unfold refs3 in I4.
  destruct (drive _ _ _ _ _ _ I4 mover_step5) as (m5 & refs5 & [(_ & -> & ->) _] & I5); [split; [small|held_ref]|].
  destruct (drive _ _ _ _ _ _ I5 mover_step6) as (m6 & refs6 & [(_ & -> & ->) _] & I6); [split; [small|held_ref]|].
  destruct (drive _ _ _ _ _ _ I6 mover_step7) as (m7 & refs7 & [(_ & -> & ->) _] & I7); [split; [small|held_ref]|].
  destruct (drive _ _ _ _ _ _ I7 mover_step8 ready7) as (m8 & refs8 & (-> & -> & _) & I8).
  eexists _, _. split; [exact I8|]. intros x. unfold rupd. repeat destruct (decide _); lia.
Qed.

Lemma unlocked8 : trylocks q8 = [].
Proof. vm_compute. reflexivity. Qed.

Lemma inv10 : exists m refs, sys_inv cfg hash 100 m refs q10.
Proof.
  destruct inv8 as (m8 & refs & I8 & Hr). assert (refs_bounded refs) as Hb by (intros x; rewrite Hr; lia).
  destruct (drive _ _ _ _ _ _ I8 mover_step9 (ok8 _ _ Hb)) as (m9 & refs9 & [-> _] & I9).
  destruct (drive _ _ _ _ _ _ I9 mover_step10 (ok9 _ _ Hb)) as (m10 & refs10 & [-> _] & I10). exists m10, refs. exact I10.
Qed.

(** The same with class 2 to get the page: it has no list yet. *)
Definition redirect (s : st) : st := s <| rbl ::= fun r => r <| d_clsid := 2 |> |>.

Lemma redirect_inv m refs s : sys_inv cfg hash 100 m refs s -> done_ (rbl s) <> 0 -> 2 <= power_largest (slb s) ->
  s_clsid (rbl s) <> 2 -> sys_inv cfg hash 100 m refs (redirect s).
Proof.
  intros (Hch & H & (Q & F & I) & Ph) Hd Hpl Hs.
  split; [exact Hch|]. exists H. split; [exists Q, F; eapply store_parts; [exact I|by repeat split|done]|].
  destruct Ph as [(_ & D & _)|[(k & [_ _ _ _ _ D _ _ _] & _)|[[A1 A2 A3 A4 A5] C1 C2 C3]]]; [done..|].
  right. right. split; [|exact C1|exact C2|exact C3]. split; [exact A1|exact A2| | |exact A5].
  - change (0 <= 2 <= power_largest (slb s)). lia.
  - exact Hs.
Qed.

Definition full : st := redirect q10.
Lemma full_facts : bool_decide (2 <= power_largest (slb q10)) = true /\ done_ (rbl full) = 1 /\
  slabs (getc (slb full) (d_clsid (rbl full))) = list_size (getc (slb full) (d_clsid (rbl full))).
Proof. vm_compute. repeat split. Qed.

Lemma full_inv : exists m refs, sys_inv cfg hash 100 m refs full.
Proof.
  destruct inv10 as (m & refs & I). exists m, refs. apply (redirect_inv m refs q10 I).
  - rewrite (proj1 done10). clear. discriminate.
  - exact (bool_decide_eq_true_1 _ (proj1 full_facts)).
  - rewrite (proj1 (proj2 done10)). clear. discriminate.
Qed.
End Demo.

(** A run in which the clients fill the list of the page's new class between Start
    and Finish: slab_rebalance_finish writes behind slab_list. *)
Module Full.
Import Demo.

Definition pages20 : slabs_t :=
  match slabs_init cfg 102400 b64_1_25 false None None ∅ (slabs_globals ((fun i => 1024 * i) <$> seqZ 1 20) []) with
  | Ok (_, s) => s
  | _ => slabs_globals [] []
  end.

Definition b0 : st := q0 <| slb := pages20 |>
  <| rbl := (rebal0) <| s_clsid := 7 |> <| d_clsid := 8 |> <| slab_rebalance_signal := 1 |> |>.

Definition large : sys_step := Client (OAlloc k2 2 0 0 430).
Definition fill : list sys_step := replicate 30 large ++ replicate 3 (Client (OAlloc k2 2 0 0 300)) ++
  [Client (ORemove 16768); Client (ORemove 16384); Client (ORemove 17792)].

Example page_fits : match sys_run cfg hash (fill ++ [Start; Move 10; Finish]) b0 with
  | Ok (_, s) => (slabs (getc (slb s) 8), list_size (getc (slb s) 8), slabs (getc (slb s) 7)) = (16, 16, 1)
  | _ => False
  end.
Proof. vm_compute. reflexivity. Qed.

Example page_does_not_fit : match sys_run cfg hash (fill ++ [Start; large; Move 10]) b0 with
  | Ok (_, s) => done_ (rbl s) = 1 /\ slab_rebalance_finish cfg s = Abort
  | _ => False
  end.
Proof. vm_compute. split; reflexivity. Qed.
End Full.

Lemma mover_refines_map_witness : exists rs s' m' refs', sys_run Demo.cfg Demo.hash Demo.ops Demo.q0 = Ok (rs, s') /\
  sys_spec_run Demo.cfg Demo.hash Demo.ops Demo.q0 ∅ (fun _ => 0) rs m' refs' s' /\
  sys_inv Demo.cfg Demo.hash 100 m' refs' s'.
Proof.
  exact (mover_refines_map Demo.cfg Demo.hash 100 Demo.ops Demo.q0 ∅ (fun _ => 0) eq_refl Demo.mover_inv0 Demo.mover_ops_ok).
Defined.

Lemma page_gets_cleared_witness : exists m refs m' s',
  move_until_done Demo.cfg Demo.hash 1 (S (Z.to_nat (3 * page_len Demo.q8))) Demo.q8 = Ok (tt, s') /\
  relocated m refs Demo.q8 m' s' /\ done_ (rbl s') <> 0 /\ sys_inv Demo.cfg Demo.hash 100 m' refs s' /\
  (1 <= s_clsid (rbl Demo.q8) -> idle_page m' refs s').
Proof.
  destruct Demo.inv8 as (m & refs & I & Hr). exists m, refs.
  refine (page_gets_cleared Demo.cfg Demo.hash 100 m refs Demo.q8 1 I (proj1 Demo.moving8) ltac:(lia) _ _).
  - intros x. rewrite Hr. lia.
  - split; [exact Demo.unlocked8|]. intros y _. apply Hr.
Defined.

Lemma page_handed_over_witness : exists m refs s', slab_rebalance_finish Demo.cfg Demo.q10 = Ok (tt, s') /\
  finished_as m refs Demo.q10 s' /\ sys_inv Demo.cfg Demo.hash 100 m refs s'.
Proof.
  destruct Demo.inv10 as (m & refs & I). exists m, refs.
  exact (page_handed_over Demo.cfg Demo.hash 100 m refs Demo.q10 I (Demo.ok10 m refs)).
Defined.

Lemma finish_without_room_witness : slab_rebalance_finish Demo.cfg Demo.full = Abort.
Proof.
  destruct Demo.full_inv as (m & refs & I). destruct Demo.full_facts as (_ & E1 & E2).
  refine (finish_without_room Demo.cfg Demo.hash 100 m refs Demo.full I _ E2).
  rewrite E1. clear. discriminate.
Defined.
