(* ===== verification/Automove.v ===== *)
(** * The slab automovers (src/memory_lru/slab_automove.c, slab_automove_extstore.c)

    Once a second the LRU maintainer asks the automover for a class to take a page
    from and a class to give it to.  [Automove.Base] is the default algorithm,
    [Automove.Ext] the one for external storage.  The statistics they start from
    are those of items.c and slabs.c (src/memory_lru). *)

From S2P Require Import Prelude Heap Hash Assoc Settings Slabs BipBuffer Items.
From Stdlib Require Import SpecFloat.

Record item_stats_automove := ItemAutomove { am_evicted : Z; am_outofmemory : Z; am_age : Z }.
Record slab_stats_automove := SlabAutomove {
  chunks_per_page : Z; am_chunk_size : Z; free_chunks : Z; total_pages : Z }.

Definition item_am0 : item_stats_automove := ItemAutomove 0 0 0.
Definition slab_am0 : slab_stats_automove := SlabAutomove 0 0 0 0.

(** a[n] *)
Definition at_ {A} (d : A) (l : list A) (n : Z) : A := default d (l !! Z.to_nat n).
Definition iam (l : list item_stats_automove) (n : Z) : item_stats_automove := at_ item_am0 l n.
Definition sam (l : list slab_stats_automove) (n : Z) : slab_stats_automove := at_ slab_am0 l n.

Definition classes : list Z := seqZ 0 MAX_NUMBER_OF_SLAB_CLASSES.

Definition istat (s : st) (i : Z) : itemstats_t := default itemstats0 (itemstats (lru s) !! i).

Definition fill_item_stats_automove (s : st) : list item_stats_automove :=
  (fun n =>
     let oom := outofmemory (istat s (Z.lor n HOT_LRU)) in
     let i := Z.lor n COLD_LRU in
     let tail := aget (tails (lru s)) i in
     ItemAutomove (evicted (istat s i)) oom
       (if decide (tail <> 0) then u32 (now s - time (geti (mem s) tail)) else 0)) <$> classes.

Definition fill_slab_stats_automove (sl : slabs_t) : list slab_stats_automove :=
  (fun n => let p := getc sl n in SlabAutomove (perslab p) (csize p) (sl_curr p) (slabs p)) <$> classes.

Definition global_page_pool_size (sl : slabs_t) : Z * bool :=
  (slabs (getc sl SLAB_GLOBAL_PAGE_POOL), bool_decide (mem_limit sl <= mem_malloced sl)).

Definition MIN_PAGES_FOR_SOURCE : Z := 2.

(** [free_chunks > chunks_per_page * MIN_PAGES_FOR_RECLAIM], MIN_PAGES_FOR_RECLAIM
    being 2.5: the products of 32-bit integers are exact in a double. *)
Definition reclaim_free (m : slab_stats_automove) : bool := bool_decide (5 * chunks_per_page m < 2 * free_chunks m).

(** The counters went up, or the class got a page. *)
Definition evicting (b a : item_stats_automove) : bool :=
  bool_decide (0 < am_evicted a - am_evicted b \/ 0 < am_outofmemory a - am_outofmemory b).
Definition grown (b a : slab_stats_automove) : bool := bool_decide (0 < total_pages a - total_pages b).

(** [youngest_age < (double)oldest_age * max_age_ratio] *)
Definition below_ratio (youngest_age oldest_age : Z) (ratio : spec_float) : bool :=
  SFltb (b64_of_Z youngest_age) (b64_mul (b64_of_Z oldest_age) ratio).

Definition NOT_FOUND_AGE : Z := 2 ^ 64 - 1.

Module Base.
Record window_data_t := WindowData { wd_age : Z; wd_dirty : Z; wd_evicted : Z }.
Definition wd0 : window_data_t := WindowData 0 0 0.

Record slab_automove := Automover {
  window_data : list window_data_t;
  window_size : Z;
  window_cur : Z;
  max_age_ratio : spec_float;
  iam_before : list item_stats_automove;
  iam_after : list item_stats_automove;
  sam_before : list slab_stats_automove;
  sam_after : list slab_stats_automove
}.
#[export] Instance slab_automove_eta : Eta slab_automove := fun a =>
  Automover (window_data a) (window_size a) (window_cur a) (max_age_ratio a)
    (iam_before a) (iam_after a) (sam_before a) (sam_after a).

(** The two callocs answer [mem_ok]. *)
Definition slab_automove_init (slab_automove_window : Z) (slab_automove_ratio : spec_float)
    (mem_ok : bool * bool) (s : st) : option slab_automove :=
  if mem_ok.1 && mem_ok.2 then
    Some (Automover (replicate (Z.to_nat (u32 (slab_automove_window * MAX_NUMBER_OF_SLAB_CLASSES))) wd0)
            slab_automove_window 0 slab_automove_ratio (fill_item_stats_automove s) (replicate 64 item_am0)
            (fill_slab_stats_automove (slb s)) (replicate 64 slab_am0))
  else None.

Definition add_wd (w d : window_data_t) : window_data_t :=
  WindowData (u64 (wd_age w + wd_age d)) (u64 (wd_dirty w + wd_dirty d)) (u64 (wd_evicted w + wd_evicted d)).
Definition window_sum (wd : list window_data_t) (size : Z) : window_data_t :=
  foldl add_wd wd0 (take (Z.to_nat size) wd).

(** The variables of the loop. *)
Record scan := Scan {
  sc_wd : list window_data_t;
  oldest : Z; oldest_age : Z;
  youngest : Z; youngest_age : Z; youngest_evicting : bool;
  src : Z; dst : Z
}.
#[export] Instance scan_eta : Eta scan := fun c =>
  Scan (sc_wd c) (oldest c) (oldest_age c) (youngest c) (youngest_age c) (youngest_evicting c) (src c) (dst c).

Definition scan0 (wd : list window_data_t) : scan := Scan wd (-1) 0 (-1) NOT_FOUND_AGE false (-1) (-1).

(** The sample a pass writes into the window. *)
Definition sample (a : slab_automove) (n : Z) : window_data_t :=
  let ev := evicting (iam (iam_before a) n) (iam (iam_after a) n) in
  let gr := grown (sam (sam_before a) n) (sam (sam_after a) n) in
  WindowData (am_age (iam (iam_after a) n)) (if ev || gr then 1 else 0) (if ev then 1 else 0).

(** The body of the loop; [true] for break. *)
Definition scan_class (a : slab_automove) (n : Z) (c : scan) : scan * bool :=
  let w_offset := Z.to_nat (n * window_size a) in
  let slot := (w_offset + Z.to_nat (window_cur a mod window_size a))%nat in
  let cleared := <[slot := wd0]> (sc_wd c) in
  let w_sum := window_sum (drop w_offset cleared) (window_size a) in
  let c := c <| sc_wd := <[slot := sample a n]> cleared |> in
  let age := wd_age w_sum / window_size a in
  let after := sam (sam_after a) n in
  if reclaim_free after && bool_decide (wd_dirty w_sum = 0) then (c <| src := n |> <| dst := 0 |>, true)
  else
    let c := if decide (oldest_age c < age /\ MIN_PAGES_FOR_SOURCE < total_pages after)
             then c <| oldest := n |> <| oldest_age := age |> else c in
    let c := if decide (age < youngest_age c /\ window_size a / 2 < wd_evicted w_sum)
             then c <| youngest := n |> <| youngest_age := age |>
                    <| youngest_evicting := bool_decide (wd_evicted (sample a n) <> 0) |> else c in
    (c, false).

Fixpoint scan_classes (a : slab_automove) (ns : list Z) (c : scan) : scan :=
  match ns with
  | [] => c
  | n :: ns => let '(c, brk) := scan_class a n c in if brk then c else scan_classes a ns c
  end.

(** *src and *dst.  A window of size 0 is a division by zero. *)
Definition slab_automove_run (s : st) (a : slab_automove) : res (Z * Z * slab_automove) :=
  let a := a <| iam_after := fill_item_stats_automove s |> <| sam_after := fill_slab_stats_automove (slb s) |>
             <| window_cur ::= fun n => u32 (n + 1) |> in
  if decide (window_size a = 0) then Abort
  else
    let c := scan_classes a (seqZ POWER_SMALLEST (MAX_NUMBER_OF_SLAB_CLASSES - 1)) (scan0 (window_data a)) in
    let a := a <| window_data := sc_wd c |> <| iam_before := iam_after a |> <| sam_before := sam_after a |> in
    if bool_decide (youngest c <> -1 /\ oldest c <> -1 /\ window_size a < window_cur a) &&
       (below_ratio (youngest_age c) (oldest_age c) (max_age_ratio a) && youngest_evicting c)
    then Ok (oldest c, youngest c, a)
    else Ok (src c, dst c, a).
End Base.

Module Ext.
Definition MEMCHECK_PERIOD : Z := 60.

Record window_data_t := WindowData { wd_age : Z; wd_dirty : Z; wd_evicted : Z; excess_free : Z; relaxed : Z }.
#[export] Instance window_data_eta : Eta window_data_t := fun w =>
  WindowData (wd_age w) (wd_dirty w) (wd_evicted w) (excess_free w) (relaxed w).
Definition wd0 : window_data_t := WindowData 0 0 0 0 0.

Record window_global_t := WindowGlobal { pool_low : Z; pool_high : Z }.
Definition wg0 : window_global_t := WindowGlobal 0 0.

(** [ext_free_memchunks]: the array of the settings the automover writes. *)
Record slab_automove := Automover {
  window_data : list window_data_t;
  window_global : list window_global_t;
  window_size : Z;
  window_cur : Z;
  item_size : Z;
  last_memcheck_run : Z;
  max_age_ratio : spec_float;
  free_ratio : spec_float;
  pool_filled_once : bool;
  free_mem : list Z;
  iam_before : list item_stats_automove;
  iam_after : list item_stats_automove;
  sam_before : list slab_stats_automove;
  sam_after : list slab_stats_automove;
  ext_free_memchunks : list Z
}.
#[export] Instance slab_automove_eta : Eta slab_automove := fun a =>
  Automover (window_data a) (window_global a) (window_size a) (window_cur a) (item_size a)
    (last_memcheck_run a) (max_age_ratio a) (free_ratio a) (pool_filled_once a) (free_mem a)
    (iam_before a) (iam_after a) (sam_before a) (sam_after a) (ext_free_memchunks a).

(** The settings it reads, and the answers of the three callocs. *)
Definition slab_automove_extstore_init (slab_automove_window : Z)
    (slab_automove_ratio slab_automove_freeratio : spec_float) (ext_item_size : Z) (memchunks : list Z)
    (mem_ok : bool * bool * bool) (s : st) : option slab_automove :=
  if mem_ok.1.1 && mem_ok.1.2 && mem_ok.2 then
    Some (Automover (replicate (Z.to_nat (u32 (slab_automove_window * MAX_NUMBER_OF_SLAB_CLASSES))) wd0)
            (replicate (Z.to_nat slab_automove_window) wg0) slab_automove_window 0 ext_item_size 0
            slab_automove_ratio slab_automove_freeratio false (replicate 64 0)
            (fill_item_stats_automove s) (replicate 64 item_am0)
            (fill_slab_stats_automove (slb s)) (replicate 64 slab_am0) memchunks)
  else None.

Definition add_wd (w d : window_data_t) : window_data_t :=
  WindowData (u64 (wd_age w + wd_age d)) (u64 (wd_dirty w + wd_dirty d)) (u64 (wd_evicted w + wd_evicted d))
    (u32 (excess_free w + excess_free d)) (u32 (relaxed w + relaxed d)).
Definition window_sum (wd : list window_data_t) (size : Z) : window_data_t :=
  foldl add_wd wd0 (take (Z.to_nat size) wd).
Definition window_global_sum (wg : list window_global_t) (size : Z) : window_global_t :=
  foldl (fun w d => WindowGlobal (u32 (pool_low w + pool_low d)) (u32 (pool_high w + pool_high d)))
    wg0 (take (Z.to_nat size) wg).

Definition slot (a : slab_automove) : nat := Z.to_nat (window_cur a mod window_size a).

Definition global_pool_check (sl : slabs_t) (a : slab_automove) : slab_automove :=
  let free := at_ 0 (free_mem a) 0 in
  let '(count, mem_limit_reached) := global_page_pool_size sl in
  let set wg a := a <| window_global ::= <[slot a := wg]> |> in
  if negb mem_limit_reached then set wg0 a
  else if decide (count < free / 2) then (set (WindowGlobal 1 0) a) <| pool_filled_once := true |>
  else if decide (free < count) then set (WindowGlobal 0 1) a
  else (set wg0 a) <| pool_filled_once := true |>.

(** [chunks_per_page * MIN_PAGES_FREE > hold_free], MIN_PAGES_FREE being 1.5, and the
    conversion of the product to unsigned int. *)
Definition hold_free_of (m : slab_stats_automove) (free_ratio : spec_float) : Z :=
  let hold_free := u32 (b64_to_Z (b64_mul (b64_of_Z (total_pages m * chunks_per_page m)) free_ratio)) in
  if decide (2 * hold_free < 3 * chunks_per_page m) then u32 (3 * chunks_per_page m / 2) else hold_free.

Definition memcheck_class (a : slab_automove) (n : Z) : slab_automove :=
  let hold_free := hold_free_of (sam (sam_after a) n) (free_ratio a) in
  let a := a <| free_mem ::= <[Z.to_nat n := hold_free]> |> in
  if decide (at_ 0 (ext_free_memchunks a) n <> hold_free /\ pool_filled_once a = true)
  then a <| ext_free_memchunks ::= <[Z.to_nat n := hold_free]> |> else a.

Definition memcheck (current_time : Z) (a : slab_automove) : slab_automove :=
  if decide (current_time < u32 (last_memcheck_run a + MEMCHECK_PERIOD)) then a
  else
    let ns := seqZ 1 (MAX_NUMBER_OF_SLAB_CLASSES - 1) in
    let a := foldl memcheck_class (a <| last_memcheck_run := current_time |>) ns in
    let pages := foldl (fun t n => u32 (t + total_pages (sam (sam_after a) n))) 0 ns in
    let pages := u32 (pages + total_pages (sam (sam_after a) 0)) in
    a <| free_mem ::= <[0%nat := u32 (b64_to_Z (b64_mul (b64_of_Z pages) (free_ratio a)))]> |>.

Definition data_slot (a : slab_automove) (n : Z) : nat := (Z.to_nat (n * window_size a) + slot a)%nat.

(** get_window_data(a, n)->relaxed = 1 *)
Definition relax (a : slab_automove) (n : Z) : slab_automove :=
  a <| window_data ::= alter (fun w => w <| relaxed := 1 |>) (data_slot a n) |>.

Record scan := Scan {
  sc_wd : list window_data_t;
  oldest : Z; oldest_age : Z;
  youngest : Z; youngest_age : Z;
  too_free : bool;
  src : Z; dst : Z
}.
#[export] Instance scan_eta : Eta scan := fun c =>
  Scan (sc_wd c) (oldest c) (oldest_age c) (youngest c) (youngest_age c) (too_free c) (src c) (dst c).
Definition scan0 (wd : list window_data_t) : scan := Scan wd (-1) 0 (-1) NOT_FOUND_AGE false (-1) (-1).

Definition sample (a : slab_automove) (n : Z) : window_data_t :=
  let ev := evicting (iam (iam_before a) n) (iam (iam_after a) n) in
  let gr := grown (sam (sam_before a) n) (sam (sam_after a) n) in
  let after := sam (sam_after a) n in
  let fm := at_ 0 (free_mem a) n in
  WindowData (am_age (iam (iam_after a) n)) (if ev || gr then 1 else 0) (if ev then 1 else 0)
    (if decide (u32 (fm * 2) < free_chunks after /\ 0 < fm) then 1 else 0) 0.

Definition small_slab (a : slab_automove) (n : Z) : bool :=
  bool_decide (am_chunk_size (sam (sam_before a) n) < item_size a).

Definition scan_class (a : slab_automove) (c : scan) (n : Z) : scan :=
  let w_offset := Z.to_nat (n * window_size a) in
  let w_sum := window_sum (drop w_offset (sc_wd c)) (window_size a) in
  let c := c <| sc_wd ::= <[data_slot a n := sample a n]> |> in
  let after := sam (sam_after a) n in
  let free_enough := bool_decide (at_ 0 (free_mem a) n < free_chunks after) in
  let age := wd_age w_sum / window_size a in
  let c := if reclaim_free after && bool_decide (wd_dirty w_sum = 0) &&
              (small_slab a n || bool_decide (window_size a <= excess_free w_sum))
           then c <| src := n |> <| dst := 0 |> <| too_free := true |> else c in
  if small_slab a n then c
  else
    let c := if decide (oldest_age c < age /\ MIN_PAGES_FOR_SOURCE < total_pages after)
             then c <| oldest := n |> <| oldest_age := age |> else c in
    if decide (age < youngest_age c /\ total_pages after <> 0 /\ excess_free w_sum < window_size a /\
               ~ (relaxed w_sum <> 0 /\ free_enough = true))
    then c <| youngest := n |> <| youngest_age := age |> else c.

(** The choice after the loop; [wg_sum]: the pool over the window. *)
Definition choose (a : slab_automove) (wg_sum : window_global_t) (c : scan) : Z * Z * slab_automove :=
  let absorbed := bool_decide (free_chunks (sam (sam_after a) (youngest c)) <= at_ 0 (free_mem a) (youngest c)) in
  if decide (window_cur a < window_size a) then (src c, dst c, a)
  else if decide (window_size a <= pool_high wg_sum /\ pool_low wg_sum = 0 /\ youngest c <> -1) then
    if absorbed then (0, youngest c, relax a (youngest c)) else (src c, dst c, relax a (youngest c))
  else if decide (too_free c = false /\ pool_low wg_sum <> 0 /\ oldest c <> -1) then (oldest c, 0, a)
  else if decide (too_free c = false /\ youngest c <> -1 /\ oldest c <> -1 /\ youngest c <> oldest c) then
    if below_ratio (youngest_age c) (oldest_age c) (max_age_ratio a) then
      if absorbed then (0, youngest c, relax a (youngest c)) else (src c, dst c, relax a (youngest c))
    else (src c, dst c, a)
  else (src c, dst c, a).

Definition slab_automove_extstore_run (s : st) (a : slab_automove) : res (Z * Z * slab_automove) :=
  if decide (window_size a = 0) then Abort
  else
    let a := global_pool_check (slb s) a in
    let wg_sum := window_global_sum (window_global a) (window_size a) in
    let a := a <| iam_after := fill_item_stats_automove s |> <| sam_after := fill_slab_stats_automove (slb s) |>
               <| window_cur ::= fun n => u32 (n + 1) |> in
    let a := memcheck (now s) a in
    let c := foldl (scan_class a) (scan0 (window_data a)) (seqZ POWER_SMALLEST (MAX_NUMBER_OF_SLAB_CLASSES - 1)) in
    let a := a <| window_data := sc_wd c |> <| iam_before := iam_after a |> <| sam_before := sam_after a |> in
    Ok (choose a wg_sum c).
End Ext.

(** ** Picking an extreme *)

(** What a loop that replaces [o] by a class with a larger [f] has found among the
    classes from 1 to [n] - 1 that satisfy [P]: the first with the largest [f] above
    [init], and its [f]; or -1 and [init]. *)
Definition picked (P : Z -> Prop) (f : Z -> Z) (init n o v : Z) : Prop :=
  (o = -1 /\ v = init /\ forall m, 1 <= m < n -> P m -> f m <= init) \/
  (1 <= o < n /\ v = f o /\ P o /\ init < v /\
   forall m, 1 <= m < n -> P m -> f m <= v /\ (m < o -> f m < v)).

Lemma picked_init P f init : picked P f init 1 (-1) init.
Proof. left. split_and!; [done|done|lia]. Qed.

Lemma picked_take P f init n o v : picked P f init n o v -> 1 <= n -> P n -> v < f n ->
  picked P f init (n + 1) n (f n).
Proof.
  intros H Hn HP Hv. right.
  assert (init <= v) by (destruct H as [(_ & -> & _)|(_ & _ & _ & ? & _)]; lia).
  split_and!; [lia|lia|done|done|lia|]. intros m Hm HPm.
  destruct (decide (m = n)) as [->|]; [lia|].
  destruct H as [(_ & -> & H)|(_ & _ & _ & _ & H)]; specialize (H m ltac:(lia) HPm); lia.
Qed.

Lemma picked_keep P f init n o v : picked P f init n o v -> 1 <= n -> (P n -> f n <= v) ->
  picked P f init (n + 1) o v.
Proof.
  intros [(-> & -> & H)|(Ho & Hv & HP & Hi & H)] Hn Hp; [left|right].
  - split_and!; [done|done|]. intros m Hm HPm. destruct (decide (m = n)) as [->|]; [by apply Hp|]. apply H; [lia|done].
  - split_and!; [lia|lia|done|done|done|]. intros m Hm HPm. destruct (decide (m = n)) as [->|]; [|apply H; [lia|done]].
    split; [by apply Hp|lia].
Qed.

Lemma at_classes {A} (d : A) (f : Z -> A) n : 0 <= n < MAX_NUMBER_OF_SLAB_CLASSES -> at_ d (f <$> classes) n = f n.
Proof.
  intros Hn. unfold at_, classes. rewrite list_lookup_fmap, lookup_seqZ_lt by lia. simpl. f_equal. lia.
Qed.

(** ** The windows

    A window is an array of [W] samples per class; a pass over the classes writes
    the slot [k] of each. *)
Section window.
Context {A : Type} (orig : list A) (W : Z) (k : nat) (smp : Z -> A).

Definition base (n : Z) : nat := Z.to_nat (n * W).

(** The window after the classes below [n] were given their sample. *)
Definition sampled (n : Z) (wd : list A) : Prop :=
  length wd = length orig /\
  forall m i, 0 <= m < MAX_NUMBER_OF_SLAB_CLASSES -> (i < Z.to_nat W)%nat ->
    wd !! (base m + i)%nat = if decide (i = k /\ 1 <= m < n) then Some (smp m) else orig !! (base m + i)%nat.

Context (Hk : (k < Z.to_nat W)%nat) (Hlen : length orig = Z.to_nat (MAX_NUMBER_OF_SLAB_CLASSES * W)).

Lemma slot_inj m m' i i' : 0 <= m -> 0 <= m' -> (i < Z.to_nat W)%nat -> (i' < Z.to_nat W)%nat ->
  (base m + i)%nat = (base m' + i')%nat -> m = m' /\ i = i'.
Proof using Type. clear Hk Hlen. intros Hm Hm' Hi Hi' E. unfold base in E. assert (m = m') as -> by nia. split; [done|lia]. Qed.

Lemma slot_in m i : 0 <= m < MAX_NUMBER_OF_SLAB_CLASSES -> (i < Z.to_nat W)%nat -> (base m + i < length orig)%nat.
Proof. intros Hm Hi. rewrite Hlen. unfold base. unfold MAX_NUMBER_OF_SLAB_CLASSES in *. nia. Qed.

Lemma sampled_start : sampled 1 orig.
Proof using Type.
  clear Hk Hlen. split; [done|]. intros m i _ _. by rewrite decide_False by lia. Qed.

Lemma sampled_step n wd : 1 <= n < MAX_NUMBER_OF_SLAB_CLASSES -> sampled n wd ->
  sampled (n + 1) (<[(base n + k)%nat := smp n]> wd).
Proof.
  intros Hn [Hl H]. split; [by rewrite length_insert|]. intros m i Hm Hi.
  destruct (decide (m = n /\ i = k)) as [[-> ->]|Hne].
  - rewrite list_lookup_insert_eq by (rewrite Hl; by apply slot_in; [lia|]). by rewrite decide_True by lia.
  - rewrite list_lookup_insert_ne
      by (intros E; apply Hne; destruct (slot_inj n m k i ltac:(lia) ltac:(lia) Hk Hi E); by split).
    rewrite H by done.
    destruct (decide (i = k /\ 1 <= m < n)) as [|Hc]; [by rewrite decide_True by lia|].
    rewrite decide_False; [done|]. intros [-> ?]. apply Hc. split; [done|]. destruct (decide (m = n)) as [->|]; [|lia].
    by destruct Hne.
Qed.

Lemma sampled_done n wd : MAX_NUMBER_OF_SLAB_CLASSES <= n -> sampled n wd -> sampled (n + 1) wd.
Proof using Type.
  clear Hk Hlen.
  intros Hn [Hl H]. split; [done|]. intros m i Hm Hi. rewrite H by done.
  destruct (decide (i = k /\ 1 <= m < n)) as [Hc|Hc]; [by rewrite decide_True by lia|].
  rewrite decide_False; [done|]. intros Hx. apply Hc. lia.
Qed.

(** The class the pass comes to has the samples it had at the start. *)
Lemma sampled_class n wd : 1 <= n < MAX_NUMBER_OF_SLAB_CLASSES -> sampled n wd ->
  take (Z.to_nat W) (drop (base n) wd) = take (Z.to_nat W) (drop (base n) orig).
Proof using Type.
  clear Hk Hlen.
  intros Hn [Hl H]. apply list_eq. intros i. destruct (decide (i < Z.to_nat W)%nat) as [Hi|Hi].
  - rewrite !lookup_take_lt, !lookup_drop, H by (done || lia). by rewrite decide_False by lia.
  - rewrite !lookup_take_ge by lia. done.
Qed.

Lemma class_insert n (wd : list A) x :
  take (Z.to_nat W) (drop (base n) (<[(base n + k)%nat := x]> wd)) = <[k := x]> (take (Z.to_nat W) (drop (base n) wd)).
Proof using Hk. clear Hlen. rewrite drop_insert_ge by lia. replace (base n + k - base n)%nat with k by lia. by rewrite take_insert_lt. Qed.
End window.

(** ** What the classes look like

    The specifications of the two algorithms are written from the statistics of the
    item store and the samples in the window, not with the algorithms' functions. *)

Definition Zsum (f : Z -> Z) (n : Z) : Z := foldr Z.add 0 (f <$> seqZ 0 n).

Module Now.
Section now.
Context (s : st).

Definition evictions (n : Z) : Z := evicted (istat s (Z.lor n COLD_LRU)).
Definition failures (n : Z) : Z := outofmemory (istat s (Z.lor n HOT_LRU)).
Definition tail (n : Z) : Z := aget (tails (lru s)) (Z.lor n COLD_LRU).
Definition tail_age (n : Z) : Z := if decide (tail n = 0) then 0 else u32 (now s - time (geti (mem s) (tail n))).
Definition pages (n : Z) : Z := slabs (getc (slb s) n).
Definition free (n : Z) : Z := sl_curr (getc (slb s) n).
Definition page_chunks (n : Z) : Z := perslab (getc (slb s) n).

(** Since [b] the class evicted an item or ran out of memory; it was given a page. *)
Definition starving (b : list item_stats_automove) (n : Z) : bool :=
  (am_evicted (iam b n) <? evictions n) || (am_outofmemory (iam b n) <? failures n).
Definition got_page (b : list slab_stats_automove) (n : Z) : bool := total_pages (sam b n) <? pages n.

Lemma iam_now n : 0 <= n < 64 ->
  iam (fill_item_stats_automove s) n = ItemAutomove (evictions n) (failures n) (tail_age n).
Proof.
  intros Hn. unfold iam, fill_item_stats_automove. rewrite at_classes by done. f_equal. unfold tail_age. fold (tail n).
  destruct (decide (tail n = 0)), (decide (tail n <> 0)); done || lia.
Qed.

Lemma sam_now n : 0 <= n < 64 ->
  sam (fill_slab_stats_automove (slb s)) n = SlabAutomove (page_chunks n) (csize (getc (slb s) n)) (free n) (pages n).
Proof. intros Hn. unfold sam, fill_slab_stats_automove. by rewrite at_classes. Qed.

Lemma starving_evicting b n : 0 <= n < 64 ->
  evicting (iam b n) (iam (fill_item_stats_automove s) n) = starving b n.
Proof.
  intros Hn. rewrite iam_now by done. apply eq_true_iff_eq. unfold evicting, starving. simpl.
  rewrite bool_decide_eq_true, orb_true_iff, !Z.ltb_lt. lia.
Qed.

Lemma got_page_grown b n : 0 <= n < 64 ->
  grown (sam b n) (sam (fill_slab_stats_automove (slb s)) n) = got_page b n.
Proof.
  intros Hn. rewrite sam_now by done. apply eq_true_iff_eq. unfold grown, got_page. simpl.
  rewrite bool_decide_eq_true, Z.ltb_lt. lia.
Qed.
End now.
End Now.

(** A sum kept modulo [M] is the sum modulo [M]. *)
Lemma foldl_sum {A B} (add : A -> B -> A) (f : A -> Z) (g : B -> Z) (M : Z)
    (Hadd : forall w d, f (add w d) = (f w + g d) mod M) l :
  forall w, f w = f w mod M -> f (foldl add w l) = (f w + foldr Z.add 0 (g <$> l)) mod M.
Proof.
  induction l as [|d l IH]; intros w Hw; simpl; [by rewrite Z.add_0_r|].
  rewrite IH by (rewrite Hadd; symmetry; apply Zmod_mod). rewrite Hadd, Zplus_mod_idemp_l. by rewrite Z.add_assoc.
Qed.

Lemma base_slot W n i : 0 <= n -> 0 <= W -> 0 <= i -> (base W n + Z.to_nat i)%nat = Z.to_nat (n * W + i).
Proof. intros. unfold base. by rewrite Z2Nat.inj_add by nia. Qed.

Lemma class_slots {A} (wd : list A) (W n : Z) (d : A) : 0 < W -> 0 <= n < MAX_NUMBER_OF_SLAB_CLASSES ->
  length wd = Z.to_nat (MAX_NUMBER_OF_SLAB_CLASSES * W) ->
  take (Z.to_nat W) (drop (base W n) wd) = (fun i => default d (wd !! Z.to_nat (n * W + i))) <$> seqZ 0 W.
Proof.
  intros HW Hn Hl. apply list_eq. intros i. rewrite list_lookup_fmap.
  destruct (decide (i < Z.to_nat W)%nat) as [Hi|Hi].
  - rewrite lookup_take_lt, lookup_drop, lookup_seqZ_lt by lia. simpl.
    rewrite <- base_slot, Z.add_0_l, Nat2Z.id by lia.
    destruct (lookup_lt_is_Some_2 wd (base W n + i)) as [x ->]; [|done]. apply (slot_in wd W 0); [lia|done..].
  - rewrite lookup_take_ge by lia. rewrite lookup_seqZ_ge by lia. done.
Qed.

Lemma picked_ext P P' f f' init n o v : (forall m, 1 <= m < n -> (P m <-> P' m) /\ f m = f' m) ->
  picked P f init n o v -> picked P' f' init n o v.
Proof.
  intros E [(-> & -> & H)|(Ho & -> & HP & Hi & H)]; [left|right].
  - split_and!; [done..|]. intros m Hm Hp. destruct (E m Hm) as [[_ E1] <-]. by apply H, E1.
  - destruct (E o Ho) as [E1 E2]. rewrite <- E2. split_and!; [lia|lia|done|by apply E1|done|].
    intros m Hm Hp. destruct (E m Hm) as [[_ E3] <-]. by apply H, E3.
Qed.

(** ** The default automover *)

Module BaseProofs.
Import Base.

Section window.
Context (a : slab_automove).
Let W := window_size a.
Let k := Z.to_nat (window_cur a mod W).

(** The samples of a class but the oldest, which the pass replaces. *)
Definition others (n : Z) : list window_data_t :=
  <[k := wd0]> (take (Z.to_nat W) (drop (base W n) (window_data a))).
Definition sums (n : Z) : window_data_t := window_sum (others n) W.
Definition age_avg (n : Z) : Z := wd_age (sums n) / W.

Definition reclaimable (n : Z) : Prop := reclaim_free (sam (sam_after a) n) = true /\ wd_dirty (sums n) = 0.
Definition source_class (n : Z) : Prop := MIN_PAGES_FOR_SOURCE < total_pages (sam (sam_after a) n).
Definition starved_class (n : Z) : Prop := W / 2 < wd_evicted (sums n).

(** The classes below [stop] looked at, none of which can be reclaimed from. *)
Definition stops (stop : Z) : Prop :=
  1 <= stop <= MAX_NUMBER_OF_SLAB_CLASSES /\ (forall n, 1 <= n < stop -> ~ reclaimable n) /\
  (stop < MAX_NUMBER_OF_SLAB_CLASSES -> reclaimable stop).

Abbreviation sampled := (sampled (window_data a) W k (sample a)).

Context (HW : 0 < W) (Hlen : length (window_data a) = Z.to_nat (MAX_NUMBER_OF_SLAB_CLASSES * W)).

Lemma slot_lt : (k < Z.to_nat W)%nat.
Proof. unfold k. pose proof (Z.mod_pos_bound (window_cur a) W HW). lia. Qed.

(** The sums the loop computes are those of the window it started with. *)
Lemma window_sum_others n wd : 1 <= n < MAX_NUMBER_OF_SLAB_CLASSES -> sampled n wd ->
  window_sum (drop (base W n) (<[(base W n + k)%nat := wd0]> wd)) W = sums n.
Proof.
  intros Hn H. unfold sums, window_sum, others.
  rewrite (class_insert _ _ slot_lt), (sampled_class _ _ _ _ n wd Hn H), (take_ge (<[k:=_]> _)); [done|].
  rewrite length_insert, length_take. lia.
Qed.

(** What the loop knows when it comes to class [n]. *)
Record scanned (n : Z) (c : scan) : Prop := {
  sn_wd : sampled n (sc_wd c);
  sn_none : forall m, 1 <= m < n -> ~ reclaimable m;
  sn_old : picked source_class age_avg 0 n (oldest c) (oldest_age c);
  sn_young : picked starved_class (fun m => - age_avg m) (- NOT_FOUND_AGE) n (youngest c) (- youngest_age c);
  sn_ev : youngest_evicting c = true -> wd_evicted (sample a (youngest c)) = 1;
  sn_ev2 : youngest c <> -1 -> wd_evicted (sample a (youngest c)) = 1 -> youngest_evicting c = true;
  sn_src : src c = -1 /\ dst c = -1
}.

Lemma scan_class_spec n c : 1 <= n < MAX_NUMBER_OF_SLAB_CLASSES -> scanned n c ->
  let '(c', brk) := scan_class a n c in
  if brk then reclaimable n /\ sampled (n + 1) (sc_wd c') /\ src c' = n /\ dst c' = 0 /\
    oldest c' = oldest c /\ oldest_age c' = oldest_age c /\ youngest c' = youngest c /\
    youngest_age c' = youngest_age c /\ youngest_evicting c' = youngest_evicting c
  else scanned (n + 1) c'.
Proof.
  intros Hn [H1 H2 H3 H4 H5 H6 H7]. unfold scan_class. fold W k. fold (base W n).
  rewrite (window_sum_others n _ Hn H1). fold (age_avg n). cbn zeta.
  rewrite list_insert_insert_eq.
  pose proof (sampled_step _ _ _ _ slot_lt Hlen n _ Hn H1) as Hwd. set (c1 := c <| sc_wd := _ |>).
  destruct (reclaim_free (sam (sam_after a) n) && _) eqn:Er.
  { apply andb_true_iff in Er as [E1 E2%bool_decide_eq_true]. by split_and!. }
  apply andb_false_iff in Er. rewrite bool_decide_eq_false in Er.
  assert (forall m, 1 <= m < n + 1 -> ~ reclaimable m) as H2'.
  { intros m Hm [R1 R2]. destruct (decide (m = n)) as [->|]; [destruct Er; congruence|]. by apply (H2 m ltac:(lia)). }
  set (c2 := if decide (oldest_age _ < age_avg n /\ _) then _ else _).
  assert (sc_wd c2 = sc_wd c1 /\ youngest c2 = youngest c /\ youngest_age c2 = youngest_age c /\
    youngest_evicting c2 = youngest_evicting c /\ src c2 = src c /\ dst c2 = dst c)
    as (Ew & Ey & Ea & Ee & Es & Ed) by (unfold c2; by case_decide).
  assert (picked source_class age_avg 0 (n + 1) (oldest c2) (oldest_age c2)) as Ho.
  { unfold c2. case_decide as Hc; simpl.
    - apply (picked_take _ _ _ _ _ _ H3); [lia|apply Hc|apply Hc].
    - apply (picked_keep _ _ _ _ _ _ H3); [lia|]. intros Hs.
      destruct (decide (oldest_age c < age_avg n)); [|lia]. by destruct Hc. }
  clearbody c2. case_decide as Hy; rewrite ?Ea, ?Ey in Hy.
  - split; simpl; rewrite ?Ew, ?Es, ?Ed; [done|done|done| | | |done].
    + apply (picked_take _ _ _ _ _ _ H4); [lia|apply Hy|lia].
    + intros Ev%bool_decide_eq_true. destruct (evicting _ _); [done|]. by destruct Ev.
    + intros _ ->. by apply bool_decide_eq_true.
  - split; simpl; rewrite ?Ew, ?Es, ?Ed, ?Ey, ?Ea, ?Ee; [done|done|done| |done|done|done].
    apply (picked_keep _ _ _ _ _ _ H4); [lia|]. intros Hs. unfold starved_class in Hs. lia.
Qed.

Lemma scan_classes_spec len : forall n c, 1 <= n -> n + Z.of_nat len = MAX_NUMBER_OF_SLAB_CLASSES -> scanned n c ->
  let c' := scan_classes a (seqZ n (Z.of_nat len)) c in
  exists stop, stops stop /\ sampled (stop + 1) (sc_wd c') /\
    picked source_class age_avg 0 stop (oldest c') (oldest_age c') /\
    picked starved_class (fun m => - age_avg m) (- NOT_FOUND_AGE) stop (youngest c') (- youngest_age c') /\
    (youngest c' <> -1 -> youngest_evicting c' = true <-> wd_evicted (sample a (youngest c')) = 1) /\
    (src c', dst c') = if decide (stop < MAX_NUMBER_OF_SLAB_CLASSES) then (stop, 0) else (-1, -1).
Proof.
  induction len as [|len IH]; intros n c Hn He Hs.
  - destruct Hs as [H1 H2 H3 H4 H5 H6 [H7 H8]]. exists n. simpl. rewrite H7, H8.
    split_and!; try done;
      [unfold stops; split_and!; [lia|lia|done|lia]|apply sampled_done; [lia|done]|by split; auto|by rewrite decide_False by lia].
  - rewrite Nat2Z.inj_succ in *. rewrite seqZ_cons by lia. simpl.
    pose proof (scan_class_spec n c ltac:(lia) Hs) as H. destruct (scan_class a n c) as [c' []].
    + destruct H as (Hr & Hw & -> & -> & -> & -> & -> & -> & ->). destruct Hs as [H1 H2 H3 H4 H5 H6 H7].
      exists n. split_and!; try done; [unfold stops; split_and!; [lia|lia|done|done]|by split; auto|by rewrite decide_True by lia].
    + replace (Z.pred (Z.succ (Z.of_nat len))) with (Z.of_nat len) by lia. apply IH; [lia|lia|done].
Qed.
End window.

Definition well_formed (a : slab_automove) : Prop :=
  0 < window_size a /\ length (window_data a) = Z.to_nat (MAX_NUMBER_OF_SLAB_CLASSES * window_size a).

(** The automover after it read the statistics. *)
Definition refreshed (s : st) (a : slab_automove) : slab_automove :=
  a <| iam_after := fill_item_stats_automove s |> <| sam_after := fill_slab_stats_automove (slb s) |>
    <| window_cur ::= fun n => u32 (n + 1) |>.

(** The decision: the page of the oldest class goes to the youngest, or a page of
    [stop] to the global pool. *)
Definition decision (a : slab_automove) (stop o y : Z) : Z * Z :=
  if bool_decide (y <> -1 /\ o <> -1 /\ window_size a < window_cur a) &&
     (below_ratio (age_avg a y) (age_avg a o) (max_age_ratio a) && bool_decide (wd_evicted (sample a y) = 1))
  then (o, y)
  else if decide (stop < MAX_NUMBER_OF_SLAB_CLASSES) then (stop, 0) else (-1, -1).

(** [o] is the first class with the greatest average age above 0 among those below
    [stop] with pages to spare, [y] the first with the least average age among those
    that were evicting in more than half of the window. *)
Definition oldest_class (a : slab_automove) (stop o : Z) : Prop :=
  exists v, picked (source_class a) (age_avg a) 0 stop o v.
Definition youngest_class (a : slab_automove) (stop y : Z) : Prop :=
  exists v, picked (starved_class a) (fun m => - age_avg a m) (- NOT_FOUND_AGE) stop y v.

Lemma picked_age P f init n o v : picked P f init n o v -> o <> -1 -> v = f o.
Proof. intros [(-> & _)|(_ & ? & _)]; done. Qed.

Lemma run_decides s a : well_formed a -> exists a' stop o y, let a1 := refreshed s a in
  stops a1 stop /\ oldest_class a1 stop o /\ youngest_class a1 stop y /\
  slab_automove_run s a = Ok (decision a1 stop o y, a') /\
  well_formed a' /\ sampled (window_data a) (window_size a) (Z.to_nat (window_cur a1 mod window_size a)) (sample a1) (stop + 1) (window_data a') /\
  iam_before a' = iam_after a1 /\ sam_before a' = sam_after a1 /\ window_cur a' = window_cur a1.
Proof.
  intros [HW Hlen]. set (a1 := refreshed s a).
  assert (0 < window_size a1 /\ length (window_data a1) = Z.to_nat (MAX_NUMBER_OF_SLAB_CLASSES * window_size a1))
    as [HW1 Hlen1] by done.
  destruct (scan_classes_spec a1 HW1 Hlen1 63 1 (scan0 (window_data a1)) ltac:(lia) eq_refl)
    as (stop & Hst & Hw & Ho & Hy & He & Es).
  { split; simpl; try done; [exact (sampled_start (window_data a1) _ _ _)|intros; lia|apply picked_init|apply picked_init]. }
  unfold slab_automove_run. fold (refreshed s a). fold a1. rewrite decide_False by (simpl; lia).
  change (seqZ POWER_SMALLEST (MAX_NUMBER_OF_SLAB_CLASSES - 1)) with (seqZ 1 (Z.of_nat 63)).
  set (c := scan_classes a1 (seqZ 1 (Z.of_nat 63)) (scan0 (window_data a1))) in *. clearbody c.
  exists (a1 <| window_data := sc_wd c |> <| iam_before := iam_after a1 |> <| sam_before := sam_after a1 |>),
    stop, (oldest c), (youngest c).
  split_and!; [done|by eexists|by eexists| |split; [done|exact (eq_trans (proj1 Hw) Hlen)]|done|done|done|done].
  unfold decision. cbn [max_age_ratio window_size window_cur update].
  destruct (decide (youngest c <> -1 /\ oldest c <> -1)) as [[H1 H2]|Hn].
  - rewrite <- (picked_age _ _ _ _ _ _ Ho H2).
    replace (age_avg a1 (youngest c)) with (youngest_age c)
      by (pose proof (picked_age _ _ _ _ _ _ Hy H1); simpl in *; lia).
    replace (bool_decide (wd_evicted (sample a1 (youngest c)) = 1)) with (youngest_evicting c).
    + destruct (_ && _); [done|]. by rewrite <- Es.
    + apply eq_true_iff_eq. by rewrite bool_decide_eq_true, He.
  - rewrite !bool_decide_eq_false_2 by tauto. simpl. by rewrite <- Es.
Qed.
End BaseProofs.

(** The specification of the default algorithm, from the statistics of [s] and the
    state [a] the last pass left. *)
Module BaseSpec.
Import Base.
Section spec.
Context (s : st) (a : slab_automove).
Let W := window_size a.

(** The pass this one is, and the sample it replaces. *)
Definition cur : Z := u32 (window_cur a + 1).
Definition slot : Z := cur mod W.

(** Sample [i] of class [n], and the sum of a component over those of the other passes. *)
Definition entry (n i : Z) : window_data_t := default wd0 (window_data a !! Z.to_nat (n * W + i)).
Definition total (f : window_data_t -> Z) (n : Z) : Z :=
  Zsum (fun i => if decide (i = slot) then 0 else f (entry n i)) W mod 2 ^ 64.
Definition average_age (n : Z) : Z := total wd_age n / W.

(** More than two and a half pages of free chunks and nothing moved; pages to spare;
    evicting in more than half of the window. *)
Definition reclaimable (n : Z) : Prop :=
  5 * Now.page_chunks s n < 2 * Now.free s n /\ total wd_dirty n = 0.
Definition has_pages (n : Z) : Prop := 2 < Now.pages s n.
Definition starved (n : Z) : Prop := W / 2 < total wd_evicted n.

(** The first class to reclaim from; 64 for none. *)
Definition stops (stop : Z) : Prop :=
  1 <= stop <= 64 /\ (forall n, 1 <= n < stop -> ~ reclaimable n) /\ (stop < 64 -> reclaimable stop).

(** Among the classes before it, the first with the greatest average age of those
    with pages to spare, the first with the least of those starved. *)
Definition oldest_class (stop o : Z) : Prop := exists v, picked has_pages average_age 0 stop o v.
Definition youngest_class (stop y : Z) : Prop :=
  exists v, picked starved (fun n => - average_age n) (- NOT_FOUND_AGE) stop y v.

(** The window has filled, both were found, the youngest is evicting at this moment and
    its age is below the ratio of the other's. *)
Definition unbalanced (o y : Z) : Prop :=
  o <> -1 /\ y <> -1 /\ W < cur /\ Now.starving s (iam_before a) y = true /\
  SFltb (b64_of_Z (average_age y)) (b64_mul (b64_of_Z (average_age o)) (max_age_ratio a)) = true.

Inductive verdict (stop o y : Z) : Z * Z -> Prop :=
  | V_balance : unbalanced o y -> verdict stop o y (o, y)
  | V_reclaim : ~ unbalanced o y -> stop < 64 -> verdict stop o y (stop, 0)
  | V_nothing : ~ unbalanced o y -> stop = 64 -> verdict stop o y (-1, -1).

(** What the pass leaves: the new sample of every class it looked at, the
    statistics it decided on. *)
Record recorded (stop : Z) (a' : slab_automove) : Prop := {
  rc_window n i : 0 <= n < 64 -> 0 <= i < W -> window_data a' !! Z.to_nat (n * W + i) =
    if decide (i = slot /\ 1 <= n <= stop) then
      Some (WindowData (Now.tail_age s n)
        (Z.b2z (Now.starving s (iam_before a) n || Now.got_page s (sam_before a) n))
        (Z.b2z (Now.starving s (iam_before a) n)))
    else window_data a !! Z.to_nat (n * W + i);
  rc_items n : 0 <= n < 64 ->
    iam (iam_before a') n = ItemAutomove (Now.evictions s n) (Now.failures s n) (Now.tail_age s n);
  rc_slabs n : 0 <= n < 64 -> sam (sam_before a') n =
    SlabAutomove (Now.page_chunks s n) (csize (getc (slb s) n)) (Now.free s n) (Now.pages s n);
  rc_cur : window_cur a' = cur
}.
End spec.

Section bridge.
Context (s : st) (a : slab_automove) (Hwf : BaseProofs.well_formed a).
Let a1 := BaseProofs.refreshed s a.
Let W := window_size a.

Lemma total_sums f n (Hf : forall w d, f (add_wd w d) = (f w + f d) mod 2 ^ 64) (H0 : f wd0 = 0) :
  0 <= n < 64 -> f (BaseProofs.sums a1 n) = total a f n.
Proof.
  intros Hn. destruct Hwf as [HW Hl]. unfold BaseProofs.sums, window_sum, total.
  rewrite (foldl_sum _ f f _ Hf), H0 by (rewrite H0; reflexivity). rewrite Z.add_0_l. unfold Zsum. f_equal. f_equal.
  unfold BaseProofs.others. rewrite take_ge by (rewrite length_insert, length_take; simpl; lia).
  change (window_data a1) with (window_data a). change (window_size a1) with (window_size a).
  change (window_cur a1) with (cur a). fold (slot a).
  rewrite (class_slots _ _ n wd0 HW Hn Hl), list_fmap_insert, <- list_fmap_compose, H0.
  assert (0 <= slot a < window_size a) as Hs by (apply Z.mod_pos_bound; exact HW).
  apply list_eq. intros i. destruct (decide (i < Z.to_nat (window_size a))%nat) as [Hi|Hi].
  - rewrite (list_lookup_fmap (fun i => if decide _ then _ else _)), lookup_seqZ_lt by lia. simpl.
    destruct (decide (i = Z.to_nat (slot a))) as [->|Hne].
    + rewrite list_lookup_insert_eq by (rewrite length_fmap, length_seqZ; lia). by rewrite decide_True by lia.
    + rewrite list_lookup_insert_ne by done. rewrite list_lookup_fmap, lookup_seqZ_lt by lia. simpl.
      by rewrite decide_False by lia.
  - rewrite !lookup_ge_None_2; [done| |]; rewrite ?length_insert, !length_fmap, length_seqZ; lia.
Qed.

Lemma average_age_avg n : 0 <= n < 64 -> BaseProofs.age_avg a1 n = average_age a n.
Proof. intros Hn. unfold BaseProofs.age_avg, average_age. by rewrite (total_sums wd_age). Qed.

Lemma reclaimable_spec n : 0 <= n < 64 -> BaseProofs.reclaimable a1 n <-> reclaimable s a n.
Proof.
  intros Hn. unfold BaseProofs.reclaimable, reclaimable. rewrite (total_sums wd_dirty) by done.
  unfold reclaim_free. change (sam_after a1) with (fill_slab_stats_automove (slb s)).
  rewrite (Now.sam_now s) by done. by rewrite bool_decide_eq_true.
Qed.

Lemma has_pages_spec n : 0 <= n < 64 -> BaseProofs.source_class a1 n <-> has_pages s n.
Proof.
  intros Hn. unfold BaseProofs.source_class. change (sam_after a1) with (fill_slab_stats_automove (slb s)).
  by rewrite (Now.sam_now s).
Qed.

Lemma starved_spec n : 0 <= n < 64 -> BaseProofs.starved_class a1 n <-> starved a n.
Proof. intros Hn. unfold BaseProofs.starved_class, starved. by rewrite (total_sums wd_evicted). Qed.

Lemma sample_spec n : 0 <= n < 64 -> sample a1 n = WindowData (Now.tail_age s n)
  (Z.b2z (Now.starving s (iam_before a) n || Now.got_page s (sam_before a) n))
  (Z.b2z (Now.starving s (iam_before a) n)).
Proof.
  intros Hn. unfold sample. change (iam_before a1) with (iam_before a). change (sam_before a1) with (sam_before a).
  change (iam_after a1) with (fill_item_stats_automove s). change (sam_after a1) with (fill_slab_stats_automove (slb s)).
  rewrite Now.starving_evicting, Now.got_page_grown, Now.iam_now by done. simpl.
  by destruct (Now.starving _ _ _), (Now.got_page _ _ _).
Qed.

Lemma stops_spec stop : BaseProofs.stops a1 stop -> stops s a stop.
Proof.
  unfold BaseProofs.stops, MAX_NUMBER_OF_SLAB_CLASSES. intros (H1 & H2 & H3). split_and!; [lia|lia| |].
  - intros n Hn Hr. apply (H2 n Hn). apply reclaimable_spec; [lia|done].
  - intros Hl. apply reclaimable_spec; [lia|]. by apply H3.
Qed.

Lemma verdict_spec stop o y : stops s a stop -> oldest_class s a stop o -> youngest_class a stop y ->
  verdict s a stop o y (BaseProofs.decision a1 stop o y).
Proof.
  intros (Hst & _ & _) [vo Ho] [vy Hy]. unfold BaseProofs.decision.
  assert ((bool_decide (y <> -1 /\ o <> -1 /\ window_size a1 < window_cur a1) &&
    (below_ratio (BaseProofs.age_avg a1 y) (BaseProofs.age_avg a1 o) (max_age_ratio a1) &&
     bool_decide (wd_evicted (sample a1 y) = 1))) = true <-> unbalanced s a o y) as Hu.
  { unfold unbalanced. rewrite !andb_true_iff, !bool_decide_eq_true. change (window_cur a1) with (cur a).
    split; [intros ((H1 & H2 & H3) & H4 & H5)|intros (H1 & H2 & H3 & H4 & H5)].
    all: assert (1 <= y < stop) by (destruct Hy as [[? _]|[? _]]; [done|lia]);
      assert (1 <= o < stop) by (destruct Ho as [[? _]|[? _]]; [done|lia]);
      rewrite ?sample_spec, ?average_age_avg in * by lia.
    - split_and!; try done. simpl in H5. by destruct (Now.starving s _ y).
    - split_and!; try done. simpl. by rewrite H4. }
  destruct (_ && _).
  - apply V_balance. by apply Hu.
  - assert (~ unbalanced s a o y) as Hnu by (rewrite <- Hu; done). unfold MAX_NUMBER_OF_SLAB_CLASSES.
    case_decide; constructor; done || lia.
Qed.

Lemma recorded_spec stop a' : 1 <= stop -> 
  sampled (window_data a) W (Z.to_nat (window_cur a1 mod W)) (sample a1) (stop + 1) (window_data a') ->
  iam_before a' = iam_after a1 -> sam_before a' = sam_after a1 -> window_cur a' = window_cur a1 ->
  recorded s a stop a'.
Proof.
  intros Hs [_ Hw] Ei Es Ec. destruct Hwf as [HW Hl]. split; [| | |done].
  - intros n i Hn Hi. specialize (Hw n (Z.to_nat i) Hn ltac:(unfold W; lia)).
    rewrite <- !(base_slot (window_size a) n i) by lia.
    unfold W in Hw. rewrite Hw. change (window_cur a1 mod window_size a) with (slot a).
    assert (0 <= slot a < window_size a) by (apply Z.mod_pos_bound; exact HW).
    destruct (decide (i = slot a /\ 1 <= n <= stop)).
    + rewrite decide_True by lia. by rewrite sample_spec.
    + by rewrite decide_False by lia.
  - intros n Hn. rewrite Ei. by apply Now.iam_now.
  - intros n Hn. rewrite Es. by apply Now.sam_now.
Qed.
End bridge.
End BaseSpec.


(** ** The automover with external storage *)

Module ExtProofs.
Import Ext.

(** A page reclaimed goes to the global pool. *)
Definition pool_of (r : Z) : Z := if decide (r = -1) then -1 else SLAB_GLOBAL_PAGE_POOL.

Section window.
Context (a : slab_automove).
Let W := window_size a.

Definition sums (n : Z) : window_data_t :=
  window_sum (take (Z.to_nat W) (drop (base W n) (window_data a))) W.
Definition age_avg (n : Z) : Z := wd_age (sums n) / W.

(** More than two and a half pages free, nothing moved in the window, and a class
    of small chunks or one with excess memory for the whole window. *)
Definition reclaimable (n : Z) : Prop :=
  reclaim_free (sam (sam_after a) n) = true /\ wd_dirty (sums n) = 0 /\
  (small_slab a n = true \/ W <= excess_free (sums n)).
Definition source_class (n : Z) : Prop :=
  small_slab a n = false /\ MIN_PAGES_FOR_SOURCE < total_pages (sam (sam_after a) n).
Definition starved_class (n : Z) : Prop :=
  small_slab a n = false /\ total_pages (sam (sam_after a) n) <> 0 /\ excess_free (sums n) < W /\
  ~ (relaxed (sums n) <> 0 /\ at_ 0 (free_mem a) n < free_chunks (sam (sam_after a) n)).

(** The last class below [n] that can be reclaimed from. *)
Definition last_reclaimable (n r : Z) : Prop :=
  (r = -1 /\ forall m, 1 <= m < n -> ~ reclaimable m) \/
  (1 <= r < n /\ reclaimable r /\ forall m, r < m < n -> ~ reclaimable m).

Abbreviation sampled := (sampled (window_data a) W (slot a) (sample a)).

Context (HW : 0 < W) (Hlen : length (window_data a) = Z.to_nat (MAX_NUMBER_OF_SLAB_CLASSES * W)).

Lemma ext_slot_lt : (slot a < Z.to_nat W)%nat.
Proof. unfold slot. pose proof (Z.mod_pos_bound (window_cur a) W HW). fold W. lia. Qed.

Record scanned (n : Z) (c : scan) : Prop := {
  xn_wd : sampled n (sc_wd c);
  xn_src : last_reclaimable n (src c);
  xn_dst : dst c = pool_of (src c);
  xn_free : too_free c = bool_decide (src c <> -1);
  xn_old : picked source_class age_avg 0 n (oldest c) (oldest_age c);
  xn_young : picked starved_class (fun m => - age_avg m) (- NOT_FOUND_AGE) n (youngest c) (- youngest_age c)
}.

Lemma ext_scan_class_spec n c : 1 <= n < MAX_NUMBER_OF_SLAB_CLASSES -> scanned n c ->
  scanned (n + 1) (scan_class a c n).
Proof.
  intros Hn [H1 H2 H3 H4 H5 H6]. unfold scan_class, data_slot. fold W. fold (base W n).
  assert (window_sum (drop (base W n) (sc_wd c)) W = sums n) as ->.
  { unfold sums, window_sum. rewrite take_take, Nat.min_id. by rewrite (sampled_class _ _ _ _ n _ Hn H1). }
  fold (age_avg n). cbn zeta.
  pose proof (sampled_step _ _ _ _ ext_slot_lt Hlen n _ Hn H1) as Hwd. set (c1 := c <| sc_wd ::= _ |>).
  set (c2 := if reclaim_free _ && _ && _ then _ else _).
  assert (sc_wd c2 = sc_wd c1 /\ youngest c2 = youngest c /\ youngest_age c2 = youngest_age c /\
    oldest c2 = oldest c /\ oldest_age c2 = oldest_age c)
    as (Ew & Ey & Ea & Eo & Eoa) by (unfold c2; by destruct (_ && _)).
  assert (last_reclaimable (n + 1) (src c2) /\ dst c2 = pool_of (src c2) /\
    too_free c2 = bool_decide (src c2 <> -1)) as (Hr & Hd & Hf).
  { unfold c2. destruct (reclaim_free _ && _ && _) eqn:Er.
    - apply andb_true_iff in Er as [[E1 E2%bool_decide_eq_true]%andb_true_iff E3%orb_true_iff].
      rewrite bool_decide_eq_true in E3. cbn. unfold pool_of. rewrite decide_False, bool_decide_eq_true_2 by lia.
      split_and!; try done. right. split_and!; [lia|lia|done|lia].
    - assert (~ reclaimable n) as Hnr.
      { intros (R1 & R2 & R3). rewrite R1, (bool_decide_eq_true_2 _ R2) in Er. simpl in Er.
        apply orb_false_iff in Er as [E1 E2%bool_decide_eq_false]. destruct R3; [congruence|lia]. }
      split_and!; [|done|done]. destruct H2 as [[E H2]|(E1 & E2 & H2)]; [left|right]; simpl.
      + split; [done|]. intros m Hm. destruct (decide (m = n)) as [->|]; [done|]. apply H2. lia.
      + split_and!; [lia|lia|done|]. intros m Hm. destruct (decide (m = n)) as [->|]; [done|]. apply H2. lia. }
  clearbody c2. destruct (small_slab a n) eqn:Es.
  { split; rewrite ?Ew, ?Ey, ?Ea, ?Eo, ?Eoa; [done|done|done|done|..].
    - apply (picked_keep _ _ _ _ _ _ H5); [lia|]. intros [E _]. congruence.
    - apply (picked_keep _ _ _ _ _ _ H6); [lia|]. intros [E _]. congruence. }
  set (c3 := if decide (oldest_age _ < age_avg n /\ _) then _ else _).
  assert (sc_wd c3 = sc_wd c1 /\ youngest c3 = youngest c /\ youngest_age c3 = youngest_age c /\
    src c3 = src c2 /\ dst c3 = dst c2 /\ too_free c3 = too_free c2)
    as (Ew3 & Ey3 & Ea3 & Es3 & Ed3 & Ef3) 
    by (unfold c3; rewrite <- Ew, <- Ey, <- Ea; by destruct (decide (oldest_age c2 < _ /\ _))).
  assert (picked source_class age_avg 0 (n + 1) (oldest c3) (oldest_age c3)) as Ho.
  { unfold c3. destruct (decide (oldest_age c2 < _ /\ _)) as [Hc|Hc]; simpl; rewrite ?Eo, ?Eoa in *.
    - apply (picked_take _ _ _ _ _ _ H5); [lia|split; [done|apply Hc]|apply Hc].
    - apply (picked_keep _ _ _ _ _ _ H5); [lia|]. intros [_ Hs].
      destruct (decide (oldest_age c < age_avg n)); [|lia]. by destruct Hc. }
  clearbody c3. destruct (decide (age_avg n < _ /\ _)) as [Hy|Hy]; rewrite ?Ea3, ?Ey3 in Hy.
  - split; simpl; rewrite ?Ew3, ?Es3, ?Ed3, ?Ef3; [done|done|done|done|done|].
    destruct Hy as (Hy1 & Hy2 & Hy3 & Hy4). apply (picked_take _ _ _ _ _ _ H6); [lia| |lia].
    split_and!; [done|done|done|]. intros [Hx1 Hx2]. apply Hy4. split; [done|]. by apply bool_decide_eq_true.
  - split; simpl; rewrite ?Ew3, ?Es3, ?Ed3, ?Ef3, ?Ey3, ?Ea3; [done|done|done|done|done|].
    apply (picked_keep _ _ _ _ _ _ H6); [lia|]. intros (Hs1 & Hs2 & Hs3 & Hs4).
    destruct (decide (age_avg n < youngest_age c)); [|lia]. destruct Hy. split_and!; [done|done|done|].
    intros [Hx1 Hx2%bool_decide_eq_true]. by apply Hs4.
Qed.

Lemma ext_scan_spec len : forall n c, 1 <= n -> n + Z.of_nat len = MAX_NUMBER_OF_SLAB_CLASSES -> scanned n c ->
  scanned MAX_NUMBER_OF_SLAB_CLASSES (foldl (scan_class a) c (seqZ n (Z.of_nat len))).
Proof.
  induction len as [|len IH]; intros n c Hn He Hs.
  - replace MAX_NUMBER_OF_SLAB_CLASSES with n by lia. done.
  - rewrite Nat2Z.inj_succ in *. rewrite seqZ_cons by lia. simpl.
    replace (Z.pred (Z.succ (Z.of_nat len))) with (Z.of_nat len) by lia.
    apply IH; [lia|lia|]. by apply ext_scan_class_spec; [lia|].
Qed.
End window.

Record well_formed (a : slab_automove) : Prop := {
  wf_size : 0 < window_size a;
  wf_data : length (window_data a) = Z.to_nat (MAX_NUMBER_OF_SLAB_CLASSES * window_size a);
  wf_global : length (window_global a) = Z.to_nat (window_size a);
  wf_mem : length (free_mem a) = 64%nat;
  wf_chunks : length (ext_free_memchunks a) = 64%nat
}.

(** The automover after it read the statistics and set the memory to hold free. *)
Definition refreshed (s : st) (a : slab_automove) : slab_automove :=
  memcheck (now s) ((global_pool_check (slb s) a)
    <| iam_after := fill_item_stats_automove s |> <| sam_after := fill_slab_stats_automove (slb s) |>
    <| window_cur ::= fun n => u32 (n + 1) |>).

(** The state of the global pool over the window, before this pass. *)
Definition pool_window (s : st) (a : slab_automove) : window_global_t :=
  window_global_sum (window_global (global_pool_check (slb s) a)) (window_size a).

(** The youngest class wants a page: the pool was never low, and either it was too
    full in the whole window or there is nothing to reclaim and the ages are too far
    apart. *)
Definition wants (a : slab_automove) (wg : window_global_t) (r o y : Z) : Prop :=
  window_size a <= window_cur a /\ pool_low wg = 0 /\ y <> -1 /\
  (window_size a <= pool_high wg \/
   (r = -1 /\ o <> -1 /\ y <> o /\ below_ratio (age_avg a y) (age_avg a o) (max_age_ratio a) = true)).
Definition absorbed (a : slab_automove) (y : Z) : bool :=
  bool_decide (free_chunks (sam (sam_after a) y) <= at_ 0 (free_mem a) y).
Definition refills (a : slab_automove) (wg : window_global_t) (r o : Z) : Prop :=
  window_size a <= window_cur a /\ r = -1 /\ pool_low wg <> 0 /\ o <> -1.

Definition oldest_class (a : slab_automove) (o : Z) : Prop :=
  exists v, picked (source_class a) (age_avg a) 0 MAX_NUMBER_OF_SLAB_CLASSES o v.
Definition youngest_class (a : slab_automove) (y : Z) : Prop :=
  exists v, picked (starved_class a) (fun m => - age_avg a m) (- NOT_FOUND_AGE) MAX_NUMBER_OF_SLAB_CLASSES y v.

(** What memcheck does: the classes' reserves, the array of the settings. *)
Definition due (t : Z) (a : slab_automove) : bool := negb (t <? u32 (last_memcheck_run a + MEMCHECK_PERIOD)).
Definition hold (a : slab_automove) (n : Z) : Z := hold_free_of (sam (sam_after a) n) (free_ratio a).

Lemma at_insert {A} (d x : A) l n m : 0 <= n -> 0 <= m -> n < Z.of_nat (length l) ->
  at_ d (<[Z.to_nat n := x]> l) m = if decide (m = n) then x else at_ d l m.
Proof.
  intros Hn Hm Hl. unfold at_. destruct (decide (m = n)) as [E|E].
  - subst m. by rewrite list_lookup_insert_eq by lia.
  - by rewrite list_lookup_insert_ne by lia.
Qed.

(** The parts of [b] memcheck's loop leaves as they are in [a]. *)
Definition same_but_reserves (a b : slab_automove) : Prop :=
  b = a <| free_mem := free_mem b |> <| ext_free_memchunks := ext_free_memchunks b |>.

Lemma same_but_trans a b c : same_but_reserves a b -> same_but_reserves b c -> same_but_reserves a c.
Proof. unfold same_but_reserves. intros Eb ->. rewrite Eb. by destruct a. Qed.

Lemma memcheck_class_fields a n : length (free_mem a) = 64%nat -> length (ext_free_memchunks a) = 64%nat ->
  0 <= n < 64 -> let b := memcheck_class a n in
  same_but_reserves a b /\ length (free_mem b) = 64%nat /\ length (ext_free_memchunks b) = 64%nat /\
  (forall m, 0 <= m -> at_ 0 (free_mem b) m = if decide (m = n) then hold a n else at_ 0 (free_mem a) m) /\
  (forall m, 0 <= m -> at_ 0 (ext_free_memchunks b) m =
     if decide (m = n /\ pool_filled_once a = true) then hold a n else at_ 0 (ext_free_memchunks a) m).
Proof.
  intros H1 H2 Hn. unfold memcheck_class. fold (hold a n). cbn.
  destruct (decide (at_ 0 (ext_free_memchunks a) n <> hold a n /\ pool_filled_once a = true)) as [[E1 E2]|E]; simpl;
    rewrite ?length_insert; (split_and!; [by destruct a|done|done|intros m Hm; by rewrite at_insert by lia|]); intros m Hm.
  - rewrite at_insert by lia. destruct (decide (m = n)); [by rewrite decide_True|by rewrite decide_False by tauto].
  - case_decide as Ec; [|done]. destruct Ec as [-> E2]. destruct (decide (at_ 0 (ext_free_memchunks a) n = hold a n)); [done|].
    by destruct E.
Qed.

Lemma memcheck_classes_fields l : forall a, length (free_mem a) = 64%nat -> length (ext_free_memchunks a) = 64%nat ->
  Forall (fun n => 0 <= n < 64) l -> let b := foldl memcheck_class a l in
  same_but_reserves a b /\ length (free_mem b) = 64%nat /\ length (ext_free_memchunks b) = 64%nat /\
  (forall m, 0 <= m -> at_ 0 (free_mem b) m = if decide (m ∈ l) then hold a m else at_ 0 (free_mem a) m) /\
  (forall m, 0 <= m -> at_ 0 (ext_free_memchunks b) m =
     if decide (m ∈ l /\ pool_filled_once a = true) then hold a m else at_ 0 (ext_free_memchunks a) m).
Proof.
  induction l as [|n l IH]; intros a H1 H2 Hl; cbn zeta.
  - split_and!; [by destruct a|done|done| |]; intros m Hm; [by rewrite decide_False by apply not_elem_of_nil|].
    rewrite decide_False; [done|]. intros [Hx _]. by apply not_elem_of_nil in Hx.
  - apply Forall_cons in Hl as [Hn Hl].
    destruct (memcheck_class_fields a n H1 H2 Hn) as (S1 & L1 & L2 & F1 & F2).
    destruct (IH (memcheck_class a n) L1 L2 Hl) as (S2 & L3 & L4 & F3 & F4). cbn [foldl].
    assert (forall m, hold (memcheck_class a n) m = hold a m) as Eh by (intros m; unfold hold; by rewrite S1).
    assert (pool_filled_once (memcheck_class a n) = pool_filled_once a) as Ef by (by rewrite S1).
    split_and!; [by eapply same_but_trans|done|done|intros m Hm..].
    + rewrite F3, Eh, F1 by done. destruct (decide (m ∈ l)); [rewrite decide_True; [done|by right]|].
      destruct (decide (m = n)) as [->|E]; [rewrite decide_True; [done|left]|].
      rewrite decide_False; [done|]. by intros [?|?]%elem_of_cons.
    + rewrite F4, Ef, Eh, F2 by done. destruct (decide (m ∈ l /\ _)) as [[? ?]|Hx];
        [rewrite decide_True; [done|split; [by right|done]]|].
      destruct (decide (m = n /\ _)) as [[-> E]|E]; [rewrite decide_True; [done|split; [left|done]]|].
      rewrite decide_False; [done|]. intros [[?|?]%elem_of_cons ?]; [by apply E|by apply Hx].
Qed.

Lemma pages_sum (f : Z -> Z) : u32 (foldl (fun t n => u32 (t + f n)) 0 (seqZ 1 (MAX_NUMBER_OF_SLAB_CLASSES - 1)) + f 0) =
  u32 (Zsum f MAX_NUMBER_OF_SLAB_CLASSES).
Proof.
  rewrite (foldl_sum _ (fun t => t) f (2 ^ 32) (fun w d => eq_refl)) by reflexivity. rewrite Z.add_0_l.
  unfold Zsum. rewrite (seqZ_cons 0) by (unfold MAX_NUMBER_OF_SLAB_CLASSES; lia). simpl foldr.
  unfold wrap. rewrite Zplus_mod_idemp_l. f_equal. apply Z.add_comm.
Qed.

Lemma reserves_and_pool t b d P : same_but_reserves (b <| last_memcheck_run := t |>) d ->
  d <| free_mem ::= <[0%nat := P]> |> = b <| free_mem := <[0%nat := P]> (free_mem d) |>
    <| ext_free_memchunks := ext_free_memchunks d |> <| last_memcheck_run := t |>.
Proof. unfold same_but_reserves. intros E. rewrite E at 1. by destruct b. Qed.

Lemma memcheck_fields t b : length (free_mem b) = 64%nat -> length (ext_free_memchunks b) = 64%nat ->
  let c := memcheck t b in
  c = b <| free_mem := free_mem c |> <| ext_free_memchunks := ext_free_memchunks c |>
        <| last_memcheck_run := if due t b then t else last_memcheck_run b |> /\
  length (free_mem c) = 64%nat /\ length (ext_free_memchunks c) = 64%nat /\
  (forall n, 1 <= n < 64 -> at_ 0 (free_mem c) n = if due t b then hold b n else at_ 0 (free_mem b) n) /\
  at_ 0 (free_mem c) 0 = (if due t b
    then u32 (b64_to_Z (b64_mul (b64_of_Z (u32 (Zsum (fun n => total_pages (sam (sam_after b) n)) 64))) (free_ratio b)))
    else at_ 0 (free_mem b) 0) /\
  (forall n, 1 <= n < 64 -> at_ 0 (ext_free_memchunks c) n =
     if due t b && pool_filled_once b then hold b n else at_ 0 (ext_free_memchunks b) n).
Proof.
  intros H1 H2. unfold memcheck, due. destruct (decide (t < u32 (last_memcheck_run b + MEMCHECK_PERIOD))) as [Ht|Ht].
  { rewrite (proj2 (Z.ltb_lt _ _) Ht). simpl. by destruct b. }
  rewrite (proj2 (Z.ltb_ge _ _)) by lia. cbn zeta.
  set (b0 := b <| last_memcheck_run := t |>). set (ns := seqZ 1 (MAX_NUMBER_OF_SLAB_CLASSES - 1)).
  destruct (memcheck_classes_fields ns b0 H1 H2) as (S1 & L1 & L2 & F1 & F2).
  { apply Forall_forall. intros n Hn%elem_of_seqZ. unfold MAX_NUMBER_OF_SLAB_CLASSES in Hn. lia. }
  assert (forall n, 1 <= n < 64 -> n ∈ ns) as Hin
    by (intros n Hn; apply elem_of_seqZ; unfold MAX_NUMBER_OF_SLAB_CLASSES; lia).
  set (d := foldl memcheck_class b0 ns) in *. clearbody d.
  assert (sam_after d = sam_after b /\ free_ratio d = free_ratio b) as [Es Er] by (by rewrite S1).
  pose proof (pages_sum (fun n => total_pages (sam (sam_after b) n))) as Hp. fold ns in Hp.
  rewrite Es, Er. rewrite Hp. clear Hp. change MAX_NUMBER_OF_SLAB_CLASSES with 64.
  set (P := u32 (b64_to_Z _)). clearbody P ns. clear Es Er.
  set (c := d <| free_mem ::= _ |>).
  assert (free_mem c = <[0%nat := P]> (free_mem d) /\ ext_free_memchunks c = ext_free_memchunks d) as [-> ->] by done.
  cbn [negb andb]. rewrite length_insert.
  split_and!; [by apply reserves_and_pool|done|done| | |].
  - intros n Hn. rewrite (at_insert 0 _ _ 0) by lia. rewrite decide_False by lia. rewrite F1 by lia.
    by rewrite decide_True by auto.
  - rewrite (at_insert 0 _ _ 0) by lia. by rewrite decide_True by done.
  - intros n Hn. rewrite F2 by lia. change (pool_filled_once b0) with (pool_filled_once b).
    destruct (pool_filled_once b); [by rewrite decide_True by auto|]. by rewrite decide_False by (by intros [_ ?]).
Qed.

Lemma hold_free_max m r : hold_free_of m r =
  u32 (Z.max (u32 (b64_to_Z (b64_mul (b64_of_Z (total_pages m * chunks_per_page m)) r))) (3 * chunks_per_page m / 2)).
Proof.
  unfold hold_free_of. cbn zeta. set (h := b64_to_Z _). clearbody h. pose proof (Z.mod_pos_bound h (2 ^ 32) ltac:(lia)) as Hb.
  destruct (decide (2 * wrap 32 h < 3 * chunks_per_page m)) as [Hc|Hc].
  - rewrite Z.max_r; [done|]. apply Z.div_le_lower_bound; lia.
  - rewrite Z.max_l by (apply Z.div_le_upper_bound; lia). unfold wrap. by rewrite Zmod_mod.
Qed.

(** The pool's part. *)
Definition pool_low_now (sl : slabs_t) (a : slab_automove) : bool :=
  (mem_limit sl <=? mem_malloced sl) && (slabs (getc sl 0) <? at_ 0 (free_mem a) 0 / 2).
Definition pool_high_now (sl : slabs_t) (a : slab_automove) : bool :=
  (mem_limit sl <=? mem_malloced sl) && negb (slabs (getc sl 0) <? at_ 0 (free_mem a) 0 / 2) &&
  (at_ 0 (free_mem a) 0 <? slabs (getc sl 0)).

Lemma pool_check_fields sl a : global_pool_check sl a =
  a <| window_global ::= <[slot a := WindowGlobal (Z.b2z (pool_low_now sl a)) (Z.b2z (pool_high_now sl a))]> |>
    <| pool_filled_once := pool_filled_once a || ((mem_limit sl <=? mem_malloced sl) && negb (pool_high_now sl a)) |>.
Proof.
  unfold global_pool_check, pool_high_now, pool_low_now, global_page_pool_size, SLAB_GLOBAL_PAGE_POOL.
  destruct (Z.leb_spec (mem_limit sl) (mem_malloced sl)) as [El|El]; simpl.
  2:{ rewrite bool_decide_eq_false_2 by lia. simpl. rewrite orb_false_r. by destruct a. }
  rewrite bool_decide_eq_true_2 by lia. simpl. set (f := at_ 0 (free_mem a) 0). set (c := slabs (getc sl 0)).
  destruct (decide (c < f / 2)) as [H1|H1].
  { rewrite (proj2 (Z.ltb_lt _ _) H1). simpl. by rewrite orb_true_r. }
  rewrite (proj2 (Z.ltb_ge _ _)) by lia. destruct (decide (f < c)) as [H2|H2]; simpl.
  - rewrite (proj2 (Z.ltb_lt _ _) H2). simpl. rewrite orb_false_r. by destruct a.
  - rewrite (proj2 (Z.ltb_ge _ _)) by lia. simpl. by rewrite orb_true_r.
Qed.

(** The same, of what the loop has found. *)
Definition wants_c (a : slab_automove) (wg : window_global_t) (c : scan) : Prop :=
  window_size a <= window_cur a /\ pool_low wg = 0 /\ youngest c <> -1 /\
  (window_size a <= pool_high wg \/
   (src c = -1 /\ oldest c <> -1 /\ youngest c <> oldest c /\
    below_ratio (youngest_age c) (oldest_age c) (max_age_ratio a) = true)).

Lemma wants_scanned a wg c n : scanned a n c -> wants a wg (src c) (oldest c) (youngest c) <-> wants_c a wg c.
Proof.
  intros [_ _ _ _ Ho Hy]. unfold wants, wants_c.
  assert (youngest c <> -1 -> youngest_age c = age_avg a (youngest c)) as Ey
    by (intros ?; destruct Hy as [[? _]|(_ & ? & _)]; [done|lia]).
  assert (oldest c <> -1 -> oldest_age c = age_avg a (oldest c)) as Eo
    by (intros ?; destruct Ho as [[? _]|(_ & ? & _)]; [done|lia]).
  split; intros (H1 & H2 & H3 & H4); (split_and!; [done..|]); destruct H4 as [?|(E1 & E2 & E3 & E4)];
    [by left|right|by left|right]; rewrite ?Ey, ?Eo in * by done; by split_and!.
Qed.

Lemma choose_wants a wg c : dst c = pool_of (src c) -> too_free c = bool_decide (src c <> -1) -> wants_c a wg c ->
  choose a wg c = ((if absorbed a (youngest c) then (0, youngest c) else (src c, pool_of (src c))),
                   relax a (youngest c)).
Proof.
  intros Hd Hf (H1 & H2 & H3 & H4). unfold choose. rewrite Hd. cbn zeta.
  rewrite decide_False by lia. fold (absorbed a (youngest c)).
  assert (forall X Y : Z * Z, (if absorbed a (youngest c) then (X, relax a (youngest c)) else (Y, relax a (youngest c))) =
    (if absorbed a (youngest c) then X else Y, relax a (youngest c))) as Hx by (intros; by destruct (absorbed _ _)).
  destruct (decide (window_size a <= pool_high wg /\ _)) as [Hh|Hh]; [by apply Hx|].
  destruct H4 as [H4|(E1 & E2 & E3 & E4)]; [destruct Hh; by split_and!|].
  rewrite decide_False by tauto.
  rewrite decide_True by (rewrite Hf; split_and!; [by rewrite bool_decide_eq_false_2 by lia|done..]).
  rewrite E4. by apply Hx.
Qed.

Lemma choose_keeps a wg c : dst c = pool_of (src c) -> too_free c = bool_decide (src c <> -1) -> ~ wants_c a wg c ->
  (refills a wg (src c) (oldest c) /\ choose a wg c = (oldest c, 0, a)) \/
  (~ refills a wg (src c) (oldest c) /\ choose a wg c = (src c, pool_of (src c), a)).
Proof.
  intros Hd Hf Hw. unfold choose, refills. rewrite Hd. cbn zeta.
  destruct (decide (window_cur a < window_size a)) as [|Hc]; [right; split; [lia|done]|].
  rewrite decide_False by (intros (E1 & E2 & E3); apply Hw; split_and!; [lia|done|done|by left]).
  assert (too_free c = false <-> src c = -1) as Hf' by (rewrite Hf, bool_decide_eq_false; lia).
  destruct (decide (too_free c = false /\ pool_low wg <> 0 /\ _)) as [(E1 & E2 & E3)|Hr];
    [left; split; [|done]; split_and!; [lia|by apply Hf'|done|done]|].
  right. split; [intros (? & ? & ? & ?); apply Hr; split_and!; [by apply Hf'|done|done]|].
  destruct (decide (too_free c = false /\ youngest c <> -1 /\ _)) as [(E1 & E2 & E3 & E4)|]; [|done].
  destruct (below_ratio _ _ _) eqn:Eb; [|done]. destruct Hw.
  split_and!; [lia| |done|right; split_and!; [by apply Hf'|done|done|done]].
  destruct (decide (pool_low wg = 0)); [done|]. destruct Hr. by split_and!.
Qed.

(** The automover after the statistics were read, the classes sampled. *)
Definition left_behind (s : st) (a : slab_automove) (wd : list window_data_t) : slab_automove :=
  let a1 := refreshed s a in
  a1 <| window_data := wd |> <| iam_before := iam_after a1 |> <| sam_before := sam_after a1 |>.

Lemma memcheck_class_same a n : window_data (memcheck_class a n) = window_data a /\
  window_size (memcheck_class a n) = window_size a.
Proof. unfold memcheck_class. by case_decide. Qed.

Lemma memcheck_classes_same l : forall a, window_data (foldl memcheck_class a l) = window_data a /\
  window_size (foldl memcheck_class a l) = window_size a.
Proof.
  induction l as [|n l IH]; intros a; [done|]. destruct (memcheck_class_same a n) as [<- <-].
  apply (IH (memcheck_class a n)).
Qed.

Lemma memcheck_same t a : window_data (memcheck t a) = window_data a /\ window_size (memcheck t a) = window_size a.
Proof.
  unfold memcheck. case_decide; [done|]. cbn zeta.
  generalize (seqZ 1 (MAX_NUMBER_OF_SLAB_CLASSES - 1)). intros l.
  match goal with |- context [foldl memcheck_class ?x l] =>
    destruct (memcheck_classes_same l x) as [E1 E2]; set (b := foldl memcheck_class x l) in * end.
  clearbody b. split; [exact E1|exact E2].
Qed.

Lemma pool_check_same sl a : window_data (global_pool_check sl a) = window_data a /\
  window_size (global_pool_check sl a) = window_size a.
Proof.
  unfold global_pool_check. destruct (global_page_pool_size sl) as [count []]; simpl; [|done].
  case_decide; [done|]. by case_decide.
Qed.

Lemma refreshed_same s a : window_data (refreshed s a) = window_data a /\ window_size (refreshed s a) = window_size a.
Proof.
  unfold refreshed. destruct (memcheck_same (now s) ((global_pool_check (slb s) a)
    <| iam_after := fill_item_stats_automove s |> <| sam_after := fill_slab_stats_automove (slb s) |>
    <| window_cur ::= fun n => u32 (n + 1) |>)) as [-> ->].
  simpl. by destruct (pool_check_same (slb s) a) as [-> ->].
Qed.

Lemma ext_run_result s a : well_formed a -> exists r o y wd, let a1 := refreshed s a in let wg := pool_window s a in
  last_reclaimable a1 MAX_NUMBER_OF_SLAB_CLASSES r /\ oldest_class a1 o /\ youngest_class a1 y /\
  sampled (window_data a1) (window_size a1) (slot a1) (sample a1) MAX_NUMBER_OF_SLAB_CLASSES wd /\
  (wants a1 wg r o y -> slab_automove_extstore_run s a =
     Ok ((if absorbed a1 y then (0, y) else (r, pool_of r)), relax (left_behind s a wd) y)) /\
  (~ wants a1 wg r o y -> refills a1 wg r o -> slab_automove_extstore_run s a = Ok ((o, 0), left_behind s a wd)) /\
  (~ wants a1 wg r o y -> ~ refills a1 wg r o ->
     slab_automove_extstore_run s a = Ok ((r, pool_of r), left_behind s a wd)).
Proof.
  intros [HW Hlen _ _ _]. unfold slab_automove_extstore_run. rewrite decide_False by lia.
  destruct (refreshed_same s a) as [Ed Ew]. cbn zeta. fold (refreshed s a). set (a1 := refreshed s a) in *.
  rewrite <- Ew in HW, Hlen. rewrite <- Ed in Hlen.
  assert (scanned a1 1 (scan0 (window_data a1))) as H0.
  { split; simpl; [exact (sampled_start _ _ _ _)|left; split; [done|lia]|done|done|apply picked_init|apply picked_init]. }
  pose proof (ext_scan_spec a1 HW Hlen 63 1 _ ltac:(lia) eq_refl H0) as Hs.
  change (seqZ POWER_SMALLEST (MAX_NUMBER_OF_SLAB_CLASSES - 1)) with (seqZ 1 (Z.of_nat 63)).
  set (c := foldl (scan_class a1) (scan0 (window_data a1)) (seqZ 1 (Z.of_nat 63))) in *. clearbody c.
  exists (src c), (oldest c), (youngest c), (sc_wd c).
  replace (window_global_sum (window_global (global_pool_check (slb s) a)) (window_size (global_pool_check (slb s) a)))
    with (pool_window s a) by (unfold pool_window; by rewrite pool_check_fields).
  rewrite (wants_scanned _ _ _ _ Hs). destruct Hs as [H1 H2 H3 H4 H5 H6].
  split_and!; [done|by eexists|by eexists|done|intros Hx..].
  - exact (f_equal Ok (choose_wants (left_behind s a (sc_wd c)) _ _ H3 H4 Hx)).
  - intros Hr. destruct (choose_keeps (left_behind s a (sc_wd c)) _ _ H3 H4 Hx) as [[_ E]|[Hn _]]; [exact (f_equal Ok E)|].
    by destruct Hn.
  - intros Hr. destruct (choose_keeps (left_behind s a (sc_wd c)) _ _ H3 H4 Hx) as [[Hn _]|[_ E]]; [by destruct Hr|].
    exact (f_equal Ok E).
Qed.
End ExtProofs.

(** The specification of the algorithm for external storage. *)
Module ExtSpec.
Import Ext.
Section spec.
Context (s : st) (a : slab_automove).
Let W := window_size a.

(** The pass this one is and the sample it replaces; the pool's sample is written
    before the pass is counted. *)
Definition cur : Z := u32 (window_cur a + 1).
Definition slot : Z := cur mod W.
Definition pool_slot : Z := window_cur a mod W.

(** The global pool: with the memory limit reached it is low below half of its
    reserve, and else high above it. *)
Definition full : bool := mem_limit (slb s) <=? mem_malloced (slb s).
Definition reserve : Z := at_ 0 (free_mem a) 0.
Definition low : bool := full && (Now.pages s 0 <? reserve / 2).
Definition high : bool := full && (reserve / 2 <=? Now.pages s 0) && (reserve <? Now.pages s 0).
Definition pool_sample (i : Z) : window_global_t :=
  if decide (i = pool_slot) then WindowGlobal (Z.b2z low) (Z.b2z high)
  else default wg0 (window_global a !! Z.to_nat i).
Definition low_passes : Z := Zsum (fun i => pool_low (pool_sample i)) W mod 2 ^ 32.
Definition high_passes : Z := Zsum (fun i => pool_high (pool_sample i)) W mod 2 ^ 32.

(** Once a minute the reserves are set: of a class a part of its chunks but at
    least one page and a half, of the pool a part of all pages. *)
Definition memcheck_due : bool := u32 (last_memcheck_run a + 60) <=? now s.
Definition part (n : Z) : Z := u32 (b64_to_Z (b64_mul (b64_of_Z n) (free_ratio a))).
Definition class_hold (n : Z) : Z :=
  u32 (Z.max (part (Now.pages s n * Now.page_chunks s n)) (3 * Now.page_chunks s n / 2)).
Definition held (n : Z) : Z := if memcheck_due then class_hold n else at_ 0 (free_mem a) n.
Definition pool_held : Z := if memcheck_due then part (u32 (Zsum (Now.pages s) 64)) else reserve.

(** The samples of the window, the one replaced included. *)
Definition entry (n i : Z) : window_data_t := default wd0 (window_data a !! Z.to_nat (n * W + i)).
Definition total (f : window_data_t -> Z) (w n : Z) : Z := Zsum (fun i => f (entry n i)) W mod 2 ^ w.
Definition average_age (n : Z) : Z := total wd_age 64 n / W.
Definition excess_passes (n : Z) : Z := total excess_free 32 n.
Definition small (n : Z) : Prop := am_chunk_size (sam (sam_before a) n) < item_size a.

(** More than two and a half pages free, nothing moved in the window, and a class
    of small chunks or one with excess memory for the whole window; pages to spare;
    a class that may want memory. *)
Definition reclaimable (n : Z) : Prop :=
  5 * Now.page_chunks s n < 2 * Now.free s n /\ total wd_dirty 64 n = 0 /\ (small n \/ W <= excess_passes n).
Definition has_pages (n : Z) : Prop := ~ small n /\ 2 < Now.pages s n.
Definition may_want (n : Z) : Prop :=
  ~ small n /\ Now.pages s n <> 0 /\ excess_passes n < W /\ (total relaxed 32 n = 0 \/ Now.free s n <= held n).

Definition last_reclaimable (r : Z) : Prop :=
  (r = -1 /\ forall m, 1 <= m < 64 -> ~ reclaimable m) \/
  (1 <= r < 64 /\ reclaimable r /\ forall m, r < m < 64 -> ~ reclaimable m).
Definition oldest_class (o : Z) : Prop := exists v, picked has_pages average_age 0 64 o v.
Definition youngest_class (y : Z) : Prop :=
  exists v, picked may_want (fun n => - average_age n) (- NOT_FOUND_AGE) 64 y v.

(** The youngest class is to get a page of the pool: the window has filled, the pool
    was never low, and either it was too full in every pass or there is nothing to
    reclaim and the ages are too far apart. *)
Definition wants (r o y : Z) : Prop :=
  W <= cur /\ low_passes = 0 /\ y <> -1 /\
  (W <= high_passes \/
   (r = -1 /\ o <> -1 /\ y <> o /\
    SFltb (b64_of_Z (average_age y)) (b64_mul (b64_of_Z (average_age o)) (max_age_ratio a)) = true)).
(** The pool was low, nothing can be reclaimed: the oldest class gives a page. *)
Definition refills (r o : Z) : Prop := W <= cur /\ r = -1 /\ low_passes <> 0 /\ o <> -1.

Inductive verdict (r o y : Z) : Z * Z -> Prop :=
  | V_grow : wants r o y -> Now.free s y <= held y -> verdict r o y (0, y)
  | V_refill : refills r o -> verdict r o y (o, 0)
  | V_reclaim : ~ (wants r o y /\ Now.free s y <= held y) -> ~ refills r o ->
      verdict r o y (r, if decide (r = -1) then -1 else 0).

(** The sample of a class; [rel]: the class wanted a page in this pass. *)
Definition new_sample (n : Z) (rel : Z) : window_data_t :=
  WindowData (Now.tail_age s n)
    (Z.b2z (Now.starving s (iam_before a) n || Now.got_page s (sam_before a) n))
    (Z.b2z (Now.starving s (iam_before a) n))
    (Z.b2z ((u32 (2 * held n) <? Now.free s n) && (0 <? held n))) rel.

(** What the pass leaves. *)
Record recorded (r o y : Z) (a' : slab_automove) : Prop := {
  rc_window n i : 0 <= n < 64 -> 0 <= i < W -> ~ (i = slot /\ 1 <= n) ->
    window_data a' !! Z.to_nat (n * W + i) = window_data a !! Z.to_nat (n * W + i);
  rc_sample n : 1 <= n < 64 -> exists rel, window_data a' !! Z.to_nat (n * W + slot) = Some (new_sample n rel) /\
    (wants r o y /\ n = y -> rel = 1) /\ (~ (wants r o y /\ n = y) -> rel = 0);
  rc_pool i : 0 <= i < W -> window_global a' !! Z.to_nat i = Some (pool_sample i);
  rc_held n : 1 <= n < 64 -> at_ 0 (free_mem a') n = held n;
  rc_pool_held : at_ 0 (free_mem a') 0 = pool_held;
  rc_filled : pool_filled_once a' = pool_filled_once a || (full && negb high);
  rc_settings n : 1 <= n < 64 -> at_ 0 (ext_free_memchunks a') n =
    if memcheck_due && (pool_filled_once a || (full && negb high)) then class_hold n else at_ 0 (ext_free_memchunks a) n;
  rc_run : last_memcheck_run a' = if memcheck_due then now s else last_memcheck_run a;
  rc_cur : window_cur a' = cur;
  rc_items n : 0 <= n < 64 ->
    iam (iam_before a') n = ItemAutomove (Now.evictions s n) (Now.failures s n) (Now.tail_age s n);
  rc_slabs n : 0 <= n < 64 -> sam (sam_before a') n =
    SlabAutomove (Now.page_chunks s n) (csize (getc (slb s) n)) (Now.free s n) (Now.pages s n)
}.
End spec.

Section bridge.
Context (s : st) (a : slab_automove) (Hwf : ExtProofs.well_formed a).
Let a1 := ExtProofs.refreshed s a.

(** The automover memcheck starts from. *)
Definition read_stats : slab_automove :=
  (global_pool_check (slb s) a)
    <| iam_after := fill_item_stats_automove s |> <| sam_after := fill_slab_stats_automove (slb s) |>
    <| window_cur ::= fun n => u32 (n + 1) |>.

Lemma high_now : ExtProofs.pool_high_now (slb s) a = high s a.
Proof.
  unfold ExtProofs.pool_high_now, high, reserve, Now.pages. by rewrite (Z.leb_antisym (slabs _) (at_ 0 (free_mem a) 0 / 2)).
Qed.

Lemma read_stats_fields : read_stats =
  a <| window_global ::= <[Z.to_nat (pool_slot a) := WindowGlobal (Z.b2z (low s a)) (Z.b2z (high s a))]> |>
    <| pool_filled_once := pool_filled_once a || (full s && negb (high s a)) |>
    <| iam_after := fill_item_stats_automove s |> <| sam_after := fill_slab_stats_automove (slb s) |>
    <| window_cur := cur a |>.
Proof. unfold read_stats. rewrite ExtProofs.pool_check_fields, high_now. done. Qed.

Lemma refreshed_fields :
  let f := free_mem a1 in let e := ext_free_memchunks a1 in
  a1 = read_stats <| free_mem := f |> <| ext_free_memchunks := e |>
         <| last_memcheck_run := if memcheck_due s a then now s else last_memcheck_run a |> /\
  length f = 64%nat /\ length e = 64%nat /\
  (forall n, 1 <= n < 64 -> at_ 0 f n = held s a n) /\ at_ 0 f 0 = pool_held s a /\
  (forall n, 1 <= n < 64 -> at_ 0 e n =
    if memcheck_due s a && (pool_filled_once a || (full s && negb (high s a))) then class_hold s a n
    else at_ 0 (ext_free_memchunks a) n).
Proof.
  destruct Hwf as [_ _ _ H1 H2]. cbn zeta.
  assert (length (free_mem read_stats) = 64%nat /\ length (ext_free_memchunks read_stats) = 64%nat) as [L1 L2]
    by (rewrite read_stats_fields; done).
  destruct (ExtProofs.memcheck_fields (now s) read_stats L1 L2) as (E & L3 & L4 & F1 & F2 & F3).
  change (memcheck (now s) read_stats) with a1 in E, L3, L4, F1, F2, F3.
  assert (sam_after read_stats = fill_slab_stats_automove (slb s) /\ free_ratio read_stats = free_ratio a) as [Esam Er]
    by (rewrite read_stats_fields; done).
  assert (ExtProofs.due (now s) read_stats = memcheck_due s a) as Ed
    by (unfold ExtProofs.due, memcheck_due; rewrite read_stats_fields; by rewrite Z.leb_antisym).
  assert (forall n, 1 <= n < 64 -> ExtProofs.hold read_stats n = class_hold s a n) as Eh.
  { intros n Hn. unfold ExtProofs.hold, class_hold, part. rewrite ExtProofs.hold_free_max, Esam, Er.
    by rewrite Now.sam_now by lia. }
  rewrite Ed in *. split_and!; [|done|done| | |].
  - rewrite E at 1. by rewrite read_stats_fields.
  - intros n Hn. rewrite F1, Eh by done. unfold held. by rewrite read_stats_fields.
  - rewrite F2. unfold pool_held, part, reserve. rewrite Esam, Er.
    destruct (memcheck_due s a); [|by rewrite read_stats_fields].
    assert (Zsum (fun n => total_pages (sam (fill_slab_stats_automove (slb s)) n)) 64 = Zsum (Now.pages s) 64) as ->; [|done].
    unfold Zsum. apply (f_equal (foldr Z.add 0)), list_fmap_ext. intros i n Hi.
    apply list_elem_of_lookup_2, elem_of_seqZ in Hi. by rewrite Now.sam_now by lia.
  - intros n Hn. rewrite F3, Eh by done. by rewrite read_stats_fields.
Qed.
Lemma a1_fields : window_data a1 = window_data a /\ window_size a1 = window_size a /\ window_cur a1 = cur a /\
  item_size a1 = item_size a /\ max_age_ratio a1 = max_age_ratio a /\ iam_before a1 = iam_before a /\
  sam_before a1 = sam_before a /\ iam_after a1 = fill_item_stats_automove s /\
  sam_after a1 = fill_slab_stats_automove (slb s).
Proof. destruct refreshed_fields as [E _]. rewrite E, read_stats_fields. done. Qed.

Lemma ext_total_sums f w n (Hf : forall x d, f (add_wd x d) = (f x + f d) mod 2 ^ w) (H0 : f wd0 = 0) :
  0 <= n < 64 -> f (ExtProofs.sums a1 n) = total a f w n.
Proof.
  intros Hn. destruct Hwf as [HW Hl _ _ _]. destruct a1_fields as (E1 & E2 & _).
  unfold ExtProofs.sums, window_sum, total. rewrite E1, E2, take_take, Nat.min_id.
  rewrite (foldl_sum _ f f _ Hf), H0 by (rewrite H0; symmetry; apply Zmod_0_l). rewrite Z.add_0_l. unfold Zsum.
  rewrite (class_slots _ _ n wd0 HW Hn Hl), <- list_fmap_compose. done.
Qed.

Lemma ext_average_age_avg n : 0 <= n < 64 -> ExtProofs.age_avg a1 n = average_age a n.
Proof.
  intros Hn. unfold ExtProofs.age_avg, average_age. rewrite (ext_total_sums wd_age 64) by done.
  by destruct a1_fields as (_ & -> & _).
Qed.

Lemma small_spec n : small_slab a1 n = true <-> small a n.
Proof.
  unfold small_slab, small. destruct a1_fields as (_ & _ & _ & -> & _ & _ & -> & _). by rewrite bool_decide_eq_true.
Qed.
Lemma large_spec n : small_slab a1 n = false <-> ~ small a n.
Proof. rewrite <- small_spec. by destruct (small_slab a1 n). Qed.

Lemma sam_a1 n : 0 <= n < 64 -> sam (sam_after a1) n =
  SlabAutomove (Now.page_chunks s n) (csize (getc (slb s) n)) (Now.free s n) (Now.pages s n).
Proof. intros Hn. destruct a1_fields as (_ & _ & _ & _ & _ & _ & _ & _ & ->). by apply Now.sam_now. Qed.

Lemma ext_reclaimable_spec n : 0 <= n < 64 -> ExtProofs.reclaimable a1 n <-> reclaimable s a n.
Proof.
  intros Hn. unfold ExtProofs.reclaimable, reclaimable, excess_passes, reclaim_free.
  rewrite (ext_total_sums wd_dirty 64), (ext_total_sums excess_free 32), sam_a1, small_spec, bool_decide_eq_true by done.
  by destruct a1_fields as (_ & -> & _).
Qed.

Lemma ext_has_pages_spec n : 0 <= n < 64 -> ExtProofs.source_class a1 n <-> has_pages s a n.
Proof. intros Hn. unfold ExtProofs.source_class, has_pages. by rewrite sam_a1, large_spec. Qed.

Lemma may_want_spec n : 1 <= n < 64 -> ExtProofs.starved_class a1 n <-> may_want s a n.
Proof.
  intros Hn. unfold ExtProofs.starved_class, may_want, excess_passes.
  rewrite (ext_total_sums excess_free 32), (ext_total_sums relaxed 32), sam_a1, large_spec by (done || lia).
  destruct refreshed_fields as (_ & _ & _ & Hh & _). rewrite Hh by done. destruct a1_fields as (_ & -> & _). simpl.
  destruct (decide (total a relaxed 32 n = 0)), (decide (Now.free s n <= held s a n)); intuition lia.
Qed.

Lemma last_reclaimable_spec r : ExtProofs.last_reclaimable a1 MAX_NUMBER_OF_SLAB_CLASSES r -> last_reclaimable s a r.
Proof.
  unfold ExtProofs.last_reclaimable, last_reclaimable, MAX_NUMBER_OF_SLAB_CLASSES.
  intros [[-> H]|(Hr & H1 & H2)]; [left; split; [done|]|right; split_and!; [lia|lia| |]].
  - intros m Hm Hx. apply (H m Hm). by apply ext_reclaimable_spec; [lia|].
  - by apply ext_reclaimable_spec; [lia|].
  - intros m Hm Hx. apply (H2 m Hm). by apply ext_reclaimable_spec; [lia|].
Qed.

Lemma oldest_spec o : ExtProofs.oldest_class a1 o -> oldest_class s a o.
Proof.
  intros [v Ho]. exists v. revert Ho. apply picked_ext. intros m Hm. unfold MAX_NUMBER_OF_SLAB_CLASSES in Hm.
  by rewrite ext_has_pages_spec, ext_average_age_avg by lia.
Qed.

Lemma youngest_spec y : ExtProofs.youngest_class a1 y -> youngest_class s a y.
Proof.
  intros [v Hy]. exists v. revert Hy. apply picked_ext. intros m Hm. unfold MAX_NUMBER_OF_SLAB_CLASSES in Hm.
  by rewrite may_want_spec, ext_average_age_avg by lia.
Qed.

(** The pool's samples after this pass's. *)
Lemma pool_samples : window_global a1 = pool_sample s a <$> seqZ 0 (window_size a).
Proof.
  destruct refreshed_fields as [E _]. destruct Hwf as [HW _ Hl _ _]. rewrite E, read_stats_fields.
  change (<[Z.to_nat (pool_slot a) := WindowGlobal (Z.b2z (low s a)) (Z.b2z (high s a))]> (window_global a) =
    pool_sample s a <$> seqZ 0 (window_size a)).
  assert (0 <= pool_slot a < window_size a) as Hs by (apply Z.mod_pos_bound; exact HW).
  apply list_eq. intros i. rewrite list_lookup_fmap. unfold pool_sample.
  destruct (decide (i < Z.to_nat (window_size a))%nat) as [Hi|Hi].
  - rewrite lookup_seqZ_lt by lia. simpl. rewrite Z.add_0_l. case_decide as Ei.
    + replace i with (Z.to_nat (pool_slot a)) by lia. by rewrite list_lookup_insert_eq by lia.
    + rewrite list_lookup_insert_ne, Nat2Z.id by lia.
      by destruct (lookup_lt_is_Some_2 (window_global a) i ltac:(lia)) as [x ->].
  - rewrite lookup_seqZ_ge by lia. apply lookup_ge_None_2. rewrite length_insert. lia.
Qed.

Lemma pool_passes : pool_low (ExtProofs.pool_window s a) = low_passes s a /\
  pool_high (ExtProofs.pool_window s a) = high_passes s a.
Proof.
  assert (window_global (global_pool_check (slb s) a) = pool_sample s a <$> seqZ 0 (window_size a)) as E.
  { rewrite <- pool_samples. destruct refreshed_fields as [E _]. by rewrite E. }
  unfold ExtProofs.pool_window, window_global_sum. rewrite E.
  rewrite take_ge by (rewrite length_fmap, length_seqZ; lia).
  unfold low_passes, high_passes, Zsum. set (add := fun w d : window_global_t => _).
  rewrite (foldl_sum add pool_low pool_low (2 ^ 32) (fun _ _ => eq_refl)) by reflexivity.
  rewrite (foldl_sum add pool_high pool_high (2 ^ 32) (fun _ _ => eq_refl)) by reflexivity.
  by rewrite !Z.add_0_l, <- !list_fmap_compose.
Qed.
(** The three tests of the choice. *)
Lemma wants_spec r o y : oldest_class s a o -> youngest_class s a y ->
  ExtProofs.wants a1 (ExtProofs.pool_window s a) r o y <-> wants s a r o y.
Proof.
  intros [vo Ho] [vy Hy]. unfold ExtProofs.wants, wants, below_ratio.
  destruct pool_passes as [-> ->]. destruct a1_fields as (_ & -> & -> & _ & -> & _).
  assert (y <> -1 -> ExtProofs.age_avg a1 y = average_age a y) as Ey.
  { intros ?. apply ext_average_age_avg. destruct Hy as [[? _]|[? _]]; [done|lia]. }
  assert (o <> -1 -> ExtProofs.age_avg a1 o = average_age a o) as Eo.
  { intros ?. apply ext_average_age_avg. destruct Ho as [[? _]|[? _]]; [done|lia]. }
  split; intros (H1 & H2 & H3 & H4); (split_and!; [done..|]); destruct H4 as [?|(E1 & E2 & E3 & E4)];
    [by left|right|by left|right]; rewrite ?Ey, ?Eo in * by done; by split_and!.
Qed.

Lemma refills_spec r o : ExtProofs.refills a1 (ExtProofs.pool_window s a) r o <-> refills s a r o.
Proof.
  unfold ExtProofs.refills, refills. destruct pool_passes as [-> _]. by destruct a1_fields as (_ & -> & -> & _).
Qed.

Lemma absorbed_spec y : 1 <= y < 64 -> ExtProofs.absorbed a1 y = true <-> Now.free s y <= held s a y.
Proof.
  intros Hy. unfold ExtProofs.absorbed. rewrite bool_decide_eq_true, sam_a1 by lia.
  destruct refreshed_fields as (_ & _ & _ & Hh & _). by rewrite Hh by done.
Qed.

Lemma ext_sample_spec n : 1 <= n < 64 -> sample a1 n = new_sample s a n 0.
Proof.
  intros Hn. unfold sample, new_sample. rewrite sam_a1 by lia.
  destruct refreshed_fields as (_ & _ & _ & Hh & _). rewrite Hh by done.
  destruct a1_fields as (_ & _ & _ & _ & _ & -> & -> & -> & Es).
  rewrite Now.starving_evicting, Now.iam_now by lia.
  replace (grown (sam (sam_before a) n) _) with (Now.got_page s (sam_before a) n)
    by (rewrite <- Now.got_page_grown, Now.sam_now by lia; done).
  assert ((if decide (u32 (held s a n * 2) < Now.free s n /\ 0 < held s a n) then 1 else 0) =
    Z.b2z ((u32 (2 * held s a n) <? Now.free s n) && (0 <? held s a n))) as He.
  { rewrite (Z.mul_comm 2). case_decide as Hc; [by rewrite !(proj2 (Z.ltb_lt _ _)) by apply Hc|].
    destruct (Z.ltb_spec (u32 (held s a n * 2)) (Now.free s n)), (Z.ltb_spec 0 (held s a n)); try done. by destruct Hc. }
  simpl free_chunks. rewrite He. simpl am_age.
  by destruct (Now.starving _ _ _), (Now.got_page _ _ _).
Qed.

Lemma behind_fields (b : slab_automove) wd (rel : bool) y :
  let x := b <| window_data := wd |> <| iam_before := iam_after b |> <| sam_before := sam_after b |> in
  let x' := if rel then relax x y else x in
  window_data x' = (if rel then alter (fun w => w <| relaxed := 1 |>) (data_slot b y) wd else wd) /\
  window_global x' = window_global b /\ window_size x' = window_size b /\ free_mem x' = free_mem b /\
  pool_filled_once x' = pool_filled_once b /\ ext_free_memchunks x' = ext_free_memchunks b /\
  last_memcheck_run x' = last_memcheck_run b /\ window_cur x' = window_cur b /\
  iam_before x' = iam_after b /\ sam_before x' = sam_after b.
Proof. by destruct rel. Qed.

(** The window of the final state. *)
Lemma window_spec wd (rel : bool) y :
  sampled (window_data a1) (window_size a1) (Ext.slot a1) (sample a1) MAX_NUMBER_OF_SLAB_CLASSES wd ->
  (rel = true -> 1 <= y < 64) ->
  let wd' := if rel then alter (fun w => w <| relaxed := 1 |>) (data_slot a1 y) wd else wd in
  length wd' = length (window_data a) /\
  (forall n i, 0 <= n < 64 -> 0 <= i < window_size a -> ~ (i = slot a /\ 1 <= n) ->
    wd' !! Z.to_nat (n * window_size a + i) = window_data a !! Z.to_nat (n * window_size a + i)) /\
  (forall n, 1 <= n < 64 -> wd' !! Z.to_nat (n * window_size a + slot a) =
    Some (new_sample s a n (if decide (rel = true /\ n = y) then 1 else 0))).
Proof.
  destruct Hwf as [HW _ _ _ _]. unfold data_slot, Ext.slot. destruct a1_fields as (-> & -> & -> & _). fold (slot a).
  assert (0 <= slot a < window_size a) as Hs by (apply Z.mod_pos_bound; exact HW).
  intros [Hl Hw] Hy. cbn zeta. fold (base (window_size a) y). set (k := Z.to_nat (slot a)) in *.
  assert (forall n i, 0 <= n < 64 -> 0 <= i < window_size a -> (rel = true -> ~ (n = y /\ i = slot a)) ->
    (if rel then alter (fun w => w <| relaxed := 1 |>) (base (window_size a) y + k)%nat wd else wd)
      !! (base (window_size a) n + Z.to_nat i)%nat = wd !! (base (window_size a) n + Z.to_nat i)%nat) as Hne.
  { intros n i Hn Hi Hd. destruct rel; [|done]. apply list_lookup_alter_ne. intros E.
    destruct (slot_inj (window_size a) y n k (Z.to_nat i)) as [E1 E2]; [lia|lia|lia|lia|done|].
    apply Hd; [done|]. split; [done|]. lia. }
  split_and!.
  - destruct rel; [by rewrite length_alter|done].
  - intros n i Hn Hi Hx. rewrite <- !base_slot by lia. rewrite Hne by (done || (intros Hrel [-> ->]; apply Hx; specialize (Hy Hrel); lia)).
    rewrite Hw by (unfold MAX_NUMBER_OF_SLAB_CLASSES; lia). rewrite decide_False; [done|]. intros [? ?]. apply Hx. lia.
  - intros n Hn. rewrite <- base_slot by lia. fold k.
    assert (wd !! (base (window_size a) n + k)%nat = Some (new_sample s a n 0)) as Hn0.
    { rewrite Hw by (unfold MAX_NUMBER_OF_SLAB_CLASSES; lia).
      rewrite decide_True by (unfold MAX_NUMBER_OF_SLAB_CLASSES; lia). by rewrite ext_sample_spec. }
    case_decide as Hc; [destruct Hc as [-> ->]; by rewrite list_lookup_alter_eq, Hn0|].
    rewrite <- Hn0. apply (Hne n (slot a)); [lia|lia|]. intros -> [-> _]. by apply Hc.
Qed.

Lemma ext_recorded_spec r o y wd (rel : bool) :
  sampled (window_data a1) (window_size a1) (Ext.slot a1) (sample a1) MAX_NUMBER_OF_SLAB_CLASSES wd ->
  (rel = true -> 1 <= y < 64) -> (rel = true <-> wants s a r o y) ->
  let x := ExtProofs.left_behind s a wd in let x' := if rel then relax x y else x in
  recorded s a r o y x' /\ ExtProofs.well_formed x'.
Proof.
  intros Hw Hy Hrel. cbn zeta. destruct (window_spec wd rel y Hw Hy) as (Wl & W1 & W2).
  destruct (behind_fields a1 wd rel y) as (F1 & F2 & F3 & F4 & F5 & F6 & F7 & F8 & F9 & F10).
  change (a1 <| window_data := wd |> <| iam_before := iam_after a1 |> <| sam_before := sam_after a1 |>)
    with (ExtProofs.left_behind s a wd) in F1, F2, F3, F4, F5, F6, F7, F8, F9, F10.
  set (x' := if rel then _ else _) in *. clearbody x'. rewrite <- F1 in Wl, W1, W2. clear F1.
  destruct a1_fields as (_ & E2 & E3 & _ & _ & _ & _ & E8 & E9).
  destruct refreshed_fields as (E & L1 & L2 & Hh & Hp & Hc).
  assert (pool_filled_once a1 = pool_filled_once a || (full s && negb (high s a)) /\
    last_memcheck_run a1 = if memcheck_due s a then now s else last_memcheck_run a) as [E10 E11]
    by (rewrite E, read_stats_fields; done).
  destruct Hwf as [HW Hl _ _ _]. split.
  - split; rewrite ?F2, ?F4, ?F5, ?F6, ?F7, ?F8, ?F9, ?F10, ?E8, ?E9; try done.
    + intros n Hn. eexists. split; [by apply W2|]. rewrite <- Hrel.
      split; intros Hx; [by rewrite decide_True|by rewrite decide_False].
    + intros i Hi. rewrite pool_samples, list_lookup_fmap, lookup_seqZ_lt by lia. simpl. do 2 f_equal. lia.
    + intros n Hn. by apply Now.iam_now.
    + intros n Hn. by apply Now.sam_now.
  - split; rewrite ?F3, ?F4, ?F6, ?F2, ?E2, ?Wl, ?pool_samples, ?length_fmap, ?length_seqZ; done.
Qed.
End bridge.
End ExtSpec.

(** ** The theorems *)

(** C25. What the default automover decides.  The specification [BaseSpec] is written
    from the statistics of the store and the samples of the other passes of the
    window.  With [stop] the first class that has more than two and a half pages of
    free chunks and no page or eviction event in those samples: if, among the classes
    before it, the one with the smallest average age of those evicting in more than
    half of the window is evicting now and is below the ratio of the oldest class
    with more than two pages, and the window has filled, a page moves from the oldest
    to the youngest; otherwise a page of [stop] goes to the global pool, if there is
    one.  The pass writes the new sample (age, page or eviction event, eviction) of
    every class it looked at and nothing else into the window, and remembers the
    statistics it read. *)
Theorem automove_decides s a : BaseProofs.well_formed a -> exists stop o y r a',
  BaseSpec.stops s a stop /\ BaseSpec.oldest_class s a stop o /\ BaseSpec.youngest_class a stop y /\
  BaseSpec.verdict s a stop o y r /\ Base.slab_automove_run s a = Ok (r, a') /\
  BaseProofs.well_formed a' /\ BaseSpec.recorded s a stop a'.
Proof.
  intros Hwf. destruct (BaseProofs.run_decides s a Hwf)
    as (a' & stop & o & y & Hst & [vo Ho] & [vy Hy] & E & Hwf' & Hw & Ei & Es & Ec).
  pose proof (BaseSpec.stops_spec s a Hwf stop Hst) as Hst'. pose proof Hst' as ([Hs1 Hs2] & _).
  assert (BaseSpec.oldest_class s a stop o) as Ho'.
  { exists vo. revert Ho. apply picked_ext. intros m Hm.
    by rewrite (BaseSpec.has_pages_spec s a), (BaseSpec.average_age_avg s a Hwf) by lia. }
  assert (BaseSpec.youngest_class a stop y) as Hy'.
  { exists vy. revert Hy. apply picked_ext. intros m Hm.
    by rewrite (BaseSpec.starved_spec s a Hwf), (BaseSpec.average_age_avg s a Hwf) by lia. }
  exists stop, o, y, (BaseProofs.decision (BaseProofs.refreshed s a) stop o y), a'. split_and!; try done.
  - by apply BaseSpec.verdict_spec.
  - by apply (BaseSpec.recorded_spec s a Hwf).
Qed.

(** C28. What the automover for external storage decides.  The specification
    [ExtSpec] is written from the statistics of the store, the samples of the window
    and the reserves.  The youngest class of large chunks gets a page of the pool when
    the window has filled, the pool was never low, its free chunks do not exceed its
    reserve, and either the pool was too full in every pass or there is nothing to
    reclaim and its age is below the ratio of the oldest class's; when the pool was
    low and there is nothing to reclaim the oldest class gives it a page; otherwise a
    page of the last class with memory to reclaim goes to the pool, if there is one.
    The pass leaves the samples of the classes (the class that wanted a page is marked
    relaxed, whether it got one or not) and of the pool, the reserves, the array of
    the settings once the pool has been filled, and the statistics it read. *)
Theorem automove_ext_decides s a : ExtProofs.well_formed a -> exists r o y v a',
  ExtSpec.last_reclaimable s a r /\ ExtSpec.oldest_class s a o /\ ExtSpec.youngest_class s a y /\
  ExtSpec.verdict s a r o y v /\ Ext.slab_automove_extstore_run s a = Ok (v, a') /\
  ExtProofs.well_formed a' /\ ExtSpec.recorded s a r o y a'.
Proof.
  intros Hwf. destruct (ExtProofs.ext_run_result s a Hwf) as (r & o & y & wd & Hr & Ho & Hy & Hw & R1 & R2 & R3).
  apply (ExtSpec.oldest_spec s a Hwf) in Ho. apply (ExtSpec.youngest_spec s a Hwf) in Hy.
  apply (ExtSpec.last_reclaimable_spec s a Hwf) in Hr.
  rewrite (ExtSpec.wants_spec s a Hwf r o y Ho Hy) in R1, R2, R3. rewrite (ExtSpec.refills_spec s a Hwf) in R2, R3.
  assert (ExtSpec.wants s a r o y -> 1 <= y < 64) as Hy64.
  { intros (_ & _ & Hn & _). destruct Hy as [vy [[? _]|[? _]]]; [done|lia]. }
  assert (Decision (ExtSpec.wants s a r o y)) as Dw by (unfold ExtSpec.wants; apply _).
  assert (Decision (ExtSpec.refills s a r o)) as Dr by (unfold ExtSpec.refills; apply _).
  pose proof (ExtSpec.ext_recorded_spec s a Hwf r o y wd) as Hrec.
  exists r, o, y. destruct (decide (ExtSpec.wants s a r o y)) as [Hx|Hx].
  - destruct (Hrec true Hw) as [H1 H2]; [by intros _; apply Hy64|done|]. eexists _, _. split_and!; [done..| |by apply R1|done|done].
    pose proof (ExtSpec.absorbed_spec s a Hwf y (Hy64 Hx)) as Ha. destruct (ExtProofs.absorbed _ y).
    + apply ExtSpec.V_grow; [done|by apply Ha].
    + apply ExtSpec.V_reclaim; [by intros [_ ?%Ha]|]. intros (_ & _ & Hl & _). by destruct Hx as (_ & ? & _).
  - destruct (Hrec false Hw) as [H1 H2]; [done|by split|].
    destruct (decide (ExtSpec.refills s a r o)) as [Hf|Hf]; eexists _, _;
      (split_and!; [done..| |first [by apply R2|by apply R3]|done|done]).
    + by apply ExtSpec.V_refill.
    + apply ExtSpec.V_reclaim; [by intros [? _]|done].
Qed.

(** The classes above the largest have nothing. *)
Definition no_more_classes (sl : slabs_t) : Prop :=
  forall id, power_largest sl < id -> slabs (getc sl id) = 0 /\ sl_curr (getc sl id) = 0.

Lemma sam_of s n : 0 <= n < MAX_NUMBER_OF_SLAB_CLASSES -> sam (fill_slab_stats_automove (slb s)) n =
  let p := getc (slb s) n in SlabAutomove (perslab p) (csize p) (sl_curr p) (slabs p).
Proof. intros Hn. unfold sam, fill_slab_stats_automove. by rewrite at_classes. Qed.

Lemma reclaim_free_pages cfg cap E h sl F n : slab_inv cfg cap E h sl F -> no_more_classes sl ->
  1 <= n < MAX_NUMBER_OF_SLAB_CLASSES -> 5 * perslab (getc sl n) < 2 * sl_curr (getc sl n) ->
  0 <= perslab (getc sl n) -> n <= power_largest sl /\ 2 < slabs (getc sl n).
Proof.
  intros I Hno Hn Hf Hp. destruct (decide (n <= power_largest sl)) as [Hle|Hgt].
  2:{ destruct (Hno n ltac:(lia)) as [_ E0]. lia. }
  split; [done|]. pose proof (free_list_length _ _ _ _ _ _ n I ltac:(lia)) as Hl.
  rewrite <- (fl_curr _ _ _ (si_free _ _ _ _ _ _ I n ltac:(lia))) in Hl. nia.
Qed.

(** C24. A move the default automover asks for can be posted: when it names two
    different classes of the allocator, the source has at least three pages, and
    slabs_reassign accepts the request when no other move is running. *)
Theorem automove_request_posted cfg cap s a F r src dst a' :
  slab_inv cfg cap [] (mem s) (slb s) F -> no_more_classes (slb s) -> BaseProofs.well_formed a ->
  (forall id, 0 <= perslab (getc (slb s) id)) ->
  Base.slab_automove_run s a = Ok (src, dst, a') -> src <> -1 -> src <> dst -> dst <= power_largest (slb s) ->
  slab_rebalance_signal r = 0 ->
  2 < slabs (getc (slb s) src) /\ slabs_reassign true src dst (slb s) r =
    (REASSIGN_OK, r <| s_clsid := src |> <| d_clsid := dst |> <| slab_rebalance_signal := 1 |>).
Proof.
  intros I Hno Hwf Hper E Hsrc Hne Hdst Hsig.
  destruct (BaseProofs.run_decides s a Hwf) as (a2 & stop & o & y & Hst & [vo Ho] & [vy Hy] & E' & _).
  rewrite E in E'. injection E' as Ed _. set (a1 := BaseProofs.refreshed s a) in *.
  assert (1 <= src <= power_largest (slb s) /\ 2 < slabs (getc (slb s) src) /\ 0 <= dst) as (H1 & H2 & H3).
  { destruct Hst as ([Hs1 Hs2] & _ & Hrec).
    unfold BaseProofs.decision in Ed. destruct (_ && _) eqn:Eb.
    - injection Ed as -> ->. apply andb_true_iff in Eb as [(Hy1 & Ho1 & _)%bool_decide_eq_true _].
      destruct Ho as [[? _]|(Hr & _ & Hp & _)]; [done|]. destruct Hy as [[? _]|(Hry & _)]; [done|].
      unfold BaseProofs.source_class in Hp. change (Base.sam_after a1) with (fill_slab_stats_automove (slb s)) in Hp.
      rewrite sam_of in Hp by lia. unfold MIN_PAGES_FOR_SOURCE in Hp. simpl in Hp.
      split_and!; [lia| |done|lia]. destruct (decide (o <= power_largest (slb s))) as [|Hgt]; [done|].
      destruct (Hno o ltac:(lia)). lia.
    - case_decide as Hlt; [|by injection Ed as -> _]. injection Ed as -> ->. destruct (Hrec Hlt) as [Hf _].
      change (Base.sam_after a1) with (fill_slab_stats_automove (slb s)) in Hf. rewrite sam_of in Hf by lia.
      apply bool_decide_eq_true in Hf. simpl in Hf.
      destruct (reclaim_free_pages _ _ _ _ _ _ stop I Hno ltac:(lia) Hf (Hper stop)). lia. }
  split; [done|]. unfold slabs_reassign, do_slabs_reassign, SLAB_GLOBAL_PAGE_POOL.
  rewrite (decide_False (P := _ <> 0)) by lia. rewrite (decide_False (P := src = dst)) by done.
  rewrite (decide_False (P := src = -1)) by done. rewrite decide_False by lia. by rewrite decide_False by lia.
Qed.

(** ** A concrete run *)

Module Demo.
Abbreviation cfg := Slabs.Demo.cfg.

(** Three pages of the largest class, all their chunks free. *)
Definition ops : list slab_op := replicate 6 (SAlloc 500 8 0) ++ replicate 5 (SFree 0).
Definition u : user :=
  match slab_run cfg ops (User ∅ Slabs.Demo.s0 []) with Ok u => u | _ => User ∅ Slabs.Demo.s0 [] end.

Definition s : st :=
  St (uheap u) (uslabs u) (assoc_globals <| hashpower := 2 |>) lru0 stats0 rebal0
    (Thread 0 0 0 ∅ (bipbuf_init (repeat 0 64) 64) 0) 1000 [].

(** 4/5 *)
Definition ratio : spec_float := b64_div (b64_of_Z 4) (b64_of_Z 5).
Definition a : Base.slab_automove :=
  Base.Automover (replicate 128 Base.wd0) 2 0 ratio (replicate 64 item_am0) (replicate 64 item_am0)
    (replicate 64 slab_am0) (replicate 64 slab_am0).

Lemma run_inv cap os : forall u1 F, user_inv cfg cap u1 F -> run_ok cfg os u1 ->
  exists u2 F', slab_run cfg os u1 = Ok u2 /\ user_inv cfg cap u2 F'.
Proof.
  induction os as [|o os IH]; intros u1 F U Hok; [by exists u1, F|].
  destruct Hok as [Ho Hok]. destruct (user_step_inv _ _ _ _ _ U Ho) as (u2 & F2 & Hs & U2).
  simpl. rewrite Hs. by eapply IH; [|apply Hok].
Qed.

Lemma u_inv : exists F, slab_inv cfg 100 [] (mem s) (slb s) F.
Proof.
  assert (run_ok cfg ops (User ∅ Slabs.Demo.s0 [])) as Hok by (apply run_okb_spec; vm_compute; reflexivity).
  destruct (run_inv 100 ops _ _ Slabs.Demo.inv0 Hok) as (u2 & F & E & U).
  exists F. change (slab_inv cfg 100 [] (uheap u) (uslabs u) F). unfold u. rewrite E. apply U.
Qed.

Lemma classes_dec sl :
  map_Forall (fun id p => 1 <= id <= power_largest sl /\ 0 <= perslab p) (slabclass sl) ->
  no_more_classes sl /\ forall id, 0 <= perslab (getc sl id).
Proof.
  intros H. split; intros id; unfold getc; destruct (slabclass sl !! id) as [p|] eqn:E; try done.
  - intros Hid. destruct (H id p E). lia.
  - apply (H id p E).
Qed.

Lemma s_classes : no_more_classes (slb s) /\ forall id, 0 <= perslab (getc (slb s) id).
Proof. apply classes_dec, (bool_decide_unpack _). vm_compute. exact I. Qed.

Lemma a_ok : BaseProofs.well_formed a.
Proof. split; [done|]. vm_compute. reflexivity. Qed.

Definition a' : Base.slab_automove :=
  match Base.slab_automove_run s a with Ok (_, _, a') => a' | _ => a end.
Lemma a_run : Base.slab_automove_run s a = Ok (8, 0, a').
Proof. vm_compute. reflexivity. Qed.

Definition ext_a : Ext.slab_automove :=
  Ext.Automover (replicate 128 Ext.wd0) (replicate 2 Ext.wg0) 2 0 2000 0 ratio ratio false (replicate 64 0)
    (replicate 64 item_am0) (replicate 64 item_am0) (replicate 64 slab_am0) (replicate 64 slab_am0) (replicate 64 0).
Definition ext_a' : Ext.slab_automove :=
  match Ext.slab_automove_extstore_run s ext_a with Ok (_, _, a') => a' | _ => ext_a end.
Lemma ext_a_ok : ExtProofs.well_formed ext_a.
Proof. split; vm_compute; reflexivity. Qed.
Lemma ext_a_run : Ext.slab_automove_extstore_run s ext_a = Ok (8, 0, ext_a').
Proof. vm_compute. reflexivity. Qed.
#[global] Opaque a' ext_a'.
End Demo.

Lemma ok_answer {A B} (x x' : A) (y y' : B) : Ok (x, y) = Ok (x', y') -> y = y'.
Proof. by intros [= _ ->]. Qed.

Lemma automove_decides_witness : exists stop a', BaseSpec.stops Demo.s Demo.a stop /\
  Base.slab_automove_run Demo.s Demo.a = Ok (8, 0, a') /\ BaseProofs.well_formed a' /\
  BaseSpec.recorded Demo.s Demo.a stop a'.
Proof.
  destruct (automove_decides Demo.s Demo.a Demo.a_ok) as (stop & o & y & r & a' & H1 & _ & _ & _ & H2 & H3 & H4).
  exists stop, a'. split; [exact H1|]. split; [|split; [exact H3|exact H4]].
  rewrite Demo.a_run in H2. rewrite <- (ok_answer _ _ _ _ H2). exact Demo.a_run.
Defined.

Lemma automove_ext_decides_witness : exists r o y a', ExtSpec.last_reclaimable Demo.s Demo.ext_a r /\
  Ext.slab_automove_extstore_run Demo.s Demo.ext_a = Ok (8, 0, a') /\ ExtProofs.well_formed a' /\
  ExtSpec.recorded Demo.s Demo.ext_a r o y a'.
Proof.
  destruct (automove_ext_decides Demo.s Demo.ext_a Demo.ext_a_ok) as (r & o & y & v & a' & H1 & _ & _ & _ & H2 & H3 & H4).
  exists r, o, y, a'. split; [exact H1|]. split; [|split; [exact H3|exact H4]].
  rewrite Demo.ext_a_run in H2. rewrite <- (ok_answer _ _ _ _ H2). exact Demo.ext_a_run.
Defined.

Lemma automove_request_posted_witness :
  2 < slabs (getc (slb Demo.s) 8) /\ (slabs_reassign true 8 0 (slb Demo.s) rebal0).1 = REASSIGN_OK.
Proof.
  destruct Demo.u_inv as [F I]. pose proof Demo.a_run as E.
  destruct (automove_request_posted Demo.cfg 100 Demo.s Demo.a F rebal0 8 0 Demo.a' I (proj1 Demo.s_classes) Demo.a_ok
    (proj2 Demo.s_classes) E) as [H1 H2]; [done|done|vm_compute; discriminate|reflexivity|].
  split; [exact H1|]. by rewrite H2.
Defined.
