(* ===== verification/Dispatch.v ===== *)
(** * Handing connections to the worker threads (src/network/thread.c)

    The connection queues, the free list of their items, dispatch_conn_new and
    redispath_conn on the sending side, thread_libevent_process on the worker's.
    Every critical section of the code is one definition; [sys_step] interleaves
    the sections of any number of senders and workers. *)

From S2P Require Import Prelude.

(** enum conn_states, enum network_transport, enum conn_queue_item_modes *)
Inductive conn_states :=
| conn_listening | conn_new_cmd | conn_waiting | conn_read | conn_parse_cmd | conn_write | conn_nread
| conn_swallow | conn_closing | conn_mwrite | conn_closed | conn_watch | conn_max_state.
Inductive network_transport := local_transport | tcp_transport | udp_transport.
Inductive conn_queue_item_modes := queue_new_conn | queue_redispatch.

#[export] Instance conn_states_eq_dec : EqDecision conn_states.
Proof. solve_decision. Defined.
#[export] Instance network_transport_eq_dec : EqDecision network_transport.
Proof. solve_decision. Defined.

Definition IS_TCP (x : network_transport) : bool := bool_decide (x = tcp_transport).
Definition IS_UDP (x : network_transport) : bool := bool_decide (x = udp_transport).

(** struct conn_queue_item, struct conn_queue and the fields of LIBEVENT_THREAD
    the hand-over uses: the queue and the bytes in the notification pipe.
    Pointers are addresses, 0 is NULL. *)
Record CQ_ITEM := CqItem {
  sfd : Z; init_state : conn_states; event_flags : Z; read_buffer_size : Z;
  transport : network_transport; mode : conn_queue_item_modes; conn_of : Z; next : Z }.
Record CQ := Cq { head : Z; tail : Z }.
Record LIBEVENT_THREAD := Thread { new_conn_queue : CQ; pipe : list Z }.

#[export] Instance CQ_ITEM_eta : Eta CQ_ITEM := fun r =>
  CqItem (sfd r) (init_state r) (event_flags r) (read_buffer_size r) (transport r) (mode r) (conn_of r) (next r).
#[export] Instance CQ_eta : Eta CQ := fun r => Cq (head r) (tail r).
#[export] Instance Thread_eta : Eta LIBEVENT_THREAD := fun r => Thread (new_conn_queue r) (pipe r).
#[export] Instance CQ_ITEM_inhabited : Inhabited CQ_ITEM :=
  populate (CqItem 0 conn_listening 0 0 local_transport queue_new_conn 0 0).
#[export] Instance CQ_inhabited : Inhabited CQ := populate (Cq 0 0).
#[export] Instance Thread_inhabited : Inhabited LIBEVENT_THREAD := populate (Thread inhabitant []).

Definition sizeof_CQ_ITEM : Z := 40.

(** The globals of thread.c, and what the environment decides: the addresses
    malloc is going to return (0 and the end of the list: NULL), whether the
    next writes to a pipe succeed.  [layer] is the state of the connections. *)
Record dst (S : Type) := Dst {
  items : gmap Z CQ_ITEM; cqi_freelist : Z; threads : gmap Z LIBEVENT_THREAD; last_thread : Z;
  init_count : Z; malloc_fails : Z; mallocs : list Z; writes : list bool; layer : S }.
Arguments Dst {S}. Arguments items {S}. Arguments cqi_freelist {S}. Arguments threads {S}.
Arguments last_thread {S}. Arguments init_count {S}. Arguments malloc_fails {S}. Arguments mallocs {S}.
Arguments writes {S}. Arguments layer {S}.
#[export] Instance dst_eta {S} : Eta (dst S) := fun r =>
  Dst (items r) (cqi_freelist r) (threads r) (last_thread r) (init_count r) (malloc_fails r) (mallocs r)
    (writes r) (layer r).

(** What the hand-over asks of the connections (memcached.c): conn_new, which
    answers NULL when it fails; c->thread = me; the other entry points of a
    worker; and the closing of a descriptor or a connection that cannot be
    handed over. *)
Class ConnLayer (S : Type) := {
  conn_new : Z -> conn_states -> Z -> Z -> network_transport -> S -> res (Z * S);
  set_thread : Z -> Z -> S -> S;
  conn_worker_readd : Z -> S -> S;
  conn_close_idle : Z -> S -> S;
  close_fd : Z -> S -> S;
  set_closed : Z -> S -> S;
  thread_of : S -> Z -> Z;
  sfd_of : S -> Z -> Z }.

(** The constants ITEMS_PER_ALLOC, EV_READ, EV_PERSIST and settings.num_threads. *)
Record net_config := NetConfig { ITEMS_PER_ALLOC : Z; num_threads : Z }.

Section dispatch.
Context {S : Type} {L : ConnLayer S} (cfg : net_config).
Abbreviation Mn := (M (dst S)).

Definition geti (p : Z) : Mn CQ_ITEM := gets (fun s => items s !!! p).
Definition wri (p : Z) (f : CQ_ITEM -> CQ_ITEM) : Mn unit :=
  modify (fun s => s <| items ::= fun m => <[p := f (m !!! p)]> m |>).
Definition getq (w : Z) : Mn CQ := gets (fun s => new_conn_queue (threads s !!! w)).
Definition wrt (w : Z) (f : LIBEVENT_THREAD -> LIBEVENT_THREAD) : Mn unit :=
  modify (fun s => s <| threads ::= fun m => <[w := f (m !!! w)]> m |>).
Definition wrq (w : Z) (f : CQ -> CQ) : Mn unit := wrt w (fun t => t <| new_conn_queue ::= f |>).
Definition with_layer (f : S -> S) : Mn unit := modify (fun s => s <| layer ::= f |>).

(** ** The queues *)

Definition cq_init (w : Z) : Mn unit := wrq w (fun _ => Cq 0 0).

Definition cq_pop (w : Z) : Mn Z :=
  q ← getq w;
  let item := head q in
  if decide (item = 0) then mret item
  else
    i ← geti item;
    wrq w (fun q => q <| head := next i |>);;
    when (bool_decide (next i = 0)) (wrq w (fun q => q <| tail := 0 |>));;
    mret item.

Definition cq_push (w item : Z) : Mn unit :=
  wri item (fun i => i <| next := 0 |>);;
  q ← getq w;
  (if decide (tail q = 0) then wrq w (fun q => q <| head := item |>)
   else wri (tail q) (fun i => i <| next := item |>));;
  wrq w (fun q => q <| tail := item |>).

(** ** The free list *)

(** The two critical sections of cqi_new and what happens between them. *)
Definition cqi_pop : Mn Z :=
  item ← gets cqi_freelist;
  if decide (item = 0) then mret 0
  else
    i ← geti item;
    modify (fun s => s <| cqi_freelist := next i |>);;
    mret item.

Definition item_at (b k : Z) : Z := b + k * sizeof_CQ_ITEM.

(** for (i = 2; i < ITEMS_PER_ALLOC; i++) item[i - 1].next = &item[i]; *)
Definition link_item (b : Z) (m : gmap Z CQ_ITEM) (i : Z) : gmap Z CQ_ITEM :=
  let p := item_at b (i - 1) in <[p := (m !!! p) <| next := item_at b i |>]> m.
Definition link_items (b : Z) (m : gmap Z CQ_ITEM) : gmap Z CQ_ITEM :=
  foldl (link_item b) m (seqZ 2 (ITEMS_PER_ALLOC cfg - 2)).

Definition cqi_malloc : Mn Z :=
  b ← gets (fun s => List.hd 0 (mallocs s));
  modify (fun s => s <| mallocs ::= @tl Z |>);;
  if decide (b = 0) then modify (fun s => s <| malloc_fails ::= Z.succ |>);; mret 0
  else modify (fun s => s <| items ::= link_items b |>);; mret b.

Definition cqi_put_rest (b : Z) : Mn unit :=
  fl ← gets cqi_freelist;
  wri (item_at b (ITEMS_PER_ALLOC cfg - 1)) (fun i => i <| next := fl |>);;
  modify (fun s => s <| cqi_freelist := item_at b 1 |>).

Definition cqi_new : Mn Z :=
  item ← cqi_pop;
  if decide (item = 0) then
    b ← cqi_malloc;
    if decide (b = 0) then mret 0 else cqi_put_rest b;; mret b
  else mret item.

Definition cqi_free (item : Z) : Mn unit :=
  fl ← gets cqi_freelist;
  wri item (fun i => i <| next := fl |>);;
  modify (fun s => s <| cqi_freelist := item |>).

(** ** The senders *)

(** write(thread->notify_send_fd, bs, n) *)
Definition pipe_write (w : Z) (bs : list Z) : Mn bool :=
  ok ← gets (fun s => List.hd true (writes s));
  modify (fun s => s <| writes ::= @tl bool |>);;
  when ok (wrt w (fun t => t <| pipe ::= fun p => p ++ bs |>));;
  mret ok.

Definition byte_c : Z := 99.
Definition byte_p : Z := 112.
Definition byte_t : Z := 116.

(** From the choice of the thread to cq_push in dispatch_conn_new. *)
Definition assign_new (item fd : Z) (st : conn_states) (ev rbs : Z) (tr : network_transport) : Mn Z :=
  lt ← gets last_thread;
  let tid := Z.rem (lt + 1) (num_threads cfg) in
  modify (fun s => s <| last_thread := tid |>);;
  wri item (fun i => i <| sfd := fd |> <| init_state := st |> <| event_flags := ev |>
    <| read_buffer_size := rbs |> <| transport := tr |> <| mode := queue_new_conn |>);;
  cq_push tid item;;
  mret tid.

Definition dispatch_conn_new (fd : Z) (st : conn_states) (ev rbs : Z) (tr : network_transport) : Mn unit :=
  item ← cqi_new;
  if decide (item = 0) then with_layer (close_fd fd)
  else
    tid ← assign_new item fd st ev rbs tr;
    _ ← pipe_write tid [byte_c];
    mret tt.

(** The same for a connection a side thread gives back to its worker. *)
Definition assign_again (item c : Z) : Mn Z :=
  tid ← gets (fun s => thread_of (layer s) c);
  fd ← gets (fun s => sfd_of (layer s) c);
  wri item (fun i => i <| sfd := fd |> <| init_state := conn_new_cmd |> <| conn_of := c |>
    <| mode := queue_redispatch |>);;
  cq_push tid item;;
  mret tid.

Definition redispath_conn (c : Z) : Mn unit :=
  item ← cqi_new;
  if decide (item = 0) then
    with_layer (set_closed c);;
    fd ← gets (fun s => sfd_of (layer s) c);
    with_layer (close_fd fd)
  else
    tid ← assign_again item c;
    _ ← pipe_write tid [byte_c];
    mret tt.

(** ** The worker *)

(** read(fd, buf, n) of the notification pipe: the first n bytes it holds. *)
Definition pipe_read (w : Z) (n : nat) : Mn (list Z) :=
  bs ← gets (fun s => take n (pipe (threads s !!! w)));
  wrt w (fun t => t <| pipe ::= drop n |>);;
  mret bs.

(** The switch on item->mode. exit(1) after a failed UDP connection is [Abort]. *)
Definition handle (me : Z) (i : CQ_ITEM) (l : S) : res S :=
  match mode i with
  | queue_new_conn =>
      '(c, l) ← conn_new (sfd i) (init_state i) (event_flags i) (read_buffer_size i) (transport i) l;
      if decide (c = 0) then
        if IS_UDP (transport i) then Abort else mret (close_fd (sfd i) l)
      else mret (set_thread c me l)
  | queue_redispatch => mret (conn_worker_readd (conn_of i) l)
  end.
Definition handle_item (me item : Z) : Mn unit :=
  i ← geti item;
  l ← gets layer;
  match handle me i l with
  | Ok l => with_layer (fun _ => l)
  | Abort => fun _ => Abort
  | NoFuel => nofuel
  end.

(** The descriptor a 't' message carries: a native int. *)
Definition timeout_msg (fd : Z) : list Z := [byte_t; fd mod 256; fd / 256 mod 256; fd / 65536 mod 256; fd / 16777216].

Definition thread_libevent_process (me : Z) : Mn unit :=
  buf ← pipe_read me 1;
  match buf with
  | [] => mret tt
  | b :: _ =>
      if decide (b = byte_c) then
        item ← cq_pop me;
        if decide (item = 0) then mret tt else handle_item me item;; cqi_free item
      else if decide (b = byte_p) then modify (fun s => s <| init_count ::= Z.succ |>)
      else if decide (b = byte_t) then
        fd ← pipe_read me 4;
        if decide (length fd = 4%nat) then with_layer (conn_close_idle (le32 fd 0)) else mret tt
      else mret tt
  end.
End dispatch.

(** ** The system

    Any number of senders and [num_threads] workers, interleaved at the
    boundaries of the critical sections.  Sender 0 is the main thread, the only
    one that calls dispatch_conn_new. *)

Inductive request :=
| RNew (fd : Z) (st : conn_states) (ev rbs : Z) (tr : network_transport)
| RAgain (c : Z).

(** Where a sender is: outside, after the first section of cqi_new found the
    list empty, after malloc, with an item in hand, after cq_push. *)
Inductive sender := SIdle | SNeed (r : request) | SLinked (r : request) (b : Z) | SHave (r : request) (item : Z) | SPushed (w : Z).
Inductive worker := WIdle | WHold (item : Z) | WDone (item : Z).
#[export] Instance worker_inhabited : Inhabited worker := populate WIdle.

(** What was handed over, as the item carries it. *)
Inductive job :=
| JNew (fd : Z) (st : conn_states) (ev rbs : Z) (tr : network_transport)
| JAgain (c fd : Z).
Definition job_of (i : CQ_ITEM) : job :=
  match mode i with
  | queue_new_conn => JNew (sfd i) (init_state i) (event_flags i) (read_buffer_size i) (transport i)
  | queue_redispatch => JAgain (conn_of i) (sfd i)
  end.
Definition is_new (j : job) : bool := match j with JNew _ _ _ _ _ => true | JAgain _ _ => false end.

(** The state of the whole with its history: the blocks malloc returned, what was
    pushed to and handled by which worker in order, the wake-ups that failed. *)
Record sys (S : Type) := Sys {
  glob : dst S; senders : list sender; workers : gmap Z worker;
  blocks : list Z; pushed : list (Z * job); handled : list (Z * job); lost : list Z }.
Arguments Sys {S}. Arguments glob {S}. Arguments senders {S}. Arguments workers {S}. Arguments blocks {S}.
Arguments pushed {S}. Arguments handled {S}. Arguments lost {S}.
#[export] Instance sys_eta {S} : Eta (sys S) := fun r =>
  Sys (glob r) (senders r) (workers r) (blocks r) (pushed r) (handled r) (lost r).

Section steps.
Context {S : Type} {L : ConnLayer S} (cfg : net_config).

Definition block_items (b : Z) : list Z := item_at b <$> seqZ 0 (ITEMS_PER_ALLOC cfg).

(** malloc: the address of memory that overlaps no other block. *)
Definition fresh_block (b : Z) (bs : list Z) : Prop :=
  0 < b /\ forall x, x ∈ block_items b -> x ∉ (bs ≫= block_items).

Definition assign (r : request) (item : Z) : M (dst S) Z :=
  match r with
  | RNew fd st ev rbs tr => assign_new cfg item fd st ev rbs tr
  | RAgain c => assign_again item c
  end.
Definition no_item (r : request) : M (dst S) unit :=
  match r with
  | RNew fd _ _ _ _ => with_layer (close_fd fd)
  | RAgain c => with_layer (set_closed c);; fd ← gets (fun s => sfd_of (layer s) c); with_layer (close_fd fd)
  end.
Definition target_ok (r : request) (l : S) : Prop :=
  match r with RNew _ _ _ _ _ => True | RAgain c => 0 <= thread_of l c < num_threads cfg end.

(** A worker reads its pipe, and pops the queue when told to. *)
Definition worker_read (me : Z) : M (dst S) worker :=
  buf ← pipe_read me 1;
  match buf with
  | [] => mret WIdle
  | b :: _ =>
      if decide (b = byte_c) then
        item ← cq_pop me;
        mret (if decide (item = 0) then WIdle else WHold item)
      else if decide (b = byte_p) then modify (fun s => s <| init_count ::= Z.succ |>);; mret WIdle
      else if decide (b = byte_t) then
        fd ← pipe_read me 4;
        (if decide (length fd = 4%nat) then with_layer (conn_close_idle (le32 fd 0)) else mret tt);; mret WIdle
      else mret WIdle
  end.

Inductive sender_step : sys S -> sys S -> Prop :=
| step_call s t r item g : senders s !! t = Some SIdle -> match r with RNew _ _ _ _ _ => t = 0%nat | RAgain _ => True end ->
    cqi_pop (glob s) = Ok (item, g) ->
    sender_step s (s <| glob := g |> <| senders ::= <[t := if decide (item = 0) then SNeed r else SHave r item]> |>)
| step_no_memory s t r g g' : senders s !! t = Some (SNeed r) ->
    cqi_malloc cfg (glob s) = Ok (0, g) -> no_item r g = Ok (tt, g') ->
    sender_step s (s <| glob := g' |> <| senders ::= <[t := SIdle]> |>)
| step_malloc s t r b g : senders s !! t = Some (SNeed r) ->
    cqi_malloc cfg (glob s) = Ok (b, g) -> fresh_block b (blocks s) ->
    sender_step s (s <| glob := g |> <| senders ::= <[t := SLinked r b]> |> <| blocks ::= cons b |>)
| step_put_rest s t r b g : senders s !! t = Some (SLinked r b) ->
    cqi_put_rest cfg b (glob s) = Ok (tt, g) ->
    sender_step s (s <| glob := g |> <| senders ::= <[t := SHave r b]> |>)
| step_push s t r item w g : senders s !! t = Some (SHave r item) -> target_ok r (layer (glob s)) ->
    assign r item (glob s) = Ok (w, g) ->
    sender_step s (s <| glob := g |> <| senders ::= <[t := SPushed w]> |>
      <| pushed ::= fun l => l ++ [(w, job_of (items g !!! item))] |>)
| step_wake s t w ok g : senders s !! t = Some (SPushed w) ->
    pipe_write w [byte_c] (glob s) = Ok (ok, g) ->
    sender_step s (s <| glob := g |> <| senders ::= <[t := SIdle]> |>
      <| lost ::= fun l => if ok then l else w :: l |>)
(* conn_timeout_thread (memcached.c) reports an idle connection. *)
| step_timeout s w fd ok g : 0 <= fd < 2 ^ 31 -> pipe_write w (timeout_msg fd) (glob s) = Ok (ok, g) ->
    sender_step s (s <| glob := g |>).

Inductive worker_step : sys S -> sys S -> Prop :=
| step_read s w k g : 0 <= w < num_threads cfg -> workers s !!! w = WIdle -> pipe (threads (glob s) !!! w) <> [] ->
    worker_read w (glob s) = Ok (k, g) ->
    worker_step s (s <| glob := g |> <| workers ::= <[w := k]> |>)
| step_handle s w item g : 0 <= w < num_threads cfg -> workers s !!! w = WHold item -> handle_item w item (glob s) = Ok (tt, g) ->
    worker_step s (s <| glob := g |> <| workers ::= <[w := WDone item]> |>
      <| handled ::= fun l => l ++ [(w, job_of (items (glob s) !!! item))] |>)
| step_free s w item g : 0 <= w < num_threads cfg -> workers s !!! w = WDone item -> cqi_free item (glob s) = Ok (tt, g) ->
    worker_step s (s <| glob := g |> <| workers ::= <[w := WIdle]> |>).

Definition sys_step (s s' : sys S) : Prop := sender_step s s' \/ worker_step s s'.

(** After memcached_thread_init: no item, empty queues and pipes. *)
Definition thread_init (mallocs : list Z) (writes : list bool) (l : S) : dst S :=
  Dst ∅ 0 (gset_to_gmap (Thread (Cq 0 0) []) (list_to_set (seqZ 0 (num_threads cfg)))) (-1) 0 0 mallocs writes l.
Definition initial (s : sys S) : Prop :=
  (exists ms ws l, glob s = thread_init ms ws l) /\ Forall (eq SIdle) (senders s) /\ workers s = ∅ /\
  blocks s = [] /\ pushed s = [] /\ handled s = [] /\ lost s = [].
Definition reachable (s : sys S) : Prop := exists s0, initial s0 /\ rtc sys_step s0 s.
End steps.

(** ** Linked lists *)

Fixpoint chain (m : gmap Z CQ_ITEM) (p : Z) (l : list Z) : Prop :=
  match l with
  | [] => p = 0
  | x :: l => p = x /\ x <> 0 /\ chain m (next (m !!! x)) l
  end.

Lemma chain_agree m m' p l : (forall x, x ∈ l -> next (m' !!! x) = next (m !!! x)) -> chain m p l -> chain m' p l.
Proof.
  revert p. induction l as [|x l IH]; simpl; intros p H; [done|]. intros (-> & ? & Hc). split; [done|]. split; [done|].
  rewrite H by by left. apply IH; [|done]. intros y Hy. apply H. by right.
Qed.

Lemma chain_upd m x i p l : x ∉ l -> chain m p l -> chain (<[x := i]> m) p l.
Proof. intros H. apply chain_agree. intros y Hy. rewrite lookup_total_insert_ne; [done|]. by intros ->. Qed.

Lemma chain_same_next m x i p l : next i = next (m !!! x) -> chain m p l -> chain (<[x := i]> m) p l.
Proof.
  intros H. apply chain_agree. intros y Hy. destruct (decide (x = y)) as [<-|].
  - by rewrite lookup_total_insert_eq.
  - by rewrite lookup_total_insert_ne.
Qed.

Lemma chain_app_inv m p l x : chain m p (l ++ [x]) -> p = default x (List.hd_error l) /\ x <> 0 /\ next (m !!! x) = 0.
Proof.
  revert p. induction l as [|y l IH]; simpl; intros p; [naive_solver|]. intros (-> & ? & H). apply IH in H as (? & ? & ?).
  done.
Qed.

(** Appending [x]: the old last item (if any) now points to it. *)
Lemma chain_snoc m p l y x i : chain m p (l ++ [y]) -> NoDup (l ++ [y]) -> x ∉ l ++ [y] -> x <> 0 -> next i = x ->
  next (m !!! x) = 0 -> chain (<[y := i]> m) p ((l ++ [y]) ++ [x]).
Proof.
  intros Hc Hn Hx Hx0 Hi Hnx.
  assert (y <> x) as Hyx by (intros ->; apply Hx, elem_of_app; right; by left).
  revert p Hc Hn Hx. induction l as [|z l IH]; simpl; intros p (-> & ? & Hc) Hn Hx.
  - split; [done|]. split; [done|]. rewrite lookup_total_insert_eq, Hi. split; [done|]. split; [done|].
    by rewrite lookup_total_insert_ne.
  - apply NoDup_cons in Hn as [Hz Hn]. split; [done|]. split; [done|].
    rewrite lookup_total_insert_ne.
    + apply IH; [done|done|]. intros H'. apply Hx. by right.
    + intros ->. apply Hz, elem_of_app. right. by left.
Qed.

(** ** Sums over the senders *)

Definition pending (w : Z) (k : sender) : nat := match k with SPushed w' => if decide (w' = w) then 1 else 0 | _ => 0 end.
Definition pendings (w : Z) (l : list sender) : nat := sum_list (pending w <$> l).

Lemma pendings_insert w l t k k' : l !! t = Some k ->
  (pendings w (<[t := k']> l) + pending w k = pendings w l + pending w k')%nat.
Proof.
  revert t. unfold pendings. induction l as [|x l IH]; intros [|t] H; simplify_eq/=; [lia|].
  specialize (IH t H). lia.
Qed.

Lemma pendings_same w l t k k' : l !! t = Some k -> pending w k = pending w k' ->
  pendings w (<[t := k']> l) = pendings w l.
Proof. intros H E. pose proof (pendings_insert w l t k k' H). lia. Qed.

(** ** Messages *)

Inductive msg := MConn | MTimeout (fd : Z).
#[export] Instance msg_eq_dec : EqDecision msg.
Proof. solve_decision. Defined.
Definition enc (m : msg) : list Z := match m with MConn => [byte_c] | MTimeout fd => timeout_msg fd end.
Definition nconn (l : list msg) : nat := length (filter (fun m => m = MConn) l).

Definition count_of (w : Z) (l : list Z) : nat := length (filter (fun x => x = w) l).

(** The history of one worker. *)
Definition jobs_of (w : Z) (l : list (Z * job)) : list job := (filter (fun p => p.1 = w) l).*2.

Lemma jobs_of_snoc w l w' j : jobs_of w (l ++ [(w', j)]) = jobs_of w l ++ (if decide (w' = w) then [j] else []).
Proof.
  unfold jobs_of. rewrite filter_app, fmap_app. f_equal. destruct (decide (w' = w)) as [E|E].
  - by rewrite filter_cons_True.
  - by rewrite filter_cons_False.
Qed.

(** ** The invariant *)

(** Who has an item: the free list, a worker's queue, a sender or a worker. *)
Inductive owner := OFree | OQueue (w : Z) | OSender (t : nat) | OWorker (w : Z).

(** A queue of [l]: linked from the head, the tail points to its last item. *)
Record queue_ok (m : gmap Z CQ_ITEM) (q : CQ) (l : list Z) : Prop := {
  qo_chain : chain m (head q) l;
  qo_tail : tail q = default 0 (last l);
  qo_nodup : NoDup l }.

Section invariant.
Context {S : Type} {L : ConnLayer S} (cfg : net_config).
Abbreviation block_items := (block_items cfg).

Definition sender_has (k : option sender) (x : Z) : Prop :=
  match k with
  | Some (SHave _ y) => x = y
  | Some (SLinked _ b) => x ∈ block_items b
  | _ => False
  end.
Definition worker_has (k : worker) (x : Z) : Prop :=
  match k with WHold y | WDone y => x = y | WIdle => False end.
Definition owns (s : sys S) (F : list Z) (Q : Z -> list Z) (o : owner) (x : Z) : Prop :=
  match o with
  | OFree => x ∈ F
  | OQueue w => x ∈ Q w
  | OSender t => sender_has (senders s !! t) x
  | OWorker w => worker_has (workers s !!! w) x
  end.

(** The first section of a block is still private to the sender: its items are
    linked from the second to the last. *)
Definition linked (m : gmap Z CQ_ITEM) (b : Z) : Prop :=
  forall k, 1 <= k < ITEMS_PER_ALLOC cfg - 1 -> next (m !!! item_at b k) = item_at b (k + 1).

(** The job a worker has popped and not handled yet. *)
Definition in_hand (m : gmap Z CQ_ITEM) (k : worker) : list job :=
  match k with WHold x => [job_of (m !!! x)] | _ => [] end.

Record inv (s : sys S) (F : list Z) (Q : Z -> list Z) (Ms : Z -> list msg) : Prop := {
  i_uniq x o o' : owns s F Q o x -> owns s F Q o' x -> o = o';
  i_blocks x : x ∈ (blocks s ≫= block_items) <-> exists o, owns s F Q o x;
  i_pos x : x ∈ (blocks s ≫= block_items) -> 0 < x;
  i_free : chain (items (glob s)) (cqi_freelist (glob s)) F /\ NoDup F;
  i_queue w : queue_ok (items (glob s)) (new_conn_queue (threads (glob s) !!! w)) (Q w);
  i_linked t r b : senders s !! t = Some (SLinked r b) -> linked (items (glob s)) b;
  i_pipe w : pipe (threads (glob s) !!! w) = Ms w ≫= enc;
  i_wake w : length (Q w) = (nconn (Ms w) + pendings w (senders s) + count_of w (lost s))%nat;
  i_fifo w : jobs_of w (pushed s) = jobs_of w (handled s) ++ in_hand (items (glob s)) (workers s !!! w) ++
    ((fun x => job_of (items (glob s) !!! x)) <$> Q w);
  i_robin : let n := Z.of_nat (length (filter (fun p => is_new p.2) (pushed s))) in
    (filter (fun p => is_new p.2) (pushed s)).*1 = (fun k => k mod num_threads cfg) <$> seqZ 0 n /\
    last_thread (glob s) = (if decide (n = 0) then -1 else (n - 1) mod num_threads cfg) }.

(** Ownership after some items changed hands. *)
Lemma moved_uniq {A B} (own own' : A -> B -> Prop) (P : B -> Prop) (f : B -> A) :
  (forall x o o', own o x -> own o' x -> o = o') ->
  (forall o x, own' o x <-> (own o x /\ ~ P x) \/ (P x /\ o = f x)) ->
  forall x o o', own' o x -> own' o' x -> o = o'.
Proof. intros Hu Hm x o o' [[? ?]|[? ->]]%Hm [[? ?]|[? ->]]%Hm; naive_solver. Qed.

Lemma moved_dom {A B} (own own' : A -> B -> Prop) (P : B -> Prop) (f : B -> A) (dom : B -> Prop)
    `{!forall x, Decision (P x)} :
  (forall x, dom x <-> exists o, own o x) -> (forall x, P x -> dom x) ->
  (forall o x, own' o x <-> (own o x /\ ~ P x) \/ (P x /\ o = f x)) ->
  forall x, dom x <-> exists o, own' o x.
Proof.
  intros Hd HP Hm x. setoid_rewrite Hm. split.
  - intros Hx. destruct (decide (P x)); [naive_solver|]. apply Hd in Hx as [o Ho]. naive_solver.
  - intros [o [[? _]|[? _]]]; [apply Hd; naive_solver|auto].
Qed.

Lemma sender_has_eq (l : list sender) t k t' x : (exists k0, l !! t = Some k0) ->
  sender_has (<[t := k]> l !! t') x <-> (if decide (t' = t) then sender_has (Some k) x else sender_has (l !! t') x).
Proof.
  intros [k0 H]. destruct (decide (t' = t)) as [->|].
  - rewrite list_lookup_insert_eq; [done|]. by eapply lookup_lt_Some.
  - by rewrite list_lookup_insert_ne.
Qed.

Lemma worker_has_eq (m : gmap Z worker) w k w' x :
  worker_has (<[w := k]> m !!! w') x <-> (if decide (w' = w) then worker_has k x else worker_has (m !!! w') x).
Proof.
  destruct (decide (w' = w)) as [->|]; [by rewrite lookup_total_insert_eq|by rewrite lookup_total_insert_ne].
Qed.

Lemma owner_eq_queue w w' : OQueue w = OQueue w' <-> w = w'. Proof. naive_solver. Qed.
Lemma owner_eq_sender w w' : OSender w = OSender w' <-> w = w'. Proof. naive_solver. Qed.
Lemma owner_eq_worker w w' : OWorker w = OWorker w' <-> w = w'. Proof. naive_solver. Qed.

(** An item [x] changes hands to [o1]. *)
Lemma move_one s F Q Ms s' F' Q' x o1 : inv s F Q Ms -> blocks s' = blocks s ->
  x ∈ (blocks s ≫= block_items) ->
  (forall o y, owns s' F' Q' o y <-> (owns s F Q o y /\ y <> x) \/ (y = x /\ o = o1)) ->
  (forall y o o', owns s' F' Q' o y -> owns s' F' Q' o' y -> o = o') /\
  (forall y, y ∈ (blocks s' ≫= block_items) <-> exists o, owns s' F' Q' o y).
Proof.
  intros I Hb Hx H. split.
  - apply (moved_uniq (owns s F Q) _ (fun y => y = x) (fun _ => o1)); [apply I|done].
  - rewrite Hb. apply (moved_dom (owns s F Q) (owns s' F' Q') (fun y => y = x) (fun _ => o1)
      (fun y => y ∈ (blocks s ≫= block_items))); [apply I|by intros y ->|done].
Qed.

(** No item changes hands. *)
Lemma move_none s F Q Ms s' F' Q' : inv s F Q Ms -> blocks s' = blocks s ->
  (forall o y, owns s' F' Q' o y <-> owns s F Q o y) ->
  (forall y o o', owns s' F' Q' o y -> owns s' F' Q' o' y -> o = o') /\
  (forall y, y ∈ (blocks s' ≫= block_items) <-> exists o, owns s' F' Q' o y).
Proof.
  intros I Hb H. rewrite Hb. split.
  - intros y o o'. rewrite !H. apply I.
  - intros y. setoid_rewrite H. apply I.
Qed.

Lemma inv_call s t r item g F Q Ms : inv s F Q Ms -> senders s !! t = Some SIdle ->
  cqi_pop (glob s) = Ok (item, g) ->
  exists F', inv (s <| glob := g |> <| senders ::= <[t := if decide (item = 0) then SNeed r else SHave r item]> |>) F' Q Ms.
Proof.
  intros I Ht E. unfold cqi_pop, gets, mbind, M_bind, mret, M_ret in E.
  pose proof (i_free _ _ _ _ I) as [Hc Hn].
  destruct (decide (cqi_freelist (glob s) = 0)) as [E0|E0].
  - injection E as <- <-. exists F. set (s' := _ <| senders ::= _ |>).
    destruct (move_none s F Q Ms s' F Q I eq_refl) as [Hu Hb].
    { intros [|w|t'|w] y; simpl; try done. rewrite sender_has_eq by eauto.
      destruct (decide (t' = t)) as [->|]; [by rewrite Ht|done]. }
    split; try apply I; try done.
    + intros t' r' b' H. simpl in H. apply list_lookup_insert_Some in H as [(_ & H & _)|[_ H]].
      * done.
      * by apply (i_linked _ _ _ _ I) in H.
    + intros w. subst s'. simpl. rewrite (pendings_same w _ t SIdle) by (try done; by rewrite decide_True).
      apply I.
  - unfold geti, gets, modify, mbind, M_bind in E. simpl in E. injection E as <- <-.
    destruct F as [|x F]; simpl in Hc; [done|]. destruct Hc as (Ex & Hx0 & Hc). rewrite Ex in *.
    apply NoDup_cons in Hn as [Hx Hn]. exists F. rewrite decide_False by done. set (s' := _ <| senders ::= _ |>).
    assert (Hbx : x ∈ (blocks s ≫= block_items)) by (apply (i_blocks _ _ _ _ I); exists OFree; by left).
    destruct (move_one s (x :: F) Q Ms s' F Q x (OSender t) I eq_refl Hbx) as [Hu Hb].
    { intros o y.
      assert (forall o', owns s (x :: F) Q o' x -> o' = OFree) as Hox
        by (intros o' Ho; by apply (i_uniq _ _ _ _ I x); [|left]).
      destruct o as [|w|t'|w]; simpl.
      - set_solver.
      - split; [|naive_solver]. intros Hy. left. split; [done|]. intros ->. by specialize (Hox (OQueue w) Hy).
      - rewrite sender_has_eq by eauto. destruct (decide (t' = t)) as [->|Hne].
        + rewrite Ht. simpl. naive_solver.
        + split; [|naive_solver]. intros Hy. left. split; [done|]. intros ->. by specialize (Hox (OSender t') Hy).
      - split; [|naive_solver]. intros Hy. left. split; [done|]. intros ->. by specialize (Hox (OWorker w) Hy). }
    split; try apply I; try done.
    + intros t' r' b' H. simpl in H. apply list_lookup_insert_Some in H as [(_ & H & _)|[_ H]]; [done|].
      by apply (i_linked _ _ _ _ I) in H.
    + intros w. subst s'. simpl. rewrite (pendings_same w _ t SIdle) by done. apply I.
Qed.

(** A step of a sender that has no item before and after it, and that leaves the
    items, the queues and the pipes alone. *)
Lemma inv_frame s g t k k' F Q Ms : inv s F Q Ms -> senders s !! t = Some k ->
  items g = items (glob s) -> cqi_freelist g = cqi_freelist (glob s) -> threads g = threads (glob s) ->
  last_thread g = last_thread (glob s) ->
  (forall x, ~ sender_has (Some k) x) -> (forall x, ~ sender_has (Some k') x) -> (forall r b, k' <> SLinked r b) ->
  (forall w, pending w k = pending w k') ->
  inv (s <| glob := g |> <| senders ::= <[t := k']> |>) F Q Ms.
Proof.
  intros I Ht Ei Ef Et El Hk Hk' Hl Hp. set (s' := _ <| senders ::= _ |>).
  destruct (move_none s F Q Ms s' F Q I eq_refl) as [Hu Hb].
  { intros [|w|t'|w] y; simpl; try done. rewrite sender_has_eq by eauto.
    destruct (decide (t' = t)) as [->|]; [rewrite Ht; naive_solver|done]. }
  split; unfold s'; simpl; rewrite ?Ei, ?Ef, ?Et, ?El; try apply I; try done.
  - intros t' r' b' H. apply list_lookup_insert_Some in H as [(_ & H & _)|[_ H]]; [by apply Hl in H|].
    by apply (i_linked _ _ _ _ I) in H.
  - intros w. rewrite (pendings_same w _ t k) by auto. apply I.
Qed.

Lemma inv_no_memory s t r g g' F Q Ms : inv s F Q Ms -> senders s !! t = Some (SNeed r) ->
  cqi_malloc cfg (glob s) = Ok (0, g) -> no_item r g = Ok (tt, g') ->
  inv (s <| glob := g' |> <| senders ::= <[t := SIdle]> |>) F Q Ms.
Proof.
  intros I Ht E E'. unfold cqi_malloc, gets, modify, mbind, M_bind, mret, M_ret in E.
  destruct (decide (List.hd 0 (mallocs (glob s)) = 0)) as [E0|E0]; [|injection E as E _; congruence].
  injection E as <-.
  destruct r; unfold no_item, with_layer, gets, modify, mbind, M_bind, mret, M_ret in E'; injection E' as <-;
    by (eapply inv_frame; [exact I|exact Ht|..]; auto).
Qed.

Lemma item_at_inj b k k' : item_at b k = item_at b k' -> k = k'.
Proof. unfold item_at, sizeof_CQ_ITEM. lia. Qed.

Lemma elem_block b x : x ∈ block_items b <-> exists k, x = item_at b k /\ 0 <= k < ITEMS_PER_ALLOC cfg.
Proof.
  unfold block_items. rewrite list_elem_of_fmap. f_equiv. intros k. rewrite elem_of_seqZ. lia.
Qed.

Lemma link_fold b m l p : (forall i, i ∈ l -> item_at b (i - 1) <> p) ->
  foldl (link_item b) m l !!! p = m !!! p.
Proof.
  revert m. induction l as [|i l IH]; simpl; intros m H; [done|].
  rewrite IH by (intros j Hj; apply H; by right). unfold link_item. rewrite lookup_total_insert_ne; [done|]. apply H. by left.
Qed.

Lemma link_items_other b m p : p ∉ block_items b -> link_items cfg b m !!! p = m !!! p.
Proof.
  intros H. apply link_fold. intros i Hi. apply elem_of_seqZ in Hi. intros <-. apply H, elem_block.
  exists (i - 1). split; [done|lia].
Qed.

Lemma link_items_linked b m : linked (link_items cfg b m) b.
Proof.
  intros k Hk. unfold link_items.
  assert (forall l, NoDup l -> k + 1 ∈ l -> forall m,
    next (foldl (link_item b) m l
      !!! item_at b k) = item_at b (k + 1)) as H.
  { clear m. induction l as [|i l IH]; intros Hn Hin m; [by apply not_elem_of_nil in Hin|].
    apply NoDup_cons in Hn as [Hi Hn]. simpl. apply elem_of_cons in Hin as [<-|Hin]; [|by apply IH].
    rewrite link_fold.
    - unfold link_item. replace (k + 1 - 1) with k by lia. by rewrite lookup_total_insert_eq.
    - intros j Hj E. apply item_at_inj in E. assert (j = k + 1) as -> by lia. done. }
  apply H; [apply NoDup_seqZ|]. apply elem_of_seqZ. lia.
Qed.

(** The items of a queue, of a worker and of the free list are not those of [b]. *)
Definition apart (s : sys S) F Q (b : Z) : Prop := forall x, x ∈ block_items b -> forall o, ~ owns s F Q o x.

Lemma queue_ok_agree m m' q l : (forall x, x ∈ l -> next (m' !!! x) = next (m !!! x)) -> queue_ok m q l -> queue_ok m' q l.
Proof. intros H [? ? ?]. split; [|done|done]. by eapply chain_agree. Qed.

Lemma inv_malloc s t r b g F Q Ms : inv s F Q Ms -> senders s !! t = Some (SNeed r) ->
  cqi_malloc cfg (glob s) = Ok (b, g) -> fresh_block cfg b (blocks s) ->
  inv (s <| glob := g |> <| senders ::= <[t := SLinked r b]> |> <| blocks ::= cons b |>) F Q Ms.
Proof.
  intros I Ht E [Hb0 Hf]. unfold cqi_malloc, gets, modify, mbind, M_bind, mret, M_ret in E. simpl in E.
  destruct (decide (List.hd 0 (mallocs (glob s)) = 0)) as [E0|E0]; [injection E as <- <-; lia|].
  injection E as Eb <-. rewrite Eb. clear Eb E0.
  set (s' := _ <| blocks ::= _ |>).
  assert (apart s F Q b) as Ha.
  { intros x Hx o Ho. apply (Hf x Hx), (i_blocks _ _ _ _ I). by exists o. }
  assert (forall x o, owns s F Q o x -> link_items cfg b (items (glob s)) !!! x = items (glob s) !!! x) as Hsame.
  { intros x o Ho. apply link_items_other. intros Hx. by apply (Ha x Hx) in Ho. }
  assert (forall o y, owns s' F Q o y <-> (owns s F Q o y /\ y ∉ block_items b) \/ (y ∈ block_items b /\ o = OSender t)) as Hown.
  { intros o y. assert (owns s F Q o y -> y ∉ block_items b) as Hno by (intros Ho Hy; by apply (Ha y Hy) in Ho).
    destruct o as [|w|t'|w]; simpl in *.
    - naive_solver.
    - naive_solver.
    - rewrite sender_has_eq by eauto. destruct (decide (t' = t)) as [->|].
      + rewrite Ht. simpl. naive_solver.
      + naive_solver.
    - naive_solver. }
  split; unfold s'; simpl; try apply I; try done.
  - apply (moved_uniq (owns s F Q) _ (fun y => y ∈ block_items b) (fun _ => OSender t)); [apply I|done].
  - intros x. rewrite elem_of_app, (i_blocks _ _ _ _ I). split.
    + intros [Hx|[o Ho]].
      * exists (OSender t). apply Hown. by right.
      * exists o. apply Hown. left. split; [done|]. intros Hx. by apply (Ha x Hx) in Ho.
    + intros [o [[Ho _]|[Hx _]]%Hown]; [right; by exists o|by left].
  - intros x [Hx|Hx]%elem_of_app; [|by apply (i_pos _ _ _ _ I)].
    apply elem_block in Hx as (k & -> & ?). unfold item_at, sizeof_CQ_ITEM. lia.
  - pose proof (i_free _ _ _ _ I) as [Hc Hn]. split; [|done]. eapply chain_agree; [|exact Hc].
    intros x Hx. by rewrite (Hsame x OFree).
  - intros w. eapply queue_ok_agree; [|apply I]. intros x Hx. by rewrite (Hsame x (OQueue w)).
  - intros t' r' b' H. apply list_lookup_insert_Some in H as [(_ & H & _)|[Hne H]].
    + injection H as <- <-. apply link_items_linked.
    + intros k Hk. rewrite (Hsame (item_at b' k) (OSender t')).
      * by apply (i_linked _ _ _ _ I _ _ _ H).
      * simpl. rewrite H. simpl. apply elem_block. exists k. split; [done|lia].
  - intros w. rewrite (pendings_same w _ t (SNeed r)) by done. apply I.
  - intros w. rewrite (i_fifo _ _ _ _ I w). f_equal. f_equal.
    + destruct (workers s !!! w) as [|x|x] eqn:Ew; try done. simpl. rewrite (Hsame x (OWorker w)); [done|].
      simpl. by rewrite Ew.
    + apply list_fmap_ext. intros i x Hx. rewrite (Hsame x (OQueue w)); [done|]. simpl. by eapply list_elem_of_lookup_2.
Qed.

Lemma chain_block m b F : forall n k, k + Z.of_nat n = ITEMS_PER_ALLOC cfg -> 0 <= k -> (0 < n)%nat -> 0 < b ->
  (forall j, k <= j < ITEMS_PER_ALLOC cfg - 1 -> next (m !!! item_at b j) = item_at b (j + 1)) ->
  chain m (next (m !!! item_at b (ITEMS_PER_ALLOC cfg - 1))) F ->
  chain m (item_at b k) ((item_at b <$> seqZ k (Z.of_nat n)) ++ F).
Proof.
  induction n as [|n IH]; intros k Hk Hk0 Hn Hb Hl Hc; [lia|].
  rewrite seqZ_cons by lia. simpl. split; [done|]. split; [unfold item_at, sizeof_CQ_ITEM; lia|].
  destruct n as [|n].
  - replace (ITEMS_PER_ALLOC cfg - 1) with k in Hc by lia. done.
  - rewrite Hl by lia. replace (Z.pred (Z.of_nat (Datatypes.S (Datatypes.S n)))) with (Z.of_nat (Datatypes.S n)) by lia. change (Z.succ k) with (k + 1).
    apply IH; [lia|lia|lia|done| |done]. intros j Hj. apply Hl. lia.
Qed.

Lemma inv_put_rest s t r b g F Q Ms : 2 <= ITEMS_PER_ALLOC cfg -> inv s F Q Ms ->
  senders s !! t = Some (SLinked r b) -> cqi_put_rest cfg b (glob s) = Ok (tt, g) ->
  exists F', inv (s <| glob := g |> <| senders ::= <[t := SHave r b]> |>) F' Q Ms.
Proof.
  intros Hi I Ht E. unfold cqi_put_rest, wri, gets, modify, mbind, M_bind in E. simpl in E. injection E as <-.
  set (N := ITEMS_PER_ALLOC cfg) in *. set (rest := item_at b <$> seqZ 1 (N - 1)).
  exists (rest ++ F). set (s' := _ <| senders ::= _ |>).
  pose proof (i_free _ _ _ _ I) as [Hc Hn].
  assert (Hmine : forall x, x ∈ block_items b -> owns s F Q (OSender t) x) by (intros x Hx; simpl; by rewrite Ht).
  assert (forall x o, x ∈ block_items b -> owns s F Q o x -> o = OSender t) as Hox
    by (intros x o Hx Ho; by apply (i_uniq _ _ _ _ I x); [|apply Hmine]).
  assert (forall x, x ∈ rest <-> x ∈ block_items b /\ x <> b) as Hrest.
  { intros x. rewrite elem_block. unfold rest. rewrite list_elem_of_fmap. setoid_rewrite elem_of_seqZ. split.
    - intros (k & -> & Hk). split; [exists k; split; [done|fold N; lia]|]. unfold item_at, sizeof_CQ_ITEM. lia.
    - intros [(k & -> & Hk) Hne]. exists k. split; [done|].
      assert (k <> 0) by (intros ->; apply Hne; unfold item_at; lia). fold N in Hk. lia. }
  assert (b ∈ block_items b) as Hbb by (apply elem_block; exists 0; split; [unfold item_at; lia|fold N; lia]).
  assert (0 < b) as Hb0 by (apply (i_pos _ _ _ _ I), (i_blocks _ _ _ _ I); exists (OSender t); by apply Hmine).
  set (last := item_at b (N - 1)). assert (last ∈ block_items b) as Hlast by (apply elem_block; exists (N - 1); split; [done|fold N; lia]).
  assert (forall o y, owns s' (rest ++ F) Q o y <->
    (owns s F Q o y /\ ~ (y ∈ rest)) \/ (y ∈ rest /\ o = OFree)) as Hown.
  { intros o y. pose proof (Hrest y) as Hr. assert (forall o, owns s F Q o y -> o <> OSender t -> y ∉ rest) as Hno
      by (intros o' Ho Hne Hy; apply Hne, (Hox y); [by apply Hr|done]).
    destruct o as [|w|t'|w]; simpl.
    - rewrite elem_of_app. pose proof (Hno OFree). simpl in *. naive_solver.
    - pose proof (Hno (OQueue w)). simpl in *. naive_solver.
    - rewrite sender_has_eq by eauto. destruct (decide (t' = t)) as [->|Hne].
      + rewrite Ht. simpl. split.
        * intros ->. left. split; [done|]. intros [_ ?]%Hr. done.
        * intros [[Hy Hnr]|[_ ?]]; [|done]. destruct (decide (y = b)); [done|]. destruct Hnr. by apply Hr.
      + pose proof (Hno (OSender t')) as H. simpl in H. split; [intros Hy; left; split; [done|]|naive_solver].
        apply H; [done|]. by intros [= ->].
    - pose proof (Hno (OWorker w)). simpl in *. naive_solver. }
  assert (forall x o, owns s F Q o x -> o <> OSender t -> x <> last) as Hnl.
  { intros x o Ho Hne ->. by apply Hne, (Hox last). }
  split; unfold s'; simpl; try apply I; try done.
  - apply (moved_uniq (owns s F Q) _ (fun y => y ∈ rest) (fun _ => OFree)); [apply I|done].
  - apply (moved_dom (owns s F Q) (owns s' (rest ++ F) Q) (fun y => y ∈ rest) (fun _ => OFree)
      (fun y => y ∈ (blocks s ≫= block_items))); [apply I| |done].
    intros x [Hx _]%Hrest. apply (i_blocks _ _ _ _ I). exists (OSender t). by apply Hmine.
  - split.
    + assert (rest = item_at b <$> seqZ 1 (Z.of_nat (Z.to_nat (N - 1)))) as -> by (unfold rest; f_equal; f_equal; lia).
      apply chain_block; [fold N; lia|lia|lia|done| |].
      * intros j Hj. fold N in Hj. rewrite lookup_total_insert_ne by (intros Ej; apply item_at_inj in Ej; lia).
        apply (i_linked _ _ _ _ I t r b Ht). done.
      * fold N. fold last. rewrite lookup_total_insert_eq. simpl. apply chain_upd; [|done]. intros Hl.
        by apply (Hnl last OFree).
    + apply NoDup_app. split; [|split; [|done]].
      * apply NoDup_fmap_2; [|apply NoDup_seqZ]. intros k k'. apply item_at_inj.
      * intros x Hx HF. apply Hrest in Hx as [Hx _]. by apply (Hox x OFree) in HF.
  - intros w. eapply queue_ok_agree; [|apply I]. intros x Hx.
    rewrite lookup_total_insert_ne; [done|]. intros <-. by apply (Hnl last (OQueue w)).
  - intros t' r' b' H. apply list_lookup_insert_Some in H as [(_ & H & _)|[Hne H]]; [done|].
    intros k Hk. rewrite lookup_total_insert_ne; [by apply (i_linked _ _ _ _ I _ _ _ H)|].
    intros Ek. apply (Hnl (item_at b' k) (OSender t')); [|by intros [= ->]|by rewrite <- Ek].
    simpl. rewrite H. simpl. apply elem_block. exists k. split; [done|lia].
  - intros w. rewrite (pendings_same w _ t (SLinked r b)) by done. apply I.
  - intros w. rewrite (i_fifo _ _ _ _ I w). f_equal. f_equal.
    + destruct (workers s !!! w) as [|x|x] eqn:Ew; try done. simpl. rewrite lookup_total_insert_ne; [done|].
      intros <-. apply (Hnl last (OWorker w)); [|done|done]. simpl. by rewrite Ew.
    + apply list_fmap_ext. intros i x Hx. rewrite lookup_total_insert_ne; [done|]. intros <-.
      apply (Hnl last (OQueue w)); [|done|done]. simpl. by eapply list_elem_of_lookup_2.
Qed.

(** What cq_push does to a well-formed queue. *)
Record pushed_to (w x : Z) (l : list Z) (g g' : dst S) : Prop := {
  pt_queue : queue_ok (items g') (new_conn_queue (threads g' !!! w)) (l ++ [x]);
  pt_job p : job_of (items g' !!! p) = job_of (items g !!! p);
  pt_other p : p <> x -> p ∉ l -> items g' !!! p = items g !!! p;
  pt_threads w' : w' <> w -> threads g' !!! w' = threads g !!! w';
  pt_pipe : pipe (threads g' !!! w) = pipe (threads g !!! w);
  pt_rest : cqi_freelist g' = cqi_freelist g /\ last_thread g' = last_thread g /\ layer g' = layer g }.

Lemma last_0 m p l : chain m p l -> default 0 (last l) = 0 -> l = [].
Proof.
  intros Hc Hl. destruct l as [|y l _] using rev_ind; [done|].
  rewrite last_snoc in Hl. simpl in Hl. subst y. by apply chain_app_inv in Hc as (_ & ? & _).
Qed.

Lemma chain_last_0 m p x : chain m p [x] -> next (m !!! x) = 0.
Proof. simpl. naive_solver. Qed.

Lemma cq_push_spec w x l g : queue_ok (items g) (new_conn_queue (threads g !!! w)) l -> x <> 0 -> x ∉ l ->
  exists g', cq_push w x g = Ok (tt, g') /\ pushed_to w x l g g'.
Proof.
  intros [Hc Ht Hn] Hx0 Hx. unfold cq_push, wri, getq, wrq, wrt, gets, modify, mbind, M_bind. simpl.
  set (m1 := <[x := (items g !!! x) <| next := 0 |>]> (items g)).
  assert (chain m1 (head (new_conn_queue (threads g !!! w))) l) as Hc1 by by apply chain_upd.
  assert (next (m1 !!! x) = 0) as Hx1 by (unfold m1; by rewrite lookup_total_insert_eq).
  assert (forall p, p <> x -> m1 !!! p = items g !!! p) as Ho1 by (intros p Hp; unfold m1; by rewrite lookup_total_insert_ne).
  assert (forall p, job_of (m1 !!! p) = job_of (items g !!! p)) as Hj1.
  { intros p. destruct (decide (p = x)) as [->|?]; [|by rewrite Ho1]. unfold m1. by rewrite lookup_total_insert_eq. }
  destruct (decide (tail (new_conn_queue (threads g !!! w)) = 0)) as [E0|E0]; eexists; (split; [reflexivity|]).
  - rewrite Ht in E0. apply (last_0 _ _ _ Hc) in E0 as ->.
    split; simpl; rewrite ?lookup_total_insert_eq; simpl; try done.
    + split; simpl; [|done|apply NoDup_singleton]. fold m1. done.
    + intros p Hp _. by apply Ho1.
    + intros w' Hw. by rewrite !lookup_total_insert_ne.
  - destruct l as [|y l _] using rev_ind; [by rewrite Ht in E0|]. rewrite last_snoc in Ht. simpl in Ht.
    assert (y <> x) as Hyx by (intros ->; apply Hx, elem_of_app; right; by left).
    split; simpl; rewrite ?lookup_total_insert_eq; simpl; try done.
    + split; simpl.
      * rewrite Ht. apply chain_snoc; [done|done|done|done|done|]. by fold m1.
      * by rewrite last_snoc.
      * apply NoDup_app. split; [done|]. split; [|apply NoDup_singleton]. intros z Hz Hzx.
        apply elem_of_cons in Hzx as [->|H]; [done|by apply not_elem_of_nil in H].
    + fold m1. intros p. rewrite Ht. destruct (decide (p = y)) as [->|?].
      * rewrite lookup_total_insert_eq. by rewrite <- Hj1.
      * by rewrite lookup_total_insert_ne.
    + fold m1. intros p Hp Hpl. rewrite Ht. rewrite lookup_total_insert_ne; [by apply Ho1|].
      intros <-. apply Hpl, elem_of_app. right. by left.
    + intros w' Hw. by rewrite !lookup_total_insert_ne.
Qed.

(** The part of [assign] before cq_push: only [x]'s contents change. *)
Lemma assign_spec r x g l : (forall w, queue_ok (items g) (new_conn_queue (threads g !!! w)) (l w)) ->
  x <> 0 -> (forall w, x ∉ l w) ->
  exists w g1 g', assign cfg r x g = Ok (w, g') /\ pushed_to w x (l w) g1 g' /\
    threads g1 = threads g /\ cqi_freelist g1 = cqi_freelist g /\ layer g1 = layer g /\
    (forall p, p <> x -> items g1 !!! p = items g !!! p) /\
    (match r with
     | RNew fd st ev rbs tr => w = Z.rem (last_thread g + 1) (num_threads cfg) /\ last_thread g1 = w
     | RAgain c => w = thread_of (layer g) c /\ last_thread g1 = last_thread g
     end) /\
    is_new (job_of (items g' !!! x)) = match r with RNew _ _ _ _ _ => true | RAgain _ => false end.
Proof.
  intros Hq Hx0 Hx.
  destruct r as [fd st ev rbs tr|c].
  - set (w := Z.rem (last_thread g + 1) (num_threads cfg)).
    set (g1 := (g <| last_thread := w |>) <| items ::= fun m => <[x := (m !!! x)
      <| sfd := fd |> <| init_state := st |> <| event_flags := ev |>
      <| read_buffer_size := rbs |> <| transport := tr |> <| mode := queue_new_conn |>]> m |>).
    assert (queue_ok (items g1) (new_conn_queue (threads g1 !!! w)) (l w)) as H1
      by (eapply queue_ok_agree; [|apply Hq]; intros y Hy; unfold g1; simpl;
          rewrite lookup_total_insert_ne; [done|]; intros <-; by apply (Hx w)).
    destruct (cq_push_spec w x (l w) g1 H1 Hx0 (Hx w)) as (g' & E & P).
    exists w, g1, g'. split.
    { unfold assign, assign_new. rewrite gets_bind. cbv zeta. fold w. rewrite modify_bind. unfold wri.
      rewrite modify_bind. by rewrite (M_bind_ok _ _ _ _ _ E). }
    split; [done|]. do 3 (split; [done|]). split; [intros p Hp; unfold g1; simpl; by rewrite lookup_total_insert_ne|].
    split; [done|]. rewrite (pt_job _ _ _ _ _ P). unfold g1. simpl. by rewrite lookup_total_insert_eq.
  - set (w := thread_of (layer g) c).
    set (g1 := g <| items ::= fun m => <[x := (m !!! x)
      <| sfd := sfd_of (layer g) c |> <| init_state := conn_new_cmd |> <| conn_of := c |>
      <| mode := queue_redispatch |>]> m |>).
    assert (queue_ok (items g1) (new_conn_queue (threads g1 !!! w)) (l w)) as H1
      by (eapply queue_ok_agree; [|apply Hq]; intros y Hy; unfold g1; simpl;
          rewrite lookup_total_insert_ne; [done|]; intros <-; by apply (Hx w)).
    destruct (cq_push_spec w x (l w) g1 H1 Hx0 (Hx w)) as (g' & E & P).
    exists w, g1, g'. split.
    { unfold assign, assign_again. rewrite !gets_bind. fold w. unfold wri.
      rewrite modify_bind. by rewrite (M_bind_ok _ _ _ _ _ E). }
    split; [done|]. do 3 (split; [done|]). split; [intros p Hp; unfold g1; simpl; by rewrite lookup_total_insert_ne|].
    split; [done|]. rewrite (pt_job _ _ _ _ _ P). unfold g1. simpl. by rewrite lookup_total_insert_eq.
Qed.

Definition qset (Q : Z -> list Z) (w : Z) (l : list Z) : Z -> list Z := fun w' => if decide (w' = w) then l else Q w'.
Lemma qset_eq Q w l : qset Q w l w = l. Proof. unfold qset. by rewrite decide_True. Qed.
Lemma qset_ne Q w l w' : w' <> w -> qset Q w l w' = Q w'. Proof. intros. unfold qset. by rewrite decide_False. Qed.

Lemma robin_next n : 0 < num_threads cfg -> 0 <= n ->
  Z.rem ((if decide (n = 0) then -1 else (n - 1) mod num_threads cfg) + 1) (num_threads cfg) = n mod num_threads cfg.
Proof.
  intros HN Hn. case_decide as E.
  - subst n. change (-1 + 1) with 0. rewrite Z.rem_0_l, Z.mod_0_l by lia. done.
  - pose proof (Z.mod_pos_bound (n - 1) _ HN). rewrite Z.rem_mod_nonneg by lia.
    rewrite Z.add_mod_idemp_l by lia. f_equal. lia.
Qed.

Lemma filter_snoc {A} (P : A -> Prop) `{!forall x, Decision (P x)} l x :
  filter P (l ++ [x]) = filter P l ++ (if decide (P x) then [x] else []).
Proof. rewrite filter_app. f_equal. Qed.

Lemma inv_push s t r x w g F Q Ms : 0 < num_threads cfg -> inv s F Q Ms ->
  senders s !! t = Some (SHave r x) -> assign cfg r x (glob s) = Ok (w, g) ->
  inv (s <| glob := g |> <| senders ::= <[t := SPushed w]> |>
      <| pushed ::= fun l => l ++ [(w, job_of (items g !!! x))] |>) F (qset Q w (Q w ++ [x])) Ms.
Proof.
  intros HN I Ht E. set (s' := _ <| pushed ::= _ |>).
  assert (owns s F Q (OSender t) x) as Hmine by (simpl; by rewrite Ht).
  assert (forall o, owns s F Q o x -> o = OSender t) as Hox by (intros o Ho; by apply (i_uniq _ _ _ _ I x)).
  assert (x ∈ (blocks s ≫= block_items)) as Hbx by (apply (i_blocks _ _ _ _ I); by exists (OSender t)).
  assert (0 < x) as Hx0 by by apply (i_pos _ _ _ _ I).
  assert (forall w, x ∉ Q w) as HxQ by (intros w' Hw; by specialize (Hox (OQueue w') Hw)).
  destruct (assign_spec r x (glob s) Q (i_queue _ _ _ _ I) ltac:(lia) HxQ)
    as (w0 & g1 & g' & E' & P & Et & Ef & _ & Ei & Hw & Hnew).
  rewrite E in E'. apply (f_equal (fun r => match r with Ok p => Some p | _ => None end)) in E'.
  injection E' as <- <-.
  assert (forall y o, owns s F Q o y -> o <> OSender t -> o <> OQueue w -> items g !!! y = items (glob s) !!! y) as Hsame.
  { intros y o Ho Ht' Hq. assert (y <> x) as Hyx by (intros ->; by apply Ht', Hox).
    rewrite (pt_other _ _ _ _ _ P), Ei; [done|done|done|].
    intros Hy. by specialize (i_uniq _ _ _ _ I y o (OQueue w) Ho Hy). }
  assert (forall y, y <> x -> job_of (items g !!! y) = job_of (items (glob s) !!! y)) as Hjob.
  { intros y Hy. by rewrite (pt_job _ _ _ _ _ P), Ei. }
  destruct (move_one s F Q Ms s' F (qset Q w (Q w ++ [x])) x (OQueue w) I eq_refl Hbx) as [Hu Hb].
  { intros o y. destruct o as [|w'|t'|w']; simpl.
    - split; [|naive_solver]. intros Hy. left. split; [done|]. intros ->. by specialize (Hox OFree Hy).
    - destruct (decide (w' = w)) as [->|Hne].
      + rewrite qset_eq, elem_of_app, elem_of_cons, elem_of_nil. split; [|naive_solver].
        intros [Hy|[->|[]]]; [left|by right]. split; [done|]. intros ->. by apply (HxQ w).
      + rewrite qset_ne by done. split; [|intros [?|[_ [= ?]]]; naive_solver]. intros Hy. left. split; [done|].
        intros ->. by apply (HxQ w').
    - rewrite sender_has_eq by eauto. destruct (decide (t' = t)) as [->|Hne].
      + rewrite Ht. simpl. naive_solver.
      + split; [|naive_solver]. intros Hy. left. split; [done|]. intros ->.
        specialize (Hox (OSender t') Hy). congruence.
    - split; [|naive_solver]. intros Hy. left. split; [done|]. intros ->. by specialize (Hox (OWorker w') Hy). }
  destruct (pt_rest _ _ _ _ _ P) as (Ef' & El' & _).
  split; unfold s'; simpl; try apply I; try done.
  - rewrite Ef', Ef. pose proof (i_free _ _ _ _ I) as [Hc Hn]. split; [|done]. eapply chain_agree; [|exact Hc].
    intros y Hy. by rewrite (Hsame y OFree).
  - intros w'. destruct (decide (w' = w)) as [->|Hne]; [rewrite qset_eq; apply P|]. rewrite qset_ne by done.
    rewrite (pt_threads _ _ _ _ _ P) by done. rewrite Et. eapply queue_ok_agree; [|apply I].
    intros y Hy. rewrite (Hsame y (OQueue w')); [done|done|done|congruence].
  - intros t' r' b' H. apply list_lookup_insert_Some in H as [(_ & H & _)|[Hne H]]; [done|].
    intros k Hk. rewrite (Hsame _ (OSender t')); [by apply (i_linked _ _ _ _ I _ _ _ H)| |congruence|done].
    simpl. rewrite H. simpl. apply elem_block. exists k. split; [done|lia].
  - intros w'. rewrite <- (i_pipe _ _ _ _ I). destruct (decide (w' = w)) as [->|Hne].
    + by rewrite (pt_pipe _ _ _ _ _ P), Et.
    + by rewrite (pt_threads _ _ _ _ _ P), Et.
  - intros w'. pose proof (pendings_insert w' _ _ _ (SPushed w) Ht) as Hp. simpl in Hp.
    pose proof (i_wake _ _ _ _ I w'). unfold qset. destruct (decide (w' = w)) as [->|Hne].
    + rewrite decide_True in Hp by done. rewrite length_app. simpl. lia.
    + rewrite decide_False in Hp by congruence. lia.
  - intros w'. rewrite jobs_of_snoc, (i_fifo _ _ _ _ I w'), <- !app_assoc. f_equal.
    assert (in_hand (items g) (workers s !!! w') = in_hand (items (glob s)) (workers s !!! w')) as ->.
    { destruct (workers s !!! w') as [|y|y] eqn:Ew; try done. simpl.
      rewrite (Hsame y (OWorker w')); [done| |done|done]. simpl. by rewrite Ew. }
    f_equal. unfold qset. destruct (decide (w' = w)) as [->|Hne].
    + rewrite decide_True, fmap_app by done. simpl. f_equal. apply list_fmap_ext. intros i y Hy.
      rewrite Hjob; [done|]. intros ->. apply list_elem_of_lookup_2 in Hy. by apply (HxQ w).
    + rewrite decide_False, app_nil_r by congruence. apply list_fmap_ext. intros i y Hy.
      rewrite Hjob; [done|]. intros ->. apply list_elem_of_lookup_2 in Hy. by apply (HxQ w').
  - destruct (i_robin _ _ _ _ I) as [Hr Hl]. rewrite El', filter_snoc. simpl. rewrite Hnew.
    set (old := filter _ (pushed s)) in *. set (n := Z.of_nat (length old)) in *.
    destruct r as [fd st ev rbs tr|c]; destruct Hw as [-> Hlt]; rewrite Hlt.
    + rewrite decide_True by done. rewrite Hl. rewrite robin_next by lia.
      rewrite length_app, Nat2Z.inj_add, fmap_app, Hr. simpl. fold n. split.
      * rewrite seqZ_app by lia. rewrite fmap_app. by rewrite Z.add_0_l.
      * rewrite decide_False by lia. f_equal. lia.
    + rewrite decide_False by (intros Hf; destruct Hf). rewrite app_nil_r. done.
Qed.

Definition mset (Ms : Z -> list msg) (w : Z) (l : list msg) : Z -> list msg := fun w' => if decide (w' = w) then l else Ms w'.

Lemma nconn_app l l' : nconn (l ++ l') = (nconn l + nconn l')%nat.
Proof. unfold nconn. by rewrite filter_app, length_app. Qed.
Lemma count_of_cons w x l : count_of w (x :: l) = ((if decide (x = w) then 1 else 0) + count_of w l)%nat.
Proof. unfold count_of. destruct (decide (x = w)) as [E|E]; [by rewrite filter_cons_True|by rewrite filter_cons_False]. Qed.

(** Only the pipe of [w] (and what no invariant speaks of) changes. *)
Lemma inv_pipes s g ss w ms lo F Q Ms : inv s F Q Ms ->
  items g = items (glob s) -> cqi_freelist g = cqi_freelist (glob s) -> last_thread g = last_thread (glob s) ->
  (forall w', new_conn_queue (threads g !!! w') = new_conn_queue (threads (glob s) !!! w')) ->
  pipe (threads g !!! w) = ms ≫= enc -> (forall w', w' <> w -> threads g !!! w' = threads (glob s) !!! w') ->
  (forall t x, sender_has (ss !! t) x <-> sender_has (senders s !! t) x) ->
  (forall t r b, ss !! t = Some (SLinked r b) -> senders s !! t = Some (SLinked r b)) ->
  (forall w', (nconn (mset Ms w ms w') + pendings w' ss + count_of w' lo =
    nconn (Ms w') + pendings w' (senders s) + count_of w' (lost s))%nat) ->
  inv (s <| glob := g |> <| senders := ss |> <| lost := lo |>) F Q (mset Ms w ms).
Proof.
  intros I Ei Ef El Eq Ep Et Hs Hl Hc. set (s' := _ <| lost := lo |>).
  destruct (move_none s F Q Ms s' F Q I eq_refl) as [Hu Hb].
  { intros [|w'|t|w'] y; simpl; try done. }
  split; unfold s'; simpl; rewrite ?Ei, ?Ef, ?El; try apply I; try done.
  - intros w'. rewrite Eq. apply I.
  - intros t r b H. by apply Hl, (i_linked _ _ _ _ I) in H.
  - intros w'. unfold mset. destruct (decide (w' = w)) as [->|]; [done|]. rewrite Et by done. apply I.
  - intros w'. rewrite Hc. apply I.
Qed.

Lemma inv_wake s t w ok g F Q Ms : inv s F Q Ms -> senders s !! t = Some (SPushed w) ->
  pipe_write w [byte_c] (glob s) = Ok (ok, g) ->
  exists Ms', inv (s <| glob := g |> <| senders ::= <[t := SIdle]> |>
      <| lost ::= fun l => if ok then l else w :: l |>) F Q Ms'.
Proof.
  intros I Ht E.
  assert (forall t' x, sender_has (<[t := SIdle]> (senders s) !! t') x <-> sender_has (senders s !! t') x) as Hs.
  { intros t' x. rewrite sender_has_eq by eauto. destruct (decide (t' = t)) as [->|]; [by rewrite Ht|done]. }
  assert (forall t' r b, <[t := SIdle]> (senders s) !! t' = Some (SLinked r b) -> senders s !! t' = Some (SLinked r b)) as Hl.
  { intros t' r b H. apply list_lookup_insert_Some in H as [(_ & H & _)|[_ H]]; done. }
  pose proof (fun w' => pendings_insert w' _ _ _ SIdle Ht) as Hp.
  unfold pipe_write, gets, modify, mbind, M_bind, mret, M_ret, when, wrt, modify in E. simpl in E.
  destruct (List.hd true (writes (glob s))); simpl in E; injection E as <- <-.
  - exists (mset Ms w (Ms w ++ [MConn])). apply inv_pipes; try done.
    + intros w'. simpl. destruct (decide (w' = w)) as [->|]; [by rewrite lookup_total_insert_eq|].
      by rewrite lookup_total_insert_ne.
    + simpl. rewrite lookup_total_insert_eq. simpl. rewrite bind_app. simpl. by rewrite (i_pipe _ _ _ _ I).
    + intros w' Hw. simpl. by rewrite lookup_total_insert_ne.
    + intros w'. specialize (Hp w'). unfold mset. simpl in Hp. destruct (decide (w' = w)) as [->|Hne].
      * rewrite nconn_app. rewrite decide_True in Hp by done. change (nconn [MConn]) with 1%nat. simpl. lia.
      * rewrite decide_False in Hp by congruence. simpl. lia.
  - exists (mset Ms w (Ms w)). apply inv_pipes; try done.
    + apply I.
    + intros w'. specialize (Hp w'). simpl. rewrite count_of_cons. unfold mset. simpl in Hp.
      destruct (decide (w' = w)) as [->|Hne].
      * rewrite decide_True in Hp by done. rewrite decide_True by done. lia.
      * rewrite decide_False in Hp by congruence. rewrite decide_False by congruence. lia.
Qed.

Lemma sys_same (s : sys S) g : s <| glob := g |> = s <| glob := g |> <| senders := senders s |> <| lost := lost s |>.
Proof. by destruct s. Qed.

Lemma inv_timeout s w fd ok g F Q Ms : inv s F Q Ms ->
  pipe_write w (timeout_msg fd) (glob s) = Ok (ok, g) -> exists Ms', inv (s <| glob := g |>) F Q Ms'.
Proof.
  intros I E. rewrite sys_same.
  unfold pipe_write, gets, modify, mbind, M_bind, mret, M_ret, when, wrt, modify in E. simpl in E.
  destruct (List.hd true (writes (glob s))); simpl in E; injection E as <- <-.
  - exists (mset Ms w (Ms w ++ [MTimeout fd])). apply inv_pipes; try done.
    + intros w'. simpl. destruct (decide (w' = w)) as [->|]; [by rewrite lookup_total_insert_eq|].
      by rewrite lookup_total_insert_ne.
    + simpl. rewrite lookup_total_insert_eq. simpl. rewrite bind_app. simpl. by rewrite (i_pipe _ _ _ _ I).
    + intros w' Hw. simpl. by rewrite lookup_total_insert_ne.
    + intros w'. unfold mset. destruct (decide (w' = w)) as [->|Hne]; [|done].
      rewrite nconn_app. change (nconn [MTimeout fd]) with 0%nat. simpl. lia.
  - exists (mset Ms w (Ms w)). apply inv_pipes; try done.
    + apply I.
    + intros w'. unfold mset. by destruct (decide (w' = w)) as [->|Hne].
Qed.

(** A worker that was idle is noted idle again. *)
Lemma inv_idle_again s w F Q Ms : workers s !!! w = WIdle -> inv s F Q Ms -> inv (s <| workers ::= <[w := WIdle]> |>) F Q Ms.
Proof.
  intros Hw I. set (s' := _ <| workers ::= _ |>).
  assert (forall w', workers s' !!! w' = workers s !!! w') as Hw'.
  { intros w'. unfold s'. simpl. destruct (decide (w' = w)) as [->|]; [by rewrite lookup_total_insert_eq|].
    by rewrite lookup_total_insert_ne. }
  destruct (move_none s F Q Ms s' F Q I eq_refl) as [Hu Hb].
  { intros [|w'|t|w'] y; simpl; try done. by rewrite <- Hw'. }
  split; try apply I; try done. intros w'. rewrite Hw'. apply I.
Qed.

(** Popping a queue that is not empty. *)
Lemma cq_pop_spec w x l g : queue_ok (items g) (new_conn_queue (threads g !!! w)) (x :: l) ->
  exists g' : dst S, cq_pop w g = Ok (x, g') /\ queue_ok (items g') (new_conn_queue (threads g' !!! w)) l /\
    items g' = items g /\ cqi_freelist g' = cqi_freelist g /\ last_thread g' = last_thread g /\ layer g' = layer g /\
    (forall w', w' <> w -> threads g' !!! w' = threads g !!! w') /\ pipe (threads g' !!! w) = pipe (threads g !!! w).
Proof.
  intros [Hc Ht Hn]. simpl in Hc. destruct Hc as (Eh & Hx0 & Hc). apply NoDup_cons in Hn as [Hx Hn].
  unfold cq_pop, getq, geti, wrq, wrt. rewrite gets_bind. cbv zeta. rewrite Eh.
  rewrite decide_False by done. rewrite gets_bind, modify_bind.
  set (nx := next (items g !!! x)) in *.
  destruct (decide (nx = 0)) as [E0|E0].
  - rewrite when_bind_true by by apply bool_decide_eq_true. rewrite modify_bind. eexists. split; [reflexivity|]. simpl.
    rewrite !lookup_total_insert_eq. simpl.
    assert (l = []) as -> by (destruct l as [|y l]; [done|]; simpl in Hc; destruct Hc as (? & ? & _); congruence).
    split; [split; [done|done|apply NoDup_nil_2]|]. do 4 (split; [done|]). split; [|done].
    intros w' Hw. by rewrite !lookup_total_insert_ne.
  - rewrite when_bind_false by by apply bool_decide_eq_false. eexists. split; [reflexivity|]. simpl.
    rewrite !lookup_total_insert_eq. simpl. split.
    + split; simpl; [done| |done]. rewrite Ht. destruct l as [|y l]; [done|]. by rewrite last_cons_cons.
    + do 4 (split; [done|]). split; [|done]. intros w' Hw. by rewrite lookup_total_insert_ne.
Qed.

Definition pipe_rest (w : Z) (n : nat) (g : dst S) : dst S :=
  g <| threads ::= fun m => <[w := (m !!! w) <| pipe ::= drop n |>]> m |>.
Lemma pipe_read_eq w n g : pipe_read w n g = Ok (take n (pipe (threads g !!! w)), pipe_rest w n g).
Proof. done. Qed.

Lemma enc_nonempty m : enc m <> [].
Proof. by destruct m. Qed.

Lemma le32_timeout fd : 0 <= fd < 2 ^ 31 -> le32 (drop 1 (timeout_msg fd)) 0 = fd.
Proof. intros H. unfold le32, byte, timeout_msg. simpl. mod_lia. Qed.

Lemma inv_read s w k g F Q Ms : inv s F Q Ms -> workers s !!! w = WIdle -> pipe (threads (glob s) !!! w) <> [] ->
  worker_read w (glob s) = Ok (k, g) ->
  exists Q' Ms', inv (s <| glob := g |> <| workers ::= <[w := k]> |>) F Q' Ms'.
Proof.
  intros I Hw Hp E. rewrite (i_pipe _ _ _ _ I) in Hp. destruct (Ms w) as [|m ms] eqn:Em; [done|]. clear Hp.
  unfold worker_read in E. rewrite (M_bind_ok _ _ _ _ _ (pipe_read_eq w 1 (glob s))) in E.
  set (g1 := pipe_rest w 1 (glob s)) in E.
  rewrite (i_pipe _ _ _ _ I), Em in E. destruct m as [|fd].
  - (* a connection *)
    change (take 1 _) with [byte_c] in E. cbv iota in E. rewrite decide_True in E by done.
    destruct (Q w) as [|x q] eqn:Eq.
    { pose proof (i_wake _ _ _ _ I w) as Hl. rewrite Eq, Em in Hl.
      change (nconn (MConn :: ms)) with (Datatypes.S (nconn ms)) in Hl. simpl in Hl. lia. }
    assert (new_conn_queue (threads g1 !!! w) = new_conn_queue (threads (glob s) !!! w)) as Eq1
      by (unfold g1; simpl; by rewrite lookup_total_insert_eq).
    destruct (cq_pop_spec w x q g1) as (g2 & E2 & Hq & Ei & Ef & El & _ & Et & Ep).
    { rewrite Eq1, <- Eq. apply I. }
    rewrite (M_bind_ok _ _ _ _ _ E2) in E.
    assert (owns s F Q (OQueue w) x) as Hmine by (simpl; rewrite Eq; by left).
    assert (x ∈ (blocks s ≫= block_items)) as Hbx by (apply (i_blocks _ _ _ _ I); by exists (OQueue w)).
    pose proof (i_pos _ _ _ _ I x Hbx) as Hx0.
    rewrite decide_False in E by lia. unfold mret, M_ret in E. injection E as <- <-.
    assert (x ∉ q /\ NoDup q) as [Hxq Hnq] by (apply NoDup_cons; rewrite <- Eq; apply (i_queue _ _ _ _ I w)).
    assert (forall o, owns s F Q o x -> o = OQueue w) as Hox by (intros o Ho; by apply (i_uniq _ _ _ _ I x)).
    exists (qset Q w q), (mset Ms w ms). set (s' := _ <| workers ::= _ |>).
    destruct (move_one s F Q Ms s' F (qset Q w q) x (OWorker w) I eq_refl Hbx) as [Hu Hb].
    { intros o y. destruct o as [|w'|t|w']; simpl.
      - split; [|naive_solver]. intros Hy. left. split; [done|]. intros ->. by specialize (Hox OFree Hy).
      - destruct (decide (w' = w)) as [->|Hne].
        + rewrite qset_eq, Eq, elem_of_cons. split; [|naive_solver]. intros Hy. left. split; [by right|]. by intros ->.
        + rewrite qset_ne by done. split; [|naive_solver]. intros Hy. left. split; [done|]. intros ->.
          specialize (Hox (OQueue w') Hy). congruence.
      - split; [|naive_solver]. intros Hy. left. split; [done|]. intros ->. by specialize (Hox (OSender t) Hy).
      - rewrite worker_has_eq. destruct (decide (w' = w)) as [->|Hne].
        + rewrite Hw. simpl. naive_solver.
        + split; [|intros [?|[_ [= ?]]]; naive_solver]. intros Hy. left. split; [done|]. intros ->.
          by specialize (Hox (OWorker w') Hy). }
    split; unfold s'; simpl; rewrite ?Ei, ?Ef, ?El; try apply I; try done.
    + intros w'. destruct (decide (w' = w)) as [->|Hne]; [rewrite qset_eq; by rewrite <- Ei|]. rewrite qset_ne by done.
      rewrite Et by done. unfold g1. simpl. rewrite lookup_total_insert_ne by done. apply I.
    + intros w'. unfold mset. destruct (decide (w' = w)) as [->|Hne].
      * rewrite Ep. unfold g1. simpl. rewrite lookup_total_insert_eq. simpl. rewrite (i_pipe _ _ _ _ I), Em. done.
      * rewrite Et by done. unfold g1. simpl. rewrite lookup_total_insert_ne by done. apply I.
    + intros w'. pose proof (i_wake _ _ _ _ I w') as Hl. unfold mset, qset.
      destruct (decide (w' = w)) as [->|Hne]; [|done]. rewrite Em, Eq in Hl.
      change (nconn (MConn :: ms)) with (Datatypes.S (nconn ms)) in Hl. simpl in Hl. lia.
    + intros w'. rewrite (i_fifo _ _ _ _ I w'). f_equal. unfold qset. destruct (decide (w' = w)) as [->|Hne].
      * rewrite Hw, Eq, lookup_total_insert_eq. done.
      * by rewrite lookup_total_insert_ne.
  - (* a timeout *)
    change (take 1 _) with [byte_t] in E. cbv iota in E. do 2 (rewrite decide_False in E by done). rewrite decide_True in E by done.
    rewrite (M_bind_ok _ _ _ _ _ (pipe_read_eq w 4 g1)) in E.
    assert (pipe (threads g1 !!! w) = drop 1 (timeout_msg fd) ++ (ms ≫= enc)) as Ep1
      by (unfold g1; simpl; rewrite lookup_total_insert_eq; simpl; by rewrite (i_pipe _ _ _ _ I), Em).
    rewrite Ep1 in E. change (take 4 _) with [fd mod 256; fd / 256 mod 256; fd / 65536 mod 256; fd / 16777216] in E. rewrite decide_True in E by done.
    unfold with_layer in E. rewrite modify_bind in E. unfold mret, M_ret in E. injection E as <- <-.
    exists Q, (mset Ms w ms).
    assert (s <| glob := (pipe_rest w 4 g1) <| layer ::= conn_close_idle (le32 [fd mod 256; fd / 256 mod 256; fd / 65536 mod 256; fd / 16777216] 0) |> |>
        <| workers ::= <[w := WIdle]> |> =
      s <| glob := (pipe_rest w 4 g1) <| layer ::= conn_close_idle (le32 [fd mod 256; fd / 256 mod 256; fd / 65536 mod 256; fd / 16777216] 0) |> |>
        <| senders := senders s |> <| lost := lost s |> <| workers ::= <[w := WIdle]> |>) as -> by by destruct s.
    apply inv_idle_again; [done|]. apply inv_pipes; try done.
    + intros w'. unfold g1. simpl. destruct (decide (w' = w)) as [->|]; [by rewrite !lookup_total_insert_eq|].
      by rewrite !lookup_total_insert_ne.
    + unfold g1. simpl. rewrite !lookup_total_insert_eq. simpl. rewrite drop_drop. simpl.
      rewrite (i_pipe _ _ _ _ I), Em. done.
    + intros w' Hne. unfold g1. simpl. by rewrite !lookup_total_insert_ne.
    + intros w'. unfold mset. destruct (decide (w' = w)) as [->|Hne]; [|done]. rewrite Em. done.
Qed.

Lemma handle_item_ok w x g g' : handle_item w x g = Ok (tt, g') ->
  exists l, handle w (items g !!! x) (layer g) = Ok l /\ g' = g <| layer := l |>.
Proof.
  unfold handle_item, geti. rewrite !gets_bind. destruct (handle w (items g !!! x) (layer g)) as [l| |]; try done.
  intros E. injection E as <-. by exists l.
Qed.

Lemma inv_handle s w x g F Q Ms : inv s F Q Ms -> workers s !!! w = WHold x -> handle_item w x (glob s) = Ok (tt, g) ->
  inv (s <| glob := g |> <| workers ::= <[w := WDone x]> |>
      <| handled ::= fun l => l ++ [(w, job_of (items (glob s) !!! x))] |>) F Q Ms.
Proof.
  intros I Hw E. apply handle_item_ok in E as (l & _ & ->). set (s' := _ <| handled ::= _ |>).
  destruct (move_none s F Q Ms s' F Q I eq_refl) as [Hu Hb].
  { intros [|w'|t|w'] y; simpl; try done. rewrite worker_has_eq. destruct (decide (w' = w)) as [->|]; [by rewrite Hw|done]. }
  split; unfold s'; simpl; try apply I; try done.
  intros w'. rewrite jobs_of_snoc, (i_fifo _ _ _ _ I w'), <- !app_assoc. f_equal.
  destruct (decide (w = w')) as [->|Hne].
  - by rewrite Hw, lookup_total_insert_eq.
  - by rewrite lookup_total_insert_ne.
Qed.

Lemma inv_free s w x g F Q Ms : inv s F Q Ms -> workers s !!! w = WDone x -> cqi_free x (glob s) = Ok (tt, g) ->
  inv (s <| glob := g |> <| workers ::= <[w := WIdle]> |>) (x :: F) Q Ms.
Proof.
  intros I Hw E. unfold cqi_free, wri in E. rewrite gets_bind, !modify_bind in E. unfold modify in E. simpl in E. injection E as <-.
  assert (owns s F Q (OWorker w) x) as Hmine by (simpl; by rewrite Hw).
  assert (forall o, owns s F Q o x -> o = OWorker w) as Hox by (intros o Ho; by apply (i_uniq _ _ _ _ I x)).
  assert (x ∈ (blocks s ≫= block_items)) as Hbx by (apply (i_blocks _ _ _ _ I); by exists (OWorker w)).
  pose proof (i_pos _ _ _ _ I x Hbx) as Hx0. pose proof (i_free _ _ _ _ I) as [Hc Hn].
  assert (forall y o, owns s F Q o y -> o <> OWorker w -> y <> x) as Hne by (intros y o Ho Ho' ->; by apply Ho', Hox).
  set (s' := _ <| workers ::= _ |>).
  destruct (move_one s F Q Ms s' (x :: F) Q x OFree I eq_refl Hbx) as [Hu Hb].
  { intros o y. destruct o as [|w'|t|w']; simpl.
    - rewrite elem_of_cons. split; [|naive_solver]. intros [->|Hy]; [by right|]. left. split; [done|].
      by apply (Hne y OFree).
    - split; [|naive_solver]. intros Hy. left. split; [done|]. by apply (Hne y (OQueue w')).
    - split; [|naive_solver]. intros Hy. left. split; [done|]. by apply (Hne y (OSender t)).
    - rewrite worker_has_eq. destruct (decide (w' = w)) as [->|Hww].
      + rewrite Hw. simpl. naive_solver.
      + split; [|naive_solver]. intros Hy. left. split; [done|]. apply (Hne y (OWorker w')); [done|congruence]. }
  split; unfold s'; simpl; try apply I; try done.
  - split.
    + split; [done|]. split; [lia|]. rewrite lookup_total_insert_eq. simpl. apply chain_upd; [|done].
      intros HF. by apply (Hne x OFree).
    + apply NoDup_cons. split; [|done]. intros HF. by apply (Hne x OFree).
  - intros w'. eapply queue_ok_agree; [|apply I]. intros y Hy. rewrite lookup_total_insert_ne; [done|].
    intros <-. by apply (Hne x (OQueue w')).
  - intros t' r' b' H k Hk. rewrite lookup_total_insert_ne; [by apply (i_linked _ _ _ _ I _ _ _ H)|].
    intros Ek. apply (Hne (item_at b' k) (OSender t')); [|done|done].
    simpl. rewrite H. simpl. apply elem_block. exists k. split; [done|lia].
  - intros w'. rewrite (i_fifo _ _ _ _ I w'). f_equal.
    assert (forall y, job_of (<[x := (items (glob s) !!! x) <| next := cqi_freelist (glob s) |>]> (items (glob s)) !!! y) =
      job_of (items (glob s) !!! y)) as Hj.
    { intros y. destruct (decide (x = y)) as [<-|]; [by rewrite lookup_total_insert_eq|by rewrite lookup_total_insert_ne]. }
    f_equal.
    + destruct (decide (w' = w)) as [->|Hww]; [by rewrite Hw, lookup_total_insert_eq|]. rewrite lookup_total_insert_ne by done.
      destruct (workers s !!! w') as [|y|y]; simpl; by rewrite ?Hj.
    + apply list_fmap_ext. intros i y _. by rewrite Hj.
Qed.

Lemma inv_sender s s' F Q Ms : 2 <= ITEMS_PER_ALLOC cfg -> 0 < num_threads cfg ->
  sender_step cfg s s' -> inv s F Q Ms -> exists F' Q' Ms', inv s' F' Q' Ms'.
Proof.
  intros Hi HN H I. destruct H as [s t r item g Ht Hr E|s t r g g' Ht E E'|s t r b g Ht E Hf|s t r b g Ht E
    |s t r item w g Ht Hr E|s t w ok g Ht E|s w fd ok g Hfd E].
  - destruct (inv_call _ t r item g _ _ _ I Ht E) as [F' I']. eauto.
  - pose proof (inv_no_memory _ t r g g' _ _ _ I Ht E E'). eauto.
  - pose proof (inv_malloc _ t r b g _ _ _ I Ht E Hf). eauto.
  - destruct (inv_put_rest _ t r b g _ _ _ Hi I Ht E) as [F' I']. eauto.
  - pose proof (inv_push _ t r item w g _ _ _ HN I Ht E). eauto.
  - destruct (inv_wake _ t w ok g _ _ _ I Ht E) as [Ms' I']. eauto.
  - destruct (inv_timeout _ w fd ok g _ _ _ I E) as [Ms' I']. eauto.
Qed.

Lemma inv_worker s s' F Q Ms : worker_step cfg s s' -> inv s F Q Ms -> exists F' Q' Ms', inv s' F' Q' Ms'.
Proof.
  intros H I. destruct H as [s w k g _ Hw Hp E|s w item g _ Hw E|s w item g _ Hw E].
  - destruct (inv_read _ w k g _ _ _ I Hw Hp E) as (Q' & Ms' & I'). eauto.
  - pose proof (inv_handle _ w item g _ _ _ I Hw E). eauto.
  - pose proof (inv_free _ w item g _ _ _ I Hw E). eauto.
Qed.

Lemma init_thread ms ws (l : S) w : threads (thread_init cfg ms ws l) !!! w = Thread (Cq 0 0) [].
Proof.
  unfold thread_init. simpl. rewrite lookup_total_alt, lookup_gset_to_gmap. destruct (guard _); done.
Qed.

Lemma inv_initial s : initial cfg s -> inv s [] (fun _ => []) (fun _ => []).
Proof.
  intros ((ms & ws & l & Eg) & Hs & Ew & Eb & Ep & Eh & El).
  assert (forall t k, senders s !! t = Some k -> k = SIdle) as Hk
    by (intros t k H; rewrite Forall_lookup in Hs; symmetry; by eapply Hs).
  assert (forall o x, ~ owns s [] (fun _ => []) o x) as Ho.
  { intros [|w|t|w] x; simpl; try apply not_elem_of_nil.
    - intros H. destruct (senders s !! t) as [k|] eqn:E; [|done]. apply Hk in E. by subst k.
    - intros H. by rewrite Ew, lookup_total_empty in H. }
  split; rewrite ?Eb, ?Ep, ?Eh, ?El, ?Ew, ?Eg; try done.
  - intros x o o' H. by apply Ho in H.
  - intros x. split; [intros H; by apply not_elem_of_nil in H|]. intros [o H]. by apply Ho in H.
  - intros x H. by apply not_elem_of_nil in H.
  - split; [done|apply NoDup_nil_2].
  - intros w. rewrite init_thread. split; [done|done|apply NoDup_nil_2].
  - intros t r b H. by apply Hk in H.
  - intros w. by rewrite init_thread.
  - intros w. simpl. unfold pendings. clear -Hs. induction Hs as [|k l <- _ IH]; [done|]. simpl. done.
Qed.

Lemma inv_reachable s : 2 <= ITEMS_PER_ALLOC cfg -> 0 < num_threads cfg -> reachable cfg s -> exists F Q Ms, inv s F Q Ms.
Proof.
  intros Hi HN (s0 & H0 & H). apply inv_initial in H0.
  assert (exists F Q Ms, inv s0 F Q Ms) as H1 by eauto. clear H0. revert H1.
  induction H as [s|s s1 s2 [Hs|Hs] _ IH]; [done| |]; intros (F & Q & Ms & I); apply IH.
  - by eapply inv_sender.
  - by eapply inv_worker.
Qed.

(** ** What the hand-over guarantees *)

(** C7. In every state the interleaved senders and workers can reach: each item
    malloc ever returned is owned by exactly one party (the free list, one
    queue, one sender or one worker), so none is lost or used twice; the free
    list and the queues are well formed; each worker handles the connections
    pushed to it in the order they were pushed, and those not handled yet are in
    its hand or in its queue; a worker that finds a 'c' in its pipe finds its
    queue not empty; the main thread's connections go to the workers in turn. *)
Theorem dispatch_sound s : 2 <= ITEMS_PER_ALLOC cfg -> 0 < num_threads cfg -> reachable cfg s ->
  exists F Q,
    (forall x, x ∈ (blocks s ≫= block_items) -> exists o, forall o', owns s F Q o' x <-> o' = o) /\
    chain (items (glob s)) (cqi_freelist (glob s)) F /\ NoDup F /\
    (forall w, queue_ok (items (glob s)) (new_conn_queue (threads (glob s) !!! w)) (Q w)) /\
    (forall w, jobs_of w (pushed s) = jobs_of w (handled s) ++ in_hand (items (glob s)) (workers s !!! w) ++
      ((fun x => job_of (items (glob s) !!! x)) <$> Q w)) /\
    (forall w rest, pipe (threads (glob s) !!! w) = byte_c :: rest -> head (new_conn_queue (threads (glob s) !!! w)) <> 0) /\
    (filter (fun p => is_new p.2) (pushed s)).*1 =
      (fun k => k mod num_threads cfg) <$> seqZ 0 (Z.of_nat (length (filter (fun p => is_new p.2) (pushed s)))).
Proof.
  intros Hi HN H. apply (inv_reachable s Hi HN) in H as (F & Q & Ms & I). exists F, Q.
  split; [|split; [apply I|split; [apply I|split; [apply I|split; [apply I|split; [|apply I]]]]]].
  - intros x Hx. apply (i_blocks _ _ _ _ I) in Hx as [o Ho]. exists o. intros o'. split; [|by intros ->].
    intros Ho'. by apply (i_uniq _ _ _ _ I x).
  - intros w rest Hp. pose proof (i_pipe _ _ _ _ I w) as Hm. pose proof (i_wake _ _ _ _ I w) as Hl.
    pose proof (qo_chain _ _ _ (i_queue _ _ _ _ I w)) as Hc. rewrite Hp in Hm.
    destruct (Ms w) as [|[|fd] ms]; simpl in Hm; [done| |done].
    change (nconn (MConn :: ms)) with (Datatypes.S (nconn ms)) in Hl.
    destruct (Q w) as [|x q]; [discriminate Hl|]. simpl in Hc. by destruct Hc as (-> & ? & _).
Qed.

(** The workers' remaining work: three steps for every byte, two for an item in
    hand, one for an item handled. *)
Definition weight (s : sys S) (w : Z) : nat :=
  (3 * length (pipe (threads (glob s) !!! w)) +
   match workers s !!! w with WIdle => 0 | WHold _ => 2 | WDone _ => 1 end)%nat.
Definition work (s : sys S) : nat := sum_list (weight s <$> seqZ 0 (num_threads cfg)).

Lemma sum_lt {A} (f f' : A -> nat) l w : (forall x, x <> w -> f' x = f x) -> (f' w < f w)%nat -> w ∈ l ->
  (sum_list (f' <$> l) < sum_list (f <$> l))%nat.
Proof.
  intros Hne Hlt. assert (forall x, f' x <= f x)%nat as Hle.
  { intros x. destruct (decide (f' x <= f x)%nat); [done|]. rewrite Hne; [done|]. intros ->. lia. }
  assert (forall l, sum_list (f' <$> l) <= sum_list (f <$> l))%nat as Hs.
  { clear -Hle. induction l as [|x l IH]; [done|]. rewrite !fmap_cons. simpl. specialize (Hle x). lia. }
  induction l as [|x l IH]; intros Hw; [by apply not_elem_of_nil in Hw|]. rewrite !fmap_cons. simpl. specialize (Hs l). specialize (Hle x).
  apply elem_of_cons in Hw as [<-|Hw]; [lia|]. apply IH in Hw. lia.
Qed.

Lemma workers_insert (m : gmap Z worker) w k w' : w' <> w -> <[w := k]> m !!! w' = m !!! w'.
Proof. intros. by rewrite lookup_total_insert_ne. Qed.

Lemma cq_pop_frame w (g : dst S) x g' : cq_pop w g = Ok (x, g') ->
  (forall w', w' <> w -> threads g' !!! w' = threads g !!! w') /\ pipe (threads g' !!! w) = pipe (threads g !!! w).
Proof.
  unfold cq_pop, getq, geti, wrq, wrt. rewrite gets_bind. cbv zeta. case_decide; [by intros [= _ <-]|].
  rewrite gets_bind, modify_bind. unfold when. case_bool_decide; rewrite ?modify_bind; unfold mret, mbind, M_ret, M_bind;
    intros E; injection E as _ <-; simpl; rewrite ?lookup_total_insert_eq; simpl; split; try done; intros w' Hw;
    by rewrite !lookup_total_insert_ne.
Qed.

(** Reading takes at least one byte from the worker's own pipe. *)
Lemma worker_read_pipe w k (g g' : dst S) : pipe (threads g !!! w) <> [] -> worker_read w g = Ok (k, g') ->
  (length (pipe (threads g' !!! w)) < length (pipe (threads g !!! w)))%nat /\
  (forall w', w' <> w -> threads g' !!! w' = threads g !!! w') /\ (k = WIdle \/ exists x, k = WHold x).
Proof.
  intros Hp. unfold worker_read. rewrite (M_bind_ok _ _ _ _ _ (pipe_read_eq w 1 g)).
  set (g1 := pipe_rest w 1 g). destruct (pipe (threads g !!! w)) as [|b p] eqn:Ep; [done|]. clear Hp.
  assert (pipe (threads g1 !!! w) = p) as E1 by (unfold g1, pipe_rest; simpl; rewrite lookup_total_insert_eq; simpl; by rewrite Ep).
  assert (forall w', w' <> w -> threads g1 !!! w' = threads g !!! w') as E2
    by (intros w' Hw; unfold g1, pipe_rest; simpl; by rewrite lookup_total_insert_ne).
  clearbody g1. change (take 1 (b :: p)) with [b]. cbv iota. destruct (decide (b = byte_c)); [|destruct (decide (b = byte_p)); [|destruct (decide (b = byte_t))]].
  - unfold mbind, M_bind. destruct (cq_pop w g1) as [[x g2]| |] eqn:E; try done. intros E'. unfold mret, M_ret in E'. injection E' as <- <-.
    apply cq_pop_frame in E as [E3 E4]. rewrite E4, E1. split; [simpl; lia|]. split; [intros; by rewrite E3, E2|].
    case_decide; eauto.
  - rewrite modify_bind. intros E'. unfold mret, M_ret in E'. injection E' as <- <-. assert (threads (g1 <| init_count ::= Z.succ |>) = threads g1) as -> by done. rewrite E1. simpl.
    split; [lia|]. split; [done|by left].
  - rewrite (M_bind_ok _ _ _ _ _ (pipe_read_eq w 4 g1)). unfold with_layer.
    assert (length (pipe (threads (pipe_rest w 4 g1) !!! w)) <= length p)%nat as E3
      by (unfold pipe_rest; simpl; rewrite lookup_total_insert_eq; simpl; rewrite E1, length_drop; lia).
    assert (forall w', w' <> w -> threads (pipe_rest w 4 g1) !!! w' = threads g !!! w') as E4
      by (intros w' Hw; unfold pipe_rest; simpl; rewrite lookup_total_insert_ne by done; auto).
    case_decide; rewrite ?modify_bind, ?mret_bind; intros E'; unfold mret, M_ret in E'; injection E' as <- <-; simpl in *;
      (split; [lia|]; split; [done|by left]).
  - intros E'. unfold mret, M_ret in E'. injection E' as <- <-. rewrite E1. simpl. split; [lia|]. split; [done|by left].
Qed.

Lemma work_step s s' : worker_step cfg s s' -> (work s' < work s)%nat.
Proof.
  intros H. destruct H as [s w k g Hr Hw Hp E|s w item g Hr Hw E|s w item g Hr Hw E];
    (apply sum_lt with w; [intros w' Hne| |by apply elem_of_seqZ]; unfold weight; simpl).
  - apply worker_read_pipe in E as (_ & E & _); [|done]. by rewrite E, workers_insert.
  - apply worker_read_pipe in E as (E & _ & Hk); [|done]. rewrite lookup_total_insert_eq, Hw.
    destruct Hk as [->|[x ->]]; lia.
  - apply handle_item_ok in E as (l & _ & ->). by rewrite workers_insert.
  - apply handle_item_ok in E as (l & _ & ->). simpl. rewrite lookup_total_insert_eq, Hw. lia.
  - unfold cqi_free, wri in E. rewrite gets_bind, !modify_bind in E. unfold modify in E. injection E as <-.
    simpl. by rewrite workers_insert.
  - unfold cqi_free, wri in E. rewrite gets_bind, !modify_bind in E. unfold modify in E. injection E as <-.
    simpl. rewrite lookup_total_insert_eq, Hw. lia.
Qed.

(** Reading never fails. *)
Lemma worker_read_ok w (g : dst S) : exists k g', worker_read w g = Ok (k, g').
Proof.
  unfold worker_read. rewrite (M_bind_ok _ _ _ _ _ (pipe_read_eq w 1 g)). set (g1 := pipe_rest w 1 g).
  destruct (take 1 _) as [|b p]; [by do 2 eexists|]. destruct (decide (b = byte_c)); [|destruct (decide (b = byte_p)); [|destruct (decide (b = byte_t))]].
  - unfold cq_pop, getq, geti, wrq, wrt. rewrite bind_assoc, gets_bind. cbv zeta. case_decide; [by do 2 eexists|].
    rewrite bind_assoc, gets_bind, bind_assoc, modify_bind, bind_assoc. unfold when. case_bool_decide; by do 2 eexists.
  - by do 2 eexists.
  - rewrite (M_bind_ok _ _ _ _ _ (pipe_read_eq w 4 g1)). case_decide; by do 2 eexists.
  - by do 2 eexists.
Qed.

Lemma workers_frame s s' : worker_step cfg s s' -> senders s' = senders s /\ lost s' = lost s /\ pushed s' = pushed s.
Proof. by intros []. Qed.

(** C14. Nothing handed over is left behind: when the senders have returned and
    none of their wake-ups failed, the workers' steps come to an end whatever the
    order they are taken in, and at the end each worker has handled every
    connection pushed to it, in order, and its queue is empty. *)
Theorem dispatch_drains s : 2 <= ITEMS_PER_ALLOC cfg -> 0 < num_threads cfg -> reachable cfg s ->
  Forall (eq SIdle) (senders s) -> lost s = [] ->
  (forall me i (l : S), exists l', handle me i l = Ok l') ->
  Acc (fun b a => worker_step cfg a b) s /\
  forall s', rtc (worker_step cfg) s s' -> ~ (exists s'', worker_step cfg s' s'') ->
    forall w, 0 <= w < num_threads cfg -> jobs_of w (handled s') = jobs_of w (pushed s) /\
      head (new_conn_queue (threads (glob s') !!! w)) = 0.
Proof.
  intros Hi HN Hr Hs Hl Hh. split.
  { clear -HN. remember (work s) as n eqn:En. revert s En. induction n as [n IH] using lt_wf_ind. intros s ->.
    constructor. intros s' Hs'. apply (IH (work s')); [by apply work_step|done]. }
  intros s' Hrun Hstuck w Hw.
  apply (inv_reachable s Hi HN) in Hr. assert (exists F Q Ms, inv s' F Q Ms) as (F & Q & Ms & I).
  { clear -Hr Hrun. induction Hrun as [s|s s1 s2 H _ IH]; [done|]. apply IH. destruct Hr as (F & Q & Ms & I).
    by eapply inv_worker. }
  assert (senders s' = senders s /\ lost s' = lost s /\ pushed s' = pushed s) as (Es & El & Ep).
  { clear -Hrun. induction Hrun as [s|s s1 s2 H _ IH]; [done|]. apply workers_frame in H as (E1 & E2 & E3). by rewrite <- E1, <- E2, <- E3. }
  assert (workers s' !!! w = WIdle) as Ew.
  { destruct (workers s' !!! w) as [|x|x] eqn:E; [done| |]; destruct Hstuck.
    - destruct (Hh w (items (glob s') !!! x) (layer (glob s'))) as [l' El']. eexists. eapply step_handle; [done|done|].
      unfold handle_item, geti. rewrite !gets_bind, El'. reflexivity.
    - eexists. eapply step_free; [done|done|reflexivity]. }
  assert (pipe (threads (glob s') !!! w) = []) as Epp.
  { destruct (pipe (threads (glob s') !!! w)) as [|b p] eqn:E; [done|exfalso]. apply Hstuck.
    destruct (worker_read_ok w (glob s')) as (k & g' & Er). eexists. eapply step_read; [done|done|by rewrite E|exact Er]. }
  pose proof (i_pipe _ _ _ _ I w) as Hm. rewrite Epp in Hm.
  destruct (Ms w) as [|m ms] eqn:EM; [|destruct m; discriminate Hm].
  pose proof (i_wake _ _ _ _ I w) as Hc. rewrite EM, Es, El, Hl in Hc.
  assert (pendings w (senders s) = 0%nat) as Hz by (clear -Hs; unfold pendings; induction Hs as [|k l <- _ IH]; [done|]; exact IH).
  rewrite Hz in Hc. destruct (Q w) as [|x q] eqn:EQ; [|done].
  pose proof (i_fifo _ _ _ _ I w) as Hf. rewrite Ew, EQ, app_nil_r, Ep in Hf. split; [done|].
  pose proof (qo_chain _ _ _ (i_queue _ _ _ _ I w)) as Hq. rewrite EQ in Hq. exact Hq.
Qed.
End invariant.

(** ** The functions of the code are their sections, one after the other *)

Section sequential.
Context {S : Type} {L : ConnLayer S} (cfg : net_config).

(** A sender's sections, run without interruption. *)
Definition send (r : request) : M (dst S) unit :=
  item ← cqi_pop;
  item ← (if decide (item = 0) then
            b ← cqi_malloc cfg;
            if decide (b = 0) then mret 0 else cqi_put_rest cfg b;; mret b
          else mret item);
  if decide (item = 0) then no_item r
  else w ← assign cfg r item; _ ← pipe_write w [byte_c]; mret tt.

Lemma dispatch_conn_new_sections fd st ev rbs tr s :
  dispatch_conn_new cfg fd st ev rbs tr s = send (RNew fd st ev rbs tr) s.
Proof. unfold dispatch_conn_new, cqi_new, send. rewrite bind_assoc. done. Qed.

Lemma redispath_conn_sections c s : redispath_conn cfg c s = send (RAgain c) s.
Proof. unfold redispath_conn, cqi_new, send. rewrite bind_assoc. done. Qed.

Lemma thread_libevent_process_sections me s :
  thread_libevent_process me s =
  (k ← worker_read me; match k with WHold item => handle_item me item;; cqi_free item | _ => mret tt end) s.
Proof.
  unfold thread_libevent_process, worker_read. rewrite bind_assoc.
  rewrite !(M_bind_ok _ _ _ _ _ (pipe_read_eq me 1 s)). generalize (pipe_rest me 1 s). intros g.
  destruct (take 1 _) as [|b p]; [done|].
  destruct (decide (b = byte_c)); [|destruct (decide (b = byte_p)); [|destruct (decide (b = byte_t))]]; try done.
  - rewrite bind_assoc. unfold mbind at 1 3, M_bind at 1 3. destruct (cq_pop me g) as [[x g']| |]; try done.
    rewrite mret_bind. by destruct (decide (x = 0)).
  - rewrite bind_assoc, !(M_bind_ok _ _ _ _ _ (pipe_read_eq me 4 g)), bind_assoc.
    by destruct (decide (length _ = 4%nat)).
Qed.
End sequential.

(** ** An example

    Two workers, blocks of four items; the connections are only counted. *)

Module Demo.
#[global] Instance counting : ConnLayer Z := {
  conn_new := fun fd _ _ _ _ n => Ok (1, n + 1); set_thread := fun _ _ n => n;
  conn_worker_readd := fun _ n => n; conn_close_idle := fun _ n => n - 1; close_fd := fun _ n => n;
  set_closed := fun _ n => n; thread_of := fun _ c => c mod 2; sfd_of := fun _ c => c - 1 }.
Definition cfg : net_config := {| ITEMS_PER_ALLOC := 4; num_threads := 2 |}.
Definition start : sys Z := Sys (thread_init cfg [1000; 5000] [] 0) [SIdle; SIdle] ∅ [] [] [] [].
Definition conn (fd : Z) : request := RNew fd conn_new_cmd 18 2048 tcp_transport.

(** Three connections dispatched by the main thread alone and their workers' turns. *)
Definition run : M (dst Z) unit :=
  dispatch_conn_new cfg 30 conn_new_cmd 18 2048 tcp_transport;;
  dispatch_conn_new cfg 31 conn_new_cmd 18 2048 tcp_transport;;
  dispatch_conn_new cfg 32 conn_new_cmd 18 2048 tcp_transport;;
  thread_libevent_process 0;; thread_libevent_process 1;; thread_libevent_process 0;; thread_libevent_process 0.

Example run_all : (p ← run (glob start); Ok (layer p.2, mallocs p.2, cqi_freelist p.2)) = Ok (3, [5000], 1080).
Proof. vm_compute. reflexivity. Qed.

(** The main thread and a side thread hand over at the same time. *)
Ltac sstep c := eapply rtc_l; [left; eapply c|].
Ltac wstep c := eapply rtc_l; [right; eapply c|].
Lemma interleaved : exists s, reachable cfg s /\ Forall (eq SIdle) (senders s) /\ lost s = [] /\
  pushed s = [(1, JAgain 41 40); (0, JNew 30 conn_new_cmd 18 2048 tcp_transport)] /\
  handled s = [(1, JAgain 41 40)].
Proof.
  eexists. split; [exists start; split|].
  - split; [by do 3 eexists|]. split; [by repeat constructor|]. done.
  - sstep (step_call cfg start 0%nat (conn 30)); [reflexivity|reflexivity|vm_compute; reflexivity|].
    sstep (fun s => step_call cfg s 1%nat (RAgain 41)); [vm_compute; reflexivity|exact Logic.I|vm_compute; reflexivity|].
    sstep (fun s => step_malloc cfg s 0%nat (conn 30) 1000); [vm_compute; reflexivity|vm_compute; reflexivity| |].
    { split; [lia|]. intros x _. apply not_elem_of_nil. }
    sstep (fun s => step_malloc cfg s 1%nat (RAgain 41) 5000); [vm_compute; reflexivity|vm_compute; reflexivity| |].
    { split; [lia|]. intros x Hx Hy. vm_compute in Hx, Hy.
      repeat (apply elem_of_cons in Hx as [->|Hx]; [repeat (apply elem_of_cons in Hy as [Hy|Hy]; [discriminate Hy|]);
        by apply not_elem_of_nil in Hy|]). by apply not_elem_of_nil in Hx. }
    sstep (fun s => step_put_rest cfg s 1%nat (RAgain 41) 5000); [vm_compute; reflexivity|vm_compute; reflexivity|].
    sstep (fun s => step_push cfg s 1%nat (RAgain 41) 5000); [vm_compute; reflexivity|vm_compute; split; [discriminate|reflexivity]|vm_compute; reflexivity|].
    sstep (fun s => step_put_rest cfg s 0%nat (conn 30) 1000); [vm_compute; reflexivity|vm_compute; reflexivity|].
    sstep (fun s => step_push cfg s 0%nat (conn 30) 1000); [vm_compute; reflexivity|exact Logic.I|vm_compute; reflexivity|].
    sstep (fun s => step_wake cfg s 1%nat 1); [vm_compute; reflexivity|vm_compute; reflexivity|].
    wstep (fun s => step_read cfg s 1 (WHold 5000)); [done|vm_compute; reflexivity|vm_compute; discriminate|vm_compute; reflexivity|].
    wstep (fun s => step_handle cfg s 1 5000); [done|vm_compute; reflexivity|vm_compute; reflexivity|].
    sstep (fun s => step_wake cfg s 0%nat 0); [vm_compute; reflexivity|vm_compute; reflexivity|].
    wstep (fun s => step_free cfg s 1 5000); [done|vm_compute; reflexivity|vm_compute; reflexivity|].
    apply rtc_refl.
  - vm_compute. repeat split; repeat constructor.
Qed.
End Demo.

Lemma dispatch_sound_witness : exists (s : sys Z) F Q, handled s <> [] /\
  (forall x, x ∈ (blocks s ≫= block_items Demo.cfg) -> exists o, forall o', owns Demo.cfg s F Q o' x <-> o' = o).
Proof.
  destruct Demo.interleaved as (s & Hr & _ & _ & _ & Hh).
  destruct (dispatch_sound Demo.cfg s) as (F & Q & H & _).
  - discriminate.
  - reflexivity.
  - exact Hr.
  - exists s, F, Q. split; [by rewrite Hh|exact H].
Defined.

Lemma dispatch_drains_witness : exists s : sys Z, handled s <> pushed s /\
  Acc (fun b a => worker_step Demo.cfg a b) s.
Proof.
  destruct Demo.interleaved as (s & Hr & Hs & Hl & Hp & Hh). exists s. split; [by rewrite Hh, Hp|].
  apply (dispatch_drains Demo.cfg s).
  - discriminate.
  - reflexivity.
  - exact Hr.
  - exact Hs.
  - exact Hl.
  - intros me i l. unfold handle. destruct (mode i); by eexists.
Defined.
