(* ===== verification/ObjCache.v ===== *)
(** * The object cache (src/network/cache.c)

    Objects of one size, kept for reuse; the debug build (NDEBUG not defined),
    which surrounds each object by two red zones and checks them when it comes
    back.  A buffer is a block of bytes at its address; the object handed out
    begins eight bytes into it. *)

From S2P Require Import Prelude.

Definition initial_pool_size : Z := 64.

(** 0xdeadbeefcafebabe, as it lies in memory. *)
Definition redzone_pattern : list Z := [190; 186; 254; 202; 239; 190; 173; 222].

Record cache_t := Cache {
  ptr : list Z; bufsize : Z; freetotal : Z; freecurr : Z; constructor : bool; destructor : bool }.
#[export] Instance cache_eta : Eta cache_t := fun c =>
  Cache (ptr c) (bufsize c) (freetotal c) (freecurr c) (constructor c) (destructor c).

(** The cache, the blocks of memory that are allocated, cache_error, how often
    SIGABRT was raised and what the destructor was called with; then the answers
    of the environment: the blocks malloc returns with what they hold (address 0
    or the end of the list: NULL), whether realloc succeeds, and what the
    constructor returns and writes. *)
Record cst := Cst {
  cache : cache_t; mem : gmap Z (list Z); cache_error : Z; raised : nat; destroyed : list Z;
  mallocs : list (Z * list Z); reallocs : list bool; constructed : list (Z * list Z) }.
#[export] Instance cst_eta : Eta cst := fun s =>
  Cst (cache s) (mem s) (cache_error s) (raised s) (destroyed s) (mallocs s) (reallocs s) (constructed s).

Abbreviation Mc := (M cst).

Definition set_cache (f : cache_t -> cache_t) : Mc unit := modify (fun s => s <| cache ::= f |>).
Definition wr_at (b : Z) (off : nat) (bs : list Z) : Mc unit :=
  modify (fun s => s <| mem ::= alter (fun c => write_bytes c off bs) b |>).
Definition rd_at (b : Z) (off n : nat) : Mc (list Z) := gets (fun s => slice (default [] (mem s !! b)) off (off + n)).
Definition free (b : Z) : Mc unit := modify (fun s => s <| mem ::= delete b |>).
Definition malloc : Mc Z :=
  a ← gets (fun s => List.hd (0, []) (mallocs s));
  modify (fun s => s <| mallocs ::= @tl (Z * list Z) |>);;
  (if decide (a.1 = 0) then mret tt else modify (fun s => s <| mem ::= <[a.1 := a.2]> |>));;
  mret a.1.
Definition realloc_ok : Mc bool :=
  ok ← gets (fun s => List.hd true (reallocs s));
  modify (fun s => s <| reallocs ::= @tl bool |>);;
  mret ok.
(** cache->constructor(object, NULL, 0) of the object in [b]. *)
Definition construct (b : Z) : Mc Z :=
  a ← gets (fun s => List.hd (0, []) (constructed s));
  modify (fun s => s <| constructed ::= @tl (Z * list Z) |>);;
  wr_at b 8 a.2;;
  mret a.1.
Definition destroy (o : Z) : Mc unit := modify (fun s => s <| destroyed ::= fun l => l ++ [o] |>).

(** The state after a cache_create that found its memory. *)
Definition cache_create (size : Z) (c d : bool) : cache_t :=
  Cache (replicate (Z.to_nat initial_pool_size) 0) (size + 16) initial_pool_size 0 c d.

Definition get_object (p : Z) : Z := p + 8.

Definition do_cache_alloc : Mc Z :=
  c ← gets cache;
  '(ret, object) ← (if bool_decide (0 < freecurr c) then
    set_cache (fun c => c <| freecurr := freecurr c - 1 |>);;
    let ret := nth (Z.to_nat (freecurr c - 1)) (ptr c) 0 in
    mret (ret, get_object ret)
  else
    ret ← malloc;
    if decide (ret = 0) then mret (ret, 0)
    else if constructor c then
      rc ← construct ret;
      if decide (rc = 0) then mret (ret, get_object ret) else free ret;; mret (ret, 0)
    else mret (ret, get_object ret));
  if decide (object = 0) then mret object
  else
    wr_at ret 0 redzone_pattern;;
    wr_at ret (Z.to_nat (bufsize c - 8)) redzone_pattern;;
    mret object.

Definition put_back (b : Z) : Mc unit :=
  set_cache (fun c => c <| ptr ::= <[Z.to_nat (freecurr c) := b]> |> <| freecurr := freecurr c + 1 |>).

(** raise(SIGABRT), when the signal is handled and the function goes on. *)
Definition complain (e : Z) : Mc unit := modify (fun s => s <| raised ::= Datatypes.S |> <| cache_error := e |>).

Definition do_cache_free (o : Z) : Mc unit :=
  c ← gets cache;
  let b := o - 8 in
  post ← rd_at b (Z.to_nat (bufsize c - 8)) 8;
  pre ← rd_at b 0 8;
  if decide (post <> redzone_pattern) then complain 1
  else if decide (pre <> redzone_pattern) then complain (-1)
  else if bool_decide (freecurr c < freetotal c) then put_back b
  else
    let newtotal := s32 (freetotal c * 2) in
    ok ← realloc_ok;
    if (ok : bool) then
      set_cache (fun c => c <| freetotal := newtotal |> <| ptr ::= fun l => resize (Z.to_nat newtotal) 0 l |>);;
      put_back b
    else
      when (destructor c) (destroy b);;
      free b.

(** The loop of cache_destory: while (cache->freecurr > 0). *)
Fixpoint destroy_loop (fuel : nat) : Mc unit :=
  match fuel with
  | O => nofuel
  | Datatypes.S fuel =>
      c ← gets cache;
      if bool_decide (0 < freecurr c) then
        set_cache (fun c => c <| freecurr := freecurr c - 1 |>);;
        let p := nth (Z.to_nat (freecurr c - 1)) (ptr c) 0 in
        when (destructor c) (destroy (get_object p));;
        free p;;
        destroy_loop fuel
      else mret tt
  end.
Definition cache_destory : Mc unit :=
  c ← gets cache;
  destroy_loop (Datatypes.S (Z.to_nat (freecurr c))).

(** ** The clients *)

(** The buffers the cache keeps for reuse. *)
Definition pool (c : cache_t) : list Z := take (Z.to_nat (freecurr c)) (ptr c).

(** What is documented of malloc and asked of the constructor: malloc, if it is
    asked, returns NULL or a new block of the right size, and the constructor
    writes inside the object. *)
Definition answers_ok (s : cst) : Prop :=
  (let a := List.hd (0, []) (mallocs s) in 0 <= a.1 /\
     (a.1 <> 0 -> mem s !! a.1 = None /\ Z.of_nat (length a.2) = bufsize (cache s))) /\
  Z.of_nat (length (List.hd (0, []) (constructed s)).2) + 16 <= bufsize (cache s).

(** What clients do to objects: the state with the buffers they hold. *)
Inductive client_step : cst * list Z -> cst * list Z -> Prop :=
| client_alloc s held o s' : answers_ok s ->
    do_cache_alloc s = Ok (o, s') ->
    client_step (s, held) (s', if decide (o = 0) then held else (o - 8) :: held)
(* the array of pointers has room to double: it holds less than 8 GB *)
| client_free s held b s' : b ∈ held -> freetotal (cache s) < 2 ^ 30 -> do_cache_free (get_object b) s = Ok (tt, s') ->
    client_step (s, held) (s', list_difference held [b])
| client_write s held b off bs s' : b ∈ held -> Z.of_nat (off + length bs) + 16 <= bufsize (cache s) ->
    wr_at b (8 + off) bs s = Ok (tt, s') -> client_step (s, held) (s', held).

Definition created (s : cst) : Prop :=
  (exists size c d, 0 <= size /\ cache s = cache_create size c d) /\
  mem s = ∅ /\ cache_error s = 0 /\ raised s = 0%nat.
Definition reachable (s : cst) (held : list Z) : Prop :=
  exists s0, created s0 /\ rtc client_step (s0, []) (s, held).

(** ** The invariant *)

(** The red zones of the block [c] of [n] bytes are intact. *)
Definition zones_ok (n : Z) (c : list Z) : Prop :=
  slice c 0 8 = redzone_pattern /\ slice c (Z.to_nat (n - 8)) (Z.to_nat (n - 8) + 8) = redzone_pattern.

(** A cache whose objects are the blocks [held] by clients and those in its pool. *)
Record cache_ok (s : cst) (held : list Z) : Prop := {
  co_err : cache_error s = 0 /\ raised s = 0%nat;
  co_len : Z.of_nat (length (ptr (cache s))) = freetotal (cache s);
  co_curr : 0 <= freecurr (cache s) <= freetotal (cache s);
  co_size : 16 <= bufsize (cache s);
  co_total : 64 <= freetotal (cache s);
  co_nodup : NoDup (held ++ pool (cache s));
  co_dom b : is_Some (mem s !! b) <-> b ∈ held ++ pool (cache s);
  co_block b c : mem s !! b = Some c -> Z.of_nat (length c) = bufsize (cache s) /\ 0 < b;
  co_zones b c : b ∈ held -> mem s !! b = Some c -> zones_ok (bufsize (cache s)) c }.

Lemma pool_grow c x : 0 <= freecurr c -> Z.of_nat (length (ptr c)) > freecurr c ->
  pool (c <| ptr ::= <[Z.to_nat (freecurr c) := x]> |> <| freecurr := freecurr c + 1 |>) = pool c ++ [x].
Proof.
  intros H0 Hl. unfold pool. simpl. replace (Z.to_nat (freecurr c + 1)) with (S (Z.to_nat (freecurr c))) by lia.
  rewrite (take_S_r _ _ x) by (apply list_lookup_insert_eq; lia). f_equal. by rewrite take_insert_ge by lia.
Qed.

Lemma pool_shrink c : 0 < freecurr c -> Z.of_nat (length (ptr c)) >= freecurr c ->
  pool c = pool (c <| freecurr := freecurr c - 1 |>) ++ [nth (Z.to_nat (freecurr c - 1)) (ptr c) 0].
Proof.
  intros H0 Hl. unfold pool. simpl. replace (Z.to_nat (freecurr c)) with (S (Z.to_nat (freecurr c - 1))) by lia.
  apply take_S_r. rewrite nth_lookup.
  assert (is_Some (ptr c !! Z.to_nat (freecurr c - 1))) as [x ->] by (apply lookup_lt_is_Some_2; lia). done.
Qed.

(** Writing the two red zones. *)
Definition zoned (n : Z) (c : list Z) : list Z :=
  write_bytes (write_bytes c 0 redzone_pattern) (Z.to_nat (n - 8)) redzone_pattern.

Lemma zoned_ok n c : 16 <= n -> Z.of_nat (length c) = n -> zones_ok n (zoned n c) /\ length (zoned n c) = length c.
Proof.
  intros Hn Hl. unfold zoned, zones_ok.
  assert (length (write_bytes c 0 redzone_pattern) = length c) as H1 by (apply write_bytes_length; simpl; lia).
  split; [split|].
  - rewrite slice_write_before by lia. by apply (slice_write_same c 0 redzone_pattern); lia.
  - apply (slice_write_same (write_bytes c 0 redzone_pattern) _ redzone_pattern). rewrite H1. lia.
  - rewrite write_bytes_length; [done|]. rewrite H1. simpl. lia.
Qed.

(** [wr_at b] and [free b] leave the other blocks alone. *)
Lemma alter_is_Some (m : gmap Z (list Z)) f b b' : is_Some (alter f b m !! b') <-> is_Some (m !! b').
Proof. rewrite lookup_alter. case_decide; [subst; by rewrite fmap_is_Some|done]. Qed.

Definition put_zones (n : Z) (b : Z) (m : gmap Z (list Z)) : gmap Z (list Z) :=
  alter (fun c => write_bytes c (Z.to_nat (n - 8)) redzone_pattern) b (alter (fun c => write_bytes c 0 redzone_pattern) b m).
Lemma put_zones_eq n b m : put_zones n b m = alter (zoned n) b m.
Proof. unfold put_zones. by rewrite alter_alter_eq. Qed.

Lemma wr_at_bind {A} b off bs (k : unit -> Mc A) s :
  (wr_at b off bs ≫= k) s = k tt (s <| mem ::= alter (fun c => write_bytes c off bs) b |>).
Proof. done. Qed.

(** Allocating in the three cases: from the pool, from malloc, no object. *)
Lemma do_cache_alloc_pool s : 0 < freecurr (cache s) ->
  let b := nth (Z.to_nat (freecurr (cache s) - 1)) (ptr (cache s)) 0 in b <> -8 ->
  do_cache_alloc s = Ok (get_object b, (s <| cache ::= fun c => c <| freecurr := freecurr c - 1 |> |>)
    <| mem ::= put_zones (bufsize (cache s)) b |>).
Proof.
  intros H b Hb. unfold do_cache_alloc. rewrite gets_bind. rewrite bool_decide_true by done. unfold set_cache.
  rewrite bind_assoc, modify_bind. cbv zeta. fold b. rewrite mret_bind. rewrite decide_False by (unfold get_object; lia).
  by rewrite !wr_at_bind.
Qed.

(** The block a successful malloc and constructor leave. *)
Definition fresh_object (s : cst) : list Z :=
  let a := List.hd (0, []) (mallocs s) in
  if constructor (cache s) then write_bytes a.2 8 (List.hd (0, []) (constructed s)).2 else a.2.

Lemma do_cache_alloc_new s : freecurr (cache s) <= 0 ->
  let a := (List.hd (0, []) (mallocs s)).1 in 0 <= a -> (a <> 0 -> mem s !! a = None) ->
  exists o s', do_cache_alloc s = Ok (o, s') /\ cache s' = cache s /\ cache_error s' = cache_error s /\ raised s' = raised s /\
    ((o = 0 /\ mem s' = mem s) \/
     (a <> 0 /\ o = get_object a /\ mem s' = <[a := zoned (bufsize (cache s)) (fresh_object s)]> (mem s))).
Proof.
  intros Hc a Ha Hfresh. unfold do_cache_alloc. rewrite gets_bind. rewrite bool_decide_false by lia. rewrite bind_assoc.
  unfold malloc. rewrite bind_assoc, gets_bind, bind_assoc, modify_bind. fold a.
  destruct (decide (a = 0)) as [E0|E0].
  { rewrite bind_assoc, mret_bind, mret_bind. rewrite decide_True by done. rewrite mret_bind. cbv beta iota.
    rewrite decide_True by done. do 2 eexists. split; [reflexivity|]. do 3 (split; [done|]). by left. }
  rewrite bind_assoc, modify_bind, mret_bind. rewrite decide_False by done. unfold fresh_object.
  destruct (constructor (cache s)).
  - unfold construct. rewrite bind_assoc, bind_assoc, gets_bind, bind_assoc, modify_bind.
    rewrite bind_assoc, wr_at_bind, mret_bind.
    destruct (decide _) as [Erc|Erc].
    + rewrite mret_bind. cbv beta iota. rewrite decide_False by (unfold get_object; lia). rewrite !wr_at_bind. do 2 eexists. split; [reflexivity|]. do 3 (split; [done|]). right. split; [done|]. split; [done|].
      simpl. unfold zoned. by rewrite !alter_insert_eq.
    + unfold free. rewrite bind_assoc, modify_bind, mret_bind. cbv beta iota. rewrite decide_True by done.
      do 2 eexists. split; [reflexivity|]. do 3 (split; [done|]). left. split; [done|]. simpl.
      rewrite alter_insert_eq, delete_insert_id; [done|]. by apply Hfresh.
  - rewrite mret_bind. cbv beta iota. rewrite decide_False by (unfold get_object; lia). rewrite !wr_at_bind. do 2 eexists. split; [reflexivity|]. do 3 (split; [done|]). right. split; [done|]. split; [done|].
    simpl. unfold zoned. by rewrite !alter_insert_eq.
Qed.

(** Giving a block with intact red zones back: to the pool, to a pool twice as
    large, or to the system. *)
Lemma do_cache_free_intact s b c : mem s !! b = Some c -> zones_ok (bufsize (cache s)) c ->
  exists s', do_cache_free (get_object b) s = Ok (tt, s') /\ cache_error s' = cache_error s /\ raised s' = raised s /\
    let c := cache s in let n := s32 (freetotal c * 2) in
    ((mem s' = mem s /\
      ((freecurr c < freetotal c /\ cache s' = c <| ptr ::= <[Z.to_nat (freecurr c) := b]> |> <| freecurr := freecurr c + 1 |>) \/
       (freetotal c <= freecurr c /\ cache s' = (c <| freetotal := n |> <| ptr ::= fun l => resize (Z.to_nat n) 0 l |>)
          <| ptr ::= <[Z.to_nat (freecurr c) := b]> |> <| freecurr := freecurr c + 1 |>))) \/
     (mem s' = delete b (mem s) /\ cache s' = c)).
Proof.
  intros Hb [Hpre Hpost]. unfold do_cache_free. rewrite gets_bind. unfold get_object.
  replace (b + 8 - 8) with b by lia. unfold rd_at. rewrite !gets_bind. rewrite Hb. cbn [default from_option id].
  change (0 + 8)%nat with 8%nat. rewrite Hpre, Hpost. do 2 (rewrite decide_False by (intros H; by apply H)).
  destruct (bool_decide (freecurr (cache s) < freetotal (cache s))) eqn:Ef.
  - apply bool_decide_eq_true in Ef. unfold put_back, set_cache, modify. eexists. split; [reflexivity|].
    do 2 (split; [done|]). left. split; [done|]. by left.
  - apply bool_decide_eq_false in Ef. unfold realloc_ok. cbv zeta. rewrite bind_assoc, gets_bind, bind_assoc, modify_bind, mret_bind.
    destruct (List.hd true (reallocs s)).
    + unfold set_cache. rewrite modify_bind. unfold put_back, set_cache, modify. eexists. split; [reflexivity|].
      do 2 (split; [done|]). left. split; [done|]. right. split; [lia|done].
    + unfold when, destroy, free. destruct (destructor (cache s)); rewrite ?modify_bind, ?mret_bind; unfold modify;
        (eexists; split; [reflexivity|]; do 2 (split; [done|]); by right).
Qed.

Lemma do_cache_free_broken s b c : mem s !! b = Some c -> ~ zones_ok (bufsize (cache s)) c ->
  do_cache_free (get_object b) s = Ok (tt, s <| raised ::= S |> <| cache_error :=
    if decide (slice c (Z.to_nat (bufsize (cache s) - 8)) (Z.to_nat (bufsize (cache s) - 8) + 8) = redzone_pattern)
    then -1 else 1 |>).
Proof.
  intros Hb Hz. unfold do_cache_free. rewrite gets_bind. unfold get_object.
  replace (b + 8 - 8) with b by lia. unfold rd_at. rewrite !gets_bind. rewrite Hb. cbn [default from_option id].
  change (0 + 8)%nat with 8%nat. destruct (decide (slice c _ _ = redzone_pattern)) as [E|E].
  - rewrite decide_False by (intros H; by apply H). rewrite decide_True; [done|]. intros E2. by apply Hz.
  - by rewrite decide_True.
Qed.

(** Only the membership of [b] moves between [held] and the pool. *)
Lemma held_difference (held : list Z) b : NoDup held -> b ∈ held -> held ≡ₚ b :: list_difference held [b].
Proof.
  induction held as [|x held IH]; intros Hn Hb; [by apply not_elem_of_nil in Hb|].
  apply NoDup_cons in Hn as [Hx Hn]. simpl. destruct (decide_rel _ x [b]) as [E|E].
  - apply list_elem_of_singleton in E as ->. f_equiv. clear -Hx. induction held as [|y held IH]; [done|]. simpl.
    destruct (decide_rel _ y [b]) as [E|E].
    + apply list_elem_of_singleton in E as ->. destruct Hx. by left.
    + f_equiv. apply IH. intros H. apply Hx. by right.
  - apply elem_of_cons in Hb as [->|Hb]; [by destruct E; left|]. rewrite (IH Hn Hb) at 1. constructor.
Qed.

Lemma perm_dom (l l' : list Z) (P : Z -> Prop) : l ≡ₚ l' -> (forall b, P b <-> b ∈ l) -> forall b, P b <-> b ∈ l'.
Proof. intros E H b. by rewrite H, E. Qed.

(** From the description of the new state by a permutation of its blocks. *)
Lemma cache_ok_same_blocks s s' held held' : cache_ok s held -> mem s' = mem s ->
  cache_error s' = cache_error s -> raised s' = raised s -> bufsize (cache s') = bufsize (cache s) ->
  Z.of_nat (length (ptr (cache s'))) = freetotal (cache s') -> 0 <= freecurr (cache s') <= freetotal (cache s') ->
  64 <= freetotal (cache s') -> held ++ pool (cache s) ≡ₚ held' ++ pool (cache s') -> (forall b, b ∈ held' -> b ∈ held) ->
  cache_ok s' held'.
Proof.
  intros I Em Ee Er Eb Hl Hc Ht Hp Hsub. split; rewrite ?Em, ?Ee, ?Er, ?Eb; try apply I; try done.
  - rewrite <- Hp. apply I.
  - apply (perm_dom _ _ _ Hp), I.
  - intros b c Hb. by apply (co_zones _ _ I), Hsub.
Qed.

Lemma ok_alloc s held o s' : cache_ok s held -> answers_ok s ->
  do_cache_alloc s = Ok (o, s') ->
  cache_ok s' (if decide (o = 0) then held else (o - 8) :: held) /\
  (o <> 0 -> o - 8 ∉ held) /\ (forall b, b ∈ held -> mem s' !! b = mem s !! b).
Proof.
  intros I [[Ha Hfresh] Hcon] E. pose proof (co_curr _ _ I) as Hcurr. pose proof (co_len _ _ I) as Hlen.
  pose proof (co_size _ _ I) as Hsz.
  destruct (decide (0 < freecurr (cache s))) as [Hc|Hc].
  - set (b := nth (Z.to_nat (freecurr (cache s) - 1)) (ptr (cache s)) 0).
    pose proof (pool_shrink (cache s) Hc ltac:(lia)) as Hp. fold b in Hp.
    assert (b ∈ held ++ pool (cache s)) as Hb by (rewrite Hp; set_solver).
    pose proof (proj2 (co_dom _ _ I b) Hb) as [c Hbc]. destruct (co_block _ _ I b c Hbc) as [Hbl Hb0].
    rewrite (do_cache_alloc_pool s Hc) in E by lia. fold b in E.
    apply (f_equal (fun r => match r with Ok p => Some p | _ => None end)) in E. injection E as <- <-.
    assert (b ∉ held) as Hbh.
    { pose proof (co_nodup _ _ I) as Hn. rewrite Hp in Hn. apply NoDup_app in Hn as (_ & Hn & _). intros H.
      apply (Hn b H). set_solver. }
    unfold get_object. rewrite decide_False by lia. replace (b + 8 - 8) with b by lia.
    assert (held ++ pool (cache s) ≡ₚ (b :: held) ++ pool ((cache s) <| freecurr := freecurr (cache s) - 1 |>)) as Hperm
      by (rewrite Hp, (assoc_L (++)), (comm (++) _ [b]); done).
    split; [|split; [done|]].
    + split; simpl; try apply I; try done; try lia.
      * rewrite app_comm_cons, <- Hperm. apply I.
      * intros b'. rewrite put_zones_eq, alter_is_Some. revert b'.
        apply (perm_dom _ _ (fun b' => is_Some (mem s !! b')) Hperm), I.
      * intros b' c'. rewrite put_zones_eq, lookup_alter. case_decide as Eb; [subst b'|by apply I].
        rewrite Hbc. intros [= <-]. split; [|done]. by rewrite (proj2 (zoned_ok _ _ Hsz Hbl)).
      * intros b' c'. rewrite put_zones_eq, lookup_alter. case_decide as Eb; [subst b'|].
        -- rewrite Hbc. intros _ [= <-]. by apply zoned_ok.
        -- intros [->|Hb']%elem_of_cons; [done|]. by apply I.
    + intros b' Hb'. simpl. rewrite put_zones_eq, lookup_alter_ne; [done|]. by intros ->.
  - destruct (do_cache_alloc_new s ltac:(lia) Ha ltac:(naive_solver)) as (o' & s2 & E2 & Ec & Ee & Er & H).
    rewrite E in E2. apply (f_equal (fun r => match r with Ok p => Some p | _ => None end)) in E2. injection E2 as <- <-.
    destruct H as [[-> Em]|(Ha0 & -> & Em)].
    + rewrite decide_True by done. split; [|split; [done|intros; by rewrite Em]].
      apply (cache_ok_same_blocks s s' held held I); try done; rewrite ?Ec; try apply I; done.
    + destruct (Hfresh Ha0) as [Hnew Hl]. unfold get_object. rewrite decide_False by lia.
      set (a := (List.hd (0, []) (mallocs s)).1) in *. replace (a + 8 - 8) with a by lia.
      assert (~ a ∈ held ++ pool (cache s)) as Hnot by (rewrite <- (co_dom _ _ I a), Hnew; by intros [? ?]).
      assert (Z.of_nat (length (fresh_object s)) = bufsize (cache s)) as Hfl.
      { unfold fresh_object. destruct (constructor (cache s)); [|done]. rewrite write_bytes_length; [done|]. lia. }
      split; [|split; [set_solver|]].
      * split; rewrite ?Ec, ?Em; try apply I.
        -- rewrite Ee, Er. apply I.
        -- simpl. apply NoDup_cons. split; [done|apply I].
        -- intros b'. simpl. rewrite elem_of_cons, lookup_insert. case_decide as Eb; [subst b'|].
           ++ split; [by left|by eexists].
           ++ rewrite (co_dom _ _ I b'). naive_solver.
        -- intros b' c'. rewrite lookup_insert. case_decide as Eb; [subst b'|by apply I]. intros [= <-].
           rewrite (proj2 (zoned_ok _ _ Hsz Hfl)). lia.
        -- intros b' c'. rewrite lookup_insert. case_decide as Eb; [subst b'; intros _ [= <-]; by apply zoned_ok|].
           intros [->|Hb']%elem_of_cons; [done|]. by apply I.
      * intros b' Hb'. rewrite Em, lookup_insert_ne; [done|]. set_solver.
Qed.

Lemma ok_free s held b : cache_ok s held -> b ∈ held -> freetotal (cache s) < 2 ^ 30 ->
  exists s', do_cache_free (get_object b) s = Ok (tt, s') /\ cache_ok s' (list_difference held [b]) /\
    forall b', b' ∈ held -> b' <> b -> mem s' !! b' = mem s !! b'.
Proof.
  intros I Hb Hft. pose proof (co_curr _ _ I) as Hcurr. pose proof (co_len _ _ I) as Hlen. pose proof (co_total _ _ I) as Htot.
  destruct (proj2 (co_dom _ _ I b)) as [c Hbc]; [set_solver|].
  assert (NoDup held) as Hnd by (apply (NoDup_app held (pool (cache s))), I).
  pose proof (held_difference held b Hnd Hb) as Hh. set (held' := list_difference held [b]) in *.
  assert (forall b', b' ∈ held' -> b' ∈ held) as Hsub by (intros b' Hb'; rewrite Hh; by right).
  destruct (do_cache_free_intact s b c Hbc (co_zones _ _ I b c Hb Hbc)) as (s' & E & Ee & Er & H).
  exists s'. split; [exact E|]. set (n := s32 (freetotal (cache s) * 2)) in H.
  assert (n = freetotal (cache s) * 2) as En by (unfold n; apply sint_small; lia).
  assert (forall l, held ++ l ≡ₚ held' ++ (l ++ [b])) as Hperm.
  { intros l. rewrite Hh, (assoc_L (++)), (comm (++) _ [b]). done. }
  destruct H as [[Em [[Hlt Ec]|[Hge Ec]]]|[Em Ec]].
  - split; [|intros; by rewrite Em]. apply (cache_ok_same_blocks s s' held held' I); try done; rewrite Ec; simpl; try done.
    + by rewrite length_insert.
    + lia.
    + rewrite pool_grow by lia. apply Hperm.
  - assert (length (resize (Z.to_nat n) 0 (ptr (cache s))) = Z.to_nat n) as Hrl by apply length_resize.
    split; [|intros; by rewrite Em]. apply (cache_ok_same_blocks s s' held held' I); try done; rewrite Ec; simpl; try done; try lia.
    + rewrite length_insert, length_resize. lia.
    + match goal with |- _ ≡ₚ _ ++ pool ?c => change c with
        (((cache s) <| freetotal := n |> <| ptr ::= fun l => resize (Z.to_nat n) 0 l |>) <| ptr ::=
          <[Z.to_nat (freecurr ((cache s) <| freetotal := n |> <| ptr ::= fun l => resize (Z.to_nat n) 0 l |>)) := b]> |>
          <| freecurr := freecurr ((cache s) <| freetotal := n |> <| ptr ::= fun l => resize (Z.to_nat n) 0 l |>) + 1 |>) end.
      rewrite pool_grow; simpl; [|lia|rewrite Hrl; lia].
      rewrite <- Hperm. f_equiv. unfold pool. simpl. rewrite resize_ge by lia. rewrite take_app_le by lia. done.
  - split; [|intros b' _ Hne; by rewrite Em, lookup_delete_ne].
    assert (held ++ pool (cache s) ≡ₚ b :: held' ++ pool (cache s)) as Hp by (by rewrite Hh).
    pose proof (co_nodup _ _ I) as Hn. rewrite Hp in Hn. apply NoDup_cons in Hn as [Hnb Hn].
    split; rewrite ?Ec, ?Em; try apply I; try done.
    + rewrite Ee, Er. apply I.
    + intros b'. rewrite lookup_delete_is_Some, (co_dom _ _ I b'), Hp, elem_of_cons. split; [naive_solver|].
      intros Hb'. split; [by intros ->|by right].
    + intros b' c' Hb'. apply lookup_delete_Some in Hb' as [_ Hb']. by apply I.
    + intros b' c' Hb' Hbc'. apply lookup_delete_Some in Hbc' as [_ Hbc']. apply I with b'; [by apply Hsub|done].
Qed.

(** A write inside an object leaves the red zones and the other objects alone. *)
Lemma ok_write s held b off bs : cache_ok s held -> b ∈ held -> Z.of_nat (off + length bs) + 16 <= bufsize (cache s) ->
  cache_ok (s <| mem ::= alter (fun c => write_bytes c (8 + off) bs) b |>) held.
Proof.
  intros I Hb Hfit. split; simpl; try apply I.
  - intros b'. rewrite alter_is_Some. apply I.
  - intros b' c'. rewrite lookup_alter. case_decide as E; [subst b'|by apply I].
    destruct (mem s !! b) as [c|] eqn:Ec; [|done]. intros [= <-]. destruct (co_block _ _ I b c Ec) as [Hl Hp].
    split; [|done]. rewrite write_bytes_length by lia. done.
  - intros b' c' Hb'. rewrite lookup_alter. case_decide as E; [subst b'|by apply I].
    destruct (mem s !! b) as [c|] eqn:Ec; [|done]. intros [= <-]. destruct (co_block _ _ I b c Ec) as [Hl _].
    destruct (co_zones _ _ I b c Hb Ec) as [H1 H2]. split.
    + by rewrite slice_write_before by lia.
    + by rewrite slice_write_after by lia.
Qed.

Lemma ok_created s : created s -> cache_ok s [].
Proof.
  intros ((size & c & d & Hs & Ec) & Em & Ee & Er). unfold cache_create in Ec. split; rewrite ?Ec, ?Em; simpl; try done.
  - lia.
  - apply NoDup_nil_2.
  - intros b. rewrite lookup_empty, elem_of_nil. split; [by intros [? ?]|done].
Qed.

Lemma ok_reachable s held : reachable s held -> cache_ok s held.
Proof.
  intros (s0 & H0 & H). apply ok_created in H0. remember (s0, []) as p eqn:Ep. remember (s, held) as q eqn:Eq.
  assert (cache_ok p.1 p.2) as Hp by by rewrite Ep. change (cache_ok (s, held).1 (s, held).2). rewrite <- Eq. clear -H Hp.
  induction H as [p|p p1 p2 Hs _ IH]; [done|]. apply IH. destruct Hs as [s held o s' Ha E|s held b s' Hb Hf E|s held b off bs s' Hb Hf E]; simpl in *.
  - by destruct (ok_alloc s held o s' Hp Ha E).
  - destruct (ok_free s held b Hp Hb Hf) as (s2 & E2 & I & _). rewrite E in E2. by injection E2 as <-.
  - injection E as <-. by apply ok_write.
Qed.

Lemma destroy_loop_spec fuel s held : cache_ok s held -> (Z.to_nat (freecurr (cache s)) < fuel)%nat ->
  exists s', destroy_loop fuel s = Ok (tt, s') /\ (forall b, is_Some (mem s' !! b) <-> b ∈ held) /\
    destroyed s' = destroyed s ++ (if destructor (cache s) then get_object <$> rev (pool (cache s)) else []).
Proof.
  revert s. induction fuel as [|fuel IH]; intros s I Hf; [lia|].
  pose proof (co_curr _ _ I) as Hcurr. pose proof (co_len _ _ I) as Hlen. simpl. rewrite gets_bind.
  destruct (decide (0 < freecurr (cache s))) as [Hc|Hc].
  - rewrite bool_decide_true by done. unfold set_cache. rewrite modify_bind.
    set (b := nth (Z.to_nat (freecurr (cache s) - 1)) (ptr (cache s)) 0).
    pose proof (pool_shrink (cache s) Hc ltac:(lia)) as Hp. fold b in Hp.
    set (s1 := (s <| cache ::= fun c => c <| freecurr := freecurr c - 1 |> |> <| mem ::= delete b |>)
      <| destroyed ::= fun l => l ++ (if destructor (cache s) then [get_object b] else []) |>).
    assert (cache_ok s1 held) as I1.
    { pose proof (co_nodup _ _ I) as Hn. rewrite Hp, (assoc_L (++)) in Hn. apply NoDup_app in Hn as (Hn & Hnb & _).
      assert (b ∉ held ++ pool ((cache s) <| freecurr := freecurr (cache s) - 1 |>)) as Hb by (intros H; apply (Hnb b H); by left).
      split; simpl; try apply I; try done; try lia.
      - intros b'. rewrite lookup_delete_is_Some, (co_dom _ _ I b'), Hp, (assoc_L (++)), elem_of_app, list_elem_of_singleton.
        split; [naive_solver|]. intros H. split; [by intros ->|by left].
      - intros b' c' H. apply lookup_delete_Some in H as [_ H]. by apply I.
      - intros b' c' Hh H. apply lookup_delete_Some in H as [_ H]. by apply I with b'. }
    destruct (IH s1 I1) as (s' & E & Hm & Hd); [simpl; lia|]. exists s'. split; [|split; [done|]].
    + rewrite <- E. unfold when, destroy, free, s1. destruct (destructor (cache s)).
      * by rewrite !modify_bind.
      * rewrite mret_bind, modify_bind. f_equal. destruct s as [c m e r d ma re co]. unfold update. simpl. by rewrite app_nil_r.
    + rewrite Hd, Hp, rev_app_distr. simpl. rewrite <- app_assoc. by destruct (destructor (cache s)).
  - rewrite bool_decide_false by lia. exists s. split; [done|].
    assert (pool (cache s) = []) as Hp by (unfold pool; replace (Z.to_nat (freecurr (cache s))) with 0%nat by lia; done).
    split; [|rewrite Hp; destruct (destructor (cache s)); by rewrite app_nil_r].
    intros b. rewrite (co_dom _ _ I b), Hp. by rewrite app_nil_r.
Qed.

Lemma do_cache_alloc_total s : answers_ok s -> exists o s', do_cache_alloc s = Ok (o, s').
Proof.
  intros [[Ha Hf] _]. destruct (decide (0 < freecurr (cache s))) as [Hc|Hc].
  - unfold do_cache_alloc. rewrite gets_bind. rewrite bool_decide_true by done. unfold set_cache.
    rewrite bind_assoc, modify_bind, mret_bind. cbv beta iota. case_decide; by do 2 eexists.
  - destruct (do_cache_alloc_new s ltac:(lia) Ha ltac:(naive_solver)) as (o & s' & E & _). eauto.
Qed.

(** C22. Whatever clients do to a cache (allocate, give back objects they hold,
    write inside objects they hold), whatever malloc, realloc and the constructor
    answer: the cache stays well formed, the blocks in memory are exactly those
    clients hold and those of the pool, each once, no red-zone check fails, an
    allocation returns NULL or an object nobody holds, neither it nor a free
    touches an object somebody else holds, and cache_destory releases the pool. *)
Theorem object_cache_sound s held : reachable s held ->
  cache_error s = 0 /\ raised s = 0%nat /\ NoDup (held ++ pool (cache s)) /\
  (forall b, is_Some (mem s !! b) <-> b ∈ held ++ pool (cache s)) /\
  (forall b c, mem s !! b = Some c -> Z.of_nat (length c) = bufsize (cache s)) /\
  Z.of_nat (length (ptr (cache s))) = freetotal (cache s) /\ 0 <= freecurr (cache s) <= freetotal (cache s) /\
  (answers_ok s -> exists o s', do_cache_alloc s = Ok (o, s') /\ (o <> 0 -> o - 8 ∉ held) /\
    forall b, b ∈ held -> mem s' !! b = mem s !! b) /\
  (forall b, b ∈ held -> freetotal (cache s) < 2 ^ 30 -> exists s', do_cache_free (get_object b) s = Ok (tt, s') /\
    raised s' = 0%nat /\ forall b', b' ∈ held -> b' <> b -> mem s' !! b' = mem s !! b') /\
  exists s', cache_destory s = Ok (tt, s') /\ forall b, is_Some (mem s' !! b) <-> b ∈ held.
Proof.
  intros H. apply ok_reachable in H as I.
  split; [apply I|]. split; [apply I|]. split; [apply I|]. split; [apply I|]. split; [intros b c Hb; by apply (co_block _ _ I b c)|].
  split; [apply I|]. split; [apply I|]. split; [|split].
  - intros Ha. destruct (do_cache_alloc_total s Ha) as (o & s' & E). exists o, s'.
    destruct (ok_alloc s held o s' I Ha E) as (_ & ? & ?). done.
  - intros b Hb Hf. destruct (ok_free s held b I Hb Hf) as (s' & E & I' & Hm). exists s'. split; [done|]. split; [apply I'|done].
  - unfold cache_destory. rewrite gets_bind.
    destruct (destroy_loop_spec (Datatypes.S (Z.to_nat (freecurr (cache s)))) s held I) as (s' & E & Hm & _); [lia|]. by exists s'.
Qed.

(** ** An example: a full pool, and the address the destructor is given *)

Definition block (c : Z) : list Z := replicate 24 c.
Definition demo (ft : Z) : cst := Cst ((cache_create 8 false true) <| freetotal := ft |>) ∅ 0 0 [] [(1000, block 1); (2000, block 2)] [false] [].

(** A cache whose array is full and cannot grow: the object is destroyed, but the
    destructor gets the address of the block, not of the object. *)
Example destructor_gets_block :
  (p ← (o ← do_cache_alloc; do_cache_free o;; mret o) (demo 0); Ok (p.1, destroyed p.2)) = Ok (1008, [1000]).
Proof. vm_compute. reflexivity. Qed.
Example destory_gets_object :
  (p ← (o ← do_cache_alloc; do_cache_free o;; cache_destory;; mret o) (demo 64); Ok (p.1, destroyed p.2)) = Ok (1008, [1008]).
Proof. vm_compute. reflexivity. Qed.

(** A write of one byte behind the object is noticed when the object is freed. *)
Example overrun_noticed :
  (p ← (o ← do_cache_alloc; wr_at (o - 8) 16 [7];; do_cache_free o) (demo 64); Ok (cache_error p.2, raised p.2)) = Ok (1, 1%nat).
Proof. vm_compute. reflexivity. Qed.

Lemma client_run : exists s held, reachable s held /\ held = [1000] /\ mallocs s = [].
Proof.
  eexists _, _. split; [exists (demo 64); split|].
  - split; [by exists 8, false, true|done].
  - eapply rtc_l; [eapply (client_alloc (demo 64) [] 1008)|].
    + split; [split; [by vm_compute|]|by vm_compute]. intros _. split; [apply lookup_empty|reflexivity].
    + vm_compute. reflexivity.
    + eapply rtc_l; [eapply (client_alloc _ _ 2008)|].
      * split; [split; [by vm_compute|]|by vm_compute]. intros _. split; reflexivity.
      * vm_compute. reflexivity.
      * eapply rtc_l; [eapply (client_write _ _ 1000 0 [9; 9])|].
        -- vm_compute. right. left.
        -- by vm_compute.
        -- vm_compute. reflexivity.
        -- eapply rtc_l; [eapply (client_free _ _ 2000)|apply rtc_refl].
           ++ vm_compute. left.
           ++ by vm_compute.
           ++ vm_compute. reflexivity.
  - vm_compute. done.
Qed.

Lemma object_cache_sound_witness : exists s held, held = [1000] /\ raised s = 0%nat /\
  exists s', cache_destory s = Ok (tt, s') /\ forall b, is_Some (mem s' !! b) <-> b ∈ held.
Proof.
  destruct client_run as (s & held & H & Hh & _). exists s, held. split; [exact Hh|].
  destruct (object_cache_sound s held H) as (_ & Hr & _ & _ & _ & _ & _ & _ & _ & Hd). split; [exact Hr|exact Hd].
Defined.
