(* ===== verification/Conn.v ===== *)
(** * Connections and what they send (src/thread/memcached.c, src/network/memcached.c)

    struct conn, the lists of messages and buffers of a response (add_msghdr,
    add_iov, ensure_iov_space), out_string and its kin, and the release, shrinking
    and closing of a connection. *)

From S2P Require Import Prelude Decimal Dispatch.

Inductive protocol := ascii_prot | binary_prot | negotiating_prot.
Inductive bin_substates :=
| bin_no_state | bin_reading_set_header | bin_reading_cas_header | bin_read_set_value | bin_reading_get_key
| bin_reading_stat | bin_reading_del_header | bin_reading_incr_header | bin_read_flush_exptime
| bin_reading_sasl_auth | bin_reading_sasl_auth_data | bin_reading_touch_key.
Inductive transmit_result := TRANSMIT_COMPLETE | TRANSMIT_INCOMPLETE | TRANSMIT_SOFT_ERROR | TRANSMIT_HEAD_ERROR.
#[export] Instance protocol_eq_dec : EqDecision protocol.
Proof. solve_decision. Defined.

(** Constants of memcached.h and settings that are not in the repository's
    sources, and settings.reqs_per_event, maxconns, maxconns_fast and sasl. *)
Record conn_cfg := ConnCfg {
  IOV_MAX : Z; UDP_MAX_PAYLOAD_SIZE : Z; UDP_HEADER_SIZE : Z;
  DATA_BUFFER_SIZE : Z; READ_BUFFER_HIGHWAT : Z;
  ITEM_LIST_HIGHWAT : Z; ITEM_LIST_INITIAL : Z; MSG_LIST_HIGHWAT : Z; MSG_LIST_INITIAL : Z;
  IOV_LIST_HIGHWAT : Z; IOV_LIST_INITIAL : Z;
  reqs_per_event : Z; maxconns : Z; maxconns_fast : bool; EV_READ : Z; EV_WRITE : Z; EV_PERSIST : Z }.

(** Where a pointer of a connection leads: into its read, write or free-after-write
    buffer, a string of the program, the data of an item, a suffix buffer. *)
Inductive loc := LNull | LRbuf | LWbuf | LFree | LStr (s : list Z) | LItem (it : Z) | LItemKey (it : Z) | LSuffix (a : Z).
Record ptr := Ptr { base : loc; off : Z }.
#[export] Instance loc_eq_dec : EqDecision loc.
Proof. solve_decision. Defined.
#[export] Instance ptr_eq_dec : EqDecision ptr.
Proof. solve_decision. Defined.
Definition padd (p : ptr) (n : Z) : ptr := Ptr (base p) (off p + n).
Definition null : ptr := Ptr LNull 0.

(** struct iovec and the fields of struct msghdr the code sets.  msg_iov points
    at element [msg_iov] of the array number [msg_arr]: c->iov is array number
    [iov_id], another one after each realloc, and a pointer into an array of another
    number is one into memory that was freed. *)
Record iovec := Iovec { iov_base : ptr; iov_len : Z }.
Record msghdr := Msghdr { msg_arr : Z; msg_iov : Z; msg_iovlen : Z; msg_name : bool }.
#[export] Instance msghdr_eta : Eta msghdr := fun m => Msghdr (msg_arr m) (msg_iov m) (msg_iovlen m) (msg_name m).
#[export] Instance iovec_inhabited : Inhabited iovec := populate (Iovec null 0).
#[export] Instance msghdr_inhabited : Inhabited msghdr := populate (Msghdr 0 0 0 false).

(** The 24-byte header of a binary request. *)
Record bin_header := BinHeader {
  magic : Z; opcode : Z; h_keylen : Z; extlen : Z; datatype : Z; reserved : Z; bodylen : Z; h_opaque : Z; h_cas : Z }.

Record conn := Conn {
  c_sfd : Z; c_state : conn_states; c_substate : bin_substates; c_last_cmd_time : Z; c_ev_flags : Z;
  rbuf : list Z; rcurr : Z; rsize : Z; rbytes : Z;
  wbuf : list Z; wcurr : ptr; wsize : Z; wbytes : Z; write_and_go : conn_states; write_and_free_buf : option (list Z);
  ritem : ptr; rlbytes : Z; c_item : Z; sbytes : Z;
  iov : list iovec; iov_id : Z; iovsize : Z; iovused : Z;
  msglist : list msghdr; msgsize : Z; msgused : Z; msgcurr : Z; msgbytes : Z;
  ilist : list Z; isize : Z; icurr : Z; ileft : Z;
  suffixlist : list Z; suffixsize : Z; suffixcurr : Z; suffixleft : Z;
  c_protocol : protocol; c_transport : network_transport;
  request_id : Z; request_addr_size : Z; noreply : bool;
  binary_header : bin_header; c_cas : Z; c_cmd : Z; c_opaque : Z; c_keylen : Z;
  sasl_conn : bool; is_authenticated : bool }.
#[export] Instance conn_eta : Eta conn := fun c => Conn
  (c_sfd c) (c_state c) (c_substate c) (c_last_cmd_time c) (c_ev_flags c)
  (rbuf c) (rcurr c) (rsize c) (rbytes c) (wbuf c) (wcurr c) (wsize c) (wbytes c) (write_and_go c) (write_and_free_buf c)
  (ritem c) (rlbytes c) (c_item c) (sbytes c) (iov c) (iov_id c) (iovsize c) (iovused c)
  (msglist c) (msgsize c) (msgused c) (msgcurr c) (msgbytes c) (ilist c) (isize c) (icurr c) (ileft c)
  (suffixlist c) (suffixsize c) (suffixcurr c) (suffixleft c) (c_protocol c) (c_transport c)
  (request_id c) (request_addr_size c) (noreply c) (binary_header c) (c_cas c) (c_cmd c) (c_opaque c) (c_keylen c)
  (sasl_conn c) (is_authenticated c).

(** What read() on a socket does: deliver bytes (at least the one), report that
    there are none yet, the end of the stream, an error. *)
Inductive rd_event := RdData (b : Z) (bs : list Z) | RdAgain | RdEof | RdErr.
Inductive accept_event := AcFd (fd : Z) | AcAgain | AcMfile | AcErr | AcNosys.

(** Calls that leave the modelled part, in order. *)
Inductive call :=
| CallDispatch (fd : Z) (st : conn_states) (rbs : Z) (tr : network_transport)
| CallReject (fd : Z) | CallClose (fd : Z) | CallStopAccept | CallEventDel.

(** What the next bytes of the stream are for the connection: a line, [n] bytes of
    a value, [n] bytes to throw away, nothing any more. *)
Inductive mode := MLine | MValue (n : Z) | MSkip (n : Z) | MDead.
Definition mode_of (c : conn) : mode :=
  match c_state c with
  | conn_nread => MValue (rlbytes c)
  | conn_swallow => MSkip (sbytes c)
  | conn_write =>
      match write_and_go c with conn_swallow => MSkip (sbytes c) | conn_closing => MDead | _ => MLine end
  | conn_closing | conn_closed | conn_watch | conn_listening | conn_max_state => MDead
  | _ => MLine
  end.

(** The history of what a connection took from the stream: a line handed to
    process_command and what the command made of the connection, bytes of an
    item's value, the hand-over of the complete value, the end of its reading for
    lack of memory, bytes thrown away, the buffer dropped for lack of memory. *)
Inductive seg :=
| SLine (raw : list Z) (m : mode) | SValue (bs : list Z) | SDone (m : mode) | SStop (m : mode) | SSkip (bs : list Z)
| SDrop (bs : list Z) (m : mode).

(** A connection in its environment: whether the next reallocs and updates of the
    event registration succeed, what read, recvfrom (the length of the sender's
    address and the datagram), accept and fcntl are going to answer, the counters, the state [back] of the store behind it, the calls
    made and the history of what was read and taken. *)
Record net (S : Type) := Net {
  cn : conn; reallocs : list bool; event_ok : list bool; reads : list rd_event; datagrams : list (Z * list Z);
  accepts : list accept_event; fcntls : list bool; use_accept4 : bool;
  malloc_fails : Z; bytes_read : Z; conn_yields : Z; curr_conns : Z; reserved_fds : Z; rejected_conns : Z;
  allow_new_conns : bool; now : Z; back : S; calls : list call; received : list Z; taken : list seg }.
Arguments Net {S}. Arguments cn {S}. Arguments reallocs {S}. Arguments event_ok {S}. Arguments reads {S}.
Arguments datagrams {S}. Arguments accepts {S}. Arguments fcntls {S}. Arguments use_accept4 {S}.
Arguments malloc_fails {S}. Arguments bytes_read {S}. Arguments conn_yields {S}. Arguments curr_conns {S}.
Arguments reserved_fds {S}. Arguments rejected_conns {S}. Arguments allow_new_conns {S}. Arguments now {S}.
Arguments back {S}. Arguments calls {S}. Arguments received {S}. Arguments taken {S}.
#[export] Instance net_eta {S} : Eta (net S) := fun n => Net
  (cn n) (reallocs n) (event_ok n) (reads n) (datagrams n) (accepts n) (fcntls n) (use_accept4 n)
  (malloc_fails n) (bytes_read n) (conn_yields n) (curr_conns n) (reserved_fds n) (rejected_conns n)
  (allow_new_conns n) (now n) (back n) (calls n) (received n) (taken n).

(** What a connection asks of the store and of its thread's suffix cache; and what
    realloc answers once the list [reallocs] is used up: memory may come back or
    stay missing for good. *)
Class Backend (S : Type) := {
  mem_after : bool;
  item_remove : Z -> S -> res S;
  item_write : Z -> Z -> list Z -> S -> S;
  item_chunked : S -> Z -> bool;
  item_slabbed : S -> Z -> bool;
  suffix_free : Z -> S -> S }.

Section conn.
Context {S : Type} {B : Backend S} (cfg : conn_cfg).
Abbreviation Mn := (M (net S)).

Definition getc {A} (f : conn -> A) : Mn A := gets (fun s => f (cn s)).
Definition setc (f : conn -> conn) : Mn unit := modify (fun s => s <| cn ::= f |>).
Definition log (c : call) : Mn unit := modify (fun s => s <| calls ::= fun l => l ++ [c] |>).
Definition take_seg (x : seg) : Mn unit := modify (fun s => s <| taken ::= fun l => l ++ [x] |>).
Definition take_then (f : mode -> seg) : Mn unit := modify (fun s => s <| taken ::= fun l => l ++ [f (mode_of (cn s))] |>).
Definition with_back (f : S -> res S) : Mn unit := fun s =>
  match f (back s) with Ok b => Ok (tt, s <| back := b |>) | Abort => Abort | NoFuel => NoFuel end.
Definition realloc : Mn bool :=
  ok ← gets (fun s => List.hd (mem_after (S := S)) (reallocs s));
  modify (fun s => s <| reallocs ::= @tl bool |>);;
  mret ok.
Definition malloc_failed : Mn unit := modify (fun s => s <| malloc_fails ::= Z.succ |>).

Definition conn_set_state (st : conn_states) : Mn unit :=
  massert (negb (bool_decide (st = conn_max_state)));;
  cur ← getc c_state;
  when (bool_decide (st <> cur)) (setc (fun c => c <| c_state := st |>)).

(** ** Messages and buffers *)

(** msg_iov = &c->iov[iovnum]; iovnum += msg_iovlen; of the first n messages;
    [arr] is the array c->iov is. *)
Fixpoint repoint (n : nat) (arr iovnum : Z) (l : list msghdr) : list msghdr :=
  match n, l with
  | Datatypes.S n, m :: l =>
      (m <| msg_arr := arr |> <| msg_iov := iovnum |>) :: repoint n arr (iovnum + msg_iovlen m) l
  | _, l => l
  end.

Definition ensure_iov_space : Mn Z :=
  c ← getc id;
  if decide (iovsize c <= iovused c) then
    ok ← realloc;
    if (ok : bool) then
      setc (fun c => c <| iov ::= fun l => resize (Z.to_nat (2 * iovsize c)) inhabitant l |> <| iov_id := iov_id c + 1 |>
        <| iovsize := iovsize c * 2 |>);;
      setc (fun c => c <| msglist ::= repoint (Z.to_nat (msgused c)) (iov_id c) 0 |>);;
      mret 0
    else malloc_failed;; mret (-1)
  else mret 0.

(** c->msglist[c->msgused - 1] *)
Definition cur_msg (c : conn) : msghdr := nth (Z.to_nat (msgused c - 1)) (msglist c) inhabitant.

(** m->msg_iov[m->msg_iovlen] = {buf, len}; and the counters.  Through a pointer into
    an array that was freed nothing reaches c->iov. *)
Definition push_iov (buf : ptr) (len : Z) : Mn unit :=
  setc (fun c =>
    let m := cur_msg c in
    c <| iov ::= fun l => if decide (msg_arr m = iov_id c) then <[Z.to_nat (msg_iov m + msg_iovlen m) := Iovec buf len]> l else l |>
      <| msgbytes := msgbytes c + len |> <| iovused := iovused c + 1 |>
      <| msglist ::= <[Z.to_nat (msgused c - 1) := m <| msg_iovlen := msg_iovlen m + 1 |>]> |>).

(** memset(msg, 0, sizeof msg); msg->msg_iov = &c->iov[c->iovused]; ... *)
Definition start_msg : Mn unit :=
  setc (fun c => c
    <| msglist ::= <[Z.to_nat (msgused c) := Msghdr (iov_id c) (iovused c) 0 (IS_UDP (c_transport c) && bool_decide (0 < request_addr_size c))]> |>
    <| msgbytes := 0 |> <| msgused := msgused c + 1 |>).

Definition grow_msglist : Mn bool :=
  c ← getc id;
  if decide (msgsize c = msgused c) then
    ok ← realloc;
    if (ok : bool) then
      setc (fun c => c <| msglist ::= fun l => resize (Z.to_nat (msgsize c * 2)) inhabitant l |> <| msgsize := msgsize c * 2 |>);;
      mret true
    else malloc_failed;; mret false
  else mret true.

(** add_msghdr, and add_iov of a UDP connection: one round of its loop for each
    unit of fuel. *)
Fixpoint add_msghdr_n (fuel : nat) : Mn Z :=
  match fuel with
  | O => nofuel
  | Datatypes.S fuel =>
      ok ← grow_msglist;
      if (ok : bool) then
        start_msg;;
        udp ← getc (fun c => IS_UDP (c_transport c));
        if (udp : bool) then add_iov_udp fuel null (UDP_HEADER_SIZE cfg) else mret 0
      else mret (-1)
  end
with add_iov_udp (fuel : nat) (buf : ptr) (len : Z) : Mn Z :=
  match fuel with
  | O => nofuel
  | Datatypes.S fuel =>
      c ← getc id;
      (if decide (msg_iovlen (cur_msg c) = IOV_MAX cfg \/ UDP_MAX_PAYLOAD_SIZE cfg <= msgbytes c)
       then _ ← add_msghdr_n fuel; mret tt else mret tt);;
      r ← ensure_iov_space;
      if decide (r <> 0) then mret (-1)
      else
        mb ← getc msgbytes;
        let leftover := if decide (UDP_MAX_PAYLOAD_SIZE cfg < len + mb) then len + mb - UDP_MAX_PAYLOAD_SIZE cfg else 0 in
        let len := len - leftover in
        push_iov buf len;;
        if decide (0 < leftover) then add_iov_udp fuel (padd buf len) leftover else mret 0
  end.

(** Each round of add_iov_udp but the first and last takes at least one byte. *)
Definition iov_fuel (len : Z) : nat := Z.to_nat len + 4.
Definition add_msghdr : Mn Z := add_msghdr_n 4.

Definition add_iov (buf : ptr) (len : Z) : Mn Z :=
  udp ← getc (fun c => IS_UDP (c_transport c));
  if (udp : bool) then add_iov_udp (iov_fuel len) buf len
  else
    c ← getc id;
    (if decide (msg_iovlen (cur_msg c) = IOV_MAX cfg) then _ ← add_msghdr; mret tt else mret tt);;
    r ← ensure_iov_space;
    if decide (r <> 0) then mret (-1) else push_iov buf len;; mret 0.

(** ** Simple responses *)

Definition crlf : list Z := [13; 10].
Definition too_long : list Z := lit "SERVER_ERROR output line too long".

Definition out_string (str : list Z) : Mn unit :=
  nr ← getc noreply;
  if (nr : bool) then setc (fun c => c <| noreply := false |>);; conn_set_state conn_new_cmd
  else
    setc (fun c => c <| msgcurr := 0 |> <| msgused := 0 |> <| iovused := 0 |>);;
    _ ← add_msghdr;
    ws ← getc wsize;
    let str := if decide (ws < Z.of_nat (length str) + 2) then too_long else str in
    setc (fun c => c <| wbuf ::= fun b => write_bytes b 0 (str ++ crlf) |>
      <| wbytes := Z.of_nat (length str) + 2 |> <| wcurr := Ptr LWbuf 0 |>);;
    conn_set_state conn_write;;
    setc (fun c => c <| write_and_go := conn_new_cmd |>).

(** ** Between requests and at the end *)

(** conn_release_items: the item being read, the items and suffixes being sent. *)
Fixpoint release_items (n : nat) : Mn unit :=
  match n with
  | O => mret tt
  | Datatypes.S n =>
      c ← getc id;
      let it := nth (Z.to_nat (icurr c)) (ilist c) 0 in
      b ← gets back;
      massert (negb (item_slabbed b it));;
      with_back (item_remove it);;
      setc (fun c => c <| icurr := icurr c + 1 |> <| ileft := ileft c - 1 |>);;
      release_items n
  end.
Fixpoint release_suffixes (n : nat) : Mn unit :=
  match n with
  | O => mret tt
  | Datatypes.S n =>
      c ← getc id;
      with_back (fun b => Ok (suffix_free (nth (Z.to_nat (suffixcurr c)) (suffixlist c) 0) b));;
      setc (fun c => c <| suffixcurr := suffixcurr c + 1 |> <| suffixleft := suffixleft c - 1 |>);;
      release_suffixes n
  end.
Definition release_item : Mn unit :=
  it ← getc c_item;
  if decide (it = 0) then mret tt else with_back (item_remove it);; setc (fun c => c <| c_item := 0 |>).
Definition conn_release_items : Mn unit :=
  release_item;;
  n ← getc ileft;
  release_items (Z.to_nat n);;
  n ← getc suffixleft;
  release_suffixes (Z.to_nat n);;
  setc (fun c => c <| icurr := 0 |> <| suffixcurr := 0 |>).

(** The SASL handle is disposed of; that it is there only with SASL on is asserted
    in the code and not here. *)
Definition conn_cleanup : Mn unit :=
  conn_release_items;;
  setc (fun c => c <| write_and_free_buf := None |> <| sasl_conn := false |>);;
  udp ← getc (fun c => IS_UDP (c_transport c));
  when udp (conn_set_state conn_read).

Definition conn_close : Mn unit :=
  log CallEventDel;;
  conn_cleanup;;
  conn_set_state conn_closed;;
  fd ← getc c_sfd;
  log (CallClose fd);;
  modify (fun s => s <| allow_new_conns := true |>);;
  modify (fun s => s <| curr_conns ::= Z.pred |>).

(** The read buffer is moved to its beginning and cut to DATA_BUFFER_SIZE. *)
Definition shrink_rbuf : Mn unit :=
  c ← getc id;
  when (bool_decide (READ_BUFFER_HIGHWAT cfg < rsize c /\ rbytes c < DATA_BUFFER_SIZE cfg))
    (when (bool_decide (rcurr c <> 0))
      (setc (fun c => c <| rbuf := write_bytes (rbuf c) 0 (slice (rbuf c) (Z.to_nat (rcurr c)) (Z.to_nat (rcurr c + rbytes c))) |>));;
     ok ← realloc;
     when ok (setc (fun c => c <| rbuf ::= take (Z.to_nat (DATA_BUFFER_SIZE cfg)) |> <| rsize := DATA_BUFFER_SIZE cfg |>));;
     setc (fun c => c <| rcurr := 0 |>)).
Definition shrink_list (big : conn -> bool) (f : conn -> conn) : Mn unit :=
  b ← getc big;
  when b (ok ← realloc; when ok (setc f)).
Definition conn_shrink : Mn unit :=
  udp ← getc (fun c => IS_UDP (c_transport c));
  if (udp : bool) then mret tt
  else
    shrink_rbuf;;
    shrink_list (fun c => bool_decide (ITEM_LIST_HIGHWAT cfg < isize c))
      (fun c => c <| ilist ::= take (Z.to_nat (ITEM_LIST_INITIAL cfg)) |> <| isize := ITEM_LIST_INITIAL cfg |>);;
    shrink_list (fun c => bool_decide (MSG_LIST_HIGHWAT cfg < msgsize c))
      (fun c => c <| msglist ::= take (Z.to_nat (MSG_LIST_INITIAL cfg)) |> <| msgsize := MSG_LIST_INITIAL cfg |>);;
    shrink_list (fun c => bool_decide (IOV_LIST_HIGHWAT cfg < iovsize c))
      (fun c => c <| iov ::= take (Z.to_nat (IOV_LIST_INITIAL cfg)) |> <| iov_id := iov_id c + 1 |> <| iovsize := IOV_LIST_INITIAL cfg |>).

Definition reset_cmd_handler : Mn unit :=
  setc (fun c => c <| c_cmd := -1 |> <| c_substate := bin_no_state |>);;
  release_item;;
  conn_shrink;;
  n ← getc rbytes;
  conn_set_state (if decide (0 < n) then conn_parse_cmd else conn_waiting).

(** What event_del and event_add of libevent answer: 0 for [true], -1 for [false]. *)
Definition event_call : Mn bool :=
  ok ← gets (fun s => List.hd true (event_ok s));
  modify (fun s => s <| event_ok ::= @tl bool |>);;
  mret ok.
Definition update_event (flags : Z) : Mn bool :=
  f ← getc c_ev_flags;
  if decide (f = flags) then mret true
  else
    ok ← event_call;
    if negb ok then mret false
    else
      setc (fun c => c <| c_ev_flags := flags |>);;
      event_call.
End conn.

(** ** The table of connections *)

(** What conn_new finds: whether the allocations, event_add and getpeername
    succeed, settings.binding_protocol and settings.socketpath, current_time. *)
Record new_env := NewEnv {
  calloc_ok : bool; buffers_ok : bool; event_add_ok : bool; socketpath : bool; sockaddr_size : Z;
  binding_protocol : protocol; current_time : Z; max_fds : Z; SUFFIX_LIST_INITIAL : Z }.

Record conn_table := ConnTable {
  conns : gmap Z conn; tbl_malloc_fails : Z; conn_structs : Z; tbl_curr_conns : Z; total_conns : Z }.
#[export] Instance conn_table_eta : Eta conn_table := fun t =>
  ConnTable (conns t) (tbl_malloc_fails t) (conn_structs t) (tbl_curr_conns t) (total_conns t).

(** The structure conn_new allocates, its buffers of their sizes. *)
Definition conn_alloc (cfg : conn_cfg) (m : new_env) (sfd rbs : Z) : conn :=
  let bytes n := replicate (Z.to_nat n) 0 in
  {| c_sfd := sfd; c_state := conn_listening; c_substate := bin_no_state; c_last_cmd_time := 0; c_ev_flags := 0;
     rbuf := bytes rbs; rcurr := 0; rsize := rbs; rbytes := 0;
     wbuf := bytes (DATA_BUFFER_SIZE cfg); wcurr := null; wsize := DATA_BUFFER_SIZE cfg; wbytes := 0;
     write_and_go := conn_listening; write_and_free_buf := None; ritem := null; rlbytes := 0; c_item := 0; sbytes := 0;
     iov := replicate (Z.to_nat (IOV_LIST_INITIAL cfg)) inhabitant; iov_id := 0; iovsize := IOV_LIST_INITIAL cfg; iovused := 0;
     msglist := replicate (Z.to_nat (MSG_LIST_INITIAL cfg)) inhabitant; msgsize := MSG_LIST_INITIAL cfg;
     msgused := 0; msgcurr := 0; msgbytes := 0;
     ilist := bytes (ITEM_LIST_INITIAL cfg); isize := ITEM_LIST_INITIAL cfg; icurr := 0; ileft := 0;
     suffixlist := bytes (SUFFIX_LIST_INITIAL m); suffixsize := SUFFIX_LIST_INITIAL m; suffixcurr := 0; suffixleft := 0;
     c_protocol := ascii_prot; c_transport := local_transport; request_id := 0; request_addr_size := 0; noreply := false;
     binary_header := BinHeader 0 0 0 0 0 0 0 0 0; c_cas := 0; c_cmd := 0; c_opaque := 0; c_keylen := 0;
     sasl_conn := false; is_authenticated := false |}.

(** The fields conn_new sets, for a new structure and for one used before. *)
Definition conn_init (m : new_env) (st : conn_states) (flags : Z) (tr : network_transport) (c : conn) : conn :=
  c <| c_transport := tr |> <| c_protocol := binding_protocol m |>
    <| request_addr_size := if socketpath m then 0 else sockaddr_size m |>
    <| c_state := st |> <| rlbytes := 0 |> <| c_cmd := -1 |> <| rbytes := 0 |> <| wbytes := 0 |>
    <| wcurr := Ptr LWbuf 0 |> <| rcurr := 0 |> <| ritem := null |> <| icurr := 0 |> <| suffixcurr := 0 |>
    <| ileft := 0 |> <| suffixleft := 0 |> <| iovused := 0 |> <| msgcurr := 0 |> <| msgused := 0 |>
    <| c_last_cmd_time := current_time m |> <| write_and_go := st |> <| write_and_free_buf := None |> <| c_item := 0 |>
    <| noreply := false |> <| is_authenticated := false |> <| c_ev_flags := flags |>.

Definition conn_free (sfd : Z) (t : conn_table) : conn_table := t <| conns ::= delete sfd |>.

Definition conn_new (cfg : conn_cfg) (m : new_env) (sfd : Z) (st : conn_states) (flags rbs : Z) (tr : network_transport)
    (t : conn_table) : res (option conn * conn_table) :=
  if decide (0 <= sfd < max_fds m) then
    let finish c t :=
      let c := conn_init m st flags tr c in
      let t := t <| conns ::= <[sfd := c]> |> in
      if event_add_ok m then Ok (Some c, t <| tbl_curr_conns ::= Z.succ |> <| total_conns ::= Z.succ |>)
      else Ok (None, t) in
    match conns t !! sfd with
    | Some c => finish c t
    | None =>
        if negb (calloc_ok m) then Ok (None, t <| tbl_malloc_fails ::= Z.succ |>)
        else if negb (buffers_ok m) then
          (* conn_free of a structure whose sfd is still the 0 of calloc *)
          Ok (None, (conn_free 0 t) <| tbl_malloc_fails ::= Z.succ |>)
        else finish (conn_alloc cfg m sfd rbs) (t <| conn_structs ::= Z.succ |>)
    end
  else Abort.

(** One step of the symbolic execution of a computation on a connection. *)
Ltac nstep :=
  match goal with
  | |- runs _ (_ ≫= _) _ _ => apply runs_bind
  | |- runs _ (mret _) _ _ => apply runs_ret
  | |- runs _ (gets _) _ _ => apply runs_gets
  | |- runs _ (getc _) _ _ => apply runs_gets
  | |- runs _ (setc _) _ _ => apply runs_modify
  | |- runs _ (modify _) _ _ => apply runs_modify
  | |- runs _ (take_seg _) _ _ => apply runs_modify
  | |- runs _ (take_then _) _ _ => apply runs_modify
  | |- runs _ (log _) _ _ => apply runs_modify
  | |- runs _ malloc_failed _ _ => apply runs_modify
  | |- runs _ realloc _ _ => unfold realloc
  | |- runs _ event_call _ _ => unfold event_call
  end.
Ltac nsteps := repeat (nstep; cbv beta zeta delta [id]).
