(* ===== verification/Iov.v ===== *)
(** * What add_iov gathers (src/thread/memcached.c)

    The message list and the iovec array of a connection as the list of the
    buffers a response consists of: add_iov appends its buffer, whole or (for UDP)
    cut where a datagram ends, and every message stays within its limits. *)

From S2P Require Import Prelude Decimal Dispatch Conn.

(** ** The response as a list of messages *)

Definition msg_slice (l : list iovec) (m : msghdr) : list iovec :=
  take (Z.to_nat (msg_iovlen m)) (drop (Z.to_nat (msg_iov m)) l).
Definition used_msgs (c : conn) : list msghdr := take (Z.to_nat (msgused c)) (msglist c).
(** The buffers of a message; one whose msg_iov leads into a freed array has none. *)
Definition buffers (c : conn) (m : msghdr) : list iovec :=
  if decide (msg_arr m = iov_id c) then msg_slice (iov c) m else [].
Definition messages (c : conn) : list (list iovec) := buffers c <$> used_msgs c.
Definition total (l : list iovec) : Z := foldr (fun v n => iov_len v + n) 0 l.

(** The messages lie one after the other in the array, from [a] to [b]. *)
Fixpoint tiled (a : Z) (l : list msghdr) (b : Z) : Prop :=
  match l with
  | [] => a = b
  | m :: l => msg_iov m = a /\ 0 <= msg_iovlen m /\ tiled (a + msg_iovlen m) l b
  end.

(** msg_iov leads into array number [arr]. *)
Definition in_array (arr : Z) (m : msghdr) : Prop := msg_arr m = arr.

Record iov_ok (c : conn) : Prop := {
  io_iov : Z.of_nat (length (iov c)) = iovsize c;
  io_msg : Z.of_nat (length (msglist c)) = msgsize c;
  io_pos : 0 < iovsize c /\ 0 < msgsize c;
  io_used : 0 <= iovused c <= iovsize c;
  io_msgused : 0 <= msgused c <= msgsize c;
  io_arr : Forall (in_array (iov_id c)) (used_msgs c);
  io_tiled : tiled 0 (used_msgs c) (iovused c);
  io_bytes : 0 < msgused c -> msgbytes c = total (default [] (last (messages c))) }.

Lemma total_app l l' : total (l ++ l') = total l + total l'.
Proof. induction l; simpl; lia. Qed.

Lemma tiled_app a l l' b : tiled a (l ++ l') b <-> exists k, tiled a l k /\ tiled k l' b.
Proof.
  revert a. induction l as [|m l IH]; intros a; simpl.
  - split; [by exists a|by intros (k & -> & ?)].
  - split.
    + intros (? & ? & (k & ? & ?)%IH). by exists k.
    + intros (k & (? & ? & ?) & ?). split_and!; try done. apply IH. by exists k.
Qed.
Lemma tiled_le a l b : tiled a l b -> a <= b.
Proof. revert a. induction l as [|m l IH]; simpl; [lia|]. intros a (? & ? & H%IH). lia. Qed.

Lemma messages_live c : Forall (in_array (iov_id c)) (used_msgs c) -> messages c = msg_slice (iov c) <$> used_msgs c.
Proof.
  intros H. unfold messages. induction H as [|m l Hm H IH]; [done|]. rewrite !fmap_cons, IH. f_equal.
  unfold buffers. by rewrite decide_True.
Qed.

(** ensure_iov_space points the messages at the places of the new array they had in
    the old one. *)
Definition moved_to (arr : Z) (m : msghdr) : msghdr := m <| msg_arr := arr |>.
Lemma repoint_tiled arr l a b n : tiled a (take n l) b -> repoint n arr a l = (moved_to arr <$> take n l) ++ drop n l.
Proof.
  revert a n. induction l as [|m l IH]; intros a n H; [by destruct n|]. destruct n as [|n]; [done|].
  destruct H as (E & ? & H). simpl. f_equal; [by destruct m; simpl in *; subst|]. by apply IH.
Qed.
Lemma tiled_moved arr a l b : tiled a l b -> tiled a (moved_to arr <$> l) b.
Proof. revert a. induction l as [|m l IH]; intros a; [done|]. intros (? & ? & ?). simpl. split_and!; auto. Qed.

(** The slices see only the array below the end of the tiling. *)
Lemma slices_agree l l' ms a b : tiled a ms b -> 0 <= a -> b <= Z.of_nat (length l) -> take (Z.to_nat b) l' = take (Z.to_nat b) l ->
  msg_slice l' <$> ms = msg_slice l <$> ms.
Proof.
  intros H. revert a H. induction ms as [|m ms IH]; intros a H Ha Hb E; [done|]. destruct H as (E1 & E2 & H).
  rewrite !fmap_cons. f_equal; [|by apply (IH (a + msg_iovlen m)); [done|lia|..]].
  pose proof (tiled_le _ _ _ H). unfold msg_slice. rewrite E1.
  assert (forall k : list iovec, take (Z.to_nat (msg_iovlen m)) (drop (Z.to_nat a) k) =
    take (Z.to_nat (msg_iovlen m)) (drop (Z.to_nat a) (take (Z.to_nat b) k))) as Hk.
  { intros k. rewrite skipn_firstn_comm, take_take. f_equal. lia. }
  by rewrite Hk, E, <- Hk.
Qed.

Lemma used_last c : iov_ok c -> 0 < msgused c -> exists l, used_msgs c = l ++ [cur_msg c] /\ length l = Z.to_nat (msgused c - 1).
Proof.
  intros [? ? ? ? ? ? ? ?] Hu. exists (take (Z.to_nat (msgused c - 1)) (msglist c)). split; [|rewrite length_take; lia].
  unfold used_msgs. replace (Z.to_nat (msgused c)) with (S (Z.to_nat (msgused c - 1))) by lia. apply take_S_r.
  destruct (lookup_lt_is_Some_2 (msglist c) (Z.to_nat (msgused c - 1))) as [m E]; [lia|].
  unfold cur_msg. by rewrite nth_lookup, E.
Qed.

(** ** The steps *)

(** What the steps keep of the environment: every allocation succeeds. *)
Definition mem_ok {S} {B : Backend S} (s : net S) : Prop := Forall (eq true) (reallocs s) /\ mem_after (S := S) = true.
Lemma mem_hd {S} {B : Backend S} (s : net S) : mem_ok s -> List.hd (mem_after (S := S)) (reallocs s) = true.
Proof. unfold mem_ok. by destruct (reallocs s) as [|b l]; intros [H ?]; inversion H. Qed.
Lemma mem_tl {S} {B : Backend S} (s s' : net S) : mem_ok s -> reallocs s' = tl (reallocs s) -> mem_ok s'.
Proof. unfold mem_ok. intros [H ?] ->. split; [by destruct H|done]. Qed.

Lemma new_msg_ok c : iov_ok c -> msgused c < msgsize c ->
  let c' := c <| msglist ::= <[Z.to_nat (msgused c) := Msghdr (iov_id c) (iovused c) 0 (IS_UDP (c_transport c) && bool_decide (0 < request_addr_size c))]> |>
    <| msgbytes := 0 |> <| msgused := msgused c + 1 |> in
  iov_ok c' /\ messages c' = messages c ++ [[]].
Proof.
  intros [? ? ? ? ? Ha Ht ?] Hlt c'. set (m := Msghdr (iov_id c) (iovused c) 0 _) in *.
  assert (used_msgs c' = used_msgs c ++ [m]) as Eu.
  { unfold used_msgs. simpl. replace (Z.to_nat (msgused c + 1)) with (S (Z.to_nat (msgused c))) by lia.
    rewrite (take_S_r _ _ m) by (apply list_lookup_insert_eq; lia). by rewrite take_insert_ge. }
  assert (Forall (in_array (iov_id c')) (used_msgs c')) as Ha'.
  { rewrite Eu. apply Forall_app. split; [exact Ha|by apply Forall_singleton]. }
  assert (messages c' = messages c ++ [[]]) as Em by (rewrite !messages_live by done; by rewrite Eu, fmap_app).
  split; [|done]. split; simpl; try lia.
  - rewrite length_insert. lia.
  - exact Ha'.
  - rewrite Eu, tiled_app. exists (iovused c). simpl. split; [done|lia].
  - intros _. by rewrite Em, last_snoc.
Qed.

Lemma push_ok c buf len : iov_ok c -> 0 < msgused c -> iovused c < iovsize c ->
  let m := cur_msg c in
  let c' := c <| iov ::= fun l => if decide (msg_arr m = iov_id c) then <[Z.to_nat (msg_iov m + msg_iovlen m) := Iovec buf len]> l else l |>
      <| msgbytes := msgbytes c + len |> <| iovused := iovused c + 1 |>
      <| msglist ::= <[Z.to_nat (msgused c - 1) := m <| msg_iovlen := msg_iovlen m + 1 |>]> |> in
  iov_ok c' /\ exists ms l, messages c = ms ++ [l] /\ messages c' = ms ++ [l ++ [Iovec buf len]] /\
    msg_iovlen m = Z.of_nat (length l).
Proof.
  intros Ok Hu Hlt m c'. destruct (used_last c Ok Hu) as (l & El & Hl). destruct Ok as [? ? ? ? ? Ha Ht Hb].
  pose proof Ha as Ha0. rewrite El in Ha0. apply Forall_app in Ha0 as [Ha1 Ha2%Forall_inv]. unfold in_array in Ha2.
  assert (iov c' = <[Z.to_nat (msg_iov m + msg_iovlen m) := Iovec buf len]> (iov c)) as Ei by (simpl; by rewrite decide_True).
  assert (used_msgs c' = l ++ [m <| msg_iovlen := msg_iovlen m + 1 |>]) as Eu.
  { unfold used_msgs. simpl. replace (Z.to_nat (msgused c)) with (S (Z.to_nat (msgused c - 1))) by lia.
    rewrite (take_S_r _ _ (m <| msg_iovlen := msg_iovlen m + 1 |>)) by (apply list_lookup_insert_eq; lia).
    rewrite take_insert_ge by lia. f_equal.
    assert (take (Z.to_nat (msgused c - 1)) (used_msgs c) = l) as <- by (rewrite El, <- Hl; apply take_app_length).
    unfold used_msgs. rewrite take_take. f_equal. lia. }
  rewrite El, tiled_app in Ht. destruct Ht as (k & Hk & E1 & E2 & E3). fold m in E1, E2, E3, El. simpl in E3. rewrite <- E1 in *.
  pose proof (tiled_le _ _ _ Hk) as Hk0. set (v := Iovec buf len). set (p := Z.to_nat (msg_iov m + msg_iovlen m)).
  assert (msg_slice (<[p := v]> (iov c)) <$> l = msg_slice (iov c) <$> l) as Efront.
  { apply (slices_agree _ _ _ 0 (msg_iov m)); [done|lia|lia|]. apply take_insert_ge. unfold p. lia. }
  assert (msg_slice (<[p := v]> (iov c)) (m <| msg_iovlen := msg_iovlen m + 1 |>) = msg_slice (iov c) m ++ [v]) as Eback.
  { unfold msg_slice. simpl. replace (Z.to_nat (msg_iovlen m + 1)) with (S (Z.to_nat (msg_iovlen m))) by lia.
    rewrite (take_S_r _ _ v).
    - f_equal. rewrite drop_insert_ge by (unfold p; lia). apply take_insert_ge. unfold p. lia.
    - rewrite lookup_drop. replace (Z.to_nat (msg_iov m) + Z.to_nat (msg_iovlen m))%nat with p by (unfold p; lia).
      apply list_lookup_insert_eq. unfold p. lia. }
  assert (messages c = (msg_slice (iov c) <$> l) ++ [msg_slice (iov c) m]) as Em
    by (rewrite messages_live by done; by rewrite El, fmap_app).
  assert (Forall (in_array (iov_id c')) (used_msgs c')) as Ha'.
  { rewrite Eu. apply Forall_app. split; [exact Ha1|by apply Forall_singleton]. }
  assert (messages c' = (msg_slice (iov c) <$> l) ++ [msg_slice (iov c) m ++ [v]]) as Em'.
  { rewrite messages_live by done. rewrite Eu, fmap_app, Ei. fold p v. by rewrite Efront, <- Eback. }
  split.
  - split; rewrite ?Ei; simpl; try rewrite length_insert; try lia.
    + exact Ha'.
    + rewrite Eu, tiled_app. exists (msg_iov m). simpl. split_and!; try done; lia.
    + intros _. rewrite Em', last_snoc. simpl. rewrite total_app, (Hb Hu), Em, last_snoc. simpl. lia.
  - eexists _, _. split; [exact Em|]. split; [exact Em'|]. unfold msg_slice. rewrite length_take, length_drop. lia.
Qed.

Lemma grow_msg_ok c : iov_ok c -> let c' := c <| msglist ::= fun l => resize (Z.to_nat (msgsize c * 2)) inhabitant l |> <| msgsize := msgsize c * 2 |> in
  iov_ok c' /\ messages c' = messages c.
Proof.
  intros [? ? ? ? ? Ha Ht Hb] c'. assert (used_msgs c' = used_msgs c) as Eu.
  { unfold used_msgs. simpl. rewrite resize_ge by lia. by rewrite take_app_le by lia. }
  assert (messages c' = messages c) as Em by (unfold messages; by rewrite Eu). split; [|done]. split; simpl; try lia.
  - rewrite length_resize. lia.
  - by rewrite Eu.
  - by rewrite Eu.
  - by rewrite Em.
Qed.

(** The array grows: the messages pointed into the old one and are pointed into the new. *)
Lemma grow_iov_ok c : iov_ok c ->
  let c1 := c <| iov ::= fun l => resize (Z.to_nat (2 * iovsize c)) inhabitant l |> <| iov_id := iov_id c + 1 |> <| iovsize := iovsize c * 2 |> in
  let c' := c1 <| msglist ::= repoint (Z.to_nat (msgused c1)) (iov_id c1) 0 |> in
  iov_ok c' /\ messages c' = messages c.
Proof.
  intros [? ? ? ? ? Ha Ht Hb] c1 c'.
  pose proof (repoint_tiled (iov_id c + 1) (msglist c) 0 _ _ Ht) as Er.
  assert (length (repoint (Z.to_nat (msgused c)) (iov_id c + 1) 0 (msglist c)) = length (msglist c)) as El
    by (rewrite Er, length_app, length_fmap, length_take, length_drop; lia).
  assert (used_msgs c' = moved_to (iov_id c + 1) <$> used_msgs c) as Eu.
  { unfold used_msgs. simpl. rewrite Er. rewrite take_app_length'; [done|]. rewrite length_fmap, length_take. lia. }
  assert (Forall (in_array (iov_id c')) (used_msgs c')) as Ha' by (rewrite Eu, Forall_fmap; by apply Forall_true).
  assert (messages c' = messages c) as Em.
  { rewrite !messages_live by done. rewrite Eu, <- list_fmap_compose. change (msg_slice (iov c') ∘ moved_to (iov_id c + 1)) with (msg_slice (iov c')).
    simpl. apply (slices_agree _ _ _ 0 (iovused c)); [done|lia|lia|].
    rewrite resize_ge by lia. by rewrite take_app_le by lia. }
  split; [|done]. split; simpl; rewrite ?El; try lia.
  - rewrite length_resize. lia.
  - exact Ha'.
  - rewrite Eu. by apply tiled_moved.
  - by rewrite Em.
Qed.

(** ** What a response holds *)

(** [pieces] cut the [len] bytes at [buf], one after the other. *)
Fixpoint covers (buf : ptr) (len : Z) (pieces : list iovec) : Prop :=
  match pieces with
  | [] => len = 0
  | v :: pieces => iov_base v = buf /\ 0 <= iov_len v /\ covers (padd buf (iov_len v)) (len - iov_len v) pieces
  end.

Section gather.
Context {S : Type} {B : Backend S} (cfg : conn_cfg).
Hypothesis limits : 2 <= IOV_MAX cfg /\ 0 <= UDP_HEADER_SIZE cfg < UDP_MAX_PAYLOAD_SIZE cfg.

Definition header : iovec := Iovec null (UDP_HEADER_SIZE cfg).
(** A message within its limits; of a datagram, the first buffer is the header. *)
Definition msg_ok (udp : bool) (l : list iovec) : Prop :=
  Z.of_nat (length l) <= IOV_MAX cfg /\
  if udp then exists l', l = header :: l' /\ total l <= UDP_MAX_PAYLOAD_SIZE cfg else True.
Definition body (udp : bool) (l : list iovec) : list iovec := if udp then tl l else l.
Definition payload (c : conn) : list iovec := messages c ≫= body (IS_UDP (c_transport c)).

(** A response under construction. *)
Record resp (s : net S) : Prop := {
  rs_mem : mem_ok s;
  rs_iov : iov_ok (cn s);
  rs_limits : Forall (msg_ok (IS_UDP (c_transport (cn s)))) (messages (cn s)) }.

(** The state after a step: [ms] are its messages. *)
Definition holds (s s' : net S) (ms : list (list iovec)) : Prop :=
  mem_ok s' /\ iov_ok (cn s') /\ messages (cn s') = ms /\ c_transport (cn s') = c_transport (cn s).

Lemma used_of_messages c ms l : iov_ok c -> messages c = ms ++ [l] -> 0 < msgused c.
Proof.
  intros [] E. destruct (decide (0 < msgused c)); [done|]. unfold messages, used_msgs in E.
  replace (Z.to_nat (msgused c)) with 0%nat in E by lia. simpl in E. by destruct ms.
Qed.

Lemma grow_msglist_holds (s : net S) : mem_ok s -> iov_ok (cn s) ->
  runs False grow_msglist s (fun ok s' => ok = true /\ holds s s' (messages (cn s)) /\ msgused (cn s') < msgsize (cn s')).
Proof.
  intros Hm Ok. unfold grow_msglist. nsteps. case_decide.
  - nsteps. rewrite (mem_hd _ Hm). nsteps. destruct (grow_msg_ok _ Ok) as [Ok' E]. split; [done|].
    split; [split_and!; try done; by apply (mem_tl s)|]. destruct Ok. simpl. lia.
  - nsteps. split; [done|]. split; [done|]. destruct Ok. lia.
Qed.

Lemma ensure_iov_holds (s : net S) : mem_ok s -> iov_ok (cn s) ->
  runs False ensure_iov_space s (fun r s' => r = 0 /\ holds s s' (messages (cn s)) /\ iovused (cn s') < iovsize (cn s') /\
    msgbytes (cn s') = msgbytes (cn s)).
Proof.
  intros Hm Ok. unfold ensure_iov_space. nsteps. case_decide.
  - nsteps. rewrite (mem_hd _ Hm). nsteps. destruct (grow_iov_ok _ Ok) as [Ok' E]. split; [done|].
    split; [split_and!; try done; by apply (mem_tl s)|]. destruct Ok. simpl. lia.
  - nsteps. split; [done|]. split; [done|]. split; [lia|done].
Qed.

Lemma start_msg_holds (s : net S) : mem_ok s -> iov_ok (cn s) -> msgused (cn s) < msgsize (cn s) ->
  runs False start_msg s (fun _ s' => holds s s' (messages (cn s) ++ [[]])).
Proof. intros Hm Ok Hlt. unfold start_msg. nsteps. destruct (new_msg_ok _ Ok Hlt). by split_and!. Qed.

Lemma push_holds buf len (s : net S) ms l : mem_ok s -> iov_ok (cn s) -> messages (cn s) = ms ++ [l] -> iovused (cn s) < iovsize (cn s) ->
  runs False (push_iov buf len) s (fun _ s' => holds s s' (ms ++ [l ++ [Iovec buf len]])).
Proof.
  intros Hm Ok E Hlt. pose proof (used_of_messages _ _ _ Ok E) as Hu. unfold push_iov. nsteps.
  destruct (push_ok _ buf len Ok Hu Hlt) as (Ok' & ms' & l' & E1 & E2 & _). rewrite E in E1. apply app_inj_tail in E1 as [<- <-].
  by split_and!.
Qed.

(** The last message: how many buffers and bytes it has. *)
Lemma last_msg (s : net S) ms l : iov_ok (cn s) -> messages (cn s) = ms ++ [l] ->
  msg_iovlen (cur_msg (cn s)) = Z.of_nat (length l) /\ msgbytes (cn s) = total l.
Proof.
  intros Ok E. pose proof (used_of_messages _ _ _ Ok E) as Hu. destruct (used_last _ Ok Hu) as (l0 & El & _). pose proof Ok as [? ? ? ? ? Ha Ht Hb].
  split; [|rewrite (Hb Hu), E, last_snoc; done]. rewrite messages_live in E by done. rewrite El, fmap_app in E. apply app_inj_tail in E as [_ <-].
  rewrite El, tiled_app in Ht. destruct Ht as (k & Hk & E1 & E2 & E3). simpl in E3. pose proof (tiled_le _ _ _ Hk).
  unfold msg_slice. rewrite length_take, length_drop. lia.
Qed.

(** ** Starting a message *)

Lemma first_push fuel buf len (s : net S) ms : mem_ok s -> iov_ok (cn s) -> messages (cn s) = ms ++ [[]] -> len <= UDP_MAX_PAYLOAD_SIZE cfg ->
  runs False (add_iov_udp cfg (Datatypes.S fuel) buf len) s (fun r s' => r = 0 /\ holds s s' (ms ++ [[Iovec buf len]])).
Proof using limits.
  intros Hm Ok E Hlen. destruct (last_msg _ _ _ Ok E) as [E1 E2]. simpl in E1, E2. simpl. nsteps.
  rewrite decide_False by (rewrite E1, E2; lia). nsteps.
  eapply runs_mono; [by apply ensure_iov_holds|]. intros r s1 (-> & (Hm1 & Ok1 & M1 & T1) & Hlt & Hb). nsteps.
  rewrite decide_False by (intros D; by apply D). nsteps. rewrite Hb, E2. rewrite decide_False by lia. rewrite Z.sub_0_r.
  eapply runs_mono; [apply (push_holds _ _ _ ms []); [done|done|congruence|done]|]. intros _ s2 (Hm2 & Ok2 & M2 & T2).
  rewrite decide_False by lia. nsteps. split; [done|]. split_and!; try done. congruence.
Qed.

Lemma add_msghdr_holds fuel (s : net S) : mem_ok s -> iov_ok (cn s) ->
  runs False (add_msghdr_n cfg (Datatypes.S (Datatypes.S fuel))) s (fun r s' => r = 0 /\
    holds s s' (messages (cn s) ++ [if IS_UDP (c_transport (cn s)) then [header] else []])).
Proof using limits.
  intros Hm Ok. cbn [add_msghdr_n]. nsteps. eapply runs_mono; [by apply grow_msglist_holds|].
  intros ok s1 (-> & (Hm1 & Ok1 & M1 & T1) & Hlt). nsteps.
  eapply runs_mono; [by apply start_msg_holds|]. intros _ s2 (Hm2 & Ok2 & M2 & T2). nsteps.
  assert (c_transport (cn s2) = c_transport (cn s)) as -> by congruence. rewrite M1 in M2.
  destruct (IS_UDP (c_transport (cn s))).
  - eapply runs_mono; [by apply (first_push _ _ _ _ _ Hm2 Ok2 M2); lia|]. intros r s3 (-> & Hm3 & Ok3 & M3 & T3).
    split; [done|]. split_and!; try done. congruence.
  - nsteps. split; [done|]. split_and!; try done. congruence.
Qed.

(** ** Appending a buffer *)

(** What appending to a response leaves: the pieces of the buffer behind what was there. *)
Definition appended (buf : ptr) (len : Z) (s s' : net S) : Prop :=
  resp s' /\ 0 < msgused (cn s') /\ c_transport (cn s') = c_transport (cn s) /\
  exists new, covers buf len new /\ payload (cn s') = payload (cn s) ++ new.

(** A message that has room. *)
Definition roomy (udp : bool) (l : list iovec) : Prop :=
  msg_ok udp l /\ Z.of_nat (length l) < IOV_MAX cfg /\ (udp = true -> total l < UDP_MAX_PAYLOAD_SIZE cfg).

Lemma roomy_push udp l buf len : roomy udp l -> (udp = true -> total l + len <= UDP_MAX_PAYLOAD_SIZE cfg) ->
  msg_ok udp (l ++ [Iovec buf len]).
Proof.
  intros ([_ H] & Hl & _) Ht. split; [rewrite length_app; simpl; lia|]. destruct udp; [|done].
  destruct H as (l' & -> & _). exists (l' ++ [Iovec buf len]). split; [done|]. rewrite total_app. simpl total at 2. specialize (Ht eq_refl). lia.
Qed.

Lemma body_push udp ms l v : (udp = true -> l <> []) -> (ms ++ [l ++ [v]]) ≫= body udp = ((ms ++ [l]) ≫= body udp) ++ [v].
Proof.
  intros Hl. rewrite !bind_app. simpl. rewrite !app_nil_r, <- app_assoc. f_equal. destruct udp; [|done].
  destruct l; [by destruct Hl|done].
Qed.

(** if the last message is full, a new one is started *)
Lemma room_made fuel (full : Prop) (dec : Decision full) (s : net S) ms l :
  mem_ok s -> iov_ok (cn s) -> messages (cn s) = ms ++ [l] -> Forall (msg_ok (IS_UDP (c_transport (cn s)))) (ms ++ [l]) ->
  (~ full -> roomy (IS_UDP (c_transport (cn s))) l) ->
  runs False (if @decide full dec then _ ← add_msghdr_n cfg (Datatypes.S (Datatypes.S fuel)); mret tt else mret tt) s
    (fun _ s' => mem_ok s' /\ iov_ok (cn s') /\ c_transport (cn s') = c_transport (cn s) /\ payload (cn s') = payload (cn s) /\
      exists ms' l', messages (cn s') = ms' ++ [l'] /\ Forall (msg_ok (IS_UDP (c_transport (cn s)))) ms' /\ roomy (IS_UDP (c_transport (cn s))) l').
Proof using limits.
  intros Hm Ok E HF Hroom. case_decide as Hd.
  - nsteps. eapply runs_mono; [by apply add_msghdr_holds|]. intros r s1 (-> & Hm1 & Ok1 & M1 & T1). nsteps.
    split_and!; try done.
    + unfold payload. rewrite M1, T1, bind_app. by destruct (IS_UDP _); simpl; rewrite !app_nil_r.
    + eexists _, _. split; [exact M1|]. split; [by rewrite E|]. unfold roomy, msg_ok. destruct (IS_UDP _); simpl; split_and!; try lia; try done.
      exists []. split; [done|lia].
  - nsteps. split_and!; try done. exists ms, l. apply Forall_app in HF as [HF _]. split_and!; auto; by apply Hroom.
Qed.

Lemma add_iov_udp_S fuel buf len : add_iov_udp (S := S) cfg (Datatypes.S fuel) buf len =
  (c ← getc id;
   (if decide (msg_iovlen (cur_msg c) = IOV_MAX cfg \/ UDP_MAX_PAYLOAD_SIZE cfg <= msgbytes c)
    then _ ← add_msghdr_n cfg fuel; mret tt else mret tt);;
   r ← ensure_iov_space;
   if decide (r <> 0) then mret (-1)
   else
     mb ← getc msgbytes;
     let leftover := if decide (UDP_MAX_PAYLOAD_SIZE cfg < len + mb) then len + mb - UDP_MAX_PAYLOAD_SIZE cfg else 0 in
     push_iov buf (len - leftover);;
     if decide (0 < leftover) then add_iov_udp cfg fuel (padd buf (len - leftover)) leftover else mret 0).
Proof. done. Qed.

Lemma add_iov_udp_appends fuel buf len (s : net S) : resp s -> 0 < msgused (cn s) -> IS_UDP (c_transport (cn s)) = true ->
  0 <= len -> (Z.to_nat len + 3 <= fuel)%nat ->
  runs False (add_iov_udp cfg fuel buf len) s (fun r s' => r = 0 /\ appended buf len s s').
Proof using limits.
  revert buf len s. induction fuel as [|fuel IH]; intros buf len s [Hm Ok HF] Hu Hudp Hlen Hf; [lia|].
  destruct (used_last _ Ok Hu) as (l0 & El & _). assert (exists ms l, messages (cn s) = ms ++ [l]) as (ms & l & E)
    by (unfold messages; rewrite El, fmap_app; by eexists _, _).
  rewrite E in HF. destruct (last_msg _ _ _ Ok E) as [E1 E2]. destruct fuel as [|[|fuel]]; [lia|lia|].
  rewrite add_iov_udp_S. nsteps.
  eapply runs_mono.
  { apply (room_made fuel _ _ s ms l Hm Ok E HF).
    rewrite E1, E2. intros Hd. apply Forall_app in HF as [_ HF%Forall_inv]. split; [done|]. destruct HF. split; [lia|]. intros _. lia. }
  intros _ s1 (Hm1 & Ok1 & T1 & P1 & ms1 & l1 & M1 & F1 & R1). rewrite Hudp in *. nsteps.
  eapply runs_mono; [by apply ensure_iov_holds|]. intros r s2 (-> & (Hm2 & Ok2 & M2 & T2) & Hlt & Hb). nsteps.
  rewrite decide_False by (intros D; by apply D). nsteps. rewrite Hb. rewrite M1 in M2.
  destruct (last_msg _ _ _ Ok1 M1) as [_ ->]. destruct R1 as (R1 & R2 & R3). specialize (R3 eq_refl).
  set (left := if decide (UDP_MAX_PAYLOAD_SIZE cfg < len + total l1) then len + total l1 - UDP_MAX_PAYLOAD_SIZE cfg else 0).
  assert (0 <= left /\ 0 <= len - left /\ total l1 + (len - left) <= UDP_MAX_PAYLOAD_SIZE cfg /\ (0 < left -> left < len)) as (L1 & L2 & L3 & L4)
    by (unfold left; case_decide; lia).
  eapply runs_mono; [by apply (push_holds _ _ _ _ _ Hm2 Ok2 M2)|]. intros _ s3 (Hm3 & Ok3 & M3 & T3). nsteps.
  assert (IS_UDP (c_transport (cn s3)) = true) as U3 by congruence.
  assert (l1 <> []) as Hne by (destruct R1 as (_ & l' & -> & _); done).
  assert (resp s3) as Rs3.
  { split; [done|done|]. rewrite U3, M3. apply Forall_app. split; [done|]. apply Forall_singleton, roomy_push; [done|]. intros _. lia. }
  assert (payload (cn s3) = payload (cn s) ++ [Iovec buf (len - left)]) as P3.
  { rewrite <- P1. unfold payload. rewrite U3, M3, body_push by done. rewrite T1, M1, Hudp. done. }
  pose proof (used_of_messages _ _ _ Ok3 M3) as Hu3. case_decide as Hl.
  - eapply runs_mono; [apply IH; [done|done|done|lia|lia]|]. intros r s4 (-> & R4 & U4 & T4 & new & C4 & P4). split; [done|].
    split; [done|]. split; [done|]. split; [congruence|]. exists (Iovec buf (len - left) :: new). split; [|by rewrite P4, P3, <- app_assoc].
    simpl. split; [done|]. split; [lia|]. by replace (len - (len - left)) with left by lia.
  - nsteps. split; [done|]. split; [done|]. split; [done|]. split; [congruence|]. exists [Iovec buf (len - left)]. split; [|done].
    simpl. split_and!; try done; lia.
Qed.

Lemma add_iov_appends buf len (s : net S) : resp s -> 0 < msgused (cn s) -> 0 <= len ->
  runs False (add_iov cfg buf len) s (fun r s' => r = 0 /\ appended buf len s s').
Proof using limits.
  intros Rs Hu Hlen. unfold add_iov. nsteps. destruct (IS_UDP (c_transport (cn s))) eqn:Hudp.
  { apply add_iov_udp_appends; try done. unfold iov_fuel. lia. }
  destruct Rs as [Hm Ok HF]. destruct (used_last _ Ok Hu) as (l0 & El & _).
  assert (exists ms l, messages (cn s) = ms ++ [l]) as (ms & l & E) by (unfold messages; rewrite El, fmap_app; by eexists _, _).
  rewrite E in HF. destruct (last_msg _ _ _ Ok E) as [E1 E2]. nsteps. unfold add_msghdr.
  eapply runs_mono.
  { apply (room_made 2 _ _ s ms l Hm Ok E HF).
    rewrite E1, Hudp. intros Hd. apply Forall_app in HF as [_ HF%Forall_inv]. rewrite Hudp in HF. split; [done|]. destruct HF. split; [lia|done]. }
  intros _ s1 (Hm1 & Ok1 & T1 & P1 & ms1 & l1 & M1 & F1 & R1). rewrite Hudp in *. nsteps.
  eapply runs_mono; [by apply ensure_iov_holds|]. intros r s2 (-> & (Hm2 & Ok2 & M2 & T2) & Hlt & Hb). nsteps.
  rewrite decide_False by (intros D; by apply D). nsteps. rewrite M1 in M2.
  eapply runs_mono; [by apply (push_holds _ _ _ _ _ Hm2 Ok2 M2)|]. intros _ s3 (Hm3 & Ok3 & M3 & T3). nsteps.
  assert (IS_UDP (c_transport (cn s3)) = false) as U3 by congruence. split; [done|]. split.
  { split; [done|done|]. rewrite U3, M3. apply Forall_app. split; [done|]. by apply Forall_singleton, roomy_push. }
  split; [by apply (used_of_messages _ _ _ Ok3 M3)|]. split; [congruence|]. exists [Iovec buf len]. split.
  - simpl. split_and!; try done; lia.
  - rewrite <- P1. unfold payload. rewrite U3, M3, body_push by done. by rewrite T1, M1, Hudp.
Qed.

(** ** A whole response *)

(** msgcurr = msgused = iovused = 0; add_msghdr(c); then add_iov for each buffer,
    as out_string, process_get_command and the binary responses do. *)
Fixpoint add_iovs (l : list (ptr * Z)) : M (net S) Z :=
  match l with
  | [] => mret 0
  | (buf, len) :: l =>
      r ← add_iov cfg buf len;
      if decide (r <> 0) then mret r else add_iovs l
  end.
Definition respond (l : list (ptr * Z)) : M (net S) Z :=
  setc (fun c => c <| msgcurr := 0 |> <| msgused := 0 |> <| iovused := 0 |>);;
  r ← add_msghdr cfg;
  if decide (r <> 0) then mret r else add_iovs l.

(** The buffers one after the other, each cut into pieces. *)
Definition covers_all (l : list (ptr * Z)) (pieces : list iovec) : Prop :=
  exists pss, pieces = mjoin pss /\ Forall2 (fun b ps => covers b.1 b.2 ps) l pss.

Lemma add_iovs_appends l (s : net S) : resp s -> 0 < msgused (cn s) -> Forall (fun b => 0 <= b.2) l ->
  runs False (add_iovs l) s (fun r s' => r = 0 /\ resp s' /\ 0 < msgused (cn s') /\ c_transport (cn s') = c_transport (cn s) /\
    exists new, covers_all l new /\ payload (cn s') = payload (cn s) ++ new).
Proof using limits.
  revert s. induction l as [|[buf len] l IH]; intros s Rs Hu Hl.
  - apply runs_ret. split_and!; try done. exists []. split; [by exists []|by rewrite app_nil_r].
  - inversion_clear Hl as [|? ? Hlen Hl']. cbn [add_iovs]. apply runs_bind.
    eapply runs_mono; [by apply add_iov_appends|]. intros r s1 (-> & R1 & U1 & T1 & new1 & C1 & P1).
    rewrite decide_False by (intros D; by apply D). eapply runs_mono; [by apply IH|].
    intros r s2 (-> & R2 & U2 & T2 & new2 & (pss & -> & C2) & P2). split_and!; try done; [congruence|].
    exists (new1 ++ mjoin pss). split; [exists (new1 :: pss); split; [done|by constructor]|]. by rewrite P2, P1, <- app_assoc.
Qed.

(** Arrays of the sizes the connection records. *)
Definition arrays_ok (c : conn) : Prop :=
  Z.of_nat (length (iov c)) = iovsize c /\ Z.of_nat (length (msglist c)) = msgsize c /\ 0 < iovsize c /\ 0 < msgsize c.

(** C13. With memory at hand (every realloc succeeds) a response gathers exactly its
    buffers: built with add_msghdr and add_iov from any list of buffers, on arrays of
    any size that grow as needed, every message's msg_iov leads into the array the
    connection has at the end, and the messages sent in order hold the bytes of the
    buffers in order, cut only where a datagram ends; no message has more than
    IOV_MAX buffers, and over UDP each begins with room for the header and is at most
    UDP_MAX_PAYLOAD_SIZE bytes. *)
Theorem response_gathers l (s : net S) : arrays_ok (cn s) -> mem_ok s -> Forall (fun b => 0 <= b.2) l ->
  exists s', respond l s = Ok (0, s') /\ covers_all l (payload (cn s')) /\
    Forall (msg_ok (IS_UDP (c_transport (cn s)))) (messages (cn s')) /\
    Forall (in_array (iov_id (cn s'))) (used_msgs (cn s')) /\
    msgused (cn s') = Z.of_nat (length (messages (cn s'))) /\ msgused (cn s') <= msgsize (cn s') /\ iovused (cn s') <= iovsize (cn s').
Proof using limits.
  intros (A1 & A2 & A3 & A4) Hm Hl.
  assert (runs False (respond l) s (fun r s' => r = 0 /\ resp s' /\ covers_all l (payload (cn s')) /\ c_transport (cn s') = c_transport (cn s))) as R.
  { unfold respond. nsteps. set (s1 := s <| cn ::= _ |>).
    assert (iov_ok (cn s1)) as Ok1 by (split; unfold s1; simpl; done || lia).
    eapply runs_mono; [by apply (add_msghdr_holds 2)|]. intros r s2 (-> & Hm2 & Ok2 & M2 & T2). change (messages (cn s1)) with (@nil (list iovec)) in M2.
    change (c_transport (cn s1)) with (c_transport (cn s)) in M2, T2.
    rewrite decide_False by (intros D; by apply D). eapply runs_mono.
    - apply add_iovs_appends; [|by apply (used_of_messages _ [] _ Ok2 M2)|done]. split; [done|done|]. rewrite M2, T2. apply Forall_singleton.
      unfold msg_ok. destruct (IS_UDP _); simpl; (split; [lia|]); [|done]. exists []. split; [done|lia].
    - intros r s3 (-> & R3 & U3 & T3 & new & C3 & P3). split_and!; try done; [|congruence]. rewrite P3. unfold payload. rewrite M2, T2.
      by destruct (IS_UDP _). }
  unfold runs in R. destruct (respond l s) as [[r s']| |]; [|done|done]. destruct R as (-> & [Hm' Ok' HF] & C & T). exists s'. rewrite T in HF.
  destruct Ok'. split_and!; try done; [|lia|lia]. unfold messages, used_msgs. rewrite length_fmap, length_take. lia.
Qed.
End gather.

Module Demo.
Definition cfg : conn_cfg := ConnCfg 3 20 8 64 64 8 4 8 4 8 4 20 10 false 2 4 16.
Definition env : new_env := NewEnv true true true false 16 ascii_prot 0 8 4.
(** No store; [after]: whether memory comes back once the list of answers is used up. *)
Definition backend (after : bool) : Backend unit := {|
  mem_after := after; item_remove _ b := Ok b; item_write _ _ _ b := b; item_chunked _ _ := false;
  item_slabbed _ _ := false; suffix_free _ b := b |}.
Definition start (cfg : conn_cfg) (tr : network_transport) (answers : list bool) : net unit :=
  {| cn := conn_init env conn_read 0 tr (conn_alloc cfg env 3 8); reallocs := answers; event_ok := []; reads := [];
     datagrams := []; accepts := []; fcntls := []; use_accept4 := true;
     malloc_fails := 0; bytes_read := 0; conn_yields := 0; curr_conns := 1; reserved_fds := 0; rejected_conns := 0;
     allow_new_conns := true; now := 0; back := tt; calls := []; received := []; taken := [] |}.
Definition bufs : list (ptr * Z) := [(Ptr LWbuf 0, 30); (Ptr (LItem 7) 5, 4)].
End Demo.

(** Three datagrams, six buffers: the array of four grows on the way. *)
Lemma response_gathers_witness :
  let B := Demo.backend true in
  exists s', respond Demo.cfg Demo.bufs (Demo.start Demo.cfg udp_transport [true]) = Ok (0, s') /\
    covers_all Demo.bufs (payload (cn s')) /\ Forall (msg_ok Demo.cfg true) (messages (cn s')) /\
    iov_id (cn s') = 1 /\ (@length iovec <$> messages (cn s')) = [2; 2; 3]%nat.
Proof.
  intros B.
  destruct (response_gathers Demo.cfg ltac:(simpl; lia) Demo.bufs (Demo.start Demo.cfg udp_transport [true]))
    as (s' & E & C & F & _).
  - vm_compute. split_and!; reflexivity.
  - split; [|reflexivity]. constructor; [reflexivity|constructor].
  - constructor; [simpl; lia|]. constructor; [simpl; lia|constructor].
  - exists s'. split; [exact E|]. split; [exact C|]. split; [exact F|].
    vm_compute in E. injection E as <-. split; vm_compute; reflexivity.
Defined.

(** The condition on memory: add_iov ignores that add_msghdr failed, so that with no
    memory for the list of messages a message grows past IOV_MAX. *)
Example message_past_limit :
  let B := Demo.backend false in
  let cfg := ConnCfg 3 20 8 64 64 8 4 8 1 8 8 20 10 false 2 4 16 in
  match respond cfg (replicate 5 (Ptr LWbuf 0, 1)) (Demo.start cfg tcp_transport []) with
  | Ok (r, s') => r = 0 /\ IOV_MAX cfg = 3 /\ (@length iovec <$> messages (cn s')) = [5]%nat
  | _ => False
  end.
Proof. vm_compute. split_and!; reflexivity. Qed.
