(* ===== verification/Machine.v ===== *)
(** * The state machine of a connection (drive_machine of src/thread/memcached.c)

    Reading requests from the socket (try_read_network, try_read_udp), finding
    the commands in what was read (try_read_command), reading and skipping the
    data of a value, sending the response, yielding and closing.  The commands
    themselves are behind [Handlers]. *)

From S2P Require Import Prelude Decimal Dispatch Conn.

Inductive try_read_result := READ_DATA_RECEIVED | READ_NO_DATA_RECEIVED | READ_ERROR | READ_MEMORY_ERROR.
#[export] Instance try_read_result_eq_dec : EqDecision try_read_result.
Proof. solve_decision. Defined.

(** The result of read(): n > 0 and the bytes, 0, -1 with EAGAIN, -1 otherwise. *)
Inductive rd_result := GotBytes (bs : list Z) | GotEof | GotAgain | GotErr.

(** The commands of the two protocols, and the functions the sources call without
    giving them: read_into_chunked_item, build_udp_headers, transmit. *)
Class Handlers (S : Type) := {
  process_command : list Z -> M (net S) unit;
  complete_nread_ascii : M (net S) unit;
  complete_nread_binary : M (net S) unit;
  dispatch_bin_command : M (net S) unit;
  write_bin_error : list Z -> M (net S) unit;
  read_into_chunked_item : M (net S) (Z * bool);
  build_udp_headers : M (net S) Z;
  transmit : M (net S) transmit_result }.

Definition byte_nl : Z := 10.
Definition byte_cr : Z := 13.
Definition byte_sp : Z := 32.
Definition PROTOCOL_BINARY_REQ : Z := 128.

Section machine.
Context {S : Type} {B : Backend S} {H : Handlers S} (cfg : conn_cfg).
Abbreviation Mn := (M (net S)).
Abbreviation add_iov := (add_iov cfg).
Abbreviation add_msghdr := (add_msghdr cfg).
Abbreviation out_string := (out_string cfg).

Definition out_of_memory (ascii_error : list Z) : Mn unit :=
  p ← getc c_protocol;
  let error_prefix := lit "SERVER_ERROR " in
  if decide (p = binary_prot) then
    write_bin_error (if decide (take (length error_prefix) ascii_error = error_prefix)
                     then drop (length error_prefix) ascii_error else ascii_error)
  else out_string ascii_error.

(** ** Reading *)

Definition sock_read (n : Z) : Mn rd_result :=
  ev ← gets (fun s => List.hd RdAgain (reads s));
  match ev with
  | RdData b bs =>
      let got := take (Z.to_nat n) (b :: bs) in
      if decide (got = []) then mret GotEof
      else
        modify (fun s => s <| reads := match drop (Z.to_nat n) (b :: bs) with
                                       | [] => tl (reads s) | b :: bs => RdData b bs :: tl (reads s) end |>
          <| received ::= fun l => l ++ got |> <| bytes_read ::= fun x => u64 (x + Z.of_nat (length got)) |>);;
        mret (GotBytes got)
  | RdAgain => modify (fun s => s <| reads ::= @tl rd_event |>);; mret GotAgain
  | RdEof => mret GotEof
  | RdErr => modify (fun s => s <| reads ::= @tl rd_event |>);; mret GotErr
  end.

(** The unread part of the read buffer. *)
Definition unread (c : conn) : list Z := slice (rbuf c) (Z.to_nat (rcurr c)) (Z.to_nat (rcurr c + rbytes c)).

(** if (c->rcurr != c->rbuf) { memmove(...); c->rcurr = c->rbuf; } *)
Definition move_down (c : conn) : conn :=
  if decide (rcurr c = 0) then c
  else c <| rbuf := if decide (rbytes c = 0) then rbuf c else write_bytes (rbuf c) 0 (unread c) |> <| rcurr := 0 |>.

(** rsize is an int: what doubles to 2^31 is asked for as a negative size, and no
    realloc gives that. *)
Definition grow_rbuf : Mn bool :=
  ok ← realloc;
  fits ← getc (fun c => bool_decide (rsize c * 2 < 2 ^ 31));
  if ok && fits then
    setc (fun c => c <| rbuf ::= fun b => resize (Z.to_nat (rsize c * 2)) 0 b |> <| rcurr := 0 |> <| rsize := rsize c * 2 |>);;
    mret true
  else
    malloc_failed;;
    u ← getc unread;
    setc (fun c => c <| rbytes := 0 |>);;
    out_of_memory (lit "SERVER_ERROR out of memory reading request");;
    setc (fun c => c <| write_and_go := conn_closing |>);;
    take_then (SDrop u);;
    mret false.

Fixpoint read_loop (fuel : nat) (gotdata : try_read_result) (num_allocs : Z) : Mn try_read_result :=
  match fuel with
  | O => nofuel
  | Datatypes.S fuel =>
      c ← getc id;
      let full := bool_decide (rsize c <= rbytes c) in
      if full && bool_decide (num_allocs = 4) then mret gotdata
      else
        ok ← (if full then grow_rbuf else mret true);
        if negb ok then mret READ_MEMORY_ERROR
        else
          avail ← getc (fun c => rsize c - rbytes c);
          res ← sock_read avail;
          match res with
          | GotBytes bs =>
              setc (fun c => c <| rbuf ::= fun b => write_bytes b (Z.to_nat (rbytes c)) bs |>
                               <| rbytes := rbytes c + Z.of_nat (length bs) |>);;
              if decide (Z.of_nat (length bs) = avail)
              then read_loop fuel READ_DATA_RECEIVED (if full then num_allocs + 1 else num_allocs)
              else mret READ_DATA_RECEIVED
          | GotEof => mret READ_ERROR
          | GotAgain => mret gotdata
          | GotErr => mret READ_ERROR
          end
  end.

(** The number of bytes the socket is going to deliver bounds the rounds. *)
Fixpoint pending_bytes (l : list rd_event) : nat :=
  match l with [] => 0 | RdData _ bs :: l => 1 + length bs + pending_bytes l | _ :: l => pending_bytes l end.

Definition try_read_network : Mn try_read_result :=
  setc move_down;;
  n ← gets (fun s => pending_bytes (reads s));
  read_loop (Datatypes.S n) READ_NO_DATA_RECEIVED 0.

(** recvfrom writes the length of the sender's address; when it fails the size it
    was given, that of a struct sockaddr_in6, stays. *)
Definition sizeof_request_addr : Z := 28.
Definition try_read_udp : Mn try_read_result :=
  '(addr_size, d) ← gets (fun s => List.hd (sizeof_request_addr, []) (datagrams s));
  modify (fun s => s <| datagrams ::= @tl (Z * list Z) |>);;
  setc (fun c => c <| request_addr_size := addr_size |>);;
  sz ← getc rsize;
  let buf := take (Z.to_nat sz) d in
  let res := Z.of_nat (length buf) in
  if decide (0 < res) then
    setc (fun c => c <| rbuf ::= fun b => write_bytes b 0 buf |>);;
    modify (fun s => s <| bytes_read ::= fun x => u64 (x + res) |>);;
    b ← getc rbuf;
    setc (fun c => c <| request_id := byte b 0 * 256 + byte b 1 |>);;
    if decide (byte b 4 <> 0 \/ byte b 5 <> 1) then
      out_string (lit "SERVER_ERROR multi-packet request not supported");;
      mret READ_NO_DATA_RECEIVED
    else
      (* the code subtracts 0, not 8, from res before it moves the data down *)
      setc (fun c => c <| rbuf ::= fun b => write_bytes b 0 (slice b 8 (8 + length buf)) |>
        <| rbytes := res |> <| rcurr := 0 |>);;
      mret READ_DATA_RECEIVED
  else mret READ_NO_DATA_RECEIVED.

(** ** Finding a command *)

(** memchr for a newline. *)
Fixpoint find_nl (l : list Z) : option nat :=
  match l with
  | [] => None
  | b :: l => if decide (b = byte_nl) then Some 0%nat else Datatypes.S <$> find_nl l
  end.

(** How far the loop that skips blanks goes. *)
Fixpoint skip_spaces (l : list Z) : nat :=
  match l with b :: l => if decide (b = byte_sp) then Datatypes.S (skip_spaces l) else 0 | [] => 0 end.

(** A long line without an end is kept only if it looks like a multiget. *)
Definition looks_like_get (l : list Z) : bool :=
  let n := skip_spaces l in
  negb (bool_decide (100 < Z.of_nat n)) &&
  (bool_decide (take 4 (drop n l) = lit "get ") || bool_decide (take 5 (drop n l) = lit "gets ")).

(** The line before the newline, less a carriage return unless nothing else is there. *)
Definition strip_cr (raw : list Z) : list Z :=
  let k := length raw in
  if decide ((1 < k)%nat /\ nth (k - 1) raw 0 = byte_cr) then take (k - 1) raw else raw.

Definition be (l : list Z) : Z := foldl (fun x b => x * 256 + b) 0 l.
Definition parse_header (l : list Z) : bin_header :=
  BinHeader (byte l 0) (byte l 1) (be (slice l 2 4)) (byte l 4) (byte l 5) (le16 l 6) (be (slice l 8 12)) (le32 l 12) (be (slice l 16 24)).

Definition try_read_binary : Mn Z :=
  c ← getc id;
  if decide (rbytes c < 24) then mret 0
  else
    let h := parse_header (drop (Z.to_nat (rcurr c)) (rbuf c)) in
    setc (fun c => c <| binary_header := h |>);;
    if decide (magic h <> PROTOCOL_BINARY_REQ) then conn_set_state conn_closing;; mret (-1)
    else
      setc (fun c => c <| msgcurr := 0 |> <| msgused := 0 |> <| iovused := 0 |>);;
      r ← add_msghdr;
      if decide (r <> 0) then out_of_memory (lit "SERVER_ERROR Out of memory allocating headers");; mret 0
      else
        setc (fun c => c <| c_cmd := opcode h |> <| c_keylen := h_keylen h |> <| c_opaque := h_opaque h |> <| c_cas := 0 |>);;
        dispatch_bin_command;;
        setc (fun c => c <| rbytes := rbytes c - 24 |> <| rcurr := rcurr c + 24 |>);;
        mret 1.

Definition try_read_ascii : Mn Z :=
  c ← getc id;
  if decide (rbytes c = 0) then mret 0
  else
    match find_nl (unread c) with
    | None =>
        if bool_decide (1024 < rbytes c) && negb (looks_like_get (drop (Z.to_nat (rcurr c)) (rbuf c)))
        then conn_set_state conn_closing;; mret 1
        else mret 0
    | Some k =>
        let raw := take k (unread c) in
        let cont := rcurr c + Z.of_nat (k + 1) in
        setc (fun c => c <| rbuf ::= fun b => write_bytes b (Z.to_nat (rcurr c) + length (strip_cr raw)) [0] |>);;
        massert (bool_decide (cont <= rcurr c + rbytes c));;
        t ← gets now;
        setc (fun c => c <| c_last_cmd_time := t |>);;
        process_command (strip_cr raw);;
        take_then (SLine raw);;
        setc (fun c => c <| rbytes := rbytes c - (cont - rcurr c) |> <| rcurr := cont |>);;
        c ← getc id;
        massert (bool_decide (rcurr c <= rsize c));;
        mret 1
    end.

Definition try_read_command : Mn Z :=
  c ← getc id;
  massert (bool_decide (rcurr c <= rsize c));;
  massert (bool_decide (0 < rbytes c));;
  (if decide (c_protocol c = negotiating_prot \/ c_transport c = udp_transport) then
     setc (fun c => c <| c_protocol := if decide (byte (rbuf c) 0 = PROTOCOL_BINARY_REQ) then binary_prot else ascii_prot |>)
   else mret tt);;
  p ← getc c_protocol;
  if decide (p = binary_prot) then try_read_binary else try_read_ascii.

Definition complete_nread : Mn unit :=
  p ← getc c_protocol;
  massert (bool_decide (p = ascii_prot \/ p = binary_prot));;
  if decide (p = ascii_prot) then complete_nread_ascii else complete_nread_binary.

(** ** The states *)

(** Each handler runs one case of the switch; [None]: stop is set, [Some nreqs]:
    the loop goes on with that many requests left. *)
Definition go (nreqs : Z) : Mn (option Z) := mret (Some nreqs).
Definition stop : Mn (option Z) := mret None.

Definition stay_or_close (flags nreqs : Z) : Mn (option Z) :=
  ok ← update_event flags;
  if (ok : bool) then stop else conn_set_state conn_closing;; go nreqs.

Definition on_listening (nreqs : Z) : Mn (option Z) :=
  a4 ← gets use_accept4;
  ev ← gets (fun s => List.hd AcAgain (accepts s));
  modify (fun s => s <| accepts ::= @tl accept_event |>);;
  match ev with
  | AcNosys => if (a4 : bool) then modify (fun s => s <| use_accept4 := false |>);; go nreqs else stop
  | AcAgain | AcErr => stop
  | AcMfile => log CallStopAccept;; stop
  | AcFd fd =>
      ok ← (if (a4 : bool) then mret true
            else (ok ← gets (fun s => List.hd true (fcntls s)); modify (fun s => s <| fcntls ::= @tl bool |>);; mret ok));
      if negb ok then log (CallClose fd);; go nreqs
      else
        n ← gets (fun s => curr_conns s + reserved_fds s);
        if maxconns_fast cfg && bool_decide (maxconns cfg - 1 <= n) then
          log (CallReject fd);; log (CallClose fd);;
          modify (fun s => s <| rejected_conns ::= Z.succ |>);;
          stop
        else
          tr ← getc c_transport;
          log (CallDispatch fd conn_new_cmd (DATA_BUFFER_SIZE cfg) tr);;
          stop
  end.

Definition on_waiting (nreqs : Z) : Mn (option Z) :=
  ok ← update_event (EV_READ cfg + EV_PERSIST cfg);
  if negb ok then conn_set_state conn_closing;; go nreqs
  else conn_set_state conn_read;; stop.

Definition on_read (nreqs : Z) : Mn (option Z) :=
  udp ← getc (fun c => IS_UDP (c_transport c));
  res ← (if (udp : bool) then try_read_udp else try_read_network);
  match res with
  | READ_NO_DATA_RECEIVED => conn_set_state conn_waiting
  | READ_DATA_RECEIVED => conn_set_state conn_parse_cmd
  | READ_ERROR => conn_set_state conn_closing
  | READ_MEMORY_ERROR => mret tt
  end;;
  go nreqs.

Definition on_parse_cmd (nreqs : Z) : Mn (option Z) :=
  r ← try_read_command;
  (if decide (r = 0) then conn_set_state conn_waiting else mret tt);;
  go nreqs.

Definition on_new_cmd (nreqs : Z) : Mn (option Z) :=
  let nreqs := nreqs - 1 in
  if decide (0 <= nreqs) then reset_cmd_handler cfg;; go nreqs
  else
    modify (fun s => s <| conn_yields ::= fun x => u64 (x + 1) |>);;
    n ← getc rbytes;
    if decide (0 < n) then stay_or_close (EV_WRITE cfg + EV_PERSIST cfg) nreqs else stop.

(** memmove(c->ritem, bs, |bs|) *)
Definition write_ritem (bs : list Z) : Mn unit :=
  p ← getc ritem;
  match base p with
  | LItem it => with_back (fun b => Ok (item_write it (off p) bs b))
  | LRbuf => setc (fun c => c <| rbuf ::= fun b => write_bytes b (Z.to_nat (off p)) bs |>)
  | _ => massert false
  end.

(** A value in a plain item: first the bytes already read with the command, then
    the socket; [None] when the case is left. *)
Definition nread_leftover : Mn unit :=
  c ← getc id;
  let tocopy := Z.min (rbytes c) (rlbytes c) in
  let bs := take (Z.to_nat tocopy) (unread c) in
  (if decide (ritem c = Ptr LRbuf (rcurr c)) then mret tt else write_ritem bs);;
  take_seg (SValue bs);;
  setc (fun c => c <| ritem ::= fun p => padd p tocopy |> <| rlbytes := rlbytes c - tocopy |>
                   <| rcurr := rcurr c + tocopy |> <| rbytes := rbytes c - tocopy |>).

Definition nread_socket : Mn rd_result :=
  n ← getc rlbytes;
  res ← sock_read n;
  match res with
  | GotBytes bs =>
      write_ritem bs;;
      take_seg (SValue bs);;
      let k := Z.of_nat (length bs) in
      setc (fun c => c <| rcurr := if decide (ritem c = Ptr LRbuf (rcurr c)) then rcurr c + k else rcurr c |>
                       <| ritem ::= fun p => padd p k |> <| rlbytes := rlbytes c - k |>)
  | _ => mret tt
  end;;
  mret res.

(** What the state does with a read that brought nothing. *)
Definition no_bytes (res : rd_result) (nreqs : Z) : Mn (option Z) :=
  match res with
  | GotAgain => stay_or_close (EV_READ cfg + EV_PERSIST cfg) nreqs
  | _ => conn_set_state conn_closing;; go nreqs
  end.

(** The bytes read_into_chunked_item took: from the buffer, then from the socket. *)
Definition take_chunked (c : conn) (seen : nat) : Mn unit :=
  s ← gets id;
  take_seg (SValue (take (Z.to_nat (rlbytes c - rlbytes (cn s))) (unread c ++ drop seen (received s)))).

Definition on_nread (nreqs : Z) : Mn (option Z) :=
  c ← getc id;
  if decide (rlbytes c = 0) then complete_nread;; take_then SDone;; go nreqs
  else if decide (rlbytes c < 0) then conn_set_state conn_closing;; go nreqs
  else
    b ← gets back;
    if bool_decide (c_item c = 0) || negb (item_chunked b (c_item c)) then
      when (bool_decide (0 < rbytes c)) nread_leftover;;
      left ← getc rlbytes;
      if bool_decide (0 < rbytes c) && bool_decide (left = 0) then go nreqs
      else
        res ← nread_socket;
        match res with GotBytes _ => go nreqs | _ => no_bytes res nreqs end
    else
      seen ← gets (fun s => length (received s));
      '(res, again) ← read_into_chunked_item;
      take_chunked c seen;;
      if decide (0 < res) then go nreqs
      else if decide (res = 0) then no_bytes GotEof nreqs
      else if bool_decide (res = -1) && again then no_bytes GotAgain nreqs
      else if decide (res = -2) then
        out_of_memory (lit "SERVER_ERROR Out of memory during read");;
        setc (fun c => c <| sbytes := rlbytes c |> <| write_and_go := conn_swallow |>);;
        take_then SStop;;
        go nreqs
      else no_bytes GotErr nreqs.

Definition on_swallow (nreqs : Z) : Mn (option Z) :=
  c ← getc id;
  if decide (sbytes c <= 0) then conn_set_state conn_new_cmd;; go nreqs
  else if decide (0 < rbytes c) then
    let tocopy := Z.min (rbytes c) (sbytes c) in
    take_seg (SSkip (take (Z.to_nat tocopy) (unread c)));;
    setc (fun c => c <| sbytes := sbytes c - tocopy |> <| rcurr := rcurr c + tocopy |> <| rbytes := rbytes c - tocopy |>);;
    go nreqs
  else
    res ← sock_read (Z.min (rsize c) (sbytes c));
    match res with
    | GotBytes bs =>
        setc (fun c => c <| rbuf ::= fun b => write_bytes b 0 bs |>);;
        take_seg (SSkip bs);;
        setc (fun c => c <| sbytes := sbytes c - Z.of_nat (length bs) |>);;
        go nreqs
    | _ => no_bytes res nreqs
    end.

Definition on_mwrite (nreqs : Z) : Mn (option Z) :=
  c ← getc id;
  r ← (if IS_UDP (c_transport c) && bool_decide (msgcurr c = 0) then build_udp_headers else mret 0);
  if decide (r <> 0) then conn_set_state conn_closing;; go nreqs
  else
    res ← transmit;
    match res with
    | TRANSMIT_COMPLETE =>
        c ← getc id;
        (if decide (c_state c = conn_mwrite) then
           conn_release_items;;
           conn_set_state (if decide (c_protocol c = binary_prot) then write_and_go c else conn_new_cmd)
         else if decide (c_state c = conn_write) then
           setc (fun c => c <| write_and_free_buf := None |>);;
           conn_set_state (write_and_go c)
         else conn_set_state conn_closing);;
        go nreqs
    | TRANSMIT_INCOMPLETE | TRANSMIT_HEAD_ERROR => go nreqs
    | TRANSMIT_SOFT_ERROR => stop
    end.

Definition on_write (nreqs : Z) : Mn (option Z) :=
  c ← getc id;
  r ← (if bool_decide (iovused c = 0) || (IS_UDP (c_transport c) && bool_decide (iovused c = 1))
       then add_iov (wcurr c) (wbytes c) else mret 0);
  if decide (r <> 0) then conn_set_state conn_closing;; go nreqs
  else on_mwrite nreqs.

Definition on_closing : Mn (option Z) :=
  udp ← getc (fun c => IS_UDP (c_transport c));
  (if (udp : bool) then conn_cleanup else conn_close);;
  stop.

(** One round of the loop. *)
Definition machine_step (nreqs : Z) : Mn (option Z) :=
  st ← getc c_state;
  match st with
  | conn_listening => on_listening nreqs
  | conn_waiting => on_waiting nreqs
  | conn_read => on_read nreqs
  | conn_parse_cmd => on_parse_cmd nreqs
  | conn_new_cmd => on_new_cmd nreqs
  | conn_nread => on_nread nreqs
  | conn_swallow => on_swallow nreqs
  | conn_write => on_write nreqs
  | conn_mwrite => on_mwrite nreqs
  | conn_closing => on_closing
  | conn_closed => massert false;; stop
  | conn_watch => stop
  | conn_max_state => massert false;; stop
  end.

Fixpoint machine_loop (fuel : nat) (nreqs : Z) : Mn unit :=
  match fuel with
  | O => nofuel
  | Datatypes.S fuel =>
      r ← machine_step nreqs;
      match r with None => mret tt | Some nreqs => machine_loop fuel nreqs end
  end.
Definition drive_machine (fuel : nat) : Mn unit := machine_loop fuel (reqs_per_event cfg).
End machine.

(** ** The read buffer *)

Record buf_ok (c : conn) : Prop := {
  bo_size : Z.of_nat (length (rbuf c)) = rsize c;
  bo_curr : 0 <= rcurr c;
  bo_bytes : 0 <= rbytes c;
  bo_fits : rcurr c + rbytes c <= rsize c;
  bo_pos : 0 < rsize c }.

(** The fields of the read buffer, the protocol and the transport: what the
    handlers leave alone. *)
Definition input_of (c : conn) : list Z * Z * Z * Z * protocol * network_transport :=
  (rbuf c, rcurr c, rsize c, rbytes c, c_protocol c, c_transport c).

Lemma input_of_unread c c' : input_of c = input_of c' -> unread c = unread c'.
Proof. unfold input_of, unread. by intros [= -> -> _ -> _ _]. Qed.
Lemma input_of_ok c c' : input_of c = input_of c' -> buf_ok c -> buf_ok c'.
Proof. unfold input_of. intros [= E1 E2 E3 E4 _ _] [? ? ? ? ?]. split; rewrite <- ?E1, <- ?E2, <- ?E3, <- ?E4; done. Qed.

Lemma unread_length c : buf_ok c -> Z.of_nat (length (unread c)) = rbytes c.
Proof. intros [? ? ? ? ?]. unfold unread. rewrite slice_length; lia. Qed.

(** Taking [k] bytes from the front. *)
Lemma unread_advance c k : buf_ok c -> 0 <= k <= rbytes c ->
  unread (c <| rcurr := rcurr c + k |> <| rbytes := rbytes c - k |>) = drop (Z.to_nat k) (unread c).
Proof.
  intros [? ? ? ? ?] Hk. unfold unread. simpl. unfold slice. rewrite skipn_firstn_comm, drop_drop.
  f_equal; [lia|]. f_equal. lia.
Qed.

(** A byte written into what is then skipped. *)
Lemma write_skipped c j k bs : buf_ok c -> (j + length bs <= k)%nat -> Z.of_nat k <= rbytes c ->
  let c' := c <| rbuf ::= fun b => write_bytes b (Z.to_nat (rcurr c) + j) bs |> in
  buf_ok c' /\ drop k (unread c') = drop k (unread c).
Proof.
  intros [? ? ? ? ?] Hj Hk c'. split; [split; simpl; try rewrite write_bytes_length; lia|].
  unfold unread. simpl. unfold slice at 1 2. rewrite !skipn_firstn_comm, !drop_drop.
  pose proof (slice_write_after (rbuf c) (Z.to_nat (rcurr c) + j) bs (Z.to_nat (rcurr c) + k) (Z.to_nat (rcurr c + rbytes c)) ltac:(lia) ltac:(lia)) as E.
  unfold slice in E.
  by replace (Z.to_nat (rcurr c + rbytes c) - (Z.to_nat (rcurr c) + k))%nat with (Z.to_nat (rcurr c + rbytes c) - Z.to_nat (rcurr c) - k)%nat in E by lia.
Qed.

Lemma slice_write_front (l bs : list Z) : (length bs <= length l)%nat -> slice (write_bytes l 0 bs) 0 (length bs) = bs.
Proof. intros. by apply (slice_write_same l 0 bs); lia. Qed.

(** Moving the unread bytes to the front, growing the buffer, cutting it. *)
Lemma move_down_ok c : buf_ok c -> buf_ok (move_down c) /\ unread (move_down c) = unread c /\ rcurr (move_down c) = 0 /\
  rbytes (move_down c) = rbytes c /\ rsize (move_down c) = rsize c.
Proof.
  intros Ok. pose proof (unread_length c Ok) as Hu. destruct Ok as [? ? ? ? ?]. unfold move_down.
  destruct (decide (rcurr c = 0)) as [E|E]; [done|]. destruct (decide (rbytes c = 0)) as [E0|E0]; simpl.
  - split; [split; simpl; lia|]. split; [|done]. unfold unread. simpl. rewrite E0, !Z.add_0_r. by rewrite !slice_nil.
  - split; [split; simpl; try lia; rewrite write_bytes_length; lia|]. split; [|done].
    unfold unread at 1. simpl. change (Z.to_nat 0) with 0%nat. rewrite Z.add_0_l.
    replace (Z.to_nat (rbytes c)) with (length (unread c)) by lia. apply slice_write_front. lia.
Qed.

Lemma slice_resize (l : list Z) n b : (b <= length l)%nat -> (b <= n)%nat -> slice (resize n 0 l) 0 b = slice l 0 b.
Proof.
  intros. unfold slice. rewrite !drop_0, Nat.sub_0_r. destruct (decide (n <= length l)%nat).
  - rewrite resize_le, take_take by done. f_equal. lia.
  - rewrite resize_ge by lia. by rewrite take_app_le.
Qed.

(** Appending what was read behind the unread bytes. *)
Lemma append_ok c bs : buf_ok c -> rcurr c = 0 -> rbytes c + Z.of_nat (length bs) <= rsize c ->
  let c' := c <| rbuf ::= fun b => write_bytes b (Z.to_nat (rbytes c)) bs |> <| rbytes := rbytes c + Z.of_nat (length bs) |> in
  buf_ok c' /\ unread c' = unread c ++ bs.
Proof.
  intros Ok E Hfit c'. pose proof (unread_length c Ok) as Hu. destruct Ok as [? ? ? ? ?]. split.
  - split; simpl; try lia. rewrite write_bytes_length; lia.
  - unfold unread. simpl. rewrite E. rewrite <- (slice_app _ _ (Z.to_nat (0 + rbytes c))) by lia.
    rewrite slice_write_before by lia. f_equal.
    replace (Z.to_nat (0 + rbytes c)) with (Z.to_nat (rbytes c)) by lia.
    replace (Z.to_nat (0 + (rbytes c + Z.of_nat (length bs)))) with (Z.to_nat (rbytes c) + length bs)%nat by lia.
    apply slice_write_same. lia.
Qed.

(** ** Lines *)

Lemma find_nl_spec l k : find_nl l = Some k -> (k < length l)%nat /\ byte_nl ∉ take k l /\ l = take k l ++ byte_nl :: drop (k + 1) l.
Proof.
  revert k. induction l as [|b l IH]; simpl; intros k E; [done|]. case_decide as Eb.
  - injection E as <-. subst b. split; [simpl; lia|]. split; [apply not_elem_of_nil|done].
  - destruct (find_nl l) as [j|]; [|done]. injection E as <-. destruct (IH j eq_refl) as (? & Hn & El).
    split; [lia|]. split; [intros [E|H']%elem_of_cons; [by apply Eb|by apply Hn]|]. simpl. f_equal. exact El.
Qed.

Lemma take_line (l : list Z) k : find_nl l = Some k -> take (k + 1) l = take k l ++ [byte_nl].
Proof.
  intros E. apply find_nl_spec in E as (Hk & _ & E). rewrite E at 1. rewrite take_app, length_take.
  rewrite take_take. rewrite Nat.min_r by lia. by replace (k + 1 - Nat.min k (length l))%nat with 1%nat by lia.
Qed.
Lemma strip_cr_length raw : (length (strip_cr raw) <= length raw)%nat.
Proof. unfold strip_cr. case_decide; [rewrite length_take; lia|done]. Qed.

(** ** The specification: how a stream is cut into requests *)

Definition seg_bytes (x : seg) : list Z :=
  match x with
  | SLine raw _ => raw ++ [byte_nl]
  | SValue bs => bs
  | SDone _ | SStop _ => []
  | SSkip bs => bs
  | SDrop bs _ => bs
  end.

(** [framed l m]: the pieces [l] are those of a stream read by a connection whose
    commands chose the modes recorded in [l], and [m] says what comes next. *)
Inductive framed : list seg -> mode -> Prop :=
| framed_start : framed [] MLine
| framed_line l raw m : framed l MLine -> byte_nl ∉ raw -> framed (l ++ [SLine raw m]) m
| framed_value l n bs : framed l (MValue n) -> Z.of_nat (length bs) <= n ->
    framed (l ++ [SValue bs]) (MValue (n - Z.of_nat (length bs)))
| framed_done l m : framed l (MValue 0) -> framed (l ++ [SDone m]) m
| framed_skip l n bs : framed l (MSkip n) -> Z.of_nat (length bs) <= n ->
    framed (l ++ [SSkip bs]) (MSkip (n - Z.of_nat (length bs)))
| framed_skipped l n : framed l (MSkip n) -> n <= 0 -> framed l MLine
(* no memory while a value is read: the rest of it is to be thrown away, but
   under noreply out_string leaves the connection in conn_new_cmd *)
| framed_stop l n m : framed l (MValue n) -> m = MSkip n \/ m = MLine -> framed (l ++ [SStop m]) m
(* no memory for the read buffer: what it holds is dropped *)
| framed_drop l bs m : framed l MLine -> framed (l ++ [SDrop bs m]) m
| framed_dead l m : framed l m -> framed l MDead.

(** ** What is asked of the handlers

    They may change everything but the read side of the connection; [P] is what
    is known when one of them aborts. *)

Definition same_input {S} (s s' : net S) : Prop :=
  input_of (cn s') = input_of (cn s) /\ received s' = received s /\ taken s' = taken s /\ reads s' = reads s.

(** The states a command or the end of a value leaves a connection in, and where
    a connection that writes a simple answer goes after it. *)
Definition go_state (st : conn_states) : Prop :=
  match st with conn_new_cmd | conn_swallow | conn_closing => True | _ => False end.
Definition in_item (p : ptr) : Prop := exists it, base p = LItem it.
Definition command_state (c : conn) : Prop :=
  match c_state c with
  | conn_new_cmd | conn_mwrite | conn_swallow | conn_closing | conn_watch => True
  | conn_nread => in_item (ritem c)
  | conn_write => go_state (write_and_go c)
  | _ => False
  end.

Class Lawful (S : Type) {B : Backend S} {H : Handlers S} (P : Prop) (unsent : net S -> nat) : Prop := {
  lw_process l (s : net S) : c_protocol (cn s) = ascii_prot -> c_transport (cn s) <> udp_transport ->
    runs P (process_command l) s (fun _ s' => same_input s s' /\ command_state (cn s'));
  lw_complete (s : net S) : c_protocol (cn s) = ascii_prot -> c_transport (cn s) <> udp_transport ->
    runs P complete_nread_ascii s (fun _ s' => same_input s s' /\ command_state (cn s') /\ c_state (cn s') <> conn_nread);
  (* transmit leaves the modes alone or closes; what it has not sent gets less *)
  lw_transmit (s : net S) : runs P transmit s (fun r s' => same_input s s' /\
    write_and_go (cn s') = write_and_go (cn s) /\ sbytes (cn s') = sbytes (cn s) /\
    match r with
    | TRANSMIT_HEAD_ERROR => c_state (cn s') = conn_closing
    | TRANSMIT_INCOMPLETE => c_state (cn s') = c_state (cn s) /\ iovused (cn s') = iovused (cn s) /\ (unsent s' < unsent s)%nat
    | _ => c_state (cn s') = c_state (cn s)
    end);
  (* read_into_chunked_item takes bytes from the buffer, then from the socket *)
  lw_chunked (s : net S) : buf_ok (cn s) -> 0 < rlbytes (cn s) ->
    runs P read_into_chunked_item s (fun r s' => exists bs got,
      unread (cn s) ++ got = bs ++ unread (cn s') /\ received s' = received s ++ got /\
      rlbytes (cn s') = rlbytes (cn s) - Z.of_nat (length bs) /\ Z.of_nat (length bs) <= rlbytes (cn s) /\
      (0 < r.1 -> bs <> []) /\
      taken s' = taken s /\ (pending_bytes (reads s') + length got = pending_bytes (reads s))%nat /\
      buf_ok (cn s') /\ c_state (cn s') = c_state (cn s) /\ (in_item (ritem (cn s)) -> in_item (ritem (cn s'))) /\
      c_protocol (cn s') = c_protocol (cn s) /\ c_transport (cn s') = c_transport (cn s));
  lw_remove it (b : S) : match item_remove it b with Ok _ => True | Abort => P | NoFuel => False end;
  lw_slabbed it (b : S) : item_slabbed b it = true -> P }.

(** A connection of the ASCII protocol whose history is that of its stream. *)
Record machine_ok {S} (s : net S) : Prop := {
  mo_tcp : c_transport (cn s) <> udp_transport;
  mo_ascii : c_protocol (cn s) = ascii_prot;
  mo_buf : buf_ok (cn s);
  mo_stream : received s = (taken s ≫= seg_bytes) ++ unread (cn s);
  mo_framed : framed (taken s) (mode_of (cn s));
  mo_parse : c_state (cn s) = conn_parse_cmd -> 0 < rbytes (cn s);
  mo_ritem : c_state (cn s) = conn_nread -> in_item (ritem (cn s));
  mo_go : c_state (cn s) = conn_write -> go_state (write_and_go (cn s)) }.
