(* ===== verification/Serve.v ===== *)
(** * A connection over its life

    The rounds of drive_machine keep the history of the stream framed and make
    progress, so the event handler returns; a small service runs it. *)

From S2P Require Import Prelude Decimal Dispatch Conn Machine.


(** ** The parts of a round *)

Section laws.
Context {S : Type} {B : Backend S} {H : Handlers S} (cfg : conn_cfg) (P : Prop) (unsent : net S -> nat) `{!Lawful S P unsent}.

(** What the read side keeps while the rest of the connection is worked on. *)
Record keeps (s s' : net S) : Prop := {
  kp_unread : unread (cn s') = unread (cn s);
  kp_buf : buf_ok (cn s) -> buf_ok (cn s');
  kp_rbytes : rbytes (cn s') = rbytes (cn s);
  kp_protocol : c_protocol (cn s') = c_protocol (cn s);
  kp_transport : c_transport (cn s') = c_transport (cn s);
  kp_received : received s' = received s;
  kp_taken : taken s' = taken s;
  kp_reads : reads s' = reads s }.

#[global] Instance keeps_refl : Reflexive keeps.
Proof. intros s. by split. Qed.
#[global] Instance keeps_trans : Transitive keeps.
Proof. intros s1 s2 s3 [] []. split; (congruence || auto). Qed.

Lemma same_input_keeps s s' : same_input s s' -> keeps s s'.
Proof.
  intros (E & ? & ? & ?). split; try done.
  - by apply input_of_unread.
  - by apply input_of_ok.
  - unfold input_of in E. congruence.
  - unfold input_of in E. congruence.
  - unfold input_of in E. congruence.
Qed.

Ltac rstep :=
  first [nstep | match goal with |- runs _ (go _) _ _ => unfold go | |- runs _ stop _ _ => unfold stop end].
Ltac rsteps := repeat (rstep; cbv beta zeta delta [id]).
(** [keeps s s'] of an explicit [s']. *)
Ltac keep := apply same_input_keeps; done.
Ltac ktrans K := etrans; [|exact K]; first [done|keep].
Ltac kthen K := etrans; [exact K|]; first [done|keep].
Ltac kdone := split; [keep|done].

Lemma set_state_spec st s : st <> conn_max_state ->
  runs P (conn_set_state st) s (fun _ s' => keeps s s' /\ cn s' = (cn s) <| c_state := st |> /\ same_input s s').
Proof.
  intros Hst. unfold conn_set_state. apply runs_bind, runs_massert; [by rewrite bool_decide_false|]. rsteps.
  apply runs_when; [|intros E; apply bool_decide_eq_false in E; split; [done|]; split; [|done]].
  - intros _. rsteps. kdone.
  - apply dec_stable in E. destruct s as [c]. destruct c. simpl in *. by subst.
Qed.

Lemma with_back_spec f s : (match f (back s) with Ok _ => True | Abort => P | NoFuel => False end) ->
  runs P (with_back f) s (fun _ s' => keeps s s' /\ cn s' = cn s).
Proof. unfold with_back, runs. by destruct (f (back s)). Qed.

Lemma tcp_false c : c_transport c <> udp_transport -> IS_UDP (c_transport c) = false.
Proof. intros. unfold IS_UDP. by apply bool_decide_false. Qed.

(** The modes depend on these fields only. *)
Definition mode_fields (c : conn) := (c_state c, write_and_go c, rlbytes c, sbytes c, ritem c).
Lemma mode_of_fields c c' : mode_fields c = mode_fields c' -> mode_of c = mode_of c'.
Proof. unfold mode_fields, mode_of. by intros [= -> -> -> -> _]. Qed.

#[global] Instance same_input_refl : Reflexive (@same_input S).
Proof. by intros s. Qed.
#[global] Instance same_input_trans : Transitive (@same_input S).
Proof. intros s1 s2 s3 (? & ? & ? & ?) (? & ? & ? & ?). split_and!; congruence. Qed.
Lemma same_input_transport (s s' : net S) : same_input s s' -> c_transport (cn s') = c_transport (cn s).
Proof. intros [E _]. unfold input_of in E. congruence. Qed.

Lemma grow_msglist_spec (s : net S) : runs P grow_msglist s (fun _ s' => same_input s s' /\ mode_fields (cn s') = mode_fields (cn s) /\ iovused (cn s') = iovused (cn s)).
Proof.
  unfold grow_msglist. rsteps. case_decide; rsteps; [|split; [done|done]]. destruct (List.hd mem_after _); rsteps; (split; done).
Qed.

Lemma add_msghdr_spec n (s : net S) : c_transport (cn s) <> udp_transport ->
  runs P (add_msghdr_n cfg (Datatypes.S n)) s (fun _ s' => same_input s s' /\ mode_fields (cn s') = mode_fields (cn s) /\ iovused (cn s') = iovused (cn s)).
Proof.
  intros Ht. simpl. apply runs_bind. eapply runs_mono; [apply grow_msglist_spec|]. intros ok s1 (K & E & U).
  destruct ok; [|by apply runs_ret]. unfold start_msg. rsteps. simpl.
  rewrite tcp_false by (by rewrite (same_input_transport _ _ K)). apply runs_ret. split; [kthen K|]. simpl. split; [exact E|exact U].
Qed.

Lemma ensure_iov_spec (s : net S) : runs P ensure_iov_space s (fun _ s' => same_input s s' /\ mode_fields (cn s') = mode_fields (cn s) /\ iovused (cn s') = iovused (cn s)).
Proof.
  unfold ensure_iov_space. rsteps. case_decide; rsteps; [|split; [done|done]]. destruct (List.hd mem_after _); rsteps; (split; done).
Qed.

Lemma add_iov_spec buf len (s : net S) : c_transport (cn s) <> udp_transport ->
  runs P (add_iov cfg buf len) s (fun r s' => same_input s s' /\ mode_fields (cn s') = mode_fields (cn s) /\
    (r = 0 -> iovused (cn s') = iovused (cn s) + 1)).
Proof.
  intros Ht. unfold Conn.add_iov. rsteps. rewrite tcp_false by done. rsteps.
  apply (runs_mono _ _ _ (fun _ s' => same_input s s' /\ mode_fields (cn s') = mode_fields (cn s) /\ iovused (cn s') = iovused (cn s))).
  - case_decide; [|by apply runs_ret]. apply runs_bind. eapply runs_mono; [by apply add_msghdr_spec|]. intros r s1 K. by apply runs_ret.
  - intros _ s1 (K1 & E1 & U1). apply runs_bind. eapply runs_mono; [apply ensure_iov_spec|]. intros r s2 (K2 & E2 & U2).
    assert (same_input s s2 /\ mode_fields (cn s2) = mode_fields (cn s)) as [K E] by (split; [by etrans|congruence]).
    case_decide; [by apply runs_ret|]. unfold push_iov. rsteps. split; [kthen K|]. split; [done|]. simpl. intros _. congruence.
Qed.

(** Where a simple answer leaves the connection. *)
Definition answered (c c' : conn) : Prop :=
  (c_state c' = conn_new_cmd \/ (c_state c' = conn_write /\ write_and_go c' = conn_new_cmd)) /\
  rlbytes c' = rlbytes c /\ sbytes c' = sbytes c.

Lemma out_string_spec str (s : net S) : c_transport (cn s) <> udp_transport ->
  runs P (out_string cfg str) s (fun _ s' => same_input s s' /\ answered (cn s) (cn s')).
Proof.
  intros Ht. unfold Conn.out_string. rsteps. destruct (noreply (cn s)).
  - rsteps. eapply runs_mono; [by apply set_state_spec|]. intros _ s' (_ & E & K). split; [ktrans K|].
    rewrite E. split; [by left|done].
  - rsteps. eapply runs_mono; [by apply add_msghdr_spec|]. intros r s1 (K1 & E1 & _). rsteps.
    eapply runs_mono; [by apply set_state_spec|]. intros _ s2 (_ & E2 & K2). rsteps.
    split; [transitivity s1; [ktrans K1|]; transitivity s2; [ktrans K2|done]|].
    unfold mode_fields in E1. simpl in E1. injection E1 as E1 _ E3 E4 _.
    split; [right; simpl; rewrite E2; done|]. simpl. rewrite E2. simpl. done.
Qed.

Lemma out_of_memory_spec str (s : net S) : c_transport (cn s) <> udp_transport -> c_protocol (cn s) = ascii_prot ->
  runs P (out_of_memory cfg str) s (fun _ s' => same_input s s' /\ answered (cn s) (cn s')).
Proof. intros Ht Hp. unfold out_of_memory. rsteps. rewrite Hp. rewrite decide_False by done. by apply out_string_spec. Qed.

Lemma answered_line c c' : answered c c' -> mode_of c' = MLine.
Proof. unfold mode_of. by intros [[-> |[-> ->]] _]. Qed.

(** Releasing items. *)
Lemma release_items_spec n s : runs P (release_items n) s (fun _ s' => keeps s s' /\ mode_fields (cn s') = mode_fields (cn s)).
Proof.
  revert s. induction n as [|n IH]; intros s; [by apply runs_ret|]. simpl. rsteps.
  destruct (item_slabbed (back s) _) eqn:E; [exact (lw_slabbed _ _ E)|]. apply runs_massert; [done|]. rsteps.
  eapply runs_mono; [apply with_back_spec, lw_remove|]. intros _ s1 [K E1]. rsteps.
  eapply runs_mono; [apply IH|]. intros _ s2 [K2 E2]. split; [transitivity s1; [exact K|ktrans K2]|]. rewrite E2. unfold mode_fields. simpl. by rewrite E1.
Qed.

Lemma release_suffixes_spec n s : runs P (release_suffixes n) s (fun _ s' => keeps s s' /\ mode_fields (cn s') = mode_fields (cn s)).
Proof.
  revert s. induction n as [|n IH]; intros s; [by apply runs_ret|]. simpl. rsteps.
  eapply runs_mono; [by apply with_back_spec|]. intros _ s1 [K E1]. rsteps.
  eapply runs_mono; [apply IH|]. intros _ s2 [K2 E2]. split; [transitivity s1; [exact K|ktrans K2]|]. rewrite E2. unfold mode_fields. simpl. by rewrite E1.
Qed.

Lemma release_item_spec s : runs P release_item s (fun _ s' => keeps s s' /\ mode_fields (cn s') = mode_fields (cn s)).
Proof.
  unfold release_item. rsteps. case_decide; [by apply runs_ret|]. rsteps.
  eapply runs_mono; [apply with_back_spec, lw_remove|]. intros _ s1 [K E1]. rsteps.
  split; [kthen K|]. unfold mode_fields. simpl. by rewrite E1.
Qed.

Lemma conn_release_items_spec s : runs P conn_release_items s (fun _ s' => keeps s s' /\ mode_fields (cn s') = mode_fields (cn s)).
Proof.
  unfold conn_release_items. apply runs_bind. eapply runs_mono; [apply release_item_spec|]. intros _ s1 [K1 E1]. rsteps.
  eapply runs_mono; [apply release_items_spec|]. intros _ s2 [K2 E2]. rsteps.
  eapply runs_mono; [apply release_suffixes_spec|]. intros _ s3 [K3 E3]. rsteps.
  split; [|unfold mode_fields in *; simpl; congruence]. transitivity s1; [done|]. transitivity s2; [done|]. kthen K3.
Qed.

Lemma conn_close_spec s : c_transport (cn s) <> udp_transport ->
  runs P conn_close s (fun _ s' => keeps s s' /\ c_state (cn s') = conn_closed).
Proof.
  intros Ht. unfold conn_close, conn_cleanup. rsteps.
  eapply runs_mono; [apply conn_release_items_spec|]. intros _ s1 [K1 E1]. rsteps. simpl.
  rewrite tcp_false by (by rewrite (kp_transport _ _ K1)). apply runs_when; [done|]. intros _. rsteps.
  eapply runs_mono; [by apply set_state_spec|]. intros _ s2 (K2 & E2 & _). rsteps.
  split; [transitivity s1; [ktrans K1|]; transitivity s2; [ktrans K2|keep]|simpl; by rewrite E2].
Qed.

(** ** What a round does *)

Definition runnable (c : conn) : Prop :=
  match c_state c with conn_listening | conn_closed | conn_max_state => False | _ => True end.

(** The bytes still to be taken, and how far a state is from the end of a request. *)
Definition todo (s : net S) : nat := (length (unread (cn s)) + pending_bytes (reads s))%nat.
Definition rank (c : conn) : nat :=
  match c_state c with
  | conn_read => 6 | conn_parse_cmd => 5 | conn_nread => 4 | conn_write | conn_mwrite => 3
  | conn_swallow => 2 | conn_new_cmd | conn_waiting => 1 | _ => 0
  end.
Definition unbuilt (c : conn) : nat := if decide (c_state c = conn_write /\ iovused c = 0) then 1 else 0.

Definition progress (n : Z) (s : net S) (n' : Z) (s' : net S) : Prop :=
  (Z.to_nat n' < Z.to_nat n)%nat \/
  (Z.to_nat n' = Z.to_nat n /\ ((todo s' < todo s)%nat \/
    (todo s' = todo s /\ ((rank (cn s') < rank (cn s))%nat \/
      (rank (cn s') = rank (cn s) /\ ((unbuilt (cn s') < unbuilt (cn s))%nat \/
        (unbuilt (cn s') = unbuilt (cn s) /\ (unsent s' < unsent s)%nat))))))).

Definition round_post (n : Z) (s : net S) (r : option Z) (s' : net S) : Prop :=
  machine_ok s' /\
  match r with
  | None => runnable (cn s') \/ c_state (cn s') = conn_closed
  | Some n' => runnable (cn s') /\ progress n s n' s'
  end.

Lemma ok_keeps s s' : machine_ok s -> keeps s s' -> framed (taken s) (mode_of (cn s')) ->
  (c_state (cn s') = conn_parse_cmd -> 0 < rbytes (cn s)) -> (c_state (cn s') = conn_nread -> in_item (ritem (cn s'))) ->
  (c_state (cn s') = conn_write -> go_state (write_and_go (cn s'))) -> machine_ok s'.
Proof.
  intros [Ht Ha Hb Hs Hf _ _ _] [] Hm Hp Hi Hg. split; rewrite ?kp_transport0, ?kp_protocol0, ?kp_taken0, ?kp_received0; auto.
  - by rewrite kp_unread0.
  - by rewrite kp_rbytes0.
Qed.

Lemma keeps_todo s s' : keeps s s' -> todo s' = todo s.
Proof. intros []. unfold todo. by rewrite kp_unread0, kp_reads0. Qed.

Lemma progress_rank n s s' : todo s' = todo s -> (rank (cn s') < rank (cn s))%nat -> progress n s n s'.
Proof. intros. right. split; [done|]. right. split; [done|]. by left. Qed.
Lemma progress_todo n s s' : (todo s' < todo s)%nat -> progress n s n s'.
Proof. intros. right. split; [done|]. by left. Qed.

(** A move to another state, of lower rank than the round began in. *)
Lemma move_from st (n : Z) s s1 s0 : machine_ok s1 -> keeps s1 s -> todo s1 = todo s0 ->
  runnable ((cn s) <| c_state := st |>) -> st <> conn_max_state -> st <> conn_nread ->
  framed (taken s1) (mode_of ((cn s) <| c_state := st |>)) ->
  (st = conn_parse_cmd -> 0 < rbytes (cn s1)) -> (st = conn_write -> go_state (write_and_go (cn s))) ->
  (rank ((cn s) <| c_state := st |>) < rank (cn s0))%nat ->
  runs P (conn_set_state st;; go n) s (round_post n s0).
Proof.
  intros Ok K Et Hr Hst Hnr Hf Hp Hg Hk. apply runs_bind. eapply runs_mono; [by apply set_state_spec|].
  intros _ s' (K' & E & _). rsteps. assert (keeps s1 s') as K2 by by transitivity s. split.
  - apply (ok_keeps s1); rewrite ?E; simpl; auto; done.
  - split; [by rewrite E|]. apply progress_rank; [|by rewrite E]. rewrite <- Et. by apply keeps_todo.
Qed.

Lemma move_to st (n : Z) s s0 : machine_ok s0 -> keeps s0 s -> runnable ((cn s) <| c_state := st |>) -> st <> conn_max_state -> st <> conn_nread ->
  framed (taken s0) (mode_of ((cn s) <| c_state := st |>)) ->
  (st = conn_parse_cmd -> 0 < rbytes (cn s0)) -> (st = conn_write -> go_state (write_and_go (cn s))) ->
  (rank ((cn s) <| c_state := st |>) < rank (cn s0))%nat ->
  runs P (conn_set_state st;; go n) s (round_post n s0).
Proof. intros Ok K. by apply (move_from st n s s0 s0). Qed.

(** Closing from any state of higher rank. *)
Lemma progress_le n s s' : (todo s' <= todo s)%nat -> (rank (cn s') < rank (cn s))%nat -> progress n s n s'.
Proof. intros. destruct (decide (todo s' = todo s)); [by apply progress_rank|apply progress_todo; lia]. Qed.

Lemma close_now (n : Z) s s1 s0 : machine_ok s1 -> keeps s1 s -> (todo s1 <= todo s0)%nat -> (0 < rank (cn s0))%nat ->
  runs P (conn_set_state conn_closing;; go n) s (round_post n s0).
Proof.
  intros Ok K Ht Hk. apply runs_bind. eapply runs_mono; [by apply set_state_spec|].
  intros _ s' (K' & E & _). rsteps. assert (keeps s1 s') as K2 by by transitivity s. split.
  - apply (ok_keeps s1); rewrite ?E; try done. eapply framed_dead, (mo_framed _ Ok).
  - split; [by rewrite E|]. apply progress_le; [by rewrite (keeps_todo _ _ K2)|by rewrite E].
Qed.

Lemma update_event_spec flags (s : net S) : runs P (update_event flags) s (fun _ s' => keeps s s' /\ mode_fields (cn s') = mode_fields (cn s)).
Proof.
  unfold update_event. rsteps. case_decide; rsteps; [kdone|]. destruct (negb _); rsteps; kdone.
Qed.

Lemma mode_fields_state c c' : mode_fields c = mode_fields c' -> c_state c = c_state c' /\ write_and_go c = write_and_go c' /\ ritem c = ritem c'.
Proof. unfold mode_fields. by intros [= -> -> _ _ ->]. Qed.

(** Nothing changed that matters, and the round ends. *)
Lemma stop_now n s0 s : machine_ok s0 -> runnable (cn s0) -> keeps s0 s -> mode_fields (cn s) = mode_fields (cn s0) ->
  round_post n s0 None s.
Proof.
  intros Ok Hr K E. pose proof (mode_fields_state _ _ E) as (E1 & E2 & E3). split.
  - apply (ok_keeps s0); [done|done| | | |]; rewrite ?E1, ?E2, ?E3.
    + rewrite (mode_of_fields _ _ E). apply Ok.
    + apply Ok.
    + apply Ok.
    + apply Ok.
  - left. unfold runnable. by rewrite E1.
Qed.

Lemma stay_or_close_spec flags n s0 s1 s : machine_ok s1 -> runnable (cn s1) -> (todo s1 <= todo s0)%nat ->
  (0 < rank (cn s0))%nat -> keeps s1 s -> mode_fields (cn s) = mode_fields (cn s1) ->
  runs P (stay_or_close flags n) s (round_post n s0).
Proof.
  intros Ok Hr Ht Hk K E. unfold stay_or_close. apply runs_bind. eapply runs_mono; [apply update_event_spec|].
  intros ok s2 [K1 E1]. assert (keeps s1 s2) as K2 by by transitivity s. destruct ok.
  - unfold stop. apply runs_ret, (stop_now n s1); [done|done|done|congruence].
  - by apply (close_now n s2 s1).
Qed.

Lemma on_waiting_spec n s : machine_ok s -> c_state (cn s) = conn_waiting -> runs P (on_waiting cfg n) s (round_post n s).
Proof.
  intros Ok Es. unfold on_waiting. apply runs_bind. eapply runs_mono; [apply update_event_spec|]. intros ok s1 [K E].
  assert (mode_of (cn s) = MLine) as Em by (unfold mode_of; by rewrite Es).
  destruct ok; simpl.
  - rsteps. eapply runs_mono; [by apply set_state_spec|]. intros _ s' (K' & E' & _). rsteps. split.
    + apply (ok_keeps s); [done|by transitivity s1| | | |]; rewrite ?E'; simpl; try done.
      unfold mode_of. simpl. rewrite <- Em. apply Ok.
    + left. by rewrite E'.
  - apply (close_now n s1 s s); [done|done|done|]. unfold rank. rewrite Es. lia.
Qed.

(** ** Reading *)

Definition got_of (r : rd_result) : list Z := match r with GotBytes bs => bs | _ => [] end.

Lemma sock_read_spec n (s : net S) : 0 < n -> runs P (sock_read n) s (fun r s' =>
  cn s' = cn s /\ received s' = received s ++ got_of r /\ taken s' = taken s /\
  (pending_bytes (reads s') + length (got_of r) = pending_bytes (reads s))%nat /\
  Z.of_nat (length (got_of r)) <= n /\ (forall bs, r = GotBytes bs -> bs <> [])).
Proof.
  intros Hn. unfold sock_read. rsteps. destruct (reads s) as [|[b bs| | |] rest] eqn:Er; simpl;
    try (rsteps; simpl; rewrite ?app_nil_r, ?Er; simpl; split_and!; auto; lia).
  destruct (Z.to_nat n) as [|k] eqn:Ek; [lia|]. simpl. rsteps.
  set (got := b :: take k bs). assert (length got <= Z.to_nat n)%nat by (unfold got; simpl; rewrite length_take; lia).
  split; [done|]. split; [done|]. split; [done|]. split; [|split; [simpl in *; lia|by intros ? [= <-]]].
  unfold got. simpl. rewrite Er. simpl. destruct (drop k bs) as [|b' bs'] eqn:Ed; simpl.
  - assert (length (drop k bs) = 0%nat) as Hd by by rewrite Ed. rewrite length_drop in Hd. rewrite length_take. lia.
  - assert (length (drop k bs) = Datatypes.S (length bs')) as Hd by by rewrite Ed. rewrite length_drop in Hd. rewrite length_take. lia.
Qed.

(** What read_loop leaves: [g] is what it read. *)
Definition read_more (s s' : net S) (g : list Z) : Prop :=
  unread (cn s') = unread (cn s) ++ g /\ received s' = received s ++ g /\ taken s' = taken s /\
  mode_fields (cn s') = mode_fields (cn s) /\ (pending_bytes (reads s') + length g = pending_bytes (reads s))%nat /\
  buf_ok (cn s') /\ c_protocol (cn s') = c_protocol (cn s) /\ c_transport (cn s') = c_transport (cn s).
(** ... when memory for the buffer ran out: everything unread is dropped. *)
Definition read_dropped (s s' : net S) (g : list Z) : Prop :=
  unread (cn s') = [] /\ received s' = received s ++ g /\
  taken s' = taken s ++ [SDrop (unread (cn s) ++ g) (mode_of (cn s'))] /\ unread (cn s) ++ g <> [] /\
  (c_state (cn s') = conn_new_cmd \/ c_state (cn s') = conn_write /\ write_and_go (cn s') = conn_closing) /\
  (pending_bytes (reads s') + length g = pending_bytes (reads s))%nat /\
  buf_ok (cn s') /\ c_protocol (cn s') = c_protocol (cn s) /\ c_transport (cn s') = c_transport (cn s).
Definition read_post (got : try_read_result) (s : net S) (r : try_read_result) (s' : net S) : Prop :=
  exists g, match r with
  | READ_MEMORY_ERROR => read_dropped s s' g
  | READ_DATA_RECEIVED => read_more s s' g /\ (got = READ_DATA_RECEIVED \/ g <> [])
  | _ => read_more s s' g
  end.

Lemma read_more_trans s1 s2 s3 g g' : read_more s1 s2 g -> read_more s2 s3 g' -> read_more s1 s3 (g ++ g').
Proof.
  intros (E1 & E2 & E3 & E4 & E5 & _ & E7 & E8) (F1 & F2 & F3 & F4 & F5 & F6 & F7 & F8). unfold read_more.
  rewrite F1, F2, F3, F4, F7, F8, E1, E2, <- !app_assoc, length_app. split_and!; try done. lia.
Qed.
Lemma read_more_dropped s1 s2 s3 g g' : read_more s1 s2 g -> read_dropped s2 s3 g' -> read_dropped s1 s3 (g ++ g').
Proof.
  intros (E1 & E2 & E3 & E4 & E5 & _ & E7 & E8) (F1 & F2 & F3 & F4 & F5 & F6 & F7 & F8 & F9). unfold read_dropped.
  rewrite F1, F2, F3, F8, F9, E2, E3, <- !app_assoc, length_app. rewrite E1, <- app_assoc in F4.
  rewrite E1, <- app_assoc. split_and!; try done. lia.
Qed.

Lemma grow_rbuf_spec (s : net S) : buf_ok (cn s) -> rcurr (cn s) = 0 -> rsize (cn s) <= rbytes (cn s) ->
  c_transport (cn s) <> udp_transport -> c_protocol (cn s) = ascii_prot ->
  runs P (grow_rbuf cfg) s (fun ok s' =>
    if (ok : bool) then read_more s s' [] /\ rcurr (cn s') = 0 /\ rbytes (cn s') < rsize (cn s') /\ reads s' = reads s
    else read_dropped s s' []).
Proof.
  intros Ok E0 Hf Ht Hp. pose proof (unread_length _ Ok) as Hu. destruct Ok as [? ? ? ? ?]. unfold grow_rbuf. rsteps.
  destruct (List.hd _ (reallocs s) && _).
  - rsteps. simpl. assert (Z.of_nat (length (resize (Z.to_nat (rsize (cn s) * 2)) 0 (rbuf (cn s)))) = rsize (cn s) * 2) as Hl
      by (rewrite length_resize; lia).
    split; [|split; [done|split; [lia|done]]]. unfold read_more. simpl. rewrite !app_nil_r, Nat.add_0_r.
    split; [|split_and!; try done; split; simpl; lia].
    unfold unread. simpl. rewrite E0. change (Z.to_nat 0) with 0%nat. apply slice_resize; lia.
  - rsteps. set (s1 := _ <| cn ::= _ |>). eapply runs_mono; [apply out_of_memory_spec; done|].
    intros _ s2 (I & A). pose proof (same_input_keeps _ _ I) as K. rsteps. unfold read_dropped. simpl.
    assert (unread (cn s2) = []) as Eu.
    { rewrite (kp_unread _ _ K). unfold s1, unread. simpl. rewrite Z.add_0_r. by rewrite slice_nil. }
    assert (buf_ok (cn s1)) as Ok1 by (split; simpl; lia).
    rewrite !app_nil_r, Nat.add_0_r, (kp_received _ _ K), (kp_taken _ _ K), (kp_reads _ _ K), (kp_protocol _ _ K), (kp_transport _ _ K).
    split; [exact Eu|]. do 2 (split; [done|]). split; [intros En; rewrite En in Hu; simpl in Hu; lia|].
    split; [destruct A as [[E|[E _]] _]; simpl; rewrite E; auto|]. split; [done|]. split; [|done].
    apply (kp_buf _ _ K) in Ok1. destruct Ok1. split; done.
Qed.

Lemma sock_append (s : net S) res s' : buf_ok (cn s) -> rcurr (cn s) = 0 ->
  cn s' = cn s -> received s' = received s ++ got_of res -> taken s' = taken s ->
  (pending_bytes (reads s') + length (got_of res) = pending_bytes (reads s))%nat ->
  rbytes (cn s) + Z.of_nat (length (got_of res)) <= rsize (cn s) ->
  let f := fun c => c <| rbuf ::= fun b => write_bytes b (Z.to_nat (rbytes c)) (got_of res) |>
                      <| rbytes := rbytes c + Z.of_nat (length (got_of res)) |> in
  read_more s (s' <| cn ::= f |>) (got_of res).
Proof.
  intros Ok E0 Ec Er Et Hp Hfit f. unfold read_more. simpl. rewrite Ec.
  destruct (append_ok (cn s) (got_of res) Ok E0 Hfit) as [Ok' Eu]. split_and!; done.
Qed.

Lemma read_loop_spec fuel got na (s : net S) : buf_ok (cn s) -> rcurr (cn s) = 0 ->
  c_transport (cn s) <> udp_transport -> c_protocol (cn s) = ascii_prot -> (pending_bytes (reads s) < fuel)%nat ->
  (got = READ_NO_DATA_RECEIVED \/ got = READ_DATA_RECEIVED) ->
  runs P (read_loop cfg fuel got na) s (read_post got s).
Proof.
  revert got na s. induction fuel as [|fuel IH]; intros got na s Ok E0 Ht Hp Hf Hg; [lia|]. simpl. rsteps.
  assert (read_more s s []) as Hrefl.
  { unfold read_more. rewrite !app_nil_r. split_and!; done. }
  assert (forall r, r = got -> read_post got s r s) as Hsame.
  { intros r ->. exists []. destruct Hg as [-> | ->]; [done|]. split; [done|by left]. }
  destruct (bool_decide (rsize (cn s) <= rbytes (cn s)) && bool_decide (na = 4)); [exact (Hsame got eq_refl)|].
  apply runs_bind. apply (runs_mono _ _ _ (fun ok s1 =>
    if (ok : bool) then read_more s s1 [] /\ rcurr (cn s1) = 0 /\ rbytes (cn s1) < rsize (cn s1) /\ reads s1 = reads s
    else read_dropped s s1 [])).
  { case_bool_decide; [by apply grow_rbuf_spec|]. apply runs_ret. split_and!; try done. lia. }
  intros ok s1 H1. destruct ok; simpl; [|apply runs_ret; by exists []].
  destruct H1 as (M1 & E1 & Hlt & Er1). assert (buf_ok (cn s1)) as Ok1 by apply M1. rsteps.
  eapply runs_mono; [apply sock_read_spec; simpl; lia|]. intros res s2 (Ec & Er & Et & Hpb & Hl & Hne). simpl in Hl.
  pose proof (sock_append s1 res s2 Ok1 E1 Ec Er Et Hpb ltac:(lia)) as M2.
  destruct res as [bs| | |]; simpl in *.
  - rsteps. specialize (Hne bs eq_refl). set (s3 := s2 <| cn ::= _ |>) in *.
    pose proof (read_more_trans _ _ _ _ _ M1 M2) as M3. simpl in M3.
    assert (length bs <> 0%nat) as Hbs by (destruct bs; done).
    case_decide.
    + eapply runs_mono.
      * apply IH; [apply M3|unfold s3; simpl; congruence| | | |by right].
        -- destruct M3 as (_ & _ & _ & _ & _ & _ & _ & ->). done.
        -- destruct M3 as (_ & _ & _ & _ & _ & _ & -> & _). done.
        -- unfold s3. simpl. rewrite Er1 in Hpb. lia.
      * intros r s4 [g Hr]. exists (bs ++ g). destruct r.
        -- destruct Hr as [Hr _]. split; [by eapply read_more_trans|]. right. destruct bs; done.
        -- by eapply read_more_trans.
        -- by eapply read_more_trans.
        -- by eapply read_more_dropped.
    + apply runs_ret. exists bs. split; [done|by right].
  - rsteps. exists []. assert (read_more s1 s2 []) as M3 by (unfold read_more; rewrite Ec; split_and!; try done; rewrite ?app_nil_r; auto; by rewrite app_nil_r in Er).
    by pose proof (read_more_trans _ _ _ _ _ M1 M3).
  - rsteps. exists []. assert (read_more s1 s2 []) as M3 by (unfold read_more; rewrite Ec; split_and!; try done; rewrite ?app_nil_r; auto; by rewrite app_nil_r in Er).
    pose proof (read_more_trans _ _ _ _ _ M1 M3) as M4. destruct Hg as [-> | ->]; [done|]. split; [done|by left].
  - rsteps. exists []. assert (read_more s1 s2 []) as M3 by (unfold read_more; rewrite Ec; split_and!; try done; rewrite ?app_nil_r; auto; by rewrite app_nil_r in Er).
    by pose proof (read_more_trans _ _ _ _ _ M1 M3).
Qed.

Lemma ok_read_more s s' g : machine_ok s -> read_more s s' g -> c_state (cn s) <> conn_parse_cmd -> machine_ok s' /\ todo s' = todo s.
Proof.
  intros [Ht Ha Hb Hs Hf Hp Hi Hg] (E1 & E2 & E3 & E4 & E5 & E6 & E7 & E8) Hst.
  pose proof (mode_fields_state _ _ E4) as (Est & Ego & Eri). split; [split|].
  - by rewrite E8.
  - by rewrite E7.
  - done.
  - by rewrite E1, E2, E3, Hs, app_assoc.
  - by rewrite E3, (mode_of_fields _ _ E4).
  - rewrite Est. intros E. by destruct Hst.
  - by rewrite Est, Eri.
  - by rewrite Est, Ego.
  - unfold todo. rewrite E1, length_app. lia.
Qed.

Lemma move_down_fields c : mode_fields (move_down c) = mode_fields c /\ c_protocol (move_down c) = c_protocol c /\
  c_transport (move_down c) = c_transport c.
Proof. unfold move_down. by destruct (decide (rcurr c = 0)). Qed.

Lemma try_read_network_spec s : machine_ok s -> runs P (try_read_network cfg) s (fun r s' =>
  read_post READ_NO_DATA_RECEIVED s r s').
Proof.
  intros [Ht Ha Hb Hs Hf Hp _ Hg]. unfold try_read_network. rsteps. set (s1 := s <| cn ::= _ |>).
  destruct (move_down_ok (cn s) Hb) as (Ok & Eu & E0 & _ & _). destruct (move_down_fields (cn s)) as (Em & Ep & Et).
  assert (read_more s s1 []) as M1.
  { unfold read_more, s1. simpl. rewrite Eu, Em, Ep, Et, !app_nil_r. split_and!; done. }
  eapply runs_mono.
  - apply read_loop_spec; unfold s1; simpl; try done; rewrite ?Et, ?Ep; try done; [lia|by left].
  - intros r s2 [g Hr]. exists g. destruct r.
    + destruct Hr as [Hr Hgr]. split; [by apply (read_more_trans _ _ _ _ _ M1 Hr)|done].
    + by apply (read_more_trans _ _ _ _ _ M1 Hr).
    + by apply (read_more_trans _ _ _ _ _ M1 Hr).
    + by apply (read_more_dropped _ _ _ _ _ M1 Hr).
Qed.

Lemma on_read_spec n s : machine_ok s -> c_state (cn s) = conn_read -> runs P (on_read cfg n) s (round_post n s).
Proof.
  intros Ok Es. unfold on_read. rsteps. rewrite tcp_false by apply Ok.
  assert (mode_of (cn s) = MLine) as Em by (unfold mode_of; by rewrite Es).
  assert (rank (cn s) = 6%nat) as Ek by (unfold rank; by rewrite Es).
  eapply runs_mono; [by apply try_read_network_spec|]. intros r s1 [g Hr].
  assert (read_more s s1 g -> forall st, st = conn_waiting \/ st = conn_closing \/ (st = conn_parse_cmd /\ g <> []) ->
    runs P (conn_set_state st;; go n) s1 (round_post n s)) as Hmove.
  { intros M st Hst. destruct (ok_read_more s s1 g Ok M) as [Ok1 Et1]; [by rewrite Es|].
    assert (c_state (cn s1) = conn_read) as Es1 by (rewrite <- Es; by apply mode_fields_state; apply M).
    assert (mode_of (cn s1) = MLine) as Em1 by (unfold mode_of; by rewrite Es1).
    pose proof (mo_framed _ Ok1) as F. rewrite Em1 in F.
    apply (move_from st n s1 s1 s Ok1); [done|done|..].
    - by destruct Hst as [->|[->|[-> _]]].
    - by destruct Hst as [->|[->|[-> _]]].
    - by destruct Hst as [->|[->|[-> _]]].
    - destruct Hst as [->|[->|[-> _]]]; unfold mode_of; simpl; [done|by eapply framed_dead|done].
    - intros ->. destruct Hst as [?|[?|[_ Hg]]]; [done|done|].
      pose proof (unread_length _ (mo_buf _ Ok1)) as Hl. rewrite (proj1 M), length_app in Hl. destruct g; [done|]. simpl in Hl. lia.
    - intros ->. by destruct Hst as [?|[?|[? _]]].
    - rewrite Ek. destruct Hst as [->|[->|[-> _]]]; unfold rank; simpl; lia. }
  destruct r; unfold go in *.
  - destruct Hr as [Hr [?|Hg]]; [done|]. apply Hmove; auto.
  - apply Hmove; auto.
  - apply Hmove; auto.
  - rsteps. destruct Hr as (E1 & E2 & E3 & Hne & Est & E5 & E6 & E7 & E8). pose proof Ok as [Ht Ha Hb Hs Hf _ _ _].
    rewrite Em in Hf. split.
    + split.
      * by rewrite E8.
      * by rewrite E7.
      * done.
      * rewrite E1, E2, E3, Hs, bind_app. simpl. by rewrite !app_nil_r, app_assoc.
      * rewrite E3. by apply framed_drop.
      * by destruct Est as [-> |[-> _]].
      * by destruct Est as [-> |[-> _]].
      * by destruct Est as [-> |[-> ->]].
    + split; [unfold runnable; by destruct Est as [-> |[-> _]]|]. apply progress_todo. unfold todo. rewrite E1. simpl.
      assert (length (unread (cn s) ++ g) <> 0%nat) as Hl by (by destruct (unread (cn s) ++ g)). rewrite length_app in Hl. lia.
Qed.

(** ** Commands *)

Lemma command_runnable c : command_state c -> runnable c.
Proof. unfold command_state, runnable. by destruct (c_state c). Qed.

(** The bytes of a segment leave the buffer; the mode was set before. *)
Lemma ok_advance (s l : net S) c x k : machine_ok s -> buf_ok c -> 0 <= k <= rbytes c ->
  drop (Z.to_nat k) (unread c) = drop (Z.to_nat k) (unread (cn s)) ->
  rbytes c = rbytes (cn s) -> c_protocol c = ascii_prot -> c_transport c <> udp_transport ->
  cn l = c <| rcurr := rcurr c + k |> <| rbytes := rbytes c - k |> ->
  taken l = taken s ++ [x] -> received l = received s -> reads l = reads s ->
  seg_bytes x = take (Z.to_nat k) (unread (cn s)) -> framed (taken s ++ [x]) (mode_of c) ->
  (c_state c = conn_parse_cmd -> k < rbytes c) -> (c_state c = conn_nread -> in_item (ritem c)) -> (c_state c = conn_write -> go_state (write_and_go c)) ->
  machine_ok l /\ todo l = (todo s - Z.to_nat k)%nat.
Proof.
  intros [Ht Ha Hb Hs Hf _ _ _] Hc Hk Ed Eb Ep Et Ec El Er Erd Ex HF HP HI HG.
  pose proof (unread_length _ Hb) as Hl. pose proof (unread_advance c k Hc Hk) as Eu.
  rewrite <- Ec, Ed in Eu. split; [split|].
  - by rewrite Ec.
  - by rewrite Ec.
  - rewrite Ec. destruct Hc. split; simpl; lia.
  - rewrite El, Er, Eu, Hs, bind_app, <- app_assoc. f_equal. simpl. rewrite Ex, app_nil_r. by rewrite take_drop.
  - rewrite El, Ec. exact HF.
  - rewrite Ec. simpl. intros E. specialize (HP E). lia.
  - rewrite Ec. exact HI.
  - rewrite Ec. exact HG.
  - unfold todo. rewrite Eu, length_drop, Erd. lia.
Qed.

(** Between requests, or closing. *)
Lemma moved st n s s0 : machine_ok s0 -> keeps s0 s -> c_state (cn s) = st ->
  st = conn_waiting /\ framed (taken s0) MLine \/ st = conn_closing ->
  (rank (cn s) < rank (cn s0))%nat -> round_post n s0 (Some n) s.
Proof.
  intros Ok K E Hst Hk. split; [|split; [|apply progress_rank; [by apply keeps_todo|done]]].
  - apply (ok_keeps s0 s Ok K); unfold mode_of; rewrite E; destruct Hst as [[-> ?]| ->]; try done.
    eapply framed_dead, (mo_framed _ Ok).
  - unfold runnable. rewrite E. by destruct Hst as [[-> ?]| ->].
Qed.

Lemma on_parse_cmd_spec n s : machine_ok s -> c_state (cn s) = conn_parse_cmd -> runs P (on_parse_cmd cfg n) s (round_post n s).
Proof.
  intros Ok Es. pose proof Ok as [Ht Ha Hb Hs Hf Hp _ _]. specialize (Hp Es). pose proof (unread_length _ Hb) as Hl.
  assert (rank (cn s) = 5%nat) as Hk by (unfold rank; by rewrite Es).
  assert (mode_of (cn s) = MLine) as Em by (unfold mode_of; by rewrite Es). rewrite Em in Hf.
  unfold on_parse_cmd, try_read_command. rsteps. apply runs_massert; [destruct Hb; apply bool_decide_eq_true; lia|].
  rsteps. apply runs_massert; [by apply bool_decide_eq_true|]. rsteps.
  rewrite decide_False by (rewrite Ha; by intros [?|?]). rsteps. rewrite Ha, decide_False by done.
  unfold try_read_ascii. rsteps. rewrite decide_False by lia. destruct (find_nl (unread (cn s))) as [k|] eqn:Ek.
  - pose proof (find_nl_spec _ _ Ek) as (Hlt & Hn & _). rsteps. apply runs_massert; [apply bool_decide_eq_true; lia|]. rsteps.
    set (j := length (strip_cr (take k (unread (cn s))))) in *.
    assert (j <= k)%nat as Hj by (pose proof (strip_cr_length (take k (unread (cn s)))) as L; rewrite length_take in L; unfold j; lia).
    destruct (write_skipped (cn s) j (k + 1) [0] Hb) as [Hb1 Eu1]; [simpl; lia|lia|].
    set (s1 := _ <| cn ::= _ |>). assert (input_of (cn s1) = input_of ((cn s) <| rbuf ::= fun b => write_bytes b (Z.to_nat (rcurr (cn s)) + j) [0] |>)) as E1 by done.
    eapply runs_mono; [by apply lw_process|]. intros _ s2 [(I2 & Er2 & Et2 & Erd2) C2]. rsteps. simpl.
    rewrite E1 in I2. symmetry in I2. pose proof (input_of_ok _ _ I2 Hb1) as Hb2. pose proof (input_of_unread _ _ I2) as Eu2.
    assert (rcurr (cn s2) = rcurr (cn s) /\ rbytes (cn s2) = rbytes (cn s) /\ c_protocol (cn s2) = ascii_prot /\ c_transport (cn s2) = c_transport (cn s)) as (Ec & Er & Ep & Etr)
      by (unfold input_of in I2; simpl in I2; injection I2; intros; rewrite <- Ha; auto).
    apply runs_massert; [destruct Hb2; apply bool_decide_eq_true; lia|]. rsteps. rewrite decide_False by done. rsteps.
    match goal with |- round_post _ _ _ ?x => set (s3 := x) end.
    destruct (ok_advance s s3 (cn s2) (SLine (take k (unread (cn s))) (mode_of (cn s2))) (Z.of_nat (k + 1)) Ok Hb2) as [Ok3 Et3]; try done.
    + lia.
    + rewrite Nat2Z.id, <- Eu2. exact Eu1.
    + by rewrite Etr.
    + unfold s3. simpl. rewrite Ec. by replace (rcurr (cn s) + Z.of_nat (k + 1) - rcurr (cn s)) with (Z.of_nat (k + 1)) by lia.
    + unfold s3. simpl. by rewrite Et2.
    + simpl. rewrite Nat2Z.id. by rewrite take_line.
    + by apply framed_line.
    + intros E. unfold command_state in C2. by rewrite E in C2.
    + intros E. unfold command_state in C2. by rewrite E in C2.
    + intros E. unfold command_state in C2. by rewrite E in C2.
    + split; [done|]. split; [by apply command_runnable|]. apply progress_todo. unfold todo in *. lia.
  - destruct (bool_decide (1024 < rbytes (cn s)) && _).
    + rsteps. eapply runs_mono; [by apply set_state_spec|]. intros _ s' (K & E & _). rsteps. rewrite decide_False by done. rsteps.
      apply (moved conn_closing n s' s Ok K); rewrite ?E, ?Hk; [done|by right|unfold rank; simpl; lia].
    + rsteps. rewrite decide_True by done. rsteps. eapply runs_mono; [by apply set_state_spec|]. intros _ s' (K & E & _). rsteps.
      apply (moved conn_waiting n s' s Ok K); rewrite ?E, ?Hk; [done|by left|unfold rank; simpl; lia].
Qed.

(** ** Between two commands *)

Hypothesis data_buffer : 0 < DATA_BUFFER_SIZE cfg <= READ_BUFFER_HIGHWAT cfg.

Lemma slice_take_all (l : list Z) n b : (b <= n)%nat -> slice (take n l) 0 b = slice l 0 b.
Proof. intros. unfold slice. rewrite !drop_0, Nat.sub_0_r, take_take. f_equal. lia. Qed.

(** Cutting the buffer, once its contents are at its beginning. *)
Lemma cut_ok c n : buf_ok c -> rcurr c = 0 -> 0 < n -> rbytes c < n <= rsize c ->
  let c' := c <| rbuf ::= take (Z.to_nat n) |> <| rsize := n |> in buf_ok c' /\ unread c' = unread c.
Proof.
  intros [? ? ? ? ?] E Hn Hr c'. split; [split; simpl; rewrite ?length_take; lia|].
  unfold unread. simpl. rewrite E. change (Z.to_nat 0) with 0%nat. apply slice_take_all. lia.
Qed.

(** memmove of the unread bytes to the beginning. *)
Lemma front_ok c : buf_ok c -> let c' := c <| rbuf := write_bytes (rbuf c) 0 (unread c) |> <| rcurr := 0 |> in
  buf_ok c' /\ unread c' = unread c.
Proof.
  intros Ok c'. pose proof (unread_length c Ok) as Hu. destruct Ok as [? ? ? ? ?].
  split; [split; simpl; try rewrite write_bytes_length; lia|]. unfold unread at 1. simpl.
  change (Z.to_nat 0) with 0%nat. rewrite Z.add_0_l. replace (Z.to_nat (rbytes c)) with (length (unread c)) by lia.
  apply slice_write_front. lia.
Qed.

Lemma keeps_conn (s s' : net S) : buf_ok (cn s') -> unread (cn s') = unread (cn s) -> rbytes (cn s') = rbytes (cn s) ->
  c_protocol (cn s') = c_protocol (cn s) -> c_transport (cn s') = c_transport (cn s) ->
  received s' = received s -> taken s' = taken s -> reads s' = reads s -> keeps s s'.
Proof. intros. by split. Qed.

Lemma shrink_rbuf_spec s : buf_ok (cn s) ->
  runs P (shrink_rbuf cfg) s (fun _ s' => keeps s s' /\ mode_fields (cn s') = mode_fields (cn s)).
Proof.
  intros Hb. unfold shrink_rbuf. rsteps. apply runs_when; [|done].
  intros [Hw Hd]%bool_decide_eq_true. rsteps.
  set (c1 := (if decide (rcurr (cn s) = 0) then cn s else (cn s) <| rbuf := write_bytes (rbuf (cn s)) 0 (unread (cn s)) |>)).
  assert (buf_ok (c1 <| rcurr := 0 |>) /\ unread (c1 <| rcurr := 0 |>) = unread (cn s)) as [O1 U1].
  { unfold c1. destruct (decide (rcurr (cn s) = 0)) as [E|E]; [|by apply front_ok].
    assert (input_of (cn s) = input_of ((cn s) <| rcurr := 0 |>)) as Ei by (unfold input_of; simpl; by rewrite E).
    split; [by apply (input_of_ok _ _ Ei)|]. by rewrite <- (input_of_unread _ _ Ei). }
  assert (rsize c1 = rsize (cn s) /\ rbytes c1 = rbytes (cn s) /\ c_protocol c1 = c_protocol (cn s) /\
    c_transport c1 = c_transport (cn s) /\ mode_fields c1 = mode_fields (cn s)) as (Es & Er & Ep & Et & Em)
    by (unfold c1; by destruct (decide (rcurr (cn s) = 0))).
  apply (runs_mono _ _ _ (fun _ s1 => s1 = s <| cn := c1 |>)).
  { unfold c1. apply runs_when.
    - intros E%bool_decide_eq_true. rsteps. by rewrite decide_False.
    - intros E%bool_decide_eq_false. destruct (decide (rcurr (cn s) = 0)); [by destruct s|by destruct E]. }
  intros _ s1 ->. rsteps. destruct (List.hd mem_after _).
  - destruct (cut_ok _ (DATA_BUFFER_SIZE cfg) O1) as [O2 U2]; [done|lia|simpl; lia|].
    apply runs_when; [intros _|done]. rsteps. split; [|done]. apply keeps_conn; try done. simpl. by rewrite <- U1, <- U2.
  - apply runs_when; [done|intros _]. rsteps. split; [|done]. by apply keeps_conn.
Qed.

Lemma shrink_list_spec big f s : (forall c, input_of (f c) = input_of c /\ mode_fields (f c) = mode_fields c) ->
  runs P (shrink_list big f) s (fun _ s' => keeps s s' /\ mode_fields (cn s') = mode_fields (cn s)).
Proof.
  intros Hf. unfold shrink_list. rsteps. apply runs_when; [|done]. intros _. rsteps. apply runs_when; intros _; rsteps.
  - split; [|apply Hf]. apply same_input_keeps. unfold same_input. simpl. split_and!; try done. apply Hf.
  - kdone.
Qed.

(** Steps that keep the read side compose. *)
Lemma keeps_step {A} (m : M (net S) unit) (k : M (net S) A) (s0 s : net S) Q :
  keeps s0 s /\ mode_fields (cn s) = mode_fields (cn s0) ->
  runs P m s (fun _ s' => keeps s s' /\ mode_fields (cn s') = mode_fields (cn s)) ->
  (forall s', keeps s0 s' /\ mode_fields (cn s') = mode_fields (cn s0) -> runs P k s' Q) ->
  runs P (m;; k) s Q.
Proof.
  intros [K0 E0] Hm Hk. apply runs_bind. eapply runs_mono; [exact Hm|]. intros _ s' [K E]. apply Hk.
  split; [by transitivity s|congruence].
Qed.

Lemma conn_shrink_spec s : buf_ok (cn s) -> c_transport (cn s) <> udp_transport ->
  runs P (conn_shrink cfg) s (fun _ s' => keeps s s' /\ mode_fields (cn s') = mode_fields (cn s)).
Proof.
  intros Hb Ht. unfold conn_shrink. rsteps. rewrite tcp_false by done.
  apply (keeps_step _ _ s s); [done|by apply shrink_rbuf_spec|]. intros s1 H1.
  apply (keeps_step _ _ s s1); [done|by apply shrink_list_spec|]. intros s2 H2.
  apply (keeps_step _ _ s s2); [done|by apply shrink_list_spec|]. intros s3 [K3 E3].
  eapply runs_mono; [by apply shrink_list_spec|]. intros _ s4 [K4 E4]. split; [by transitivity s3|congruence].
Qed.

Lemma round_nreqs n m s r s' : Z.to_nat n = Z.to_nat m -> round_post n s r s' -> round_post m s r s'.
Proof. unfold round_post, progress. intros <-. done. Qed.

Lemma on_new_cmd_spec n s : machine_ok s -> c_state (cn s) = conn_new_cmd -> runs P (on_new_cmd cfg n) s (round_post n s).
Proof.
  intros Ok Es. assert (rank (cn s) = 1%nat) as Hk by (unfold rank; by rewrite Es).
  assert (mode_of (cn s) = MLine) as Em by (unfold mode_of; by rewrite Es).
  unfold on_new_cmd. destruct (decide (0 <= n - 1)).
  - unfold reset_cmd_handler. rsteps. set (s0 := s <| cn ::= _ |>).
    assert (keeps s s0 /\ mode_fields (cn s0) = mode_fields (cn s)) as H0 by kdone. clearbody s0.
    eapply runs_mono; [apply release_item_spec|]. intros _ s1 [K1 E1]. rsteps.
    assert (keeps s s1) as K01 by (transitivity s0; [apply H0|done]).
    eapply runs_mono; [apply conn_shrink_spec; [by apply (kp_buf _ _ K01), Ok|rewrite (kp_transport _ _ K01); apply Ok]|].
    intros _ s2 [K2 E2]. rsteps.
    assert (keeps s s2) as K02 by by transitivity s1. pose proof (kp_rbytes _ _ K02) as Er.
    eapply runs_mono; [by apply set_state_spec; case_decide|]. intros _ s3 (K3 & E3 & _). rsteps.
    assert (keeps s s3) as K by by transitivity s2. split.
    + apply (ok_keeps s s3 Ok K).
      * unfold mode_of. rewrite E3. simpl. rewrite <- Em. pose proof (mo_framed _ Ok) as F. rewrite Em in *. by case_decide.
      * rewrite E3. simpl. case_decide; [lia|done].
      * rewrite E3. simpl. by case_decide.
      * rewrite E3. simpl. by case_decide.
    + split; [rewrite E3; unfold runnable; simpl; by case_decide|]. left. lia.
  - rsteps. set (s1 := s <| conn_yields ::= _ |>).
    assert (keeps s s1) as K1 by keep. case_decide.
    + eapply runs_mono; [apply (stay_or_close_spec _ (n - 1) s s s1 Ok); [unfold runnable; by rewrite Es|done|lia|done|done]|].
      intros r s2. apply round_nreqs. lia.
    + rsteps. apply (stop_now n s); try done. unfold runnable. by rewrite Es.
Qed.

(** ** Reading a value *)

Lemma write_ritem_spec bs s : in_item (ritem (cn s)) ->
  runs P (write_ritem bs) s (fun _ s' => keeps s s' /\ cn s' = cn s).
Proof. intros [it E]. unfold write_ritem. rsteps. rewrite E. by apply with_back_spec. Qed.

Lemma nread_leftover_spec s : machine_ok s -> c_state (cn s) = conn_nread -> 0 < rbytes (cn s) -> 0 < rlbytes (cn s) ->
  runs P nread_leftover s (fun _ s' => machine_ok s' /\ c_state (cn s') = conn_nread /\ (todo s' < todo s)%nat /\
    rbytes (cn s') = rbytes (cn s) - Z.min (rbytes (cn s)) (rlbytes (cn s)) /\
    rlbytes (cn s') = rlbytes (cn s) - Z.min (rbytes (cn s)) (rlbytes (cn s))).
Proof.
  intros Ok Es Hr Hl. pose proof (unread_length _ (mo_buf _ Ok)) as Hu. unfold nread_leftover. rsteps.
  set (k := Z.min (rbytes (cn s)) (rlbytes (cn s))) in *. set (bs := take (Z.to_nat k) (unread (cn s))).
  assert (Z.of_nat (length bs) = k) as Hbs by (unfold bs; rewrite length_take; lia).
  apply (runs_mono _ _ _ (fun _ s1 => keeps s s1 /\ cn s1 = cn s)).
  { case_decide; [by apply runs_ret|]. apply write_ritem_spec. by apply (mo_ritem _ Ok). }
  intros _ s1 [K1 E1]. rsteps. match goal with |- machine_ok ?x /\ _ => set (l := x) end.
  set (c := (cn s) <| ritem ::= fun p => padd p k |> <| rlbytes := rlbytes (cn s) - k |>).
  assert (cn l = c <| rcurr := rcurr c + k |> <| rbytes := rbytes c - k |>) as El by (unfold l; simpl; by rewrite E1).
  assert (mode_of (cn s) = MValue (rlbytes (cn s)) /\ mode_of c = MValue (rlbytes (cn s) - k)) as [Em Emc]
    by (unfold mode_of, c; simpl; by rewrite Es).
  pose proof (mo_framed _ Ok) as F. rewrite Em in F.
  destruct (ok_advance s l c (SValue bs) k Ok) as [Okl Etl]; try done.
  - by apply (input_of_ok (cn s)), (mo_buf _ Ok).
  - unfold c. simpl. lia.
  - apply (mo_ascii _ Ok).
  - apply (mo_tcp _ Ok).
  - unfold l. simpl. by rewrite (kp_taken _ _ K1).
  - apply (kp_received _ _ K1).
  - apply (kp_reads _ _ K1).
  - rewrite Emc, <- Hbs. apply framed_value; [done|lia].
  - unfold c. simpl. by rewrite Es.
  - intros _. by apply (mo_ritem _ Ok).
  - unfold c. simpl. by rewrite Es.
  - split; [done|]. rewrite El. unfold c. simpl. split; [done|]. split; [unfold todo in *; lia|done].
Qed.

(** Bytes taken from the socket while the buffer is empty. *)
Lemma ok_socket (s s' : net S) x bs : machine_ok s -> rbytes (cn s) = 0 -> seg_bytes x = bs ->
  received s' = received s ++ bs -> taken s' = taken s ++ [x] -> buf_ok (cn s') -> rbytes (cn s') = 0 ->
  c_transport (cn s') = c_transport (cn s) -> c_protocol (cn s') = c_protocol (cn s) ->
  framed (taken s ++ [x]) (mode_of (cn s')) ->
  (c_state (cn s') = conn_nread /\ in_item (ritem (cn s')) \/ c_state (cn s') = conn_swallow) ->
  (pending_bytes (reads s') + length bs = pending_bytes (reads s))%nat -> bs <> [] ->
  machine_ok s' /\ (todo s' < todo s)%nat.
Proof.
  intros [Ht Ha Hb Hs Hf _ _ _] E0 Ex Er Et Hb' E0' Etr Epr HF Hst Hp Hne.
  pose proof (unread_length _ Hb) as Hu. pose proof (unread_length _ Hb') as Hu'.
  assert (unread (cn s) = [] /\ unread (cn s') = []) as [U U'] by (split; apply length_zero_iff_nil; lia).
  split; [split|]; rewrite ?Etr, ?Epr; try done.
  - rewrite Er, Et, U', Hs, U, bind_app, !app_nil_r. simpl. by rewrite Ex, app_nil_r.
  - by rewrite Et.
  - destruct Hst as [[-> _]| ->]; done.
  - destruct Hst as [[-> ?]| ->]; done.
  - destruct Hst as [[-> _]| ->]; done.
  - unfold todo. rewrite U, U'. simpl. destruct bs; [done|]. simpl in Hp. lia.
Qed.

Lemma nread_socket_spec s : machine_ok s -> c_state (cn s) = conn_nread -> rbytes (cn s) = 0 -> 0 < rlbytes (cn s) ->
  runs P nread_socket s (fun r s' => match r with
    | GotBytes _ => machine_ok s' /\ c_state (cn s') = conn_nread /\ (todo s' < todo s)%nat
    | _ => machine_ok s' /\ cn s' = cn s /\ todo s' = todo s end).
Proof.
  intros Ok Es E0 Hl. unfold nread_socket. rsteps. eapply runs_mono; [by apply sock_read_spec|].
  intros r s1 (Ec & Er & Et & Hp & Hn & Hne).
  assert (got_of r = [] -> machine_ok s1 /\ cn s1 = cn s /\ todo s1 = todo s) as Hsame.
  { intros E. rewrite E, ?app_nil_r in *. simpl in Hp. pose proof Ok as [? ? ? Hs ? ? ? ?].
    split; [split; rewrite ?Ec, ?Er, ?Et; done|]. split; [done|]. unfold todo. rewrite Ec. lia. }
  destruct r as [bs| | |]; rsteps; [|by apply Hsame..]. simpl in *.
  eapply runs_mono; [apply write_ritem_spec; rewrite Ec; by apply (mo_ritem _ Ok)|]. intros _ s2 [K2 E2]. rsteps.
  match goal with |- machine_ok ?x /\ _ => set (l := x) end.
  set (rc := if decide (ritem (cn s) = Ptr LRbuf (rcurr (cn s))) then rcurr (cn s) + Z.of_nat (length bs) else rcurr (cn s)).
  assert (rc = rcurr (cn s)) as Erc.
  { unfold rc. case_decide as Hd; [|done]. destruct (mo_ritem _ Ok Es) as [it Hi]. by rewrite Hd in Hi. }
  assert (cn l = (cn s) <| rcurr := rc |> <| ritem ::= fun p => padd p (Z.of_nat (length bs)) |>
    <| rlbytes := rlbytes (cn s) - Z.of_nat (length bs) |>) as El by (unfold l; simpl; rewrite E2, Ec; done).
  destruct (ok_socket s l (SValue bs) bs Ok E0) as [Okl Etl]; try done; try (rewrite El; done).
  - unfold l. simpl. by rewrite (kp_received _ _ K2).
  - unfold l. simpl. by rewrite (kp_taken _ _ K2), Et.
  - rewrite El, Erc. by apply (input_of_ok (cn s)), (mo_buf _ Ok).
  - pose proof (mo_framed _ Ok) as F. unfold mode_of in F. rewrite Es in F.
    assert (mode_of (cn l) = MValue (rlbytes (cn s) - Z.of_nat (length bs))) as -> by (rewrite El; unfold mode_of; simpl; by rewrite Es).
    by apply framed_value.
  - left. rewrite El. simpl. split; [done|]. by apply (mo_ritem _ Ok).
  - unfold l. simpl. by rewrite (kp_reads _ _ K2).
  - by apply Hne.
Qed.

Lemma no_bytes_spec r n (s0 s : net S) : machine_ok s -> runnable (cn s) -> (todo s <= todo s0)%nat -> (0 < rank (cn s0))%nat ->
  runs P (no_bytes cfg r n) s (round_post n s0).
Proof.
  intros Ok Hr Ht Hk. unfold no_bytes. destruct r; try by apply (close_now n s s). by apply (stay_or_close_spec _ n s0 s).
Qed.

Lemma take_chunked_spec (s s2 : net S) bs got : machine_ok s -> c_state (cn s) = conn_nread ->
  unread (cn s) ++ got = bs ++ unread (cn s2) -> received s2 = received s ++ got ->
  rlbytes (cn s2) = rlbytes (cn s) - Z.of_nat (length bs) -> Z.of_nat (length bs) <= rlbytes (cn s) ->
  taken s2 = taken s -> (pending_bytes (reads s2) + length got = pending_bytes (reads s))%nat ->
  buf_ok (cn s2) -> c_state (cn s2) = conn_nread -> in_item (ritem (cn s2)) ->
  c_protocol (cn s2) = c_protocol (cn s) -> c_transport (cn s2) = c_transport (cn s) ->
  runs P (take_chunked (cn s) (length (received s))) s2 (fun _ s' => machine_ok s' /\ cn s' = cn s2 /\
    (todo s' + length bs = todo s)%nat).
Proof.
  intros Ok Es Eu Er El Hle Et Hp Hb Es2 Hi Epr Etr. unfold take_chunked. rsteps.
  assert (take (Z.to_nat (rlbytes (cn s) - rlbytes (cn s2))) (unread (cn s) ++ drop (length (received s)) (received s2)) = bs) as ->.
  { rewrite Er, drop_app_length, Eu, El. replace (Z.to_nat _) with (length bs) by lia. apply take_app_length. }
  assert (mode_of (cn s) = MValue (rlbytes (cn s)) /\ mode_of (cn s2) = MValue (rlbytes (cn s) - Z.of_nat (length bs))) as [Em Em2]
    by (unfold mode_of; by rewrite Es, Es2, El).
  pose proof Ok as [Ht Ha _ Hs Hf _ _ _]. rewrite Em in Hf. split; [split|]; simpl; rewrite ?Es2, ?Epr, ?Etr; try done.
  - rewrite Er, Et, Hs, bind_app, <- !app_assoc. f_equal. simpl. by rewrite app_nil_r.
  - rewrite Em2, Et. by apply framed_value.
  - split; [done|]. unfold todo. simpl. assert (length (unread (cn s) ++ got) = length (bs ++ unread (cn s2))) as L by by rewrite Eu.
    rewrite !length_app in L. lia.
Qed.

(** No memory for the rest of a chunked item. *)
Lemma no_memory_spec str n s0 s : machine_ok s -> c_state (cn s) = conn_nread -> (todo s <= todo s0)%nat -> (3 < rank (cn s0))%nat ->
  runs P (out_of_memory cfg str;; setc (fun c => c <| sbytes := rlbytes c |> <| write_and_go := conn_swallow |>);; take_then SStop;; go n)
    s (round_post n s0).
Proof.
  intros Ok Es Hle Hk. rsteps. eapply runs_mono; [apply out_of_memory_spec; apply Ok|]. intros _ s1 [I A]. pose proof (same_input_keeps _ _ I) as K. rsteps.
  pose proof (answered_line _ _ A) as _. destruct A as (Hst & Erl & _). set (c := (cn s1) <| sbytes := rlbytes (cn s1) |> <| write_and_go := conn_swallow |>).
  assert (mode_of c = MSkip (rlbytes (cn s)) \/ mode_of c = MLine) as Hm.
  { unfold mode_of, c. simpl. rewrite Erl. destruct Hst as [-> |[-> _]]; auto. }
  assert (c_state c = conn_new_cmd \/ c_state c = conn_write) as Hc by (unfold c; simpl; destruct Hst as [?|[? _]]; auto).
  assert (mode_of (cn s) = MValue (rlbytes (cn s))) as Em by (unfold mode_of; by rewrite Es).
  pose proof Ok as [Ht Ha Hb Hs Hf _ _ _]. rewrite Em in Hf. destruct K as [Ku Kb Kr Kp Kt Krec Ktak Krd].
  match goal with |- round_post _ _ _ ?x => set (l := x) end. assert (cn l = c) as El by done.
  split; [split|]; rewrite ?El; try (destruct Hc as [-> | ->]; done).
  - unfold c. simpl. by rewrite Kt.
  - unfold c. simpl. by rewrite Kp.
  - apply (input_of_ok (cn s1)); [done|]. by apply Kb.
  - unfold l. simpl. rewrite Krec, Ktak, Hs, bind_app. simpl. rewrite app_nil_r. unfold unread, c. simpl. f_equal. by symmetry.
  - unfold l. simpl. rewrite Ktak. by apply (framed_stop _ (rlbytes (cn s))).
  - split; [unfold runnable; by destruct Hc as [-> | ->]|]. apply progress_le.
    + unfold todo in *. rewrite El. unfold l. simpl. rewrite Krd. unfold unread at 1, c. simpl. fold (unread (cn s1)). by rewrite Ku.
    + rewrite El. unfold rank at 1. destruct Hc as [-> | ->]; lia.
Qed.

Lemma on_nread_spec n s : machine_ok s -> c_state (cn s) = conn_nread -> runs P (on_nread cfg n) s (round_post n s).
Proof.
  intros Ok Es. pose proof Ok as [Ht Ha Hb Hs Hf _ Hi _]. assert (rank (cn s) = 4%nat) as Hk by (unfold rank; by rewrite Es).
  assert (mode_of (cn s) = MValue (rlbytes (cn s))) as Em by (unfold mode_of; by rewrite Es). rewrite Em in Hf.
  unfold on_nread. rsteps. case_decide as E0; [|case_decide as En; [by apply (close_now n s s); [|..|lia]|]].
  - unfold complete_nread. rsteps. apply runs_massert; [apply bool_decide_eq_true; by left|]. rewrite decide_True by done.
    eapply runs_mono; [by apply lw_complete|]. intros _ s1 (I1 & C1 & N1). rsteps.
    pose proof (same_input_keeps _ _ I1) as K. match goal with |- round_post _ _ _ ?x => set (l := x) end.
    destruct K as [Ku Kb Kr Kp Kt Krec Ktak Krd]. split; [split|]; unfold l; simpl; rewrite ?Kt, ?Kp, ?Kr, ?Ku; try done; auto.
    + rewrite Krec, Ktak, Hs, bind_app. simpl. by rewrite app_nil_r.
    + rewrite Ktak. apply framed_done. by rewrite <- E0.
    + intros E. unfold command_state in C1. by rewrite E in C1.
    + intros E. unfold command_state in C1. by rewrite E in C1.
    + split; [by apply command_runnable|]. apply progress_rank; [unfold todo; simpl; by rewrite Ku, Krd|]. rewrite Hk. simpl.
      unfold command_state in C1. unfold rank. destruct (c_state (cn s1)); try done; lia.
  - rsteps. destruct (_ || _).
    + apply runs_bind. apply (runs_mono _ _ _ (fun _ s1 => machine_ok s1 /\ c_state (cn s1) = conn_nread /\
        (rbytes (cn s) <= 0 /\ s1 = s \/ 0 < rbytes (cn s) /\ (todo s1 < todo s)%nat) /\
        rbytes (cn s1) = rbytes (cn s) - Z.min (rbytes (cn s)) (rlbytes (cn s)) /\
        rlbytes (cn s1) = rlbytes (cn s) - Z.min (rbytes (cn s)) (rlbytes (cn s)))).
      { apply runs_when; intros Hr.
        - apply bool_decide_eq_true in Hr. eapply runs_mono; [apply nread_leftover_spec; done || lia|].
          intros _ s1 (? & ? & ? & ? & ?). split_and!; auto.
        - apply bool_decide_eq_false in Hr. destruct Hb. split_and!; auto; [left; split; [lia|done]|lia|lia]. }
      intros _ s1 (Ok1 & Es1 & Hd & Er1 & El1). rsteps. destruct (bool_decide (0 < rbytes (cn s)) && bool_decide (rlbytes (cn s1) = 0)) eqn:Eb.
      * rsteps. split; [done|]. split; [unfold runnable; by rewrite Es1|]. apply progress_todo.
        apply andb_true_iff in Eb as [Eb%bool_decide_eq_true _]. destruct Hd as [[? _]|[_ ?]]; [lia|done].
      * assert (rbytes (cn s1) = 0 /\ 0 < rlbytes (cn s1)) as [Hr1 Hl1].
        { rewrite Er1, El1. destruct Hb. apply andb_false_iff in Eb as [Eb|Eb]; apply bool_decide_eq_false in Eb; lia. }
        assert (todo s1 <= todo s)%nat as Ht1 by (destruct Hd as [[_ ->]|[_ ?]]; lia).
        apply runs_bind. eapply runs_mono; [by apply nread_socket_spec|]. intros r s2 Hr. destruct r as [bs| | |].
        -- rsteps. destruct Hr as (Ok2 & Es2 & Ht2). split; [done|]. split; [unfold runnable; by rewrite Es2|]. apply progress_todo. lia.
        -- destruct Hr as (Ok2 & Ec2 & Ht2). apply no_bytes_spec; [done|unfold runnable; by rewrite Ec2, Es1|lia|lia].
        -- destruct Hr as (Ok2 & Ec2 & Ht2). apply no_bytes_spec; [done|unfold runnable; by rewrite Ec2, Es1|lia|lia].
        -- destruct Hr as (Ok2 & Ec2 & Ht2). apply no_bytes_spec; [done|unfold runnable; by rewrite Ec2, Es1|lia|lia].
    + rsteps. eapply runs_mono; [apply lw_chunked; [done|lia]|].
      intros [res again] s2 (bs & got & Eu & Er & El & Hle & Hne & Et & Hp & Hb2 & Es2 & Hi2 & Ep2 & Et2). rsteps.
      eapply runs_mono; [apply (take_chunked_spec s s2 bs got); auto; congruence|]. intros _ s3 (Ok3 & Ec3 & Ht3).
      assert (c_state (cn s3) = conn_nread) as Es3 by congruence. assert (runnable (cn s3)) as Hr3 by (unfold runnable; by rewrite Es3).
      simpl in Hne. case_decide as D1; [|case_decide as D2; [|destruct (_ && _); [|case_decide]]].
      * rsteps. split; [done|]. split; [done|]. apply progress_todo. assert (bs <> []) as Hbs by auto. destruct bs; [done|]. simpl in Ht3. lia.
      * apply no_bytes_spec; done || lia.
      * apply no_bytes_spec; done || lia.
      * apply no_memory_spec; done || lia.
      * apply no_bytes_spec; done || lia.
Qed.

Lemma on_swallow_spec n s : machine_ok s -> c_state (cn s) = conn_swallow -> runs P (on_swallow cfg n) s (round_post n s).
Proof.
  intros Ok Es. pose proof Ok as [Ht Ha Hb Hs Hf _ _ _]. assert (rank (cn s) = 2%nat) as Hk by (unfold rank; by rewrite Es).
  assert (mode_of (cn s) = MSkip (sbytes (cn s))) as Em by (unfold mode_of; by rewrite Es). rewrite Em in Hf.
  pose proof (unread_length _ Hb) as Hu.
  unfold on_swallow. rsteps. case_decide as D1; [|case_decide as D2].
  - apply (move_to conn_new_cmd n s s Ok); try done; [by eapply framed_skipped|rewrite Hk; unfold rank; simpl; lia].
  - rsteps. set (k := Z.min (rbytes (cn s)) (sbytes (cn s))). match goal with |- round_post _ _ _ ?x => set (l := x) end.
    set (c := (cn s) <| sbytes := sbytes (cn s) - k |>). set (bs := take (Z.to_nat k) (unread (cn s))).
    assert (Z.of_nat (length bs) = k) as Hbs by (unfold bs; rewrite length_take; lia).
    destruct (ok_advance s l c (SSkip bs) k Ok) as [Okl Etl]; try done; try (unfold c; simpl; rewrite Es; done).
    + by apply (input_of_ok (cn s)).
    + unfold c. simpl. lia.
    + assert (mode_of c = MSkip (sbytes (cn s) - k)) as -> by (unfold mode_of, c; simpl; by rewrite Es).
      rewrite <- Hbs. apply framed_skip; [done|lia].
    + split; [done|]. split; [unfold runnable, l; simpl; by rewrite Es|]. apply progress_todo. unfold todo in *. lia.
  - rsteps. destruct Hb as [B1 B2 B3 B4 B5]. assert (rbytes (cn s) = 0) as E0 by lia.
    eapply runs_mono; [apply sock_read_spec; lia|]. intros r s1 (Ec & Er & Et & Hp & Hn & Hne).
    assert (got_of r = [] -> machine_ok s1 /\ todo s1 = todo s) as Hsame.
    { intros E. rewrite E, ?app_nil_r in *. simpl in Hp. pose proof Ok as [? ? ? ? ? ? ? ?].
      split; [split; rewrite ?Ec, ?Er, ?Et; done|]. unfold todo. rewrite Ec. lia. }
    destruct r as [bs| | |].
    2-4: destruct Hsame as [Ok1 Ht1]; [done|]; apply no_bytes_spec; [done|unfold runnable; by rewrite Ec, Es|lia|lia].
    simpl in *. rsteps. match goal with |- round_post _ _ _ ?x => set (l := x) end.
    assert (cn l = (cn s) <| rbuf ::= fun b => write_bytes b 0 bs |> <| sbytes := sbytes (cn s) - Z.of_nat (length bs) |>) as El
      by (unfold l; simpl; by rewrite Ec).
    destruct (ok_socket s l (SSkip bs) bs Ok E0) as [Okl Etl]; try done; try (rewrite El; done).
    + unfold l. simpl. by rewrite Et.
    + rewrite El. split; simpl; try rewrite write_bytes_length; lia.
    + assert (mode_of (cn l) = MSkip (sbytes (cn s) - Z.of_nat (length bs))) as -> by (rewrite El; unfold mode_of; simpl; by rewrite Es).
      apply framed_skip; [done|lia].
    + rewrite El. by right.
    + by apply Hne.
    + split; [done|]. split; [unfold runnable; rewrite El; simpl; by rewrite Es|]. by apply progress_todo.
Qed.

(** ** Sending *)

Lemma on_mwrite_spec n s0 s : machine_ok s -> c_state (cn s) = conn_mwrite \/ c_state (cn s) = conn_write ->
  todo s = todo s0 -> rank (cn s0) = 3%nat ->
  (forall s', keeps s s' -> c_state (cn s') = c_state (cn s) -> iovused (cn s') = iovused (cn s) ->
    (unsent s' < unsent s)%nat -> progress n s0 n s') ->
  runs P (on_mwrite n) s (round_post n s0).
Proof.
  intros Ok Es Ht0 Hk Hagain. pose proof Ok as [Ht Ha Hb Hs Hf _ _ Hg]. unfold on_mwrite. rsteps. rewrite tcp_false by done. cbn [andb]. rsteps.
  rewrite decide_False by (intros D; by apply D). rsteps. eapply runs_mono; [apply lw_transmit|]. intros r s1 (I1 & Eg & Esb & Hr).
  pose proof (same_input_keeps _ _ I1) as K1.
  assert (runnable (cn s)) as Hrun by (unfold runnable; by destruct Es as [-> | ->]).
  assert (c_state (cn s1) = c_state (cn s) -> mode_of (cn s1) = mode_of (cn s)) as Hm.
  { intros E. unfold mode_of. rewrite E, Eg, Esb. by destruct Es as [-> | ->]. }
  destruct r.
  - rsteps. rewrite Hr. destruct Es as [Es|Es]; rewrite Es.
    + rewrite decide_True by done. rsteps. eapply runs_mono; [apply conn_release_items_spec|]. intros _ s2 [K2 E2].
      rewrite (kp_protocol _ _ K1), Ha, decide_False by done. eapply runs_mono; [by apply set_state_spec|].
      intros _ s3 (K3 & E3 & _). rsteps. assert (keeps s s3) as K by (transitivity s1; [done|by transitivity s2]). split.
      * apply (ok_keeps s s3 Ok K); rewrite E3; try done. simpl.
        unfold mode_of in Hf. rewrite Es in Hf. exact Hf.
      * split; [by rewrite E3|]. apply progress_rank; [by rewrite (keeps_todo _ _ K)|]. rewrite E3, Hk. unfold rank. simpl. lia.
    + rewrite decide_False, decide_True by done. rsteps. specialize (Hg Es). rewrite Eg.
      eapply runs_mono; [apply set_state_spec; by destruct (write_and_go (cn s))|]. intros _ s3 (K3 & E3 & _). rsteps.
      assert (keeps s s3) as K by (transitivity s1; [done|ktrans K3]). split.
      * apply (ok_keeps s s3 Ok K); rewrite E3; simpl; try (by destruct (write_and_go (cn s))).
        unfold mode_of in Hf |- *. rewrite Es in Hf. simpl. rewrite Esb. destruct (write_and_go (cn s)); done.
      * split; [rewrite E3; unfold runnable; simpl; by destruct (write_and_go (cn s))|].
        apply progress_rank; [by rewrite (keeps_todo _ _ K)|]. rewrite E3, Hk. unfold rank. simpl. destruct (write_and_go (cn s)); try done; lia.
  - destruct Hr as (Est & Ei & Hlt). rsteps. split.
    + apply (ok_keeps s s1 Ok K1); rewrite ?Est, ?Eg; try done; [by rewrite Hm|..]; by destruct Es as [-> | ->].
    + split; [unfold runnable; by rewrite Est|]. by apply Hagain.
  - rsteps. split.
    + apply (ok_keeps s s1 Ok K1); rewrite ?Hr, ?Eg; try done; [by rewrite Hm|..]; by destruct Es as [-> | ->].
    + left. unfold runnable. by rewrite Hr.
  - rsteps. split.
    + apply (ok_keeps s s1 Ok K1); rewrite ?Hr; try done. unfold mode_of. rewrite Hr. by eapply framed_dead.
    + split; [unfold runnable; by rewrite Hr|]. apply progress_rank; [by rewrite (keeps_todo _ _ K1)|]. unfold rank at 1. rewrite Hr. lia.
Qed.

Lemma on_write_spec n s : machine_ok s -> c_state (cn s) = conn_write -> runs P (on_write cfg n) s (round_post n s).
Proof.
  intros Ok Es. assert (rank (cn s) = 3%nat) as Hk by (unfold rank; by rewrite Es). unfold on_write. rsteps.
  rewrite tcp_false by apply Ok. cbn [andb]. rewrite orb_false_r. case_bool_decide as Ei.
  - eapply runs_mono; [apply add_iov_spec, Ok|]. intros r s1 (I & E & Hi). pose proof (same_input_keeps _ _ I) as K. pose proof (mode_fields_state _ _ E) as (E1 & E2 & E3).
    case_decide as Hr; [by apply (close_now n s1 s s); [..|lia]|]. specialize (Hi Hr). rewrite Ei in Hi.
    assert (machine_ok s1) as Ok1.
    { apply (ok_keeps s s1 Ok K); rewrite ?E1, ?E2, ?E3; try apply Ok. rewrite (mode_of_fields _ _ E). apply Ok. }
    apply on_mwrite_spec; [done|right; congruence|by apply keeps_todo|done|].
    intros s' K' Es' Ei' _. right. split; [done|]. right. split; [rewrite (keeps_todo _ _ K'); by apply keeps_todo|].
    right. split; [unfold rank; by rewrite Es', E1|]. left. unfold unbuilt. rewrite Ei', Hi, Ei. rewrite decide_False by (by intros [_ ?]). rewrite decide_True by done. lia.
  - rsteps. rewrite decide_False by (intros D; by apply D). apply on_mwrite_spec; auto.
    intros s' K' Es' Ei' Hu. right. split; [done|]. right. split; [by apply keeps_todo|]. right. split; [unfold rank; by rewrite Es'|].
    right. split; [|done]. unfold unbuilt. by rewrite Es', Ei'.
Qed.

Lemma on_closing_spec n s : machine_ok s -> runs P on_closing s (round_post n s).
Proof.
  intros Ok. unfold on_closing. rsteps. rewrite tcp_false by apply Ok. eapply runs_mono; [apply conn_close_spec, Ok|].
  intros _ s1 [K E]. rsteps. split; [|by right]. apply (ok_keeps s s1 Ok K); unfold mode_of; rewrite E; try done.
  eapply framed_dead, (mo_framed _ Ok).
Qed.

Lemma machine_step_spec n s : machine_ok s -> runnable (cn s) -> runs P (machine_step cfg n) s (round_post n s).
Proof.
  intros Ok Hr. unfold machine_step. rsteps. unfold runnable in Hr. destruct (c_state (cn s)) eqn:Es; try done.
  - by apply on_new_cmd_spec.
  - by apply on_waiting_spec.
  - by apply on_read_spec.
  - by apply on_parse_cmd_spec.
  - by apply on_write_spec.
  - by apply on_nread_spec.
  - by apply on_swallow_spec.
  - by apply on_closing_spec.
  - apply on_mwrite_spec; auto; [unfold rank; by rewrite Es|]. intros s' K' Es' Ei' Hu. right. split; [done|].
    right. split; [by apply keeps_todo|]. right. split; [unfold rank; by rewrite Es'|]. right. split; [|done]. unfold unbuilt. by rewrite Es', Es.
  - rsteps. apply (stop_now n s); try done. unfold runnable. by rewrite Es.
Qed.

(** ** The loop *)

Definition round_lt (x y : Z * net S) : Prop := progress y.1 y.2 x.1 x.2.
Lemma round_lt_wf : well_founded round_lt.
Proof.
  apply (lex_wf (fun x => Z.to_nat x.1)), (lex_wf (fun x => todo x.2)), (lex_wf (fun x => rank (cn x.2))),
    (lex_wf (fun x => unbuilt (cn x.2))), (well_founded_ltof _ (fun x => unsent x.2)).
Qed.

Definition stopped (s : net S) : Prop := machine_ok s /\ (runnable (cn s) \/ c_state (cn s) = conn_closed).

Lemma machine_loop_total n s : machine_ok s -> runnable (cn s) ->
  exists fuel, forall fuel', (fuel <= fuel')%nat -> runs P (machine_loop cfg fuel' n) s (fun _ s' => stopped s').
Proof.
  remember (n, s) as x eqn:Ex. revert n s Ex. induction (round_lt_wf x) as [x _ IH]. intros n s -> Ok Hr.
  pose proof (machine_step_spec n s Ok Hr) as St. unfold runs in St. destruct (machine_step cfg n s) as [[[n'|] s']| |] eqn:E.
  - destruct St as (Ok' & Hr' & Hp). destruct (IH (n', s') Hp n' s' eq_refl Ok' Hr') as [fuel Hf]. exists (Datatypes.S fuel).
    intros [|fuel'] Hle; [lia|]. simpl. apply runs_bind. unfold runs at 1. rewrite E. apply Hf. lia.
  - exists 1%nat. intros [|fuel'] Hle; [lia|]. simpl. apply runs_bind. unfold runs at 1. rewrite E. apply runs_ret. done.
  - exists 1%nat. intros [|fuel'] Hle; [lia|]. simpl. apply runs_bind. unfold runs at 1. by rewrite E.
  - done.
Qed.

Lemma machine_loop_ok fuel n s s' : machine_ok s -> runnable (cn s) -> machine_loop cfg fuel n s = Ok (tt, s') -> stopped s'.
Proof.
  revert n s. induction fuel as [|fuel IH]; intros n s Ok Hr E; [done|]. simpl in E. unfold mbind, M_bind in E.
  pose proof (machine_step_spec n s Ok Hr) as St. unfold runs in St. destruct (machine_step cfg n s) as [[[n'|] s1]| |]; try done.
  - destruct St as (Ok' & Hr' & _). by apply (IH n' s1).
  - injection E as <-. exact St.
Qed.
End laws.

(** ** A connection over its life *)

(** The connections of the table have read buffers of the sizes they record. *)
Definition table_ok (t : conn_table) : Prop :=
  forall fd c, conns t !! fd = Some c -> Z.of_nat (length (rbuf c)) = rsize c /\ 0 < rsize c.

(** A TCP connection of the ASCII protocol that conn_new just made. *)
Definition accepted {S} (cfg : conn_cfg) (s : net S) : Prop :=
  exists m sfd flags rbs tr t t', table_ok t /\ 0 < rbs /\ binding_protocol m = ascii_prot /\ tr <> udp_transport /\
    conn_new cfg m sfd conn_new_cmd flags rbs tr t = Ok (Some (cn s), t') /\ received s = [] /\ taken s = [].

Lemma accepted_ok {S} cfg (s : net S) : accepted cfg s -> machine_ok s /\ runnable (cn s).
Proof.
  intros (m & sfd & flags & rbs & tr & t & t' & Ht & Hrbs & Hp & Htr & E & Er & Et).
  assert (exists c, cn s = conn_init m conn_new_cmd flags tr c /\ Z.of_nat (length (rbuf c)) = rsize c /\ 0 < rsize c) as (c & Ec & Hl & Hs).
  { unfold conn_new in E. destruct (decide _); [|done]. destruct (conns t !! sfd) as [c|] eqn:El.
    - exists c. destruct (event_add_ok m); [|done]. injection E as E _. split; [by rewrite <- E|]. by apply (Ht sfd).
    - destruct (negb (calloc_ok m)); [done|]. destruct (negb (buffers_ok m)); [done|]. destruct (event_add_ok m); [|done].
      injection E as E _. exists (conn_alloc cfg m sfd rbs). split; [by rewrite <- E|]. simpl. rewrite length_replicate. lia. }
  split; [|unfold runnable; by rewrite Ec]. split; rewrite ?Ec; try done.
  - split; simpl; lia.
  - rewrite Er, Et. simpl. unfold unread. simpl. by rewrite slice_nil.
  - rewrite Et. apply framed_start.
Qed.

Section life.
Context {S : Type} {B : Backend S} {H : Handlers S} (cfg : conn_cfg).

(** Between two events anything but the connection and what it took may change:
    bytes arrive, other threads work on the store.  An event runs the machine. *)
Inductive serve : net S -> net S -> Prop :=
| serve_env s s' : cn s' = cn s -> received s' = received s -> taken s' = taken s -> serve s s'
| serve_event fuel s s' : runnable (cn s) -> drive_machine cfg fuel s = Ok (tt, s') -> serve s s'.

Context (P : Prop) (unsent : net S -> nat) `{!Lawful S P unsent}.
Hypothesis data_buffer : 0 < DATA_BUFFER_SIZE cfg <= READ_BUFFER_HIGHWAT cfg.

Lemma env_ok (s s' : net S) : cn s' = cn s -> received s' = received s -> taken s' = taken s -> machine_ok s -> machine_ok s'.
Proof. intros Ec Er Et [? ? ? ? ? ? ? ?]. by split; rewrite ?Ec, ?Er, ?Et. Qed.

Lemma serve_ok s s' : serve s s' -> machine_ok s -> machine_ok s'.
Proof.
  intros [? ? ? ? ?|fuel ? ? Hr E] Ok; [by eapply env_ok|]. by apply (machine_loop_ok cfg P unsent data_buffer fuel (reqs_per_event cfg) s0).
Qed.
Lemma served_ok s0 s : accepted cfg s0 -> rtc serve s0 s -> machine_ok s.
Proof.
  intros [Ok _]%accepted_ok R. revert Ok. induction R as [|s1 s2 s3 Hst _ IH]; [done|]. intros Ok. apply IH. by eapply serve_ok.
Qed.

(** C5. What a TCP connection of the ASCII protocol does with its stream, in any
    history of events and whatever pieces read() delivers: the bytes received
    are, in order and each once, those of the segments the connection took
    followed by those still unread in its buffer, and the segments are the ones
    the commands asked for: a line at a time up to its newline, after a line
    that announced a value exactly its bytes, after a refused value the bytes to
    skip. *)
Theorem stream_framed s0 s : accepted cfg s0 -> rtc serve s0 s ->
  received s = (taken s ≫= seg_bytes) ++ unread (cn s) /\ framed (taken s) (mode_of (cn s)) /\ buf_ok (cn s).
Proof using Lawful0 data_buffer. intros A R. pose proof (served_ok _ _ A R) as []. done. Qed.

(** C9. The event handler returns, for an accepted TCP connection of the ASCII
    protocol whose handlers keep the laws of [Lawful] (among them: process_command
    and the end of a value return; C10 shows it of the ASCII commands while memory
    comes back, C17 that a get may not return when it does not): with enough fuel
    drive_machine ends, in a state that waits for the next event or closed, for every
    answer the socket, the reallocs of the connection's own buffers and libevent give
    (unless an item operation of the store aborts). *)
Theorem drive_machine_returns s0 s : accepted cfg s0 -> rtc serve s0 s -> runnable (cn s) ->
  exists fuel, forall fuel', (fuel <= fuel')%nat ->
    runs P (drive_machine cfg fuel') s (fun _ s' => runnable (cn s') \/ c_state (cn s') = conn_closed).
Proof using Lawful0 data_buffer.
  intros A R Hr. destruct (machine_loop_total cfg P unsent data_buffer (reqs_per_event cfg) s) as [fuel Hf]; [by eapply served_ok|done|].
  exists fuel. intros fuel' Hle. eapply runs_mono; [by apply Hf|]. by intros _ s' [_ ?].
Qed.
End life.

(** ** A small service behind the machine

    A line that begins with an s announces a value of four bytes, every other line
    is answered OK. *)
Module Service.
Definition cfg : conn_cfg := ConnCfg 4 1400 8 64 64 8 4 8 4 8 4 20 10 false 2 4 16.

#[export] Instance store : Backend (list Z) := {
  mem_after := true;
  item_remove _ b := Ok b; item_write _ _ bs b := b ++ bs; item_chunked _ _ := false; item_slabbed _ _ := false;
  suffix_free _ b := b }.

Definition command (l : list Z) : M (net (list Z)) unit :=
  if decide (byte l 0 = 115) then
    setc (fun c => c <| rlbytes := 4 |> <| ritem := Ptr (LItem 1) 0 |> <| c_item := 1 |>);;
    conn_set_state conn_nread
  else out_string cfg (lit "OK").

#[export] Instance handlers : Handlers (list Z) := {
  process_command := command;
  complete_nread_ascii := out_string cfg (lit "STORED");
  complete_nread_binary := mret tt; dispatch_bin_command := mret tt; write_bin_error _ := mret tt;
  read_into_chunked_item := mret (0, false); build_udp_headers := mret 0; transmit := mret TRANSMIT_COMPLETE }.

Lemma answered_command (c c' : conn) : answered c c' -> command_state c' /\ c_state c' <> conn_nread.
Proof. intros [[E|[E E']] _]; unfold command_state; rewrite E; [done|]. by rewrite E'. Qed.

#[export] Instance lawful : Lawful (list Z) False (fun _ => 0%nat).
Proof.
  split.
  - intros l s Ha Ht. simpl. unfold command. case_decide.
    + apply runs_bind, runs_modify. eapply runs_mono; [by apply set_state_spec|]. intros _ s' (_ & E & I).
      split; [etrans; [|exact I]; done|]. unfold command_state. rewrite E. by exists 1.
    + eapply runs_mono; [by apply out_string_spec|]. intros _ s' [I A]. split; [done|]. by eapply answered_command.
  - intros s Ha Ht. simpl. eapply runs_mono; [by apply out_string_spec|]. intros _ s' [I A]. split; [done|]. by eapply answered_command.
  - intros s. by apply runs_ret.
  - intros s Hb Hl. apply runs_ret. exists [], []. simpl. rewrite !app_nil_r. split_and!; try done; lia.
  - done.
  - done.
Qed.

Definition env : new_env := NewEnv true true true false 16 ascii_prot 0 8 4.
Definition first : conn := match conn_new cfg env 5 conn_new_cmd 0 8 tcp_transport (ConnTable ∅ 0 0 0 0) with
  | Ok (Some c, _) => c | _ => conn_alloc cfg env 5 8 end.
Definition start : net (list Z) :=
  {| cn := first; reallocs := []; event_ok := []; reads := []; datagrams := []; accepts := []; fcntls := []; use_accept4 := true;
     malloc_fails := 0; bytes_read := 0; conn_yields := 0; curr_conns := 1; reserved_fds := 0; rejected_conns := 0;
     allow_new_conns := true; now := 0; back := []; calls := []; received := []; taken := [] |}.
(** A request in one piece and a half, and its value in two. *)
Definition arrived (s : net (list Z)) : net (list Z) :=
  s <| reads := [RdData 103 [13; 10; 115]; RdAgain] |>.
Definition arrived' (s : net (list Z)) : net (list Z) :=
  s <| reads := [RdData 13 [10; 65]; RdData 66 [13]; RdData 10 []] |>.
Definition run (s : net (list Z)) : net (list Z) := match drive_machine cfg 100 s with Ok (_, s) => s | _ => s end.
Definition last : net (list Z) := run (arrived' (run (arrived (run start)))).

Example last_taken : taken last =
  [SLine [103; 13] MLine; SLine [115; 13] (MValue 4); SValue [65]; SValue [66; 13]; SValue [10]; SDone MLine].
Proof. vm_compute. reflexivity. Qed.
Example last_value : back last = [65; 66; 13; 10].
Proof. vm_compute. reflexivity. Qed.

Lemma run_serve s : runnable (cn s) -> (if drive_machine cfg 100 s is Ok _ then true else false) = true -> serve cfg s (run s).
Proof. intros Hr E. unfold run. destruct (drive_machine cfg 100 s) as [[[] s']| |] eqn:Ed; [|done..]. by apply (serve_event _ 100). Qed.
Lemma serve_arrived s : serve cfg s (arrived s).
Proof. by apply serve_env. Qed.
Lemma serve_arrived' s : serve cfg s (arrived' s).
Proof. by apply serve_env. Qed.
Lemma served : rtc (serve cfg) start last.
Proof.
  unfold last. eapply rtc_l; [apply (run_serve start); vm_compute; constructor|]. eapply rtc_l; [apply serve_arrived|].
  eapply rtc_l; [apply run_serve; vm_compute; constructor|]. eapply rtc_l; [apply serve_arrived'|].
  apply rtc_once, run_serve; vm_compute; constructor.
Qed.
Lemma start_accepted : accepted cfg start.
Proof.
  exists env, 5, 0, 8, tcp_transport, (ConnTable ∅ 0 0 0 0). eexists. split_and!; try done.
Qed.
Lemma buffers : 0 < DATA_BUFFER_SIZE cfg <= READ_BUFFER_HIGHWAT cfg.
Proof. done. Qed.
End Service.
Import Service.

Lemma stream_framed_witness :
  received Service.last = [103; 13; 10; 115; 13; 10; 65; 66; 13; 10] /\
  received Service.last = (taken Service.last ≫= seg_bytes) ++ unread (cn Service.last) /\
  framed (taken Service.last) (mode_of (cn Service.last)) /\ buf_ok (cn Service.last).
Proof.
  split; [vm_compute; reflexivity|].
  exact (stream_framed Service.cfg False (fun _ => 0%nat) Service.buffers _ _ Service.start_accepted Service.served).
Defined.

Lemma drive_machine_returns_witness : exists fuel, forall fuel', (fuel <= fuel')%nat ->
  runs False (drive_machine Service.cfg fuel') Service.last (fun _ s' => runnable (cn s') \/ c_state (cn s') = conn_closed).
Proof.
  apply (drive_machine_returns Service.cfg False (fun _ => 0%nat) Service.buffers _ _ Service.start_accepted Service.served).
  vm_compute. exact I.
Defined.
