(* ===== verification/Commands.v ===== *)
(** * The commands of the ASCII protocol (src/thread/memcached.c)

    tokenize_command, process_command with the handlers it dispatches to, and
    complete_nread_ascii, over the interface [Cache] of the item store. *)

From S2P Require Import Prelude Decimal Dispatch Conn Iov Machine.
From S2P Require Store Slabs.
From Stdlib Require SpecFloat.

(** ** Tokens *)

(** token_t tokens[]: the tokens (each ended by a zero byte written over the blank
    behind it) and the value of the terminal token, NULL or what is not scanned. *)
Record tokens_t := Tokens { toks : list (list Z); term : option (list Z) }.
Definition ntokens (t : tokens_t) : nat := S (length (toks t)).
Definition tok (t : tokens_t) (i : nat) : list Z := nth i (toks t) [].

Definition MAX_TOKENS : nat := 8.
Definition KEY_MAX_LENGTH : Z := 250.

(** The loop of tokenize_command: [cur] is what lies between s and e, [l] what
    lies from e on. *)
Fixpoint scan_tokens (max_tokens : nat) (l cur : list Z) (ts : list (list Z)) : list (list Z) * list Z * list Z :=
  match l with
  | [] => (ts, cur, [])
  | c :: l =>
      if decide (c = 32) then
        if decide (cur = []) then scan_tokens max_tokens l [] ts
        else
          let ts := ts ++ [cur] in
          if decide (length ts = (max_tokens - 1)%nat) then (ts, [], l) else scan_tokens max_tokens l [] ts
      else scan_tokens max_tokens l (cur ++ [c]) ts
  end.
Definition tokenize_command (command : list Z) (max_tokens : nat) : tokens_t :=
  let '(ts, cur, rest) := scan_tokens max_tokens (cstr command) [] [] in
  Tokens (if decide (cur = []) then ts else ts ++ [cur]) (if decide (rest = []) then None else Some rest).

(** strtol, base 10: the value and whether errno is set to ERANGE. *)
Definition strtol (str : list Z) : Z * bool :=
  let '(_, l) := span isspace str in
  let '(sg, l) := sign l in
  let '(ds, _) := span isdigit l in
  let v := if decide (sg = [45]) then - dval ds else dval ds in
  if decide (2 ^ 63 - 1 < v) then (2 ^ 63 - 1, true) else if decide (v < - 2 ^ 63) then (- 2 ^ 63, true) else (v, false).

(** ** What the commands use *)

(** The settings the commands read and write. *)
Record cmd_settings := CmdSettings {
  verbose : Z; detail_enabled : bool; slab_automove : Z; slab_automove_ratio : SpecFloat.spec_float; slab_reassign_on : bool;
  flush_enabled : bool; use_cas : bool; oldest_live : Z; oldest_cas : Z; hot_lru_pct : Z; warm_lru_pct : Z;
  hot_max_factor : SpecFloat.spec_float; warm_max_factor : SpecFloat.spec_float; lru_segmented : bool;
  lru_maintainer_thread : bool; temp_lru : bool; temporary_ttl : Z; inline_ascii_response : bool; lru_crawler : bool;
  dump_enabled : bool; lru_crawler_tocrawl : Z; lru_crawler_sleep : Z; shutdown_command : bool }.
#[export] Instance cmd_settings_eta : Eta cmd_settings := fun s => CmdSettings
  (verbose s) (detail_enabled s) (slab_automove s) (slab_automove_ratio s) (slab_reassign_on s) (flush_enabled s) (use_cas s)
  (oldest_live s) (oldest_cas s) (hot_lru_pct s) (warm_lru_pct s) (hot_max_factor s) (warm_max_factor s) (lru_segmented s)
  (lru_maintainer_thread s) (temp_lru s) (temporary_ttl s) (inline_ascii_response s) (lru_crawler s) (dump_enabled s)
  (lru_crawler_tocrawl s) (lru_crawler_sleep s) (shutdown_command s).

(** The thread's counters. *)
Inductive counter :=
| get_cmds | get_misses | lru_hits (cls : Z) | touch_cmds | touch_misses | touch_hits (cls : Z)
| incr_misses | decr_misses | delete_misses | delete_hits (cls : Z) | set_cmds (cls : Z) | flush_cmds.

Inductive crawler_result := CRAWLER_OK | CRAWLER_RUNNING | CRAWLER_BADCLASS | CRAWLER_NOTSTARTED | CRAWLER_ERROR.
Inductive logger_add_watcher_ret := LOGGER_ADD_WATCHER_TOO_MANY | LOGGER_ADD_WATCHER_OK | LOGGER_ADD_WATCHER_FAILED.
#[export] Instance logger_ret_eq_dec : EqDecision logger_add_watcher_ret.
Proof. solve_decision. Defined.

(** The item store: the functions of thread.c on items (item_remove is in
    [Backend]), the fields of an item the commands read, the slab allocator's and
    the crawler's requests, the counters and settings. *)
Class Cache (S : Type) := {
  item_get : list Z -> bool -> M S Z;
  item_touch : list Z -> Z -> M S Z;
  item_alloc : list Z -> Z -> Z -> Z -> M S Z;
  item_unlink : Z -> M S unit;
  item_set_cas : Z -> Z -> M S unit;
  item_size_ok : Z -> Z -> Z -> S -> bool;
  store_item : Z -> Z -> M S (Store.store_item_type * Z);
  add_delta : list Z -> bool -> Z -> M S (Store.delta_result_type * list Z);
  it_nkey : S -> Z -> Z; it_nbytes : S -> Z -> Z; it_nsuffix : S -> Z -> Z; it_clsid : S -> Z -> Z;
  it_data : S -> Z -> Z -> Z -> list Z;
  (* the last two bytes of a chunked value, from the chunk c->ritem points at *)
  chunk_end : S -> ptr -> option (list Z);
  get_cas_id : M S Z;
  count : counter -> M S unit;
  the_settings : S -> cmd_settings;
  set_settings : (cmd_settings -> cmd_settings) -> S -> S;
  record_get : list Z -> bool -> M S unit;
  record_set : list Z -> M S unit;
  record_delete : list Z -> M S unit;
  slabs_reassign : Z -> Z -> M S Slabs.reassign_result_type;
  slabs_adjust_mem_limit : Z -> M S bool;
  lru_crawler_crawl : list Z -> bool -> Z -> M S crawler_result;
  start_item_crawler_thread : M S Z;
  stop_item_crawler_thread : M S Z;
  logger_add_watcher : Z -> M S logger_add_watcher_ret }.

(** Functions the sources call and do not give, and what errno holds before. *)
Class Ext (S : Type) := {
  limited_get : list Z -> Z -> bool -> M S Z;
  realtime : Z -> S -> Z;
  safe_strtol : list Z -> option Z;
  safe_strtoul : list Z -> option Z;
  safe_strtod : list Z -> option SpecFloat.spec_float;
  errno_erange : S -> bool;
  ascii_get_expand_ilist : Z -> M (net S) Z;
  ascii_get_suffix_buf : Z -> M (net S) Z;
  make_ascii_get_suffix : Z -> Z -> bool -> Z -> M S Z;
  add_chunked_item_iovs : Z -> Z -> M (net S) Z;
  ext_build_udp_headers : M (net S) Z;
  process_stat : tokens_t -> M (net S) unit;
  version : list Z;
  REALTIME_MAXDELTA : Z; MAX_VERBOSITY_LEVEL : Z; LRU_CRAWLER_CAP_REMAINING : Z;
  LOG_RAWCMDS : Z; LOG_EVICTIONS : Z; LOG_FETCHERS : Z; LOG_MUTATIONS : Z; LOG_SYSEVENTS : Z;
  INT_MAX : Z }.

Section commands.
Context {S : Type} {B : Backend S} {K : Cache S} {X : Ext S} (cfg : conn_cfg).
Abbreviation Mn := (M (net S)).
Abbreviation add_iov := (add_iov cfg).
Abbreviation out_string := (fun s : string => out_string cfg (lit s)).

(** An operation of the store. *)
Definition on_back {A} (m : M S A) : Mn A := fun s =>
  match m (back s) with Ok (a, b) => Ok (a, s <| back := b |>) | Abort => Abort | NoFuel => NoFuel end.
Definition setting {A} (f : cmd_settings -> A) : Mn A := gets (fun s => f (the_settings (back s))).
Definition set_setting (f : cmd_settings -> cmd_settings) : Mn unit := modify (fun s => s <| back ::= set_settings f |>).
Definition tally (x : counter) : Mn unit := on_back (count x).
Definition field {A} (f : S -> A) : Mn A := gets (fun s => f (back s)).
Definition release (it : Z) : Mn unit := with_back (item_remove it).

(** out_of_memory of an ASCII connection. *)
Definition out_of_memory (s : string) : Mn unit := out_string s.

(** if (tokens[noreply_index].value && strcmp(..., "noreply") == 0) c->noreply = true; return c->noreply *)
Definition set_noreply_maybe (t : tokens_t) : Mn bool :=
  when (bool_decide (tok t (ntokens t - 2) = lit "noreply")) (setc (fun c => c <| noreply := true |>));;
  getc noreply.

Definition too_long_key (t : tokens_t) : bool := bool_decide (KEY_MAX_LENGTH < Z.of_nat (length (tok t 1))).

(** ** get, gets, gat, gats *)

(** a != 0 || b != 0 *)
Definition first_failure (l : list (Mn Z)) : Mn bool :=
  foldr (fun m rest => r ← m; if decide (r <> 0) then mret true else rest) (mret false) l.

Definition item_key (it : Z) : ptr := Ptr (LItemKey it) 0.
Definition item_data (it : Z) : ptr := Ptr (LItem it) 0.
Definition item_suffix (nsuffix it : Z) : ptr := Ptr (LItem it) (- nsuffix).

(** The buffers of a hit: whether they could be added, and si. *)
Definition get_response (return_cas inline : bool) (it si : Z) : Mn (bool * Z) :=
  nkey ← field (fun b => it_nkey b it);
  nbytes ← field (fun b => it_nbytes b it);
  nsuffix ← field (fun b => it_nsuffix b it);
  chunked ← field (fun b => item_chunked b it);
  if return_cas || negb inline then
    suffix ← ascii_get_suffix_buf si;
    if decide (suffix = 0) then mret (false, si)
    else
      let si := si + 1 in
      suffix_len ← on_back (make_ascii_get_suffix suffix it return_cas nbytes);
      failed ← first_failure
        ([add_iov (Ptr (LStr (lit "VALUE")) 0) 6; add_iov (item_key it) nkey] ++
         (if inline then [add_iov (item_suffix nsuffix it) (nsuffix - 2)] else []) ++
         [add_iov (Ptr (LSuffix suffix) 0) suffix_len]);
      if (failed : bool) then mret (false, si)
      else if negb chunked then _ ← add_iov (item_data it) nbytes; mret (true, si)
      else r ← add_chunked_item_iovs it nbytes; mret (bool_decide (r = 0), si)
  else
    failed ← first_failure [add_iov (Ptr (LStr (lit "VALUE ")) 0) 6; add_iov (item_key it) nkey];
    if (failed : bool) then mret (false, si)
    else if negb chunked then
      r ← add_iov (item_suffix nsuffix it) (nsuffix + nbytes); mret (bool_decide (r = 0), si)
    else
      failed ← first_failure [add_iov (item_suffix nsuffix it) nsuffix; add_chunked_item_iovs it nbytes];
      mret (negb failed, si).

(** One key: go on with the next one, leave the loop, or leave the function. *)
Inductive key_result := KeyNext (i si : Z) | KeyBreak (i si : Z) | KeyBad.

Definition get_key (return_cas should_touch inline : bool) (exptime : Z) (key : list Z) (i si : Z) : Mn key_result :=
  if decide (KEY_MAX_LENGTH < Z.of_nat (length key)) then
    out_string "CLIENT_ERROR bad command line format";;
    (fix undo (n : nat) : Mn unit :=
       match n with
       | O => mret tt
       | Datatypes.S n =>
           c ← getc id;
           release (nth n (ilist c) 0);;
           when (return_cas || negb inline) (with_back (fun b => Ok (suffix_free (nth n (suffixlist c) 0) b)));;
           undo n
       end) (Z.to_nat i);;
    mret KeyBad
  else
    it ← on_back (limited_get key exptime should_touch);
    detail ← setting detail_enabled;
    when detail (on_back (record_get key (bool_decide (it <> 0))));;
    if decide (it <> 0) then
      r ← ascii_get_expand_ilist i;
      if decide (r <> 0) then release it;; mret (KeyBreak i si)
      else
        '(ok, si) ← get_response return_cas inline it si;
        if negb ok then release it;; mret (KeyBreak i si)
        else
          cls ← field (fun b => it_clsid b it);
          (if should_touch then tally touch_cmds;; tally (touch_hits cls) else tally (lru_hits cls);; tally get_cmds);;
          setc (fun c => c <| ilist ::= <[Z.to_nat i := it]> |>);;
          mret (KeyNext (i + 1) si)
    else
      (if should_touch then tally touch_cmds;; tally touch_misses else tally get_misses;; tally get_cmds);;
      mret (KeyNext i si).

(** while (key_token->length != 0): what key_token->value is at its end. *)
Fixpoint get_keys (return_cas should_touch inline : bool) (exptime : Z) (keys : list (list Z)) (rest : option (list Z)) (i si : Z) :
    Mn (option (option (list Z) * Z * Z)) :=
  match keys with
  | [] => mret (Some (rest, i, si))
  | key :: keys =>
      r ← get_key return_cas should_touch inline exptime key i si;
      match r with
      | KeyNext i si => get_keys return_cas should_touch inline exptime keys rest i si
      | KeyBreak i si => mret (Some (Some key, i, si))
      | KeyBad => mret None
      end
  end.

(** do ... while (key_token->value != NULL): a key that broke the inner loop is
    itself what is tokenized next. *)
Fixpoint get_loop (fuel : nat) (return_cas should_touch inline : bool) (exptime : Z) (keys : list (list Z)) (rest : option (list Z)) (i si : Z) :
    Mn (option (Z * Z)) :=
  match fuel with
  | O => nofuel
  | Datatypes.S fuel =>
      r ← get_keys return_cas should_touch inline exptime keys rest i si;
      match r with
      | None => mret None
      | Some (None, i, si) => mret (Some (i, si))
      | Some (Some l, i, si) =>
          let t := tokenize_command l MAX_TOKENS in
          (* tokens[0].value is NULL only when nothing is left *)
          match toks t, term t with
          | [], None => mret (Some (i, si))
          | ks, rest => get_loop fuel return_cas should_touch inline exptime ks rest i si
          end
      end
  end.

Definition get_done (return_cas inline : bool) (i si : Z) : Mn unit :=
  setc (fun c => c <| icurr := 0 |> <| ileft := i |>);;
  when (return_cas || negb inline) (setc (fun c => c <| suffixcurr := 0 |> <| suffixleft := si |>));;
  udp ← getc (fun c => IS_UDP (c_transport c));
  failed ← first_failure ([add_iov (Ptr (LStr (lit "END" ++ crlf)) 0) 5] ++ (if (udp : bool) then [ext_build_udp_headers] else []));
  if (failed : bool) then out_of_memory "SERVER_ERROR out of memory writing get response"
  else conn_set_state conn_mwrite;; setc (fun c => c <| msgcurr := 0 |>).

Definition process_get_command (t : tokens_t) (return_cas should_touch : bool) : Mn unit :=
  inline ← setting inline_ascii_response;
  exptime ← (if should_touch then
    match safe_strtol (tok t 1) with None => mret None | Some e => r ← field (realtime e); mret (Some r) end
    else mret (Some 0));
  match exptime with
  | None => out_string "CLIENT_ERROR invalid exptime argument"
  | Some exptime =>
      let keys := drop (if should_touch then 2 else 1) (toks t) in
      fuel ← gets (fun s => length (mjoin (toks t)) + length (default [] (term t)) + length (reallocs s))%nat;
      r ← get_loop (fuel + 2) return_cas should_touch inline exptime keys (term t) 0 0;
      match r with None => mret tt | Some (i, si) => get_done return_cas inline i si end
  end.

(** ** set, add, replace, append, prepend, cas *)

(** flags, exptime and vlen of the line *)
Definition update_numbers (t : tokens_t) : option (Z * Z * Z) :=
  match safe_strtoul (tok t 2), safe_strtol (tok t 3), safe_strtol (tok t 4) with
  | Some flags, Some exptime, Some vlen => Some (flags, exptime, vlen)
  | _, _, _ => None
  end.

(** No item could be had: the data line is to be swallowed, and for set the old
    value goes. *)
Definition update_refused (key : list Z) (flags vlen comm : Z) : Mn unit :=
  fits ← field (item_size_ok (Z.of_nat (length key)) flags vlen);
  (if (fits : bool) then out_of_memory "SERVER_ERROR out of memory storing object"
   else out_string "SERVER_ERROR object too large for cache");;
  setc (fun c => c <| write_and_go := conn_swallow |> <| sbytes := vlen |>);;
  when (bool_decide (comm = Store.NREAD_SET))
    (it ← on_back (item_get key false);
     when (bool_decide (it <> 0)) (on_back (item_unlink it);; release it)).

Definition process_update_command (t : tokens_t) (comm : Z) (handle_cas : bool) : Mn unit :=
  _ ← set_noreply_maybe t;
  if too_long_key t then out_string "CLIENT_ERROR bad command line format"
  else
    let key := tok t 1 in
    match update_numbers t with
    | None => out_string "CLIENT_ERROR bad command line format"
    | Some (flags, exptime_int, vlen) =>
        let exptime := if decide (exptime_int < 0) then REALTIME_MAXDELTA + 1 else exptime_int in
        match (if handle_cas then safe_strtoull (tok t 5) else Some 0) with
        | None => out_string "CLIENT_ERROR bad command line format"
        | Some req_cas_id =>
            if decide (vlen < 0 \/ INT_MAX - 2 < vlen) then out_string "CLIENT_ERROR bad command line format"
            else
              let vlen := vlen + 2 in
              detail ← setting detail_enabled;
              when detail (on_back (record_set key));;
              rt ← field (realtime exptime);
              it ← on_back (item_alloc key flags rt vlen);
              if decide (it = 0) then update_refused key flags vlen comm
              else
                on_back (item_set_cas it req_cas_id);;
                nbytes ← field (fun b => it_nbytes b it);
                setc (fun c => c <| c_item := it |> <| ritem := item_data it |> <| rlbytes := nbytes |> <| c_cmd := comm |>);;
                conn_set_state conn_nread
        end
    end.

Definition nread_answer (is_valid : bool) (it comm : Z) : Mn unit :=
  if negb is_valid then out_string "CLIENT_ERROR bad data chunk"
   else
     '(ret, cas) ← on_back (store_item it comm);
     when (if ret is Store.STORED then true else false) (setc (fun c => c <| c_cas := cas |>));;
     match ret with
     | Store.STORED => out_string "STORED"
     | Store.EXISTS => out_string "EXISTS"
     | Store.NOT_FOUND => out_string "NOT_FOUND"
     | Store.NOT_STORED => out_string "NOT_STORED"
     | _ => mret tt (* the label is spelled defalut *)
     end.

Definition complete_nread_ascii : Mn unit :=
  it ← getc c_item;
  comm ← getc c_cmd;
  cls ← field (fun b => it_clsid b it);
  tally (set_cmds cls);;
  chunked ← field (fun b => item_chunked b it);
  nbytes ← field (fun b => it_nbytes b it);
  r ← getc ritem;
  is_valid ← (if (chunked : bool) then
      e ← field (fun b => chunk_end b r);
      match e with None => massert false;; mret false | Some e => massert (bool_decide (e = crlf));; mret true end
    else e ← field (fun b => it_data b it (nbytes - 2) 2); mret (bool_decide (e = crlf)));
  nread_answer is_valid it comm;;
  it ← getc c_item;
  release it;;
  setc (fun c => c <| c_item := 0 |>).

(** ** touch, incr, decr, delete *)

Definition process_touch_command (t : tokens_t) : Mn unit :=
  _ ← set_noreply_maybe t;
  if too_long_key t then out_string "CLIENT_ERROR bad command line format"
  else
    match safe_strtol (tok t 2) with
    | None => out_string "CLIENT_ERROR invalid exptime argument"
    | Some exptime_int =>
        rt ← field (realtime exptime_int);
        it ← on_back (item_touch (tok t 1) rt);
        if decide (it <> 0) then
          cls ← field (fun b => it_clsid b it);
          tally touch_cmds;; tally (touch_hits cls);;
          out_string "TOUCHED";;
          release it
        else tally touch_cmds;; tally touch_misses;; out_string "NOT_FOUND"
    end.

Definition process_arithmetic_command (t : tokens_t) (incr : bool) : Mn unit :=
  _ ← set_noreply_maybe t;
  if too_long_key t then out_string "CLIENT_ERROR bad command line format"
  else
    match safe_strtoull (tok t 2) with
    | None => out_string "CLIENT_ERROR invalid numeric delta argument"
    | Some delta =>
        '(r, temp) ← on_back (add_delta (tok t 1) incr delta);
        match r with
        | Store.DELTA_OK => Conn.out_string cfg temp
        | Store.NON_NUMERIC => out_string "CLIENT_ERROR cannot increment or decrement non-numeric value"
        | Store.EOM => out_of_memory "SERVER_ERROR out of memory"
        | Store.DELTA_ITEM_NOT_FOUND => tally (if incr then incr_misses else decr_misses);; out_string "NOT_FOUND"
        | Store.DELTA_ITEM_CAS_MISMATCH => mret tt
        end
    end.

Definition process_delete_command (t : tokens_t) : Mn unit :=
  let n := ntokens t in
  valid ← (if decide (3 < n)%nat then
      let hold_is_zero := bool_decide (tok t 2 = lit "0") in
      sets_noreply ← set_noreply_maybe t;
      mret ((bool_decide (n = 4)%nat && (hold_is_zero || sets_noreply)) || (bool_decide (n = 5)%nat && hold_is_zero && sets_noreply))
    else mret true);
  if negb valid then out_string "CLIENT_ERROR bad command line format.  Usage: delete <key> [noreply]"
  else if too_long_key t then out_string "CLIENT_ERROR bad command line format"
  else
    let key := tok t 1 in
    detail ← setting detail_enabled;
    when detail (on_back (record_delete key));;
    it ← on_back (item_get key false);
    if decide (it <> 0) then
      cls ← field (fun b => it_clsid b it);
      tally (delete_hits cls);;
      on_back (item_unlink it);;
      release it;;
      out_string "DELETED"
    else tally delete_misses;; out_string "NOT_FOUND".

(** ** The other commands *)

Definition process_verbosity_command (t : tokens_t) : Mn unit :=
  _ ← set_noreply_maybe t;
  let level := strtoul32 (tok t 1) in
  set_setting (fun s => s <| verbose := if decide (MAX_VERBOSITY_LEVEL < level) then MAX_VERBOSITY_LEVEL else level |>);;
  out_string "OK".

Definition process_slabs_automove_command (t : tokens_t) : Mn unit :=
  _ ← set_noreply_maybe t;
  if decide (tok t 2 = lit "ratio") then
    match (if decide (ntokens t < 5)%nat then None else safe_strtod (tok t 3)) with
    | None => out_string "ERROR"
    | Some ratio => set_setting (fun s => s <| slab_automove_ratio := ratio |>);; out_string "OK"
    end
  else
    let level := strtoul32 (tok t 2) in
    if decide (level = 0 \/ level = 1 \/ level = 2) then
      set_setting (fun s => s <| slab_automove := level |>);; out_string "OK"
    else out_string "ERROR".

(** The flags of the words behind watch; [None]: an unknown word. *)
Fixpoint watch_flags (l : list (list Z)) (f : Z) : option Z :=
  match l with
  | [] => Some f
  | w :: l =>
      if decide (w = lit "rawcmds") then watch_flags l (Z.lor f LOG_RAWCMDS)
      else if decide (w = lit "evictions") then watch_flags l (Z.lor f LOG_EVICTIONS)
      else if decide (w = lit "fetchers") then watch_flags l (Z.lor f LOG_FETCHERS)
      else if decide (w = lit "mutations") then watch_flags l (Z.lor f LOG_MUTATIONS)
      else if decide (w = lit "sysevents") then watch_flags l (Z.lor f LOG_SYSEVENTS)
      else None
  end.
Definition process_watch_command (t : tokens_t) : Mn unit :=
  _ ← set_noreply_maybe t;
  match (if decide (2 < ntokens t)%nat then watch_flags (drop 1 (toks t)) 0 else Some LOG_FETCHERS) with
  | None => out_string "ERROR"
  | Some f =>
      r ← on_back (logger_add_watcher f);
      match r with
      | LOGGER_ADD_WATCHER_TOO_MANY => out_string "WATCHER_TOO_MANY log watcher limit reached"
      | LOGGER_ADD_WATCHER_FAILED => out_string "WATCHER_FAILED failed to add log watcher"
      | LOGGER_ADD_WATCHER_OK => conn_set_state conn_watch;; log CallEventDel
      end
  end.

Definition process_memlimit_command (t : tokens_t) : Mn unit :=
  _ ← set_noreply_maybe t;
  match safe_strtoul (tok t 1) with
  | None => out_string "ERROR"
  | Some memlimit =>
      if decide (memlimit < 8) then out_string "MEMLIMIT_TOO_SMALL cannot set maxbytes to less than 8m"
      else if decide (1000000000 < memlimit) then out_string "MEMLIMIT_ADJUST_FAILED input value is megabytes not bytes"
      else
        ok ← on_back (slabs_adjust_mem_limit (memlimit * 1024 * 1024));
        if (ok : bool) then out_string "OK" else out_string "MEMLIMIT_ADJUST_FAILED out of bounds or unable to adjust"
  end.

Definition process_lru_command (t : tokens_t) : Mn unit :=
  _ ← set_noreply_maybe t;
  maintainer ← setting lru_maintainer_thread;
  if decide (tok t 1 = lit "tune" /\ (7 <= ntokens t)%nat) then
    match safe_strtoul (tok t 2), safe_strtoul (tok t 3), safe_strtod (tok t 4), safe_strtod (tok t 5) with
    | Some pct_hot, Some pct_warm, Some hot_factor, Some factor =>
        let zero := SpecFloat.S754_zero false in
        if decide (80 < u32 (pct_hot + pct_warm)) then out_string "ERROR hot and warm pcts must not exceed 80"
        else if SpecFloat.SFleb factor zero || SpecFloat.SFleb hot_factor zero then
          out_string "ERROR hot/warm age factors must be greater than 0"
        else
          set_setting (fun s => s <| hot_lru_pct := pct_hot |> <| warm_lru_pct := pct_warm |>
                                  <| hot_max_factor := hot_factor |> <| warm_max_factor := factor |>);;
          out_string "OK"
    | _, _, _, _ => out_string "ERROR"
    end
  else if decide (tok t 1 = lit "mode" /\ (3 <= ntokens t)%nat /\ maintainer = true) then
    if decide (tok t 2 = lit "flat") then set_setting (fun s => s <| lru_segmented := false |>);; out_string "OK"
    else if decide (tok t 2 = lit "segmented") then set_setting (fun s => s <| lru_segmented := true |>);; out_string "OK"
    else out_string "ERROR"
  else if decide (tok t 1 = lit "temp_ttl" /\ (3 <= ntokens t)%nat /\ maintainer = true) then
    match safe_strtol (tok t 2) with
    | None => out_string "ERROR"
    | Some ttl =>
        set_setting (fun s => if decide (ttl < 0) then s <| temp_lru := false |>
                              else s <| temp_lru := true |> <| temporary_ttl := ttl |>);;
        out_string "OK"
    end
  else out_string "ERROR".

(** flush_all *)
Definition process_flush_all (t : tokens_t) : Mn unit :=
  _ ← set_noreply_maybe t;
  tally flush_cmds;;
  enabled ← setting flush_enabled;
  if negb enabled then out_string "CLIENT_ERROR flush_all not allowed"
  else
    nr ← getc noreply;
    stale ← field errno_erange;
    let given := bool_decide (ntokens t <> if (nr : bool) then 3 else 2)%nat in
    let '(exptime, erange) := if given then strtol (tok t 1) else (0, false) in
    (* errno is not cleared before the call *)
    if given && (erange || stale) then out_string "CLIENT_ERROR bad command lien format"
    else
      tnow ← gets now;
      rt ← field (realtime exptime);
      let new_oldest := if decide (0 < exptime) then rt else tnow in
      cas ← setting use_cas;
      (if (cas : bool) then
         let live := u32 (new_oldest - 1) in
         set_setting (fun s => s <| oldest_live := live |>);;
         if decide (live <= tnow) then id ← on_back get_cas_id; set_setting (fun s => s <| oldest_cas := id |>) else mret tt
       else set_setting (fun s => s <| oldest_live := new_oldest |>));;
      out_string "OK".

Definition process_slabs (t : tokens_t) : Mn unit :=
  if decide (ntokens t = 5%nat /\ tok t 1 = lit "reassign") then
    on ← setting slab_reassign_on;
    stale ← field errno_erange;
    if negb on then out_string "CLIENT_ERROR slab reassignment disabled"
    else
      let '(src, e1) := strtol (tok t 2) in
      let '(dst, e2) := strtol (tok t 3) in
      if stale || e1 || e2 then out_string "CLIENT_ERROR bad command line format"
      else
        rv ← on_back (slabs_reassign (s32 src) (s32 dst));
        match rv with
        | Slabs.REASSIGN_OK => out_string "OK"
        | Slabs.REASSIGN_RUNNING => out_string "BUSY currently processing reassign request"
        | Slabs.REASSIGN_BADCLASS => out_string "BADCLASS invalid src or dst class id"
        | Slabs.REASSIGN_NOSPARE => out_string "NOSPARE source class has no spare pages"
        | Slabs.REASSIGN_SRC_DST_SAME => out_string "SAME src and dst class are identica"
        end
  else if decide ((4 <= ntokens t)%nat /\ tok t 1 = lit "automove") then process_slabs_automove_command t
  else out_string "ERROR".

Definition crawl_failed (rv : crawler_result) : Mn unit :=
  match rv with
  | CRAWLER_OK => mret tt
  | CRAWLER_RUNNING => out_string "BUSY currently processing crawler request"
  | CRAWLER_BADCLASS => out_string "BADCLASS invalid class id"
  | CRAWLER_NOTSTARTED => out_string "NOTSTARTED no items to crawl"
  | CRAWLER_ERROR => out_string "ERROR an unknown error happened"
  end.

Definition process_lru_crawler (t : tokens_t) : Mn unit :=
  let four := bool_decide (ntokens t = 4)%nat in
  on ← setting lru_crawler;
  if four && bool_decide (tok t 1 = lit "crawl") then
    if negb on then out_string "CLIENT_ERROR lru crawler disabled"
    else
      n ← setting lru_crawler_tocrawl;
      rv ← on_back (lru_crawler_crawl (tok t 2) false n);
      match rv with CRAWLER_OK => out_string "OK" | _ => crawl_failed rv end
  else if four && bool_decide (tok t 1 = lit "metadump") then
    dump ← setting dump_enabled;
    if negb on then out_string "CLIENT_ERROR lru crawler disabled"
    else if negb dump then out_string "ERROR metadump not allowed"
    else
      rv ← on_back (lru_crawler_crawl (tok t 2) true LRU_CRAWLER_CAP_REMAINING);
      match rv with CRAWLER_OK => out_string "OK";; conn_set_state conn_watch;; log CallEventDel | _ => crawl_failed rv end
  else if four && bool_decide (tok t 1 = lit "tocrawl") then
    match safe_strtoul (tok t 2) with
    | None => out_string "CLIENT_ERROR bad command line format"
    | Some n => set_setting (fun s => s <| lru_crawler_tocrawl := n |>);; out_string "OK"
    end
  else if four && bool_decide (tok t 1 = lit "sleep") then
    match safe_strtoul (tok t 2) with
    | None => out_string "CLIENT_ERROR bad command line format"
    | Some n =>
        if decide (1000000 < n) then out_string "CLIENT_ERROR sleep must be one second or less"
        else set_setting (fun s => s <| lru_crawler_sleep := n |>);; out_string "OK"
    end
  else if decide (ntokens t = 3%nat) then
    if decide (tok t 1 = lit "enable") then
      r ← on_back start_item_crawler_thread;
      if decide (r = 0) then out_string "OK" else out_string "ERROR failed to start lru crawler thread"
    else if decide (tok t 1 = lit "disable") then
      r ← on_back stop_item_crawler_thread;
      if decide (r = 0) then out_string "OK" else out_string "ERROR failed to stop lru crawler thread"
    else out_string "ERROR"
  else out_string "ERROR".

(** ** process_command *)

Definition update_command (c : list Z) : option Z :=
  if decide (c = lit "add") then Some Store.NREAD_ADD
  else if decide (c = lit "set") then Some Store.NREAD_SET
  else if decide (c = lit "replace") then Some Store.NREAD_REPLACE
  else if decide (c = lit "prepend") then Some Store.NREAD_PREPEND
  else if decide (c = lit "append") then Some Store.NREAD_APPEND
  else None.

(** The cascade on the number of tokens and the first one. *)
Definition dispatch (t : tokens_t) : Mn unit :=
  let n := Z.of_nat (ntokens t) in
  let c := tok t 0 in
  let named s := bool_decide (c = lit s) in
  if bool_decide (3 <= n) && (named "get" || named "bget") then process_get_command t false false
  else
  match (if decide (n = 6 \/ n = 7) then update_command c else None) with
  | Some comm => process_update_command t comm false
  | None =>
  if bool_decide (n = 7 \/ n = 8) && named "cas" then process_update_command t Store.NREAD_CAS true
  else if bool_decide (n = 4 \/ n = 5) && named "incr" then process_arithmetic_command t true
  else if bool_decide (3 <= n) && named "gets" then process_get_command t true false
  else if bool_decide (n = 4 \/ n = 5) && named "decr" then process_arithmetic_command t false
  else if bool_decide (3 <= n <= 5) && named "delete" then process_delete_command t
  else if bool_decide (n = 4 \/ n = 5) && named "touch" then process_touch_command t
  else if bool_decide (4 <= n) && named "gat" then process_get_command t false true
  else if bool_decide (4 <= n) && named "gats" then process_get_command t true true
  else if bool_decide (2 <= n) && named "stats" then process_stat t
  else if bool_decide (2 <= n <= 4) && named "flush_all" then process_flush_all t
  else if bool_decide (n = 2) && named "version" then Conn.out_string cfg (lit "VERSION " ++ version)
  else if bool_decide (n = 2) && named "quit" then conn_set_state conn_closing
  else if bool_decide (n = 2) && named "shutdown" then
    on ← setting shutdown_command;
    if (on : bool) then conn_set_state conn_closing (* raise(SIGINT) *) else out_string "ERROR: shutdown not enabled"
  else if bool_decide (1 < n) && named "slabs" then process_slabs t
  else if bool_decide (1 < n) && named "lru_crawler" then process_lru_crawler t
  else if bool_decide (1 < n) && named "watch" then process_watch_command t
  else if bool_decide (n = 3 \/ n = 4) && named "cache_memlimit" then process_memlimit_command t
  else if bool_decide (n = 3 \/ n = 4) && named "verbosity" then process_verbosity_command t
  else if bool_decide (3 <= n) && named "lru" then process_lru_command t
  else if bool_decide (2 <= n) && bool_decide (take 5 (tok t (ntokens t - 2)) = lit "HTTP/") then conn_set_state conn_closing
  else out_string "ERROR"
  end.

Definition process_command (command : list Z) : Mn unit :=
  setc (fun c => c <| msgcurr := 0 |> <| msgused := 0 |> <| iovused := 0 |>);;
  r ← add_msghdr cfg;
  if decide (r <> 0) then out_of_memory "SERVER_ERROR out of memory preparing response"
  else dispatch (tokenize_command command MAX_TOKENS).
End commands.

(** ** The tokenizer *)

(** The words of a line: what lies between blanks. *)
Fixpoint words_from (cur l : list Z) : list (list Z) :=
  match l with
  | [] => if decide (cur = []) then [] else [cur]
  | c :: l =>
      if decide (c = 32) then (if decide (cur = []) then [] else [cur]) ++ words_from [] l
      else words_from (cur ++ [c]) l
  end.
Definition words (l : list Z) : list (list Z) := words_from [] l.
Definition word (w : list Z) : Prop := w <> [] /\ (32 : Z) ∉ w.

Lemma scan_tokens_words max l cur ts ts' cur' rest : scan_tokens max l cur ts = (ts', cur', rest) ->
  ts ++ words_from cur l = ts' ++ (if decide (cur' = []) then [] else [cur']) ++ words rest.
Proof.
  revert cur ts. induction l as [|c l IH]; intros cur ts E; cbn [scan_tokens words_from] in *.
  - injection E as <- <- <-. unfold words. simpl. by rewrite app_nil_r.
  - destruct (decide (c = 32)); [|by apply IH]. destruct (decide (cur = [])); [by apply IH|].
    destruct (decide (length (ts ++ [cur]) = (max - 1)%nat)).
    + injection E as <- <- <-. rewrite decide_True by done. unfold words. by rewrite <- app_assoc.
    + apply IH in E. by rewrite <- E, <- app_assoc.
Qed.

(** How far the scan goes: to the end, or until the tokens are full. *)
Lemma scan_tokens_bound max l cur ts ts' cur' rest : scan_tokens max l cur ts = (ts', cur', rest) ->
  (length ts < max - 1)%nat ->
  (rest = [] /\ (length ts' < max - 1)%nat \/ cur' = [] /\ length ts' = (max - 1)%nat /\ (length rest < length l)%nat) /\
  exists pre, l = pre ++ rest.
Proof.
  revert cur ts. induction l as [|c l IH]; intros cur ts E Hlt; cbn [scan_tokens] in *.
  - injection E as <- <- <-. split; [by left|by exists []].
  - destruct (decide (c = 32)).
    + destruct (decide (cur = [])).
      * apply IH in E as [E [pre ->]]; [|done]. split; [simpl; destruct E as [?|(? & ? & ?)]; [by left|right; split_and!; auto]|by exists (c :: pre)].
      * destruct (decide (length (ts ++ [cur]) = (max - 1)%nat)) as [Hl|Hl].
        -- injection E as <- <- <-. split; [right; simpl; split_and!; auto|by exists [c]].
        -- apply IH in E as [E [pre ->]]; [|rewrite length_app in *; simpl in *; lia].
           split; [simpl; destruct E as [?|(? & ? & ?)]; [by left|right; split_and!; auto]|by exists (c :: pre)].
    + apply IH in E as [E [pre ->]]; [|done]. split; [simpl; destruct E as [?|(? & ? & ?)]; [by left|right; split_and!; auto]|by exists (c :: pre)].
Qed.

Lemma words_from_word cur l : (32 : Z) ∉ cur -> Forall word (words_from cur l).
Proof.
  revert cur. induction l as [|c l IH]; intros cur Hc; cbn [words_from].
  - destruct (decide (cur = [])); [constructor|]. by repeat constructor.
  - destruct (decide (c = 32)) as [->|Hne].
    + apply Forall_app. split; [|apply IH, not_elem_of_nil]. destruct (decide (cur = [])); [constructor|]. by repeat constructor.
    + apply IH. intros [?|E%list_elem_of_singleton]%elem_of_app; [done|]. by destruct Hne.
Qed.

Lemma words_from_app cur w : (32 : Z) ∉ w -> words_from cur w = if decide (cur ++ w = []) then [] else [cur ++ w].
Proof.
  revert cur. induction w as [|c w IH]; intros cur Hw; cbn [words_from]; [by rewrite app_nil_r|].
  apply not_elem_of_cons in Hw as [Hc Hw]. rewrite decide_False by congruence. rewrite IH by done. by rewrite <- app_assoc.
Qed.

Lemma cstr_suffix pre rest : cstr (pre ++ rest) = pre ++ rest -> cstr rest = rest.
Proof.
  unfold cstr. induction pre as [|c pre IH]; [done|]. simpl. case_bool_decide; simpl; [done|].
  destruct (span _ (pre ++ rest)) as [a b]. simpl in *. intros [= E]. by apply IH.
Qed.
Lemma cstr_idem l : cstr (cstr l) = cstr l.
Proof.
  unfold cstr. induction l as [|c l IH]; [done|]. simpl. case_bool_decide as Hc; simpl; [done|].
  destruct (span _ l) as [a b]. simpl in *. rewrite bool_decide_eq_false_2 by done. simpl.
  destruct (span _ a) as [a' b']. simpl in *. by rewrite IH.
Qed.

Lemma tokenize_spec command max_tokens : (1 < max_tokens)%nat ->
  let t := tokenize_command command max_tokens in
  words (cstr command) = toks t ++ words (default [] (term t)) /\ Forall word (toks t) /\
  (ntokens t <= max_tokens)%nat /\
  match term t with
  | None => True
  | Some rest => rest <> [] /\ cstr rest = rest /\ ntokens t = max_tokens /\ (length rest < length (cstr command))%nat
  end.
Proof.
  intros Hmax. unfold tokenize_command, ntokens. destruct (scan_tokens max_tokens (cstr command) [] []) as [[ts cur] rest] eqn:E. simpl.
  pose proof (scan_tokens_words _ _ _ _ _ _ _ E) as W. apply scan_tokens_bound in E as [Hb [pre Hp]]; [|simpl; lia].
  assert (words (cstr command) = (if decide (cur = []) then ts else ts ++ [cur]) ++ words rest) as W2.
  { unfold words at 1. simpl in W. rewrite W. destruct (decide (cur = [])); [done|]. by rewrite <- app_assoc. }
  split; [rewrite W2; by destruct (decide (rest = [])) as [->|]|]. split.
  { pose proof (words_from_word [] (cstr command) (not_elem_of_nil _)) as F. change (Forall word (words (cstr command))) in F.
    rewrite W2 in F. by apply Forall_app in F as [F _]. }
  split; [destruct Hb as [[-> ?]|(-> & ? & ?)]; destruct (decide _); rewrite ?length_app; simpl; try done; lia|].
  destruct (decide (rest = [])) as [|Hr]; [done|]. destruct Hb as [[? _]|(-> & Hl & ?)]; [done|]. split_and!; try done; [|rewrite decide_True by done; lia].
  apply (cstr_suffix pre). rewrite <- Hp. apply cstr_idem.
Qed.

(** C18. tokenize_command cuts a line, up to its end or a zero byte, into its words:
    the tokens are its first words, at most max_tokens - 1 of them, none empty or
    with a blank; the terminal token holds the rest of the line, which has the
    remaining words, and is NULL exactly when the whole line was scanned, which is
    so whenever fewer than max_tokens - 1 tokens were found. *)
Theorem tokenize_command_words command max_tokens : (1 < max_tokens)%nat ->
  let t := tokenize_command command max_tokens in
  words (cstr command) = toks t ++ words (default [] (term t)) /\ Forall word (toks t) /\
  (ntokens t <= max_tokens)%nat /\
  match term t with
  | None => True
  | Some rest => rest <> [] /\ cstr rest = rest /\ ntokens t = max_tokens /\ (length rest < length (cstr command))%nat
  end.
Proof. apply tokenize_spec. Qed.

Lemma tokenize_command_words_witness :
  (1 < 4)%nat /\ tokenize_command (lit " get  a bc d e") 4 = Tokens [lit "get"; lit "a"; lit "bc"] (Some (lit "d e")) /\
  words (cstr (lit " get  a bc d e")) = [lit "get"; lit "a"; lit "bc"] ++ words (lit "d e").
Proof. split; [lia|]. split; [reflexivity|]. exact (proj1 (tokenize_command_words (lit " get  a bc d e") 4 ltac:(lia))). Defined.

(** A word is its own only token. *)
Lemma tokenize_word w : word w -> cstr w = w -> tokenize_command w MAX_TOKENS = Tokens [w] None.
Proof.
  intros [Hne Hw] Hc. unfold tokenize_command. rewrite Hc.
  assert (forall l cur ts, (32 : Z) ∉ l -> scan_tokens MAX_TOKENS l cur ts = (ts, cur ++ l, [])) as Hs.
  { intros l. induction l as [|c l IH]; intros cur ts Hl; cbn [scan_tokens]; [by rewrite app_nil_r|].
    apply not_elem_of_cons in Hl as [Hc' Hl]. rewrite decide_False by congruence. rewrite IH by done. by rewrite <- app_assoc. }
  rewrite Hs by done. simpl. by rewrite decide_False.
Qed.

Lemma words_from_Forall (Q : Z -> Prop) cur l : Forall Q cur -> Forall Q l -> Forall (Forall Q) (words_from cur l).
Proof.
  intros Hc Hl. revert cur Hc. induction Hl as [|c l Hx Hl IH]; intros cur Hc; cbn [words_from].
  - destruct (decide (cur = [])); by repeat constructor.
  - destruct (decide (c = 32)).
    + apply Forall_app. split; [destruct (decide (cur = [])); by repeat constructor|by apply IH].
    + apply IH. apply Forall_app. split; [done|by repeat constructor].
Qed.
Lemma cstr_nonzero l : cstr l = l <-> Forall (fun c => c <> 0) l.
Proof.
  unfold cstr. induction l as [|c l IH]; [by split|]. simpl. case_bool_decide as Hc; simpl.
  - split; [done|]. intros F. by inversion F.
  - destruct (span _ l) as [a b]. simpl in *. split.
    + intros [= E]. constructor; [done|]. by apply IH.
    + intros F. inversion F. f_equal. by apply IH.
Qed.
Lemma tokenize_words_ok l max : (1 < max)%nat -> Forall (fun w => word w /\ cstr w = w) (toks (tokenize_command l max)).
Proof.
  intros Hm. destruct (tokenize_spec l max Hm) as (W & F & _).
  assert (Forall (fun c => c <> 0) (cstr l)) as Hz by (apply cstr_nonzero, cstr_idem).
  pose proof (words_from_Forall _ [] (cstr l) (Forall_nil_2 _) Hz) as Fz. change (Forall (Forall (fun c : Z => c <> 0)) (words (cstr l))) in Fz. rewrite W in Fz.
  apply Forall_app in Fz as [Fz _]. apply Forall_forall. intros w Hw. rewrite Forall_forall in F, Fz. split; [by apply F|].
  by apply cstr_nonzero, Fz.
Qed.
