(* ===== verification/CommandLaws.v ===== *)
(** * The commands keep the laws of the state machine

    Whatever the line, process_command leaves the read side of the connection
    alone and the connection in a state a command may leave it in, and it returns:
    so the theorems on the state machine hold of the real commands. *)

From S2P Require Import Prelude Decimal Dispatch Conn Iov Machine Serve Commands.
From S2P Require Store Slabs.

(** An operation that returns, or aborts when [P] allows it. *)
Definition ends {S A} (P : Prop) (m : M S A) (Q : A -> Prop) : Prop :=
  forall b, match m b with Ok (a, _) => Q a | Abort => P | NoFuel => False end.
Abbreviation total_op P m := (ends P m (fun _ => True)).

(** Memory that the steps use up: the failures the allocator still has in store. *)
Definition failures {S} (s : net S) : nat := length (reallocs s).
Definition quiet {S} (s s' : net S) : Prop := same_input s s' /\ (failures s' <= failures s)%nat.

(** The laws of the store.  Memory comes back: the allocator fails finitely often
    (the failures it still has are the list [reallocs]), and what fails for lack of
    memory has used up one of these failures. *)
Class CacheLaws (S : Type) {B : Backend S} {K : Cache S} {X : Ext S} (P : Prop) : Prop := {
  cl_memory : mem_after (S := S) = true;
  cl_get k u : total_op P (item_get k u); cl_touch k e : total_op P (item_touch k e);
  cl_alloc k f e n : total_op P (item_alloc k f e n); cl_unlink it : total_op P (item_unlink it);
  cl_set_cas it c : total_op P (item_set_cas it c);
  cl_store it comm : ends P (store_item it comm) (fun r => r.1 = Store.STORED \/ r.1 = Store.EXISTS \/ r.1 = Store.NOT_FOUND \/ r.1 = Store.NOT_STORED);
  cl_delta k i d : ends P (add_delta k i d) (fun r => r.1 <> Store.DELTA_ITEM_CAS_MISMATCH);
  cl_cas_id : total_op P get_cas_id; cl_count x : total_op P (count x);
  cl_record_get k h : total_op P (record_get k h); cl_record_set k : total_op P (record_set k); cl_record_delete k : total_op P (record_delete k);
  cl_reassign a b : total_op P (slabs_reassign a b); cl_mem_limit n : total_op P (slabs_adjust_mem_limit n);
  cl_crawl l d n : total_op P (lru_crawler_crawl l d n); cl_start : total_op P start_item_crawler_thread;
  cl_stop : total_op P stop_item_crawler_thread; cl_watcher f : total_op P (logger_add_watcher f);
  cl_limited_get k e t : total_op P (limited_get k e t); cl_suffix a it r n : total_op P (make_ascii_get_suffix a it r n);
  (* the last bytes of a chunked value are asserted to be a line end *)
  cl_chunk_end b r : chunk_end b r <> Some crlf -> P;
  cl_remove it (b : S) : match item_remove it b with Ok _ => True | Abort => P | NoFuel => False end;
  cl_expand i (s : net S) : runs P (ascii_get_expand_ilist i) s (fun r s' => quiet s s' /\ (r <> 0 -> (failures s' < failures s)%nat));
  cl_suffix_buf i (s : net S) : runs P (ascii_get_suffix_buf i) s (fun r s' => quiet s s' /\ (r = 0 -> (failures s' < failures s)%nat));
  cl_chunked it n (s : net S) : runs P (add_chunked_item_iovs it n) s (fun r s' => quiet s s' /\ (r <> 0 -> (failures s' < failures s)%nat));
  cl_stat t (s : net S) : c_transport (cn s) <> udp_transport ->
    runs P (process_stat t) s (fun _ s' => same_input s s' /\ command_state (cn s')) }.

Section laws.
Context {S : Type} {B : Backend S} {K : Cache S} {X : Ext S} (cfg : conn_cfg) (P : Prop) {L : CacheLaws S P}.

(** What a command has to establish, from the state [s0] it began in. *)
Definition post {A} (s0 : net S) : A -> net S -> Prop := fun _ s' => same_input s0 s' /\ command_state (cn s') /\ c_state (cn s') <> conn_nread.
Definition post' {A} (s0 : net S) : A -> net S -> Prop := fun _ s' => same_input s0 s' /\ command_state (cn s').

Lemma runs_assoc {A C D} (m : M (net S) A) (f : A -> M (net S) C) (g : C -> M (net S) D) s Q :
  runs P (m ≫= fun a => f a ≫= g) s Q -> runs P ((m ≫= f) ≫= g) s Q.
Proof. unfold runs. by rewrite bind_assoc. Qed.

Lemma on_back_runs {A} (m : M S A) (R : A -> Prop) (s : net S) Q : ends P m R ->
  (forall a b, R a -> Q a (s <| back := b |>)) -> runs P (on_back m) s Q.
Proof. intros E HQ. unfold on_back, runs. specialize (E (back s)). destruct (m (back s)) as [[a b]| |]; auto. Qed.

Lemma c_back {A C} (m : M S A) (k : A -> M (net S) C) R (s0 s : net S) Q : ends P m R -> same_input s0 s ->
  (forall a s', R a -> same_input s0 s' -> cn s' = cn s -> runs P (k a) s' Q) -> runs P (on_back m ≫= k) s Q.
Proof. intros E I HQ. apply runs_bind. eapply on_back_runs; [exact E|]. intros a b Ha. by apply HQ. Qed.

Lemma c_release {C} it (k : unit -> M (net S) C) (s0 s : net S) Q : same_input s0 s ->
  (forall s', same_input s0 s' -> cn s' = cn s -> runs P (k tt) s' Q) -> runs P (release it ≫= k) s Q.
Proof.
  intros I HQ. apply runs_bind. unfold release, with_back, runs. pose proof (cl_remove it (back s)) as R.
  destruct (item_remove it (back s)) as [b| |]; [|done|done]. by apply HQ.
Qed.

Lemma c_setc {C} f (k : unit -> M (net S) C) (s0 s : net S) Q : (forall c, input_of (f c) = input_of c) -> same_input s0 s ->
  (forall s', same_input s0 s' -> cn s' = f (cn s) -> runs P (k tt) s' Q) -> runs P (setc f ≫= k) s Q.
Proof.
  intros Hf (I & ? & ? & ?) HQ. nsteps. apply HQ; [|done]. split_and!; try done. simpl. by rewrite Hf.
Qed.

Lemma c_setting {C} f (k : unit -> M (net S) C) (s0 s : net S) Q : same_input s0 s ->
  (forall s', same_input s0 s' -> cn s' = cn s -> runs P (k tt) s' Q) -> runs P (set_setting f ≫= k) s Q.
Proof. intros I HQ. apply runs_bind, runs_modify. by apply HQ. Qed.

Lemma tcp_from (s0 s : net S) : c_transport (cn s0) <> udp_transport -> same_input s0 s -> c_transport (cn s) <> udp_transport.
Proof. intros Ht I. by rewrite (same_input_transport _ _ I). Qed.

Lemma c_out str (s0 s : net S) : c_transport (cn s0) <> udp_transport -> same_input s0 s ->
  runs P (out_string cfg str) s (post s0).
Proof.
  intros Ht I. eapply runs_mono; [apply out_string_spec; by apply (tcp_from s0)|]. intros [] s' [I' [A _]].
  split; [by transitivity s|]. unfold command_state. destruct A as [E|[E E']]; rewrite E; [done|]. by rewrite E'.
Qed.
Lemma c_out' str (s0 s : net S) : c_transport (cn s0) <> udp_transport -> same_input s0 s ->
  runs P (out_string cfg str) s (post' s0).
Proof. intros Ht I. eapply runs_mono; [by apply c_out|]. by intros [] s' (? & ? & _). Qed.

(** Moving to a state a command may choose. *)
Lemma c_state_end st (s0 s : net S) : (st = conn_closing \/ st = conn_watch \/ st = conn_mwrite) -> same_input s0 s ->
  runs P (conn_set_state st) s (post' s0).
Proof.
  intros Hst I. eapply runs_mono; [apply set_state_spec; by destruct Hst as [->|[-> | ->]]|]. intros [] s' (_ & E & I').
  split; [by transitivity s|]. unfold command_state. rewrite E. simpl. by destruct Hst as [->|[-> | ->]].
Qed.

Lemma c_noreply t (s0 s : net S) : same_input s0 s ->
  runs P (set_noreply_maybe t) s (fun _ s' => same_input s0 s').
Proof. intros I. unfold set_noreply_maybe. nsteps. apply runs_when; intros _; nsteps; [|done]. destruct I as (? & ? & ? & ?). by split_and!. Qed.

(** One step of a command; [I] is the fact about the current state. *)
Ltac cstep :=
  match goal with
  | |- runs _ (on_back _ ≫= _) _ _ => eapply c_back; [eauto using cl_get, cl_touch, cl_alloc, cl_unlink, cl_set_cas, cl_store, cl_delta, cl_cas_id, cl_count,
       cl_record_get, cl_record_set, cl_record_delete, cl_reassign, cl_mem_limit, cl_crawl, cl_start, cl_stop, cl_watcher, cl_limited_get, cl_suffix|eassumption|intros ? ? ? ? ?; cbv beta]
  | |- runs _ (tally _ ≫= _) _ _ => unfold tally at 1
  | |- runs _ (release _ ≫= _) _ _ => eapply c_release; [eassumption|intros ? ? ?]
  | |- runs _ (set_setting _ ≫= _) _ _ => eapply c_setting; [eassumption|intros ? ? ?]
  | |- runs _ (setc _ ≫= _) _ _ => eapply c_setc; [done|eassumption|intros ? ? ?]
  | |- runs _ (set_noreply_maybe _ ≫= _) _ _ => apply runs_bind; eapply runs_mono; [eapply c_noreply; eassumption|cbv beta; intros ? ? ?]
  | |- runs _ ((_ ≫= _) ≫= _) _ _ => apply runs_assoc
  | |- runs _ (setting _ ≫= _) _ _ => unfold setting at 1; apply runs_bind, runs_gets; cbv beta
  | |- runs _ (field _ ≫= _) _ _ => unfold field at 1; apply runs_bind, runs_gets; cbv beta
  | |- runs _ (getc _ ≫= _) _ _ => apply runs_bind, runs_gets; cbv beta
  | |- runs _ (gets _ ≫= _) _ _ => apply runs_bind, runs_gets; cbv beta
  | |- runs _ (mret _ ≫= _) _ _ => apply runs_bind, runs_ret; cbv beta
  | |- runs _ (Conn.out_string _ _) _ (post' _) => solve [eapply c_out'; eassumption]
  | |- runs _ (Conn.out_string _ _) _ (post _) => solve [eapply c_out; eassumption]
  | |- runs _ (out_of_memory _ _) _ _ => unfold out_of_memory
  | |- runs _ (conn_set_state _) _ (post' _) => solve [eapply c_state_end; [auto|eassumption]]
  | |- runs _ (if decide ?p then _ else _) _ _ => destruct (decide p)
  | |- runs _ (if ?b then _ else _) _ _ => destruct b
  | |- runs _ ((if decide ?p then _ else _) ≫= _) _ _ => destruct (decide p)
  | |- runs _ ((if ?b then _ else _) ≫= _) _ _ => destruct b
  | |- runs _ (when ?b _ ≫= _) _ _ => destruct b; cbn [when]
  | |- runs _ (when ?b _) _ _ => destruct b; cbn [when]
  | |- runs _ (match ?o with None => _ | Some _ => _ end) _ _ => destruct o
  end.
Ltac csteps := repeat (cstep; cbn zeta).

Lemma c_out_then {C} str (k : unit -> M (net S) C) (s0 s : net S) Q : c_transport (cn s0) <> udp_transport -> same_input s0 s ->
  (forall s', post s0 tt s' -> runs P (k tt) s' Q) -> runs P (out_string cfg str ≫= k) s Q.
Proof. intros Ht I HQ. apply runs_bind. eapply runs_mono; [by apply c_out|]. intros [] s'. apply HQ. Qed.
Lemma post_post' {A} (s0 s : net S) (a : A) : post s0 a s -> post' s0 a s.
Proof. by intros (? & ? & _). Qed.
Lemma post_conn {A} (s0 s s' : net S) (a : A) : post s0 a s -> same_input s0 s' -> cn s' = cn s -> post s0 a s'.
Proof. unfold post. by intros (? & ? & ?) I ->. Qed.
Lemma c_release_end it (s0 s : net S) : post s0 tt s -> runs P (release it) s (post s0).
Proof.
  intros Hp. unfold release, with_back, runs. pose proof (cl_remove it (back s)) as R.
  destruct (item_remove it (back s)) as [b| |]; [|done|done]. apply (post_conn s0 s); [done|apply Hp|done].
Qed.

Section plain.
Context (s0 s : net S) (Ht : c_transport (cn s0) <> udp_transport) (I : same_input s0 s).

Lemma process_touch_ok t : runs P (process_touch_command cfg t) s (post' s0).
Proof using L Ht I.
  unfold process_touch_command. csteps. eapply c_out_then; [done|eassumption|]. intros ? Hp.
  eapply runs_mono; [by apply c_release_end|]. intros [] ?. apply post_post'.
Qed.
Lemma process_arithmetic_ok t incr : runs P (process_arithmetic_command cfg t incr) s (post' s0).
Proof using L Ht I. unfold process_arithmetic_command. csteps. destruct a0 as [[] temp]; csteps. done. Qed.
Lemma process_delete_ok t : runs P (process_delete_command cfg t) s (post' s0).
Proof using L Ht I. unfold process_delete_command. csteps. Qed.
Lemma process_verbosity_ok t : runs P (process_verbosity_command cfg t) s (post' s0).
Proof using L Ht I. unfold process_verbosity_command. csteps. Qed.
Lemma process_automove_ok t : runs P (process_slabs_automove_command cfg t) s (post' s0).
Proof using L Ht I. unfold process_slabs_automove_command. csteps. Qed.
Lemma process_watch_ok t : runs P (process_watch_command cfg t) s (post' s0).
Proof using L Ht I.
  unfold process_watch_command. csteps. destruct a0; csteps. apply runs_bind.
  eapply runs_mono; [eapply c_state_end; [auto|eassumption]|]. intros [] ?. done.
Qed.
Lemma process_memlimit_ok t : runs P (process_memlimit_command cfg t) s (post' s0).
Proof using L Ht I. unfold process_memlimit_command. csteps. Qed.
Lemma process_lru_ok t : runs P (process_lru_command cfg t) s (post' s0).
Proof using L Ht I. unfold process_lru_command. csteps. Qed.
Lemma process_flush_all_ok t : runs P (process_flush_all cfg t) s (post' s0).
Proof using L Ht I. unfold process_flush_all. csteps. destruct (if _ : bool then strtol _ else _) as [exptime erange]. csteps. Qed.
Lemma process_slabs_ok t : runs P (process_slabs cfg t) s (post' s0).
Proof using L Ht I.
  unfold process_slabs. csteps; try (by apply process_automove_ok); destruct (strtol (tok t 2)), (strtol (tok t 3)); csteps; destruct a0; csteps.
Qed.
Lemma process_lru_crawler_ok t : runs P (process_lru_crawler cfg t) s (post' s0).
Proof using L Ht I.
  unfold process_lru_crawler. csteps; destruct a; cbn [crawl_failed]; csteps.
  eapply c_out_then; [done|eassumption|]. intros ? [I' _]. apply runs_bind.
  eapply runs_mono; [eapply c_state_end; [auto|eassumption]|]. intros [] ?. done.
Qed.

(** The refusal leaves a state of the right kind, whatever out_string did. *)
Definition refused_state (c : conn) : Prop := c_state c = conn_new_cmd \/ c_state c = conn_write /\ write_and_go c = conn_swallow.
Lemma refused_command c : refused_state c -> command_state c.
Proof. unfold command_state. intros [-> |[-> ->]]; done. Qed.

Lemma c_release_conn (C : conn -> Prop) it (s1 : net S) : same_input s0 s1 -> C (cn s1) ->
  runs P (release it) s1 (fun _ s' => same_input s0 s' /\ C (cn s')).
Proof.
  intros I1 HC. unfold release, with_back, runs. pose proof (cl_remove it (back s1)) as R.
  by destruct (item_remove it (back s1)) as [b| |].
Qed.

Lemma update_refused_ok key flags vlen comm : runs P (update_refused cfg key flags vlen comm) s (post' s0).
Proof using L Ht I.
  eapply runs_mono with (Q := fun _ s' => same_input s0 s' /\ refused_state (cn s')).
  2: { intros [] s1 [? ?]. split; [done|by apply refused_command]. }
  unfold update_refused. cstep. apply runs_bind.
  apply (runs_mono _ _ _ (fun _ s1 => same_input s0 s1 /\ (c_state (cn s1) = conn_new_cmd \/ c_state (cn s1) = conn_write))).
  { assert (forall str, runs P (out_string cfg str) s (fun _ s1 => same_input s0 s1 /\ (c_state (cn s1) = conn_new_cmd \/ c_state (cn s1) = conn_write))) as Hout.
    { intros str. eapply runs_mono; [by apply out_string_spec, (tcp_from s0)|]. intros [] s1 [I1 [A _]].
      split; [by transitivity s|]. destruct A as [?|[? _]]; auto. }
    destruct (item_size_ok _ _ _ _); apply Hout. }
  intros [] s1 [I1 E1]. eapply c_setc; [done|exact I1|]. intros s2 I2 E2.
  assert (refused_state (cn s2)) as R2 by (unfold refused_state; rewrite E2; simpl; destruct E1; auto).
  apply runs_when; [intros _|by intros _]. eapply c_back; [apply cl_get|exact I2|]. intros it s3 _ I3 E3.
  apply runs_when; [intros _|intros _; by rewrite E3].
  eapply c_back; [apply cl_unlink|exact I3|]. intros _ s4 _ I4 E4. apply c_release_conn; [done|]. by rewrite E4, E3.
Qed.

Lemma c_nread (s1 : net S) : same_input s0 s1 -> in_item (ritem (cn s1)) -> runs P (conn_set_state conn_nread) s1 (post' s0).
Proof.
  intros I1 Hi. eapply runs_mono; [by apply set_state_spec|]. intros [] s2 (_ & E & I2).
  split; [by transitivity s1|]. unfold command_state. by rewrite E.
Qed.

(** item_remove(c->item); c->item = 0; behind an answer. *)
Lemma c_drop_item (s1 : net S) : post s0 tt s1 ->
  runs P (it ← getc c_item; release it;; setc (fun c => c <| c_item := 0 |>)) s1 (post s0).
Proof.
  intros Hp. cstep. apply runs_bind. eapply runs_mono; [by apply c_release_end|]. intros [] s2 ((? & ? & ? & ?) & ? & ?). nsteps. done.
Qed.
Lemma c_answer str (s1 : net S) : same_input s0 s1 ->
  runs P (out_string cfg str ≫= fun _ => it ← getc c_item; release it;; setc (fun c => c <| c_item := 0 |>)) s1 (post s0).
Proof. intros I1. eapply c_out_then; [done|exact I1|]. intros s2 Hp. by apply c_drop_item. Qed.

Lemma nread_answer_ok v it comm (s1 : net S) : same_input s0 s1 ->
  runs P (nread_answer cfg v it comm ≫= fun _ => it ← getc c_item; release it;; setc (fun c => c <| c_item := 0 |>)) s1 (post s0).
Proof.
  intros I1. unfold nread_answer. destruct v; cbn [negb]; [|by apply c_answer]. apply runs_assoc.
  eapply c_back; [apply cl_store|exact I1|]. intros [ret cas] s2 Hret I2 _. simpl in Hret. apply runs_assoc.
  destruct ret; cbn [when]; csteps; try (by eapply c_answer); by destruct Hret as [?|[?|[?|?]]].
Qed.

Lemma complete_nread_ok : runs P (Commands.complete_nread_ascii cfg) s (post s0).
Proof using L Ht I.
  unfold Commands.complete_nread_ascii.
  csteps; try by apply nread_answer_ok.
  destruct (chunk_end (back s') (ritem (cn s'))) as [e|] eqn:Ee.
  - destruct (decide (e = crlf)) as [->|Hne].
    + apply runs_assoc, runs_bind, runs_massert; [by apply bool_decide_eq_true|]. apply runs_bind, runs_ret. by apply nread_answer_ok.
    + apply runs_assoc, runs_bind. unfold massert. rewrite bool_decide_eq_false_2 by done. simpl.
      apply (cl_chunk_end (back s') (ritem (cn s'))). rewrite Ee. by intros [= ?].
  - apply (cl_chunk_end (back s') (ritem (cn s'))). by rewrite Ee.
Qed.

End plain.

Lemma process_update_ok s0 s t comm h : c_transport (cn s0) <> udp_transport -> same_input s0 s ->
  runs P (process_update_command cfg t comm h) s (post' s0).
Proof using L.
  intros Ht I.
  unfold process_update_command. csteps; try (destruct p as [[flags exptime] vlen]); csteps; try by apply update_refused_ok.
  all: apply c_nread; [eassumption|]; match goal with E : cn ?x = _ |- in_item (ritem (cn ?x)) => rewrite E; by eexists end.
Qed.


(** ** get *)

Section get.
Context (s0 : net S) (Ht : c_transport (cn s0) <> udp_transport).

Lemma quiet_trans (s1 s2 s3 : net S) : quiet s1 s2 -> quiet s2 s3 -> quiet s1 s3.
Proof. intros [I1 F1] [I2 F2]. split; [by transitivity s2|lia]. Qed.

(** A step whose failure has used up a failing allocation. *)
Definition careful (m : M (net S) Z) : Prop := forall s, c_transport (cn s) <> udp_transport ->
  runs P m s (fun r s' => quiet s s' /\ (r <> 0 -> (failures s' < failures s)%nat)).

Lemma realloc_quiet (s : net S) : runs P realloc s (fun ok s' => quiet s s' /\ cn s' = cn s /\ (ok = false -> (failures s' < failures s)%nat)).
Proof.
  nsteps. unfold quiet, failures. simpl. rewrite cl_memory.
  split; [split; [done|]|split; [done|]]; destruct (reallocs s); simpl; try lia; done.
Qed.

Lemma add_msghdr_careful fuel : careful (add_msghdr_n cfg (Datatypes.S fuel)).
Proof.
  intros s Htc. cbn [add_msghdr_n]. unfold grow_msglist. nsteps. case_decide.
  - eapply runs_bind, runs_mono; [apply realloc_quiet|]. intros ok s1 (Q1 & E1 & F1). destruct ok.
    + nsteps. unfold start_msg. nsteps. simpl. rewrite tcp_false by (by rewrite E1). nsteps. split; [|done].
      eapply quiet_trans; [exact Q1|done].
    + nsteps. split; [eapply quiet_trans; [exact Q1|done]|]. intros _. by apply F1.
  - nsteps. unfold start_msg. nsteps. simpl. rewrite tcp_false by done. nsteps. done.
Qed.

Lemma ensure_iov_careful : careful ensure_iov_space.
Proof.
  intros s Htc. unfold ensure_iov_space. nsteps. case_decide; [|by nsteps].
  eapply runs_bind, runs_mono; [apply realloc_quiet|]. intros ok s1 (Q1 & E1 & F1). destruct ok; nsteps.
  - split; [|done]. eapply quiet_trans; [exact Q1|]. unfold quiet. done.
  - split; [eapply quiet_trans; [exact Q1|done]|]. intros _. by apply F1.
Qed.

Lemma add_iov_careful buf len : careful (Conn.add_iov cfg buf len).
Proof.
  intros s Htc. unfold Conn.add_iov. nsteps. rewrite tcp_false by done. nsteps.
  apply (runs_mono _ _ _ (fun _ s1 => quiet s s1)).
  { case_decide; [|by nsteps]. apply runs_bind. eapply runs_mono; [by apply add_msghdr_careful|]. intros r s1 [Q1 _]. by nsteps. }
  intros [] s1 Q1. nsteps. eapply runs_mono; [apply ensure_iov_careful; by apply (tcp_from s), Q1|]. intros r s2 [Q2 F2].
  assert (quiet s s2) as Q12 by by eapply quiet_trans. case_decide as Hr; nsteps.
  - split; [done|]. intros _. specialize (F2 Hr). destruct Q1. lia.
  - unfold push_iov. nsteps. split; [eapply quiet_trans; [exact Q12|done]|done].
Qed.

Lemma first_failure_careful l (s : net S) : Forall careful l -> c_transport (cn s) <> udp_transport ->
  runs P (first_failure l) s (fun b s' => quiet s s' /\ (b = true -> (failures s' < failures s)%nat)).
Proof.
  intros Hl. revert s. induction Hl as [|m l Hm Hl IH]; intros s Htc; cbn [first_failure foldr]; [by nsteps|].
  apply runs_bind. eapply runs_mono; [by apply Hm|]. intros r s1 [Q1 F1]. case_decide as Hr; [nsteps; auto|].
  eapply runs_mono; [apply IH; by apply (tcp_from s), Q1|]. intros b s2 [Q2 F2]. split; [by eapply quiet_trans|].
  intros E. specialize (F2 E). destruct Q1. lia.
Qed.

Lemma chunked_careful it n : careful (add_chunked_item_iovs it n).
Proof. intros s _. apply cl_chunked. Qed.

Ltac gback := apply runs_bind; eapply on_back_runs; [eauto using cl_limited_get, cl_suffix, cl_count, cl_record_get|intros ? ? _].

(** What the parts of a hit leave: quiet, and a failure has used up an allocation. *)
Definition hit_post (s : net S) : bool * Z -> net S -> Prop :=
  fun r s' => quiet s s' /\ (r.1 = false -> (failures s' < failures s)%nat).

Lemma get_response_ok return_cas inline it si (s : net S) : c_transport (cn s) <> udp_transport ->
  runs P (get_response cfg return_cas inline it si) s (hit_post s).
Proof using L.
  intros Htc. unfold get_response, field. nsteps. destruct (return_cas || negb inline).
  - nsteps. eapply runs_mono; [apply cl_suffix_buf|]. intros a s1 [Q1 F1]. case_decide as Ha; [nsteps; split; auto|].
    gback. set (s2 := _ <| back := _ |>). assert (quiet s s2) as Q2 by (eapply quiet_trans; [exact Q1|done]). clearbody s2.
    apply runs_bind. eapply runs_mono.
    { apply first_failure_careful; [|by apply (tcp_from s), Q2]. rewrite !Forall_app. split; [repeat constructor; apply add_iov_careful|].
      split; [destruct inline|]; repeat constructor; apply add_iov_careful. }
    intros failed s3 [Q3 F3]. assert (quiet s s3) as Q13 by by eapply quiet_trans. destruct failed.
    { nsteps. split; [done|]. intros _. destruct Q2. specialize (F3 eq_refl). lia. }
    destruct (item_chunked (back s) it); cbn [negb]; apply runs_bind.
    + eapply runs_mono; [apply cl_chunked|]. intros r s4 [Q4 F4]. nsteps. split; [by eapply quiet_trans|]. simpl.
      intros Hr%bool_decide_eq_false. destruct Q13. specialize (F4 Hr). lia.
    + eapply runs_mono; [apply add_iov_careful; by apply (tcp_from s), Q13|]. intros r s4 [Q4 _]. nsteps. split; [by eapply quiet_trans|done].
  - apply runs_bind. eapply runs_mono; [apply first_failure_careful; [repeat constructor; apply add_iov_careful|done]|].
    intros failed s3 [Q3 F3]. destruct failed; [nsteps; split; auto|]. destruct (item_chunked (back s) it); cbn [negb]; apply runs_bind.
    + eapply runs_mono; [apply first_failure_careful; [|by apply (tcp_from s), Q3]|].
      { constructor; [apply add_iov_careful|]. constructor; [apply chunked_careful|constructor]. }
      intros b s4 [Q4 F4]. nsteps. split; [by eapply quiet_trans|]. simpl. intros Hb%negb_false_iff. destruct Q3. specialize (F4 Hb). lia.
    + eapply runs_mono; [apply add_iov_careful; by apply (tcp_from s), Q3|]. intros r s4 [Q4 F4]. nsteps. split; [by eapply quiet_trans|]. simpl.
      intros Hr%bool_decide_eq_false. destruct Q3. specialize (F4 Hr). lia.
Qed.

Lemma quiet_from (s s' : net S) : same_input s0 s -> quiet s s' -> same_input s0 s'.
Proof. intros I [I' _]. by transitivity s. Qed.

(** Giving back what was gathered when a key is too long. *)
Lemma undo_ok (both : bool) n (s : net S) : post s0 tt s ->
  runs P ((fix undo (n : nat) : M (net S) unit :=
       match n with
       | O => mret tt
       | Datatypes.S n =>
           c ← getc id;
           release (nth n (ilist c) 0);;
           when both (with_back (fun b => Ok (suffix_free (nth n (suffixlist c) 0) b)));;
           undo n
       end) n) s (post s0).
Proof.
  revert s. induction n as [|n IH]; intros s Hp; [by apply runs_ret|]. nsteps.
  eapply runs_mono; [by apply c_release_end|]. intros [] s1 Hp1. apply runs_bind, runs_when; intros _; [|by apply IH].
  unfold with_back, runs. apply IH. by apply (post_conn s0 s1); [|apply Hp1|].
Qed.

(** The result of a key: go on quietly; leave the loop with a failure; leave the function. *)
Definition key_post (s : net S) : key_result -> net S -> Prop := fun r s' =>
  match r with
  | KeyNext _ _ => quiet s s'
  | KeyBreak _ _ => quiet s s' /\ (failures s' < failures s)%nat
  | KeyBad => post' s0 tt s'
  end.

Lemma release_quiet {C} it (k : unit -> M (net S) C) (s : net S) Q :
  (forall s', quiet s s' -> runs P (k tt) s' Q) -> runs P (release it ≫= k) s Q.
Proof.
  intros HQ. apply runs_bind. unfold release, with_back, runs. pose proof (cl_remove it (back s)) as R.
  destruct (item_remove it (back s)) as [b| |]; [|done|done]. by apply HQ.
Qed.

Lemma get_key_ok return_cas should_touch inline exptime key i si (s : net S) : same_input s0 s ->
  runs P (get_key cfg return_cas should_touch inline exptime key i si) s (key_post s).
Proof using L Ht.
  intros I. pose proof (tcp_from _ _ Ht I) as Htc. unfold get_key. case_decide.
  - apply runs_bind. eapply runs_mono; [by apply (c_out _ s0)|]. intros [] s1 Hp. apply runs_bind.
    eapply runs_mono; [by apply undo_ok|]. intros [] s2 Hp2. nsteps. by apply post_post'.
  - gback. rename a into it. set (s1 := _ <| back := _ |>). assert (quiet s s1) as Q1 by done. clearbody s1.
    unfold setting. nsteps. apply (runs_mono _ _ _ (fun _ s2 => quiet s s2)).
    { apply runs_when; intros _; [|done]. eapply on_back_runs; [apply cl_record_get|]. intros [] b' _. eapply quiet_trans; [exact Q1|done]. }
    intros [] s2 Q2. case_decide.
    + apply runs_bind. eapply runs_mono; [apply cl_expand|]. intros r s3 [Q3 F3]. assert (quiet s s3) as Q13 by by eapply quiet_trans.
      case_decide as Hr.
      { apply release_quiet. intros s4 Q4. nsteps. split; [by eapply quiet_trans|]. destruct Q2, Q4. specialize (F3 Hr). lia. }
      apply runs_bind. eapply runs_mono; [apply get_response_ok; by apply (tcp_from s), Q13|]. intros [ok si'] s4 [Q4 F4]. simpl in F4.
      assert (quiet s s4) as Q14 by by eapply quiet_trans. destruct ok; cbn [negb].
      * unfold field. nsteps. apply (runs_mono _ _ _ (fun _ s5 => quiet s s5)).
        { destruct should_touch; unfold tally; gback; eapply on_back_runs; try apply cl_count; intros [] ? _; eapply quiet_trans; [exact Q14|done|exact Q14|done]. }
        intros [] s5 Q5. nsteps. eapply quiet_trans; [exact Q5|]. split; [|done]. by split_and!.
      * apply release_quiet. intros s5 Q5. nsteps. split; [by eapply quiet_trans|]. destruct Q13, Q5. specialize (F4 eq_refl). lia.
    + apply runs_bind. apply (runs_mono _ _ _ (fun _ s5 => quiet s s5)).
      { destruct should_touch; unfold tally; gback; eapply on_back_runs; try apply cl_count; intros [] ? _; eapply quiet_trans; [exact Q2|done|exact Q2|done]. }
      intros [] s5 Q5. by nsteps.
Qed.

(** The inner loop: to the end of the tokens, out at a key, or out of the function. *)
Definition keys_post (s : net S) (keys : list (list Z)) (rest : option (list Z)) : option (option (list Z) * Z * Z) -> net S -> Prop := fun r s' =>
  match r with
  | None => post' s0 tt s'
  | Some (rest', _, _) => quiet s s' /\ (rest' = rest \/ exists key, rest' = Some key /\ key ∈ keys /\ (failures s' < failures s)%nat)
  end.

Lemma get_keys_ok return_cas should_touch inline exptime keys rest i si (s : net S) : same_input s0 s ->
  runs P (get_keys cfg return_cas should_touch inline exptime keys rest i si) s (keys_post s keys rest).
Proof using L Ht.
  revert i si s. induction keys as [|key keys IH]; intros i si s I; cbn [get_keys].
  - apply runs_ret. split; [done|by left].
  - apply runs_bind. eapply runs_mono; [by apply get_key_ok|]. intros [i' si'|i' si'|] s1 Hk.
    + eapply runs_mono; [apply IH; by apply (quiet_from s)|]. intros [[[rest' i''] si'']|] s2; [|intros Hn; exact Hn]. intros [Q2 D].
      split; [by eapply quiet_trans|]. destruct D as [->|(k & -> & Hin & F)]; [by left|]. right. exists k.
      split_and!; [done|by right|]. destruct Hk. lia.
    + nsteps. destruct Hk as [Q F]. split; [done|]. right. exists key. split_and!; [done|by left|done].
    + by nsteps.
Qed.

(** How many rounds what is left to scan can take, memory permitting. *)
Definition rounds (rest : option (list Z)) : nat := match rest with None => 0 | Some l => 1 + length l end.

Lemma get_loop_ok fuel return_cas should_touch inline exptime keys rest i si (s : net S) : same_input s0 s ->
  Forall (fun w => word w /\ cstr w = w) keys -> (forall l, rest = Some l -> cstr l = l) -> (rounds rest + failures s < fuel)%nat ->
  runs P (get_loop cfg fuel return_cas should_touch inline exptime keys rest i si) s (fun r s' =>
    match r with None => post' s0 tt s' | Some _ => same_input s0 s' end).
Proof using L Ht.
  revert keys rest i si s. induction fuel as [|fuel IH]; intros keys rest i si s I Hk Hc Hf; [lia|]. cbn [get_loop].
  apply runs_bind. eapply runs_mono; [by apply get_keys_ok|]. intros [[[rest' i'] si']|] s1; [|intros Hn; nsteps; exact Hn].
  intros [Q1 D]. pose proof (quiet_from _ _ I Q1) as I1. destruct D as [-> |(k & -> & Hin & F)].
  - destruct rest as [l|]; [|by nsteps]. simpl in Hf. destruct (tokenize_spec l MAX_TOKENS ltac:(unfold MAX_TOKENS; lia)) as (_ & _ & _ & Hterm).
    pose proof (tokenize_words_ok l MAX_TOKENS ltac:(unfold MAX_TOKENS; lia)) as Hw. rewrite (Hc l eq_refl) in Hterm.
    assert (rounds (term (tokenize_command l MAX_TOKENS)) <= length l)%nat as Hr.
    { destruct (term _) as [l'|]; simpl; [|lia]. destruct Hterm as (_ & _ & _ & ?). lia. }
    assert (forall l', term (tokenize_command l MAX_TOKENS) = Some l' -> cstr l' = l') as Hc'.
    { intros l' E. rewrite E in Hterm. apply Hterm. }
    destruct Q1 as [_ F1].
    assert (runs P (get_loop cfg fuel return_cas should_touch inline exptime (toks (tokenize_command l MAX_TOKENS)) (term (tokenize_command l MAX_TOKENS)) i' si') s1
      (fun r s' => match r with None => post' s0 tt s' | Some _ => same_input s0 s' end)) as Hnext by (apply IH; auto; lia).
    destruct (toks _); [destruct (term _)|]; [done|by nsteps|done].
  - rewrite Forall_forall in Hk. destruct (Hk k Hin) as [Hw Hck]. rewrite tokenize_word by done. cbn [toks term].
    apply IH; [done|constructor; [done|constructor]|done|simpl; lia].
Qed.

Lemma get_done_ok return_cas inline i si (s : net S) : same_input s0 s -> runs P (get_done cfg return_cas inline i si) s (post' s0).
Proof using L Ht.
  intros I. unfold get_done. eapply c_setc; [done|exact I|]. intros s1 I1 _. apply runs_bind.
  apply (runs_mono _ _ _ (fun _ s2 => same_input s0 s2)).
  { apply runs_when; intros _; [|done]. nsteps. destruct I1 as (? & ? & ? & ?). by split_and!. }
  intros [] s2 I2. nsteps. rewrite tcp_false by (by apply (tcp_from s0)). eapply runs_mono.
  { apply first_failure_careful; [|by apply (tcp_from s0)]. rewrite app_nil_r. repeat constructor. apply add_iov_careful. }
  intros failed s3 [Q3 _]. pose proof (quiet_from _ _ I2 Q3) as I3. destruct failed; [by apply c_out'|]. apply runs_bind.
  eapply runs_mono; [apply (c_state_end conn_mwrite s0); [auto|exact I3]|]. intros [] s4 [I4 C4]. nsteps. split; [|done].
  destruct I4 as (? & ? & ? & ?). by split_and!.
Qed.

Lemma process_get_ok t return_cas should_touch (s : net S) : same_input s0 s ->
  Forall (fun w => word w /\ cstr w = w) (toks t) -> (forall l, term t = Some l -> cstr l = l) ->
  runs P (process_get_command cfg t return_cas should_touch) s (post' s0).
Proof using L Ht.
  intros I Hw Hc. unfold process_get_command, setting, field. nsteps.
  set (exptime := if should_touch then _ else _). apply (runs_mono _ _ _ (fun _ s1 => s1 = s)).
  { unfold exptime. destruct should_touch; [|by nsteps]. destruct (safe_strtol (tok t 1)); by nsteps. }
  intros [e|] s1 ->; [|by apply c_out']. nsteps. eapply runs_mono.
  { apply get_loop_ok; [done| |done|].
    - by apply Forall_drop.
    - unfold failures. destruct (term t); simpl; lia. }
  intros [[i si]|] s2; [|intros Hn; nsteps; exact Hn]. intros I2. by apply get_done_ok.
Qed.
End get.

(** ** process_command *)

Lemma dispatch_ok t s0 s : c_transport (cn s0) <> udp_transport -> same_input s0 s ->
  Forall (fun w => word w /\ cstr w = w) (toks t) -> (forall l, term t = Some l -> cstr l = l) ->
  runs P (dispatch cfg t) s (post' s0).
Proof using L.
  intros Ht I Hw Hc. unfold dispatch.
  repeat match goal with
  | |- runs _ (if _ && _ then _ else _) _ _ => destruct (_ && _); [|]
  | |- runs _ (match ?o with Some _ => _ | None => _ end) _ _ => destruct o
  end.
  all: try first [by apply process_get_ok | by apply process_update_ok | by apply process_arithmetic_ok | by apply process_delete_ok
    | by apply process_touch_ok | by apply process_flush_all_ok | by apply process_slabs_ok | by apply process_lru_crawler_ok
    | by apply process_watch_ok | by apply process_memlimit_ok | by apply process_verbosity_ok | by apply process_lru_ok
    | by apply c_out' | by apply c_state_end; auto].
  - eapply runs_mono; [apply cl_stat; by apply (tcp_from s0)|]. intros [] s' [I' ?]. split; [by transitivity s|done].
  - csteps.
Qed.

Lemma process_command_ok l (s : net S) : c_transport (cn s) <> udp_transport -> runs P (process_command cfg l) s (post' s).
Proof using L.
  intros Ht. unfold process_command. eapply c_setc; [done|done|]. intros s1 I1 _. apply runs_bind.
  eapply runs_mono; [apply add_msghdr_careful; by apply (tcp_from s)|]. intros r s2 [[Q2 _] _].
  assert (same_input s s2) as I2 by by transitivity s1. case_decide; [by apply c_out'|].
  apply dispatch_ok; [done|done|apply tokenize_words_ok; unfold MAX_TOKENS; lia|].
  intros l' E. destruct (tokenize_spec l MAX_TOKENS ltac:(unfold MAX_TOKENS; lia)) as (_ & _ & _ & Hterm).
  rewrite E in Hterm. apply Hterm.
Qed.
End laws.

(** ** The state machine with the commands *)

(** The handlers of the real program: its ASCII commands, the rest as [R] has it. *)
Definition ascii_handlers {S} `{Backend S, Cache S, Ext S} (cfg : conn_cfg) (R : Handlers S) : Handlers S := {|
  Machine.process_command := Commands.process_command cfg;
  Machine.complete_nread_ascii := Commands.complete_nread_ascii cfg;
  complete_nread_binary := @complete_nread_binary S R; dispatch_bin_command := @dispatch_bin_command S R;
  write_bin_error := @write_bin_error S R; read_into_chunked_item := @read_into_chunked_item S R;
  Machine.build_udp_headers := @Machine.build_udp_headers S R; transmit := @transmit S R |}.

(** C10. The ASCII commands are handlers the state machine may be given, on a store
    that keeps [CacheLaws]: its operations return, and memory comes back, which is
    to say that the allocator fails finitely often and that each failure to make room
    for an item, a suffix or a buffer uses up one of these failures.  Then for every
    line whatever, and for the end of every value, the command returns, reads and
    writes nothing of the read side of the connection (but for the zero bytes in
    the line), and leaves it in a state a command may leave it in; a get command
    ends although a key it runs out of memory on is tried again (without memory
    coming back it need not, see C17).  Together with the other handlers' laws this
    makes the state machine's theorems hold of it. *)
Theorem ascii_commands_lawful {S} {B : Backend S} {K : Cache S} {X : Ext S} (cfg : conn_cfg) (P : Prop) (unsent : net S -> nat)
    (R : Handlers S) : CacheLaws S P -> @Lawful S B R P unsent -> @Lawful S B (ascii_handlers cfg R) P unsent.
Proof.
  intros L LR. split; try apply LR.
  - intros l s _ Ht. by apply process_command_ok.
  - intros s _ Ht. eapply runs_mono; [by apply complete_nread_ok|]. done.
Qed.

(** ** A get that finds no memory

    The fairness of [CacheLaws] (memory comes back) is needed: a key found while the
    array of buffers is full and no memory can be had is tried again for ever. *)
Section starved.
Context {S : Type} {B : Backend S} {K : Cache S} {X : Ext S} (cfg : conn_cfg).
Context (return_cas should_touch inline : bool) (exptime : Z) (key : list Z).
(** The states of the store in which the key is found; those in which the command
    holds a reference to the item found. *)
Context (Found : S -> Prop) (Held : Z -> S -> Prop).

(** No memory, now or later, and no room in the array of buffers. *)
Definition starved (Q : S -> Prop) (s : net S) : Prop :=
  reallocs s = [] /\ iovsize (cn s) <= iovused (cn s) /\ c_transport (cn s) <> udp_transport /\ Q (back s).

(** A key that is found whenever it is looked up; the rest of the command's
    environment leaves the array full and the item where it is. *)
Record found_again : Prop := {
  fa_memory : mem_after (S := S) = false;
  fa_key : word key /\ cstr key = key /\ Z.of_nat (length key) <= KEY_MAX_LENGTH;
  fa_get b : Found b -> exists it b', limited_get key exptime should_touch b = Ok (it, b') /\ it <> 0 /\ Held it b';
  fa_record it b : Held it b -> exists b', record_get key true b = Ok (tt, b') /\ Held it b';
  fa_expand it i s : starved (Held it) s -> runs False (ascii_get_expand_ilist i) s (fun _ => starved (Held it));
  fa_suffix_buf it i s : starved (Held it) s -> runs False (ascii_get_suffix_buf i) s (fun _ => starved (Held it));
  fa_suffix it a n b : Held it b -> exists len b', make_ascii_get_suffix a it return_cas n b = Ok (len, b') /\ Held it b';
  fa_remove it b : Held it b -> exists b', item_remove it b = Ok b' /\ Found b' }.

Context (F : found_again).

(** A failed realloc leaves the connection as it is. *)
Lemma starved_same Q (s s' : net S) : starved Q s -> cn s' = cn s -> back s' = back s -> reallocs s' = tl (reallocs s) -> starved Q s'.
Proof using Type. intros (E & H) Ec Eb Er. unfold starved. by rewrite Er, E, Ec, Eb. Qed.
Lemma no_memory Q s : starved Q s -> List.hd (mem_after (S := S)) (reallocs s) = false.
Proof using F. intros (-> & _). apply (fa_memory F). Qed.

Lemma starved_add_iov Q buf len s : starved Q s -> runs False (Conn.add_iov cfg buf len) s (fun r s' => r = -1 /\ starved Q s').
Proof using F.
  intros Hs. pose proof Hs as (_ & _ & Ht & _). unfold Conn.add_iov. nsteps. rewrite tcp_false by done. nsteps.
  apply (runs_mono _ _ _ (fun _ => starved Q)).
  { case_decide; nsteps; [|done]. unfold add_msghdr. cbn [add_msghdr_n]. apply runs_bind.
    apply (runs_mono _ _ _ (fun (_ : bool) => starved Q)).
    { unfold grow_msglist. nsteps. case_decide; nsteps; [|done]. rewrite (no_memory Q) by done. nsteps.
      by eapply starved_same. }
    intros [] s1 H1; nsteps; [|done]. unfold start_msg. nsteps. simpl. rewrite tcp_false by apply H1. nsteps. done. }
  intros [] s1 H1. unfold ensure_iov_space. nsteps. rewrite decide_True by apply H1. nsteps.
  rewrite (no_memory Q) by done. nsteps. rewrite decide_True by done. nsteps. split; [done|]. by eapply starved_same.
Qed.

(** An operation of the store behind a starved connection. *)
Lemma starved_back {A} (Q Q' : S -> Prop) (m : M S A) s R :
  (forall b, Q b -> exists a b', m b = Ok (a, b') /\ Q' b') -> starved Q s ->
  (forall a s', starved Q' s' -> R a s') -> runs False (on_back m) s R.
Proof using Type.
  intros Hm (H1 & H2 & H3 & H4) HR. unfold on_back, runs. destruct (Hm _ H4) as (a & b' & -> & Hb). by apply HR.
Qed.

Lemma starved_response it si s : starved (Held it) s ->
  runs False (get_response cfg return_cas inline it si) s (fun r s' => r.1 = false /\ starved (Held it) s').
Proof using F.
  intros Hs. unfold get_response, field. nsteps. destruct (return_cas || negb inline).
  - nsteps. eapply runs_mono; [by apply (fa_suffix_buf F)|]. intros a s1 H1. case_decide; nsteps; [done|].
    eapply starved_back; [intros b; by apply (fa_suffix F)|done|]. intros n s2 H2. cbn [app first_failure foldr]. nsteps.
    eapply runs_mono; [by apply starved_add_iov|]. intros r s3 [-> H3]. rewrite decide_True by done. by nsteps.
  - cbn [app first_failure foldr]. nsteps. eapply runs_mono; [by apply starved_add_iov|]. intros r s3 [-> H3].
    rewrite decide_True by done. by nsteps.
Qed.

Lemma starved_release it s R : starved (Held it) s -> (forall s', starved Found s' -> R tt s') -> runs False (release it) s R.
Proof using F.
  intros (H1 & H2 & H3 & H4) HR. unfold release, with_back, runs. destruct (fa_remove F it _ H4) as (b' & -> & Hb). by apply HR.
Qed.

Lemma starved_key i si s : starved Found s ->
  runs False (get_key cfg return_cas should_touch inline exptime key i si) s
    (fun r s' => (exists i' si', r = KeyBreak i' si') /\ starved Found s').
Proof using F.
  intros Hs. unfold get_key. rewrite decide_False by (destruct (fa_key F) as (_ & _ & ?); lia).
  destruct Hs as (H1 & H2 & H3 & H4). apply runs_bind. unfold on_back at 1, runs at 1.
  destruct (fa_get F _ H4) as (it & b' & -> & Hit & Hb). set (s1 := s <| back := b' |>).
  assert (starved (Held it) s1) as Hs1 by done. clearbody s1. clear dependent s b'.
  unfold setting. nsteps. apply (runs_mono _ _ _ (fun _ => starved (Held it))).
  { apply runs_when; intros _; [|done]. rewrite bool_decide_eq_true_2 by done. destruct Hs1 as (? & ? & ? & H4). unfold on_back, runs.
    by destruct (fa_record F it _ H4) as (b' & -> & Hb). }
  intros [] s2 H2. rewrite decide_True by done. nsteps. eapply runs_mono; [by apply (fa_expand F)|]. intros r s3 H3. case_decide.
  - nsteps. eapply starved_release; [done|]. intros s4 H4. nsteps. split; [by eexists _, _|done].
  - nsteps. eapply runs_mono; [by apply starved_response|]. intros [ok si'] s4 [E H4]. simpl in E. subst ok. cbn [negb]. nsteps.
    eapply starved_release; [done|]. intros s5 H5. nsteps. split; [by eexists _, _|done].
Qed.

(** C17. The condition on memory of C10 is needed: when a key is found while the
    connection's array of buffers is full and no memory can be had, now or later,
    the loop of process_get_command releases the item, leaves the inner loop, makes
    the key itself the next line to be cut into words and tries it again: however
    many rounds the loop is given, it does not end. *)
Theorem get_retries_forever fuel keys rest i si s : starved Found s ->
  get_loop cfg fuel return_cas should_touch inline exptime (key :: keys) rest i si s = NoFuel.
Proof using F.
  revert keys rest i si s. induction fuel as [|fuel IH]; intros keys rest i si s Hs; [done|].
  cbn [get_loop get_keys]. unfold mbind, M_bind. pose proof (starved_key i si s Hs) as Hk. unfold runs in Hk.
  destruct (get_key cfg return_cas should_touch inline exptime key i si s) as [[r s1]| |]; [|done|done].
  destruct Hk as [(i' & si' & ->) H1]. cbn [mret M_ret]. destruct (fa_key F) as (Hw & Hc & _).
  rewrite (tokenize_word key Hw Hc). simpl. by apply IH.
Qed.
End starved.

(** ** A small store behind the commands

    Items are numbered from 1; a linked item is found by its key. *)
Module Toy.
Record entry := Entry { e_key : list Z; e_flags : Z; e_data : list Z; e_linked : bool }.
Record store := MkStore { entries : list entry; suffixes : list (list Z); sent : list Z; conf : cmd_settings }.
#[export] Instance entry_eta : Eta entry := fun e => Entry (e_key e) (e_flags e) (e_data e) (e_linked e).
#[export] Instance store_eta : Eta store := fun s => MkStore (entries s) (suffixes s) (sent s) (conf s).
#[export] Instance entry_inhabited : Inhabited entry := populate (Entry [] 0 [] false).
Definition ent (s : store) (it : Z) : entry := nth (Z.to_nat (it - 1)) (entries s) inhabitant.
Definition upd (it : Z) (f : entry -> entry) (s : store) : store := s <| entries ::= alter f (Z.to_nat (it - 1)) |>.
Fixpoint lookup (key : list Z) (n : Z) (l : list entry) : Z :=
  match l with
  | [] => 0
  | e :: l => if decide (e_linked e = true /\ e_key e = key) then n else lookup key (n + 1) l
  end.
(** An item is found only with a value of an int's length, its line end counted. *)
Definition find_item (key : list Z) : M store Z := gets (fun s =>
  let it := lookup key 1 (entries s) in
  if decide (2 <= Z.of_nat (length (e_data (ent s it))) < 2 ^ 31) then it else 0).

#[export] Instance backend : Backend store := {
  mem_after := true;
  item_remove _ s := Ok s;
  item_write it o bs s := upd it (fun e => e <| e_data ::= fun d => write_bytes d (Z.to_nat o) bs |>) s;
  item_chunked _ _ := false; item_slabbed _ _ := false; suffix_free _ s := s }.

Definition link (it comm : Z) : M store (Store.store_item_type * Z) :=
  s ← gets id;
  let old := lookup (e_key (ent s it)) 1 (entries s) in
  if bool_decide (comm = Store.NREAD_ADD) && negb (bool_decide (old = 0)) then mret (Store.NOT_STORED, 0)
  else
    (if decide (old = 0) then mret tt else modify (upd old (fun e => e <| e_linked := false |>)));;
    modify (upd it (fun e => e <| e_linked := true |>));;
    mret (Store.STORED, 0).

#[export] Instance cache : Cache store := {
  item_get key _ := find_item key; item_touch key _ := find_item key;
  item_alloc key flags _ n := (modify (fun s => s <| entries ::= fun l => l ++ [Entry key flags (replicate (Z.to_nat n) 0) false] |>);;
    gets (fun s => Z.of_nat (length (entries s))));
  item_unlink it := modify (upd it (fun e => e <| e_linked := false |>));
  item_set_cas _ _ := mret tt; item_size_ok _ _ _ _ := true; store_item := link;
  add_delta _ _ _ := mret (Store.DELTA_ITEM_NOT_FOUND, []);
  it_nkey s it := Z.of_nat (length (e_key (ent s it))); it_nbytes s it := Z.of_nat (length (e_data (ent s it)));
  it_nsuffix _ _ := 0; it_clsid _ _ := 1;
  it_data s it o n := take (Z.to_nat n) (drop (Z.to_nat o) (e_data (ent s it)));
  chunk_end _ _ := Some crlf; get_cas_id := mret 0; count _ := mret tt; the_settings := conf;
  set_settings f s := s <| conf ::= f |>;
  record_get _ _ := mret tt; record_set _ := mret tt; record_delete _ := mret tt;
  slabs_reassign _ _ := mret Slabs.REASSIGN_NOSPARE; slabs_adjust_mem_limit _ := mret true;
  lru_crawler_crawl _ _ _ := mret CRAWLER_OK; start_item_crawler_thread := mret 0; stop_item_crawler_thread := mret 0;
  logger_add_watcher _ := mret LOGGER_ADD_WATCHER_OK }.

Definition number (l : list Z) : option Z := safe_strtoull l.
#[export] Instance ext : Ext store := {
  limited_get key _ _ := find_item key; realtime e _ := e; safe_strtol := number; safe_strtoul := number; safe_strtod _ := None;
  errno_erange _ := false; ascii_get_expand_ilist _ := mret 0;
  ascii_get_suffix_buf _ := (modify (fun s => s <| back ::= fun b => b <| suffixes ::= fun l => l ++ [[]] |> |>);;
    gets (fun s => Z.of_nat (length (suffixes (back s)))));
  make_ascii_get_suffix a it _ n := (s ← gets id;
    let text := lit " " ++ dec_u (e_flags (ent s it)) ++ lit " " ++ dec_u (n - 2) ++ crlf in
    modify (fun s => s <| suffixes ::= <[Z.to_nat (a - 1) := text]> |>);; mret (Z.of_nat (length text)));
  add_chunked_item_iovs _ _ := mret 0; ext_build_udp_headers := mret 0; process_stat _ := conn_set_state conn_new_cmd;
  version := lit "1.5"; REALTIME_MAXDELTA := 2592000; MAX_VERBOSITY_LEVEL := 2; LRU_CRAWLER_CAP_REMAINING := 0;
  LOG_RAWCMDS := 1; LOG_EVICTIONS := 2; LOG_FETCHERS := 4; LOG_MUTATIONS := 8; LOG_SYSEVENTS := 16; INT_MAX := 2147483647 }.

(** The bytes an iovec stands for, and sendmsg of everything. *)
Definition bytes_at (c : conn) (b : store) (v : iovec) : list Z :=
  let l := match base (iov_base v) with
    | LStr s => s ++ [0] | LWbuf => wbuf c | LItem it => e_data (ent b it) | LItemKey it => e_key (ent b it)
    | LSuffix a => nth (Z.to_nat (a - 1)) (suffixes b) [] | _ => [] end in
  take (Z.to_nat (iov_len v)) (drop (Z.to_nat (off (iov_base v))) l).
#[export] Instance rest : Handlers store := {
  Machine.process_command _ := conn_set_state conn_new_cmd; Machine.complete_nread_ascii := conn_set_state conn_new_cmd;
  complete_nread_binary := mret tt; dispatch_bin_command := mret tt; write_bin_error _ := mret tt;
  read_into_chunked_item := mret (0, false); Machine.build_udp_headers := mret 0;
  transmit := (modify (fun s => s <| back ::= fun b => b <| sent ::= fun l => l ++ mjoin (bytes_at (cn s) b <$> mjoin (messages (cn s))) |> |>);;
    mret TRANSMIT_COMPLETE) }.

Ltac op := intros b; simpl; repeat (unfold find_item, link, mbind, M_bind, mret, M_ret, gets, modify; case_match); simpl; try done; naive_solver.
#[export] Instance cache_laws : CacheLaws store False.
Proof.
  split; intros; try done; try op.
  - simpl. nsteps. split; [done|]. simpl. rewrite length_app. simpl. lia.
  - simpl. eapply runs_mono; [by apply set_state_spec|]. intros [] s' (_ & E & I). split; [done|]. unfold command_state. by rewrite E.
Qed.
Lemma rest_lawful : @Lawful store backend rest False (fun _ => 0%nat).
Proof.
  split.
  - intros l s _ _. simpl. eapply runs_mono; [by apply set_state_spec|]. intros [] s' (_ & E & I). split; [done|]. unfold command_state. by rewrite E.
  - intros s _ _. simpl. eapply runs_mono; [by apply set_state_spec|]. intros [] s' (_ & E & I). split; [done|]. unfold command_state. by rewrite E.
  - intros s. simpl. nsteps. done.
  - intros s Hb Hl. apply runs_ret. exists [], []. simpl. rewrite !app_nil_r. split_and!; try done; lia.
  - done.
  - done.
Qed.

Definition conf0 : cmd_settings := CmdSettings 0 false 1 (SpecFloat.S754_zero false) true true true 0 0 20 40
  (SpecFloat.S754_zero false) (SpecFloat.S754_zero false) true true false 61 false true true 0 100 false.
Definition cfg : conn_cfg := ConnCfg 4 1400 8 64 64 8 4 8 4 8 4 20 10 false 2 4 16.
#[export] Instance served : Handlers store := ascii_handlers cfg rest.
Definition start : net store :=
  {| cn := Service.first; reallocs := []; event_ok := []; reads := []; datagrams := []; accepts := []; fcntls := []; use_accept4 := true;
     malloc_fails := 0; bytes_read := 0; conn_yields := 0; curr_conns := 1; reserved_fds := 0; rejected_conns := 0;
     allow_new_conns := true; now := 0; back := MkStore [] [] [] conf0; calls := []; received := []; taken := [] |}.
Definition run (s : net store) : net store := match drive_machine cfg 100 s with Ok (_, s) => s | _ => s end.
(** One event after another, each with what read() then delivers. *)
Fixpoint session (l : list (list rd_event)) (s : net store) : net store :=
  match l with [] => s | r :: l => session l (run (s <| reads := r |>)) end.
Definition sends (s : string) : list rd_event := match lit s ++ crlf with [] => [] | b :: bs => [RdData b bs] end.
Definition talk (l : list string) : net store := session ([] :: (sends <$> l)) start.
End Toy.
Import Toy.

(** A value is stored and found again; the first buffer of the response is one
    byte too long: a zero byte where the protocol has a blank. *)
Example set_then_get : sent (back (talk ["set a 7 0 2"; "hi"; "get a b"]%string)) =
  lit "STORED" ++ crlf ++ lit "VALUE" ++ [0] ++ lit "a 7 2" ++ crlf ++ lit "hi" ++ crlf ++ lit "END" ++ crlf.
Proof. vm_compute. reflexivity. Qed.

Lemma ascii_commands_lawful_witness : @Lawful store backend served False (fun _ => 0%nat) /\
  taken (talk ["set a 7 0 2"; "hi"; "get a"]%string) =
    [SLine (lit "set a 7 0 2" ++ [13]) (MValue 4); SValue (lit "hi" ++ crlf); SDone MLine; SLine (lit "get a" ++ [13]) MLine].
Proof.
  split; [|vm_compute; reflexivity].
  exact (ascii_commands_lawful Toy.cfg False (fun _ => 0%nat) rest cache_laws rest_lawful).
Defined.

(** A connection whose array of buffers is full, behind a store that has the key and
    an allocator that has nothing more. *)
Module Poor.
Definition backend : Backend store := {|
  mem_after := false; item_remove _ s := Ok s; item_write _ _ _ s := s; item_chunked _ _ := false;
  item_slabbed _ _ := false; suffix_free _ s := s |}.
Definition stored : net store := talk ["set a 7 0 2"; "hi"]%string.
Definition s : net store := stored <| cn ::= fun c => c <| iovused := iovsize c |> |>.
Definition Found (b : store) : Prop := entries b = [Entry (lit "a") 7 (lit "hi" ++ crlf) true].
Definition Held (it : Z) (b : store) : Prop := it = 1 /\ Found b.

Lemma always_found : found_again (B := backend) false false 0 (lit "a") Found Held.
Proof.
  split.
  - reflexivity.
  - split; [|by vm_compute]. split; [done|]. apply (bool_decide_unpack _). vm_compute. exact I.
  - intros b Hb. exists 1, b. split; [|done]. simpl. unfold find_item, gets, ent. by rewrite Hb.
  - intros it b Hb. by exists b.
  - intros it i s0 Hs. simpl. by nsteps.
  - intros it i s0 Hs. simpl. nsteps. exact Hs.
  - intros it a n b [-> Hb]. simpl. eexists _, _. split; [reflexivity|]. done.
  - intros it b [-> Hb]. by exists b.
Qed.
End Poor.

Lemma get_retries_forever_witness : starved Poor.Found Poor.s /\
  forall fuel, get_loop (B := Poor.backend) Toy.cfg fuel false false true 0 [lit "a"] None 0 0 Poor.s = NoFuel.
Proof.
  assert (starved Poor.Found Poor.s) as Hs.
  { split_and!; vm_compute; (reflexivity || discriminate). }
  split; [exact Hs|]. intros fuel.
  exact (get_retries_forever (B := Poor.backend) Toy.cfg false false true 0 (lit "a") Poor.Found Poor.Held Poor.always_found fuel [] None 0 0 Poor.s Hs).
Defined.
