(* ===== verification/Binary.v ===== *)
(** * The binary protocol (src/thread/memcached.c, src/thread/protocol_binary.h)

    The packets a connection of the binary protocol answers with, the dispatch of
    a request's header, and the handlers that run when the rest of the request has
    arrived.  sizeof of the request and response headers is 24; the machine is
    little-endian. *)

From S2P Require Import Prelude Decimal Dispatch Conn Iov Machine Commands.
From S2P Require Store.

(** ** Packets *)

Definition PROTOCOL_BINARY_RES : Z := 129.

Inductive bin_status :=
| SUCCESS | KEY_ENOENT | KEY_EEXISTS | E2BIG | EINVAL | NOT_STORED | DELTA_BADVAL
| AUTH_ERROR | AUTH_CONTINUE | UNKNOWN_COMMAND | ENOMEM.
Definition status_code (s : bin_status) : Z :=
  match s with
  | SUCCESS => 0 | KEY_ENOENT => 1 | KEY_EEXISTS => 2 | E2BIG => 3 | EINVAL => 4 | NOT_STORED => 5 | DELTA_BADVAL => 6
  | AUTH_ERROR => 32 | AUTH_CONTINUE => 33 | UNKNOWN_COMMAND => 129 | ENOMEM => 130
  end.

(** protocol_binary_command *)
Inductive bin_cmd :=
| CMD_GET | CMD_SET | CMD_ADD | CMD_REPLACE | CMD_DELETE | CMD_INCREMENT | CMD_DECREMENT | CMD_QUIT | CMD_FLUSH | CMD_GETQ
| CMD_NOOP | CMD_VERSION | CMD_GETK | CMD_GETKQ | CMD_APPEND | CMD_PREPEND | CMD_STAT | CMD_SETQ | CMD_ADDQ | CMD_REPLACEQ
| CMD_DELETEQ | CMD_INCREMENTQ | CMD_DECREMENTQ | CMD_QUITQ | CMD_FLUSHQ | CMD_APPENDQ | CMD_PREPENDQ | CMD_TOUCH | CMD_GAT
| CMD_GATQ | CMD_GATK | CMD_GATKQ | CMD_SASL_LIST_MECHS | CMD_SASL_AUTH | CMD_SASL_STEP.
#[export] Instance bin_cmd_eq_dec : EqDecision bin_cmd.
Proof. solve_decision. Defined.
Definition cmd_code (c : bin_cmd) : Z :=
  match c with
  | CMD_GET => 0 | CMD_SET => 1 | CMD_ADD => 2 | CMD_REPLACE => 3 | CMD_DELETE => 4 | CMD_INCREMENT => 5 | CMD_DECREMENT => 6
  | CMD_QUIT => 7 | CMD_FLUSH => 8 | CMD_GETQ => 9 | CMD_NOOP => 10 | CMD_VERSION => 11 | CMD_GETK => 12 | CMD_GETKQ => 13
  | CMD_APPEND => 14 | CMD_PREPEND => 15 | CMD_STAT => 16 | CMD_SETQ => 17 | CMD_ADDQ => 18 | CMD_REPLACEQ => 19
  | CMD_DELETEQ => 20 | CMD_INCREMENTQ => 21 | CMD_DECREMENTQ => 22 | CMD_QUITQ => 23 | CMD_FLUSHQ => 24 | CMD_APPENDQ => 25
  | CMD_PREPENDQ => 26 | CMD_TOUCH => 28 | CMD_GAT => 29 | CMD_GATQ => 30 | CMD_SASL_LIST_MECHS => 32 | CMD_SASL_AUTH => 33
  | CMD_SASL_STEP => 34 | CMD_GATK => 35 | CMD_GATKQ => 36
  end.
Definition all_cmds : list bin_cmd :=
  [ CMD_GET; CMD_SET; CMD_ADD; CMD_REPLACE; CMD_DELETE; CMD_INCREMENT; CMD_DECREMENT; CMD_QUIT; CMD_FLUSH; CMD_GETQ;
    CMD_NOOP; CMD_VERSION; CMD_GETK; CMD_GETKQ; CMD_APPEND; CMD_PREPEND; CMD_STAT; CMD_SETQ; CMD_ADDQ; CMD_REPLACEQ;
    CMD_DELETEQ; CMD_INCREMENTQ; CMD_DECREMENTQ; CMD_QUITQ; CMD_FLUSHQ; CMD_APPENDQ; CMD_PREPENDQ; CMD_TOUCH; CMD_GAT;
    CMD_GATQ; CMD_GATK; CMD_GATKQ; CMD_SASL_LIST_MECHS; CMD_SASL_AUTH; CMD_SASL_STEP ].
Definition cmd_of (x : Z) : option bin_cmd := List.find (fun c => bool_decide (cmd_code c = x)) all_cmds.

(** htons, htonl and htonll as the bytes they leave in memory: [n] bytes of [x],
    the most significant first. *)
Fixpoint to_be (n : nat) (x : Z) : list Z :=
  match n with O => [] | Datatypes.S n => to_be n (x / 256) ++ [x mod 256] end.
Definition to_le (n : nat) (x : Z) : list Z := reverse (to_be n x).

(** The 24 bytes of protocol_binary_response_header. *)
Definition response_header (opcode keylen extlen status bodylen opaque cas : Z) : list Z :=
  [PROTOCOL_BINARY_RES; u8 opcode] ++ to_be 2 keylen ++ [u8 extlen; 0] ++ to_be 2 status ++ to_be 4 bodylen ++
  to_le 4 opaque ++ to_be 8 cas.

Definition error_text (err : bin_status) : option string :=
  match err with
  | ENOMEM => Some "Out of memory"%string
  | UNKNOWN_COMMAND => Some "Unknown command"%string
  | KEY_ENOENT => Some "Not found"%string
  | EINVAL => Some "Invalid arguments"%string
  | KEY_EEXISTS => Some "Data exists for key. "%string
  | E2BIG => Some "Too large."%string
  | DELTA_BADVAL => Some "Non-numeric server-side value for incr or decr"%string
  | NOT_STORED => Some "Not stored."%string
  | AUTH_ERROR => Some "Auth failure."%string
  | _ => None
  end.

(** ** What the binary commands use besides the interfaces of the ASCII ones

    binary_get_key and binary_get_request are called and not given: where in the
    read buffer they point.  The SASL library answers with a code, 0 for SASL_OK
    and -1 for SASL_CONTINUE, and text. *)
Class BinExt (S : Type) := {
  binary_get_key : conn -> Z;
  binary_get_request : conn -> Z;
  add_delta_cas : list Z -> bool -> Z -> Z -> M S (Store.delta_result_type * list Z * Z);
  it_cas : S -> Z -> Z;
  it_suffix : S -> Z -> list Z;
  it_key : S -> Z -> list Z;
  (* "\r\n" behind a chunked value, at the chunk c->ritem points at: None when it has no room *)
  close_chunk : ptr -> S -> option S;
  sasl : bool;
  sasl_server_new : M S Z;
  sasl_listmech : M S (Z * list Z);
  sasl_server_start : list Z -> list Z -> M S (Z * list Z);
  sasl_server_step : list Z -> M S (Z * list Z);
  auth_cmd : bool -> M S unit;
  process_bin_stat : M (net S) unit }.

Definition MAX_SASL_MECH_LEN : Z := 32.
Definition SASL_OK : Z := 0.
Definition SASL_CONTINUE : Z := -1.

Section binary.
Context {S : Type} {B : Backend S} {K : Cache S} {X : Ext S} {Y : BinExt S} (cfg : conn_cfg).
Abbreviation Mn := (M (net S)).
Abbreviation add_iov := (add_iov cfg).
Abbreviation add_msghdr := (add_msghdr cfg).

Definition is_cmd (x : bin_cmd) : Mn bool := getc (fun c => bool_decide (c_cmd c = cmd_code x)).
Definition set_cmd (x : Z) : Mn unit := setc (fun c => c <| c_cmd := x |>).
Definition go_on (st : conn_states) : Mn unit := setc (fun c => c <| write_and_go := st |>).
Definition str_ptr (l : list Z) : ptr := Ptr (LStr l) 0.

(** Bytes of the read and of the write buffer; outside them the access is
    undefined. *)
Definition rbuf_at (o n : Z) : Mn (list Z) :=
  c ← getc id;
  massert (bool_decide (0 <= o /\ 0 <= n /\ o + n <= rsize c));;
  mret (slice (rbuf c) (Z.to_nat o) (Z.to_nat (o + n))).
Definition rbuf_set (o : Z) (bs : list Z) : Mn unit :=
  c ← getc id;
  massert (bool_decide (0 <= o /\ o + Z.of_nat (length bs) <= rsize c));;
  setc (fun c => c <| rbuf ::= fun b => write_bytes b (Z.to_nat o) bs |>).
Definition wbuf_set (o : Z) (bs : list Z) : Mn unit :=
  c ← getc id;
  massert (bool_decide (0 <= o /\ o + Z.of_nat (length bs) <= wsize c));;
  setc (fun c => c <| wbuf ::= fun b => write_bytes b (Z.to_nat o) bs |>).

(** The key of the request, and [n] bytes at [o] of the request. *)
Definition request_key : Mn (list Z) :=
  c ← getc id;
  rbuf_at (binary_get_key c) (h_keylen (binary_header c)).
Definition request_bytes (o n : Z) : Mn (list Z) :=
  c ← getc id;
  rbuf_at (binary_get_request c + o) n.

(** req->field = ntohl(req->field), or ntohll: the bytes in reverse order. *)
Definition fix_order (o n : Z) : Mn Z :=
  bs ← request_bytes o n;
  c ← getc id;
  rbuf_set (binary_get_request c + o) (reverse bs);;
  mret (be bs).

(** ** Writing a response *)

(** No memory for the header: out_of_memory, that is write_bin_error, which asks
    for memory again. *)
Fixpoint add_bin_header_n (fuel : nat) (err : bin_status) (hdr_len key_len body_len : Z) : Mn unit :=
  match fuel with
  | O => nofuel
  | Datatypes.S fuel =>
      setc (fun c => c <| msgcurr := 0 |> <| msgused := 0 |> <| iovused := 0 |>);;
      r ← add_msghdr;
      if decide (r <> 0) then
        p ← getc c_protocol;
        if decide (p = binary_prot) then
          let str := lit "out of memory adding binary header" in
          add_bin_header_n fuel ENOMEM 0 0 (Z.of_nat (length str));;
          _ ← add_iov (str_ptr str) (Z.of_nat (length str));
          conn_set_state conn_mwrite;;
          go_on conn_new_cmd
        else out_string cfg (lit "SERVER_ERROR out of memory adding binary header")
      else
        c ← getc id;
        wbuf_set 0 (response_header (opcode (binary_header c)) key_len hdr_len (status_code err) body_len (c_opaque c) (c_cas c));;
        _ ← add_iov (Ptr LWbuf 0) 24;
        mret tt
  end.
Definition add_bin_header (err : bin_status) (hdr_len key_len body_len : Z) : Mn unit :=
  n ← gets (fun s => length (reallocs s));
  add_bin_header_n (Datatypes.S n) err hdr_len key_len body_len.

Definition write_bin_error (err : bin_status) (errstr : option (list Z)) (swallow : Z) : Mn unit :=
  str ← (match errstr with
         | Some l => mret l
         | None => match error_text err with
                   | Some t => mret (lit t)
                   | None => massert false;; mret (lit "UNHANDLED ERROR")
                   end
         end);
  let len := Z.of_nat (length str) in
  add_bin_header err 0 0 len;;
  (if decide (0 < len) then _ ← add_iov (str_ptr str) len; mret tt else mret tt);;
  conn_set_state conn_mwrite;;
  if decide (0 < swallow) then setc (fun c => c <| sbytes := swallow |> <| write_and_go := conn_swallow |>)
  else go_on conn_new_cmd.

Definition write_bin_response (d : ptr) (hlen keylen dlen : Z) : Mn unit :=
  c ← getc id;
  if negb (noreply c) || bool_decide (c_cmd c = cmd_code CMD_GET \/ c_cmd c = cmd_code CMD_GETK) then
    add_bin_header SUCCESS hlen keylen dlen;;
    (if decide (0 < dlen) then _ ← add_iov d dlen; mret tt else mret tt);;
    conn_set_state conn_mwrite;;
    go_on conn_new_cmd
  else conn_set_state conn_new_cmd.

(** out_of_memory *)
Definition bin_out_of_memory (ascii_error : list Z) : Mn unit :=
  p ← getc c_protocol;
  let error_prefix := lit "SERVER_ERROR " in
  if decide (p = binary_prot) then
    write_bin_error ENOMEM (Some (if decide (take (length error_prefix) ascii_error = error_prefix)
                                  then drop (length error_prefix) ascii_error else ascii_error)) 0
  else out_string cfg ascii_error.

Definition write_bin_miss_response (key : list Z) : Mn unit :=
  let nkey := Z.of_nat (length key) in
  if decide (nkey <> 0) then
    add_bin_header KEY_ENOENT 0 nkey nkey;;
    wbuf_set 24 key;;
    _ ← add_iov (Ptr LWbuf 24) nkey;
    conn_set_state conn_mwrite;;
    go_on conn_new_cmd
  else write_bin_error KEY_ENOENT None 0.

Definition handle_binary_protocol_error : Mn unit := write_bin_error EINVAL None 0;; go_on conn_closing.

(** ** incr, decr *)

(** The item that incr or decr puts where there was none. *)
Definition incr_initial (key : list Z) (initial expiration : Z) : Mn unit :=
  wbuf_set 24 (to_be 8 initial);;
  let tmpbuf := dec_u initial in
  rt ← field (realtime expiration);
  it ← on_back (item_alloc key 0 rt (Z.of_nat (length tmpbuf) + 2));
  if decide (it <> 0) then
    with_back (fun b => Ok (item_write it 0 tmpbuf b));;
    with_back (fun b => Ok (item_write it (Z.of_nat (length tmpbuf)) crlf b));;
    '(ret, cas) ← on_back (store_item it Store.NREAD_ADD);
    (* store_item writes c->cas when it stores; NOT_STORED is the enumerator 0 *)
    when (if ret is Store.STORED then true else false) (setc (fun c => c <| c_cas := cas |>));;
    (match ret with
     | Store.NOT_STORED => write_bin_error NOT_STORED None 0
     | _ =>
         cas ← field (fun b => it_cas b it);
         setc (fun c => c <| c_cas := cas |>);;
         write_bin_response (Ptr LWbuf 24) 0 0 8
     end);;
    release it
  else bin_out_of_memory (lit "SERVER_ERROR Out of memory allocating new item").

Definition complete_incr_bin : Mn unit :=
  ws ← getc wsize;
  massert (bool_decide (32 <= ws));;
  delta ← fix_order 24 8;
  initial ← fix_order 32 8;
  expiration ← fix_order 40 4;
  key ← request_key;
  incr ← is_cmd CMD_INCREMENT;
  cas ← getc (fun c => h_cas (binary_header c));
  '(r, tmpbuf, cas) ← on_back (add_delta_cas key incr delta cas);
  match r with
  | Store.DELTA_OK =>
      wbuf_set 24 (to_be 8 (match strtoull tmpbuf with Some (v, _, _) => v | None => 0 end));;
      (if decide (cas <> 0) then setc (fun c => c <| c_cas := cas |>) else mret tt);;
      write_bin_response (Ptr LWbuf 24) 0 0 8
  | Store.NON_NUMERIC => write_bin_error DELTA_BADVAL None 0
  | Store.EOM => bin_out_of_memory (lit "SERVER_ERROR Out of memory incrementing value")
  | Store.DELTA_ITEM_NOT_FOUND =>
      if decide (expiration <> 2 ^ 32 - 1) then incr_initial key initial expiration
      else tally (if (incr : bool) then incr_misses else decr_misses);; write_bin_error KEY_ENOENT None 0
  | Store.DELTA_ITEM_CAS_MISMATCH => write_bin_error KEY_EEXISTS None 0
  end.

(** ** The end of set, add, replace, append, prepend *)

(** The line end that the protocol does not send. *)
Definition finish_value (it : Z) : Mn unit :=
  chunked ← field (fun b => item_chunked b it);
  nbytes ← field (fun b => it_nbytes b it);
  if negb chunked then with_back (fun b => Ok (item_write it (nbytes - 2) crlf b))
  else
    r ← getc ritem;
    massert (negb (bool_decide (base r = LNull)));;
    with_back (fun b => match close_chunk r b with Some b => Ok b | None => Abort end).

Definition complete_update_bin : Mn unit :=
  it ← getc c_item;
  cls ← field (fun b => it_clsid b it);
  tally (set_cmds cls);;
  finish_value it;;
  comm ← getc c_cmd;
  '(ret, cas) ← on_back (store_item it comm);
  when (if ret is Store.STORED then true else false) (setc (fun c => c <| c_cas := cas |>));;
  (match ret with
   | Store.STORED => write_bin_response null 0 0 0
   | Store.EXISTS => write_bin_error KEY_EEXISTS None 0
   | Store.NOT_FOUND => write_bin_error KEY_ENOENT None 0
   | Store.NOT_STORED | Store.TOO_LARGE | Store.NOT_MEMORY =>
       write_bin_error (if decide (comm = Store.NREAD_ADD) then KEY_EEXISTS
                        else if decide (comm = Store.NREAD_REPLACE) then KEY_ENOENT else NOT_STORED) None 0
   end);;
  it ← getc c_item;
  release it;;
  setc (fun c => c <| c_item := 0 |>).

(** ** get, getk, touch, gat, gatk *)

Definition response_flags (it : Z) : Mn (list Z) :=
  inline ← setting inline_ascii_response;
  nsuffix ← field (fun b => it_nsuffix b it);
  suffix ← field (fun b => it_suffix b it);
  mret (if (inline : bool) then to_be 4 (strtoul32 suffix)
        else if decide (0 < nsuffix) then to_be 4 (le32 suffix 0) else [0; 0; 0; 0]).

Definition bin_hit (should_touch should_return_key should_return_value : bool) (nkey it : Z) : Mn unit :=
  nbytes ← field (fun b => it_nbytes b it);
  cls ← field (fun b => it_clsid b it);
  (if should_touch then tally touch_cmds;; tally (touch_hits cls) else tally get_cmds;; tally (lru_hits cls));;
  touch ← is_cmd CMD_TOUCH;
  let bodylen := u32 (4 + (nbytes - 2)) in
  let bodylen := if (touch : bool) then u32 (bodylen - (nbytes - 2)) else if should_return_key then u32 (bodylen + nkey) else bodylen in
  let keylen := if negb touch && should_return_key then u16 nkey else 0 in
  add_bin_header SUCCESS 4 keylen bodylen;;
  cas ← field (fun b => it_cas b it);
  wbuf_set 16 (to_be 8 cas);;
  flags ← response_flags it;
  wbuf_set 24 flags;;
  _ ← add_iov (Ptr LWbuf 24) 4;
  (if should_return_key then _ ← add_iov (item_key it) nkey; mret tt else mret tt);;
  chunked ← field (fun b => item_chunked b it);
  (if should_return_value then
     _ ← (if negb chunked then add_iov (item_data it) (nbytes - 2) else add_chunked_item_iovs it (nbytes - 2)); mret tt
   else mret tt);;
  conn_set_state conn_mwrite;;
  setc (fun c => c <| write_and_go := conn_new_cmd |> <| c_item := it |>).

Definition bin_miss (should_touch should_return_key : bool) (key : list Z) : Mn unit :=
  (if should_touch then tally touch_cmds;; tally touch_misses else tally get_cmds;; tally get_misses);;
  nr ← getc noreply;
  if (nr : bool) then conn_set_state conn_new_cmd
  else write_bin_miss_response (if should_return_key then key else []).

Definition process_bin_get_or_touch : Mn unit :=
  key ← request_key;
  cmd ← getc c_cmd;
  let one x := bool_decide (cmd = cmd_code x) in
  let should_touch := one CMD_TOUCH || one CMD_GAT || one CMD_GATK in
  let should_return_key := one CMD_GETK || one CMD_GATK in
  let should_return_value := negb (one CMD_TOUCH) in
  it ← (if should_touch then
          e ← request_bytes 24 4;
          rt ← field (realtime (be e));
          on_back (item_touch key rt)
        else on_back (item_get key true));
  (if decide (it <> 0) then bin_hit should_touch should_return_key should_return_value (Z.of_nat (length key)) it
   else bin_miss should_touch should_return_key key);;
  detail ← setting detail_enabled;
  when detail (on_back (record_get key (bool_decide (it <> 0)))).

(** ** set, add, replace, append, prepend *)

(** The value is to be read into the item. *)
Definition read_value (it vlen : Z) : Mn unit :=
  setc (fun c => c <| c_item := it |> <| ritem := item_data it |> <| rlbytes := vlen |>);;
  conn_set_state conn_nread;;
  setc (fun c => c <| c_substate := bin_read_set_value |>).

(** No item could be had; the value is to be skipped. *)
Definition value_refused (nkey flags vlen : Z) (oom : string) : Mn unit :=
  fits ← field (item_size_ok nkey flags (vlen + 2));
  (if negb fits then write_bin_error E2BIG None vlen
   else bin_out_of_memory (lit oom);; setc (fun c => c <| sbytes := vlen |>)).

Definition process_bin_update : Mn unit :=
  flags ← fix_order 24 4;
  expiration ← fix_order 28 4;
  key ← request_key;
  h ← getc binary_header;
  let vlen := s32 (bodylen h - (h_keylen h + extlen h)) in
  detail ← setting detail_enabled;
  when detail (on_back (record_set key));;
  rt ← field (realtime expiration);
  it ← on_back (item_alloc key flags rt (vlen + 2));
  if decide (it = 0) then
    value_refused (h_keylen h) flags vlen "SERVER_ERROR Out of mmeory allocating item";;
    for_set ← is_cmd CMD_SET;
    when for_set (old ← on_back (item_get key false); when (bool_decide (old <> 0)) (on_back (item_unlink old);; release old));;
    go_on conn_swallow
  else
    on_back (item_set_cas it (h_cas h));;
    cmd ← getc c_cmd;
    (if decide (cmd = cmd_code CMD_ADD) then set_cmd Store.NREAD_ADD
     else if decide (cmd = cmd_code CMD_SET) then set_cmd Store.NREAD_SET
     else if decide (cmd = cmd_code CMD_REPLACE) then set_cmd Store.NREAD_REPLACE
     else massert false);;
    cas ← field (fun b => it_cas b it);
    (if decide (cas <> 0) then set_cmd Store.NREAD_CAS else mret tt);;
    read_value it vlen.

Definition process_bin_append_prepend : Mn unit :=
  key ← request_key;
  h ← getc binary_header;
  let vlen := s32 (bodylen h - h_keylen h) in
  detail ← setting detail_enabled;
  when detail (on_back (record_set key));;
  it ← on_back (item_alloc key 0 0 (vlen + 2));
  if decide (it = 0) then
    value_refused (h_keylen h) 0 vlen "SERVER_ERROR Out of memory allocating item";;
    go_on conn_swallow
  else
    on_back (item_set_cas it (h_cas h));;
    cmd ← getc c_cmd;
    (if decide (cmd = cmd_code CMD_APPEND) then set_cmd Store.NREAD_APPEND
     else if decide (cmd = cmd_code CMD_PREPEND) then set_cmd Store.NREAD_PREPEND
     else massert false);;
    read_value it vlen.

(** ** flush, delete *)

Definition process_bin_flush : Mn unit :=
  enabled ← setting flush_enabled;
  if negb enabled then write_bin_error AUTH_ERROR None 0
  else
    h ← getc binary_header;
    exptime ← (if decide (extlen h = 4) then e ← request_bytes 24 4; mret (be e) else mret 0);
    tnow ← gets now;
    rt ← field (realtime exptime);
    let new_oldest := if decide (0 < exptime) then rt else tnow in
    cas ← setting use_cas;
    (if (cas : bool) then
       let live := u32 (new_oldest - 1) in
       set_setting (fun s => s <| oldest_live := live |>);;
       if decide (live <= tnow) then id ← on_back get_cas_id; set_setting (fun s => s <| oldest_cas := id |>) else mret tt
     else set_setting (fun s => s <| oldest_live := new_oldest |>));;
    tally flush_cmds;;
    write_bin_response null 0 0 0.

Definition process_bin_delete : Mn unit :=
  key ← request_key;
  detail ← setting detail_enabled;
  when detail (on_back (record_delete key));;
  it ← on_back (item_get key false);
  if decide (it <> 0) then
    e ← request_bytes 16 8;
    icas ← field (fun b => it_cas b it);
    (if decide (be e = 0 \/ be e = icas) then
       cls ← field (fun b => it_clsid b it);
       tally (delete_hits cls);;
       on_back (item_unlink it);;
       write_bin_response null 0 0 0
     else write_bin_error KEY_EEXISTS None 0);;
    release it
  else write_bin_error KEY_ENOENT None 0;; tally delete_misses.

(** ** SASL *)

Definition init_sasl_conn : Mn unit :=
  if negb sasl then mret tt
  else
    setc (fun c => c <| is_authenticated := false |>);;
    has ← getc sasl_conn;
    if (has : bool) then mret tt
    else
      r ← on_back sasl_server_new;
      setc (fun c => c <| sasl_conn := bool_decide (r = SASL_OK) |>).

Definition bin_list_sasl_mechs : Mn unit :=
  if negb sasl then
    h ← getc binary_header;
    write_bin_error UNKNOWN_COMMAND None (s32 (bodylen h - h_keylen h))
  else
    init_sasl_conn;;
    '(result, mechs) ← on_back sasl_listmech;
    if decide (result <> SASL_OK) then write_bin_error AUTH_ERROR None 0
    else write_bin_response (str_ptr mechs) 0 0 (Z.of_nat (length mechs)).

(** The two ints nkey and vlen of the SASL handlers. *)
Definition sasl_lengths : Mn (Z * Z) :=
  h ← getc binary_header;
  mret (h_keylen h, s32 (bodylen h - h_keylen h)).

Definition process_bin_sasl_auth : Mn unit :=
  '(nkey, vlen) ← sasl_lengths;
  if negb sasl then write_bin_error UNKNOWN_COMMAND None vlen
  else
    ext ← getc (fun c => extlen (binary_header c));
    massert (bool_decide (ext = 0));;
    if decide (MAX_SASL_MECH_LEN < nkey) then write_bin_error EINVAL None vlen;; go_on conn_swallow
    else
      key ← request_key;
      it ← on_back (item_alloc key 0 0 (vlen + 2));
      chunked ← field (fun b => item_chunked b it);
      if bool_decide (it = 0) || chunked then write_bin_error ENOMEM None vlen;; go_on conn_swallow
      else
        setc (fun c => c <| c_item := it |> <| ritem := item_data it |> <| rlbytes := vlen |>);;
        conn_set_state conn_nread;;
        (* the field is spelled substats *)
        setc (fun c => c <| c_substate := bin_reading_sasl_auth_data |>).

(** What the library said: the answer and the counters. *)
Definition sasl_answer (result : Z) (out : list Z) : Mn unit :=
  if decide (result = SASL_OK) then
    setc (fun c => c <| is_authenticated := true |>);;
    write_bin_response (str_ptr (lit "Authenticated")) 0 0 13;;
    on_back (auth_cmd true)
  else if decide (result = SASL_CONTINUE) then
    let outlen := Z.of_nat (length out) in
    add_bin_header AUTH_CONTINUE 0 0 outlen;;
    (if decide (0 < outlen) then _ ← add_iov (str_ptr out) outlen; mret tt else mret tt);;
    conn_set_state conn_mwrite;;
    go_on conn_new_cmd
  else write_bin_error AUTH_ERROR None 0;; on_back (auth_cmd false).

Definition process_bin_complete_sasl_auth : Mn unit :=
  massert sasl;;
  it ← getc c_item;
  massert (negb (bool_decide (it = 0)));;
  init_sasl_conn;;
  '(nkey, vlen) ← sasl_lengths;
  item_nkey ← field (fun b => it_nkey b it);
  item_nbytes ← field (fun b => it_nbytes b it);
  if decide (item_nkey < nkey \/ item_nbytes < vlen) then
    write_bin_error EINVAL None vlen;; go_on conn_swallow;; on_back (item_unlink it)
  else
    mech ← field (fun b => cstr (take (Z.to_nat nkey) (it_key b it)));
    challenge ← field (fun b => if decide (vlen = 0) then [] else it_data b it 0 vlen);
    start ← is_cmd CMD_SASL_AUTH;
    step ← is_cmd CMD_SASL_STEP;
    '(result, out) ← (if (start : bool) then on_back (sasl_server_start mech challenge)
                      else if (step : bool) then on_back (sasl_server_step challenge)
                      else massert false;; mret (-1, []));
    on_back (item_unlink it);;
    sasl_answer result out.

Definition authenticated : Mn bool :=
  massert sasl;;
  c ← getc id;
  mret (bool_decide (c_cmd c ∈ cmd_code <$> [CMD_SASL_LIST_MECHS; CMD_SASL_AUTH; CMD_SASL_STEP; CMD_VERSION]) || is_authenticated c).

(** ** The request's header has arrived *)

(** while (size > nsize) nsize *= 2; of a size of at most 2^63, 64 rounds are enough. *)
Fixpoint grow_to (fuel : nat) (size nsize : Z) : res Z :=
  match fuel with
  | O => NoFuel
  | Datatypes.S fuel => if decide (nsize < size) then grow_to fuel size (u64 (nsize * 2)) else Ok nsize
  end.

Definition bin_read_key (next_substate : bin_substates) (extra : Z) : Mn unit :=
  setc (fun c => c <| c_substate := next_substate |> <| rlbytes := c_keylen c + extra |>);;
  c ← getc id;
  let offset := rcurr c + 24 in
  ok ← (if decide (rsize c - offset < rlbytes c) then
      nsize ← (fun s => match grow_to 64 (rlbytes c + 24) (rsize c) with Ok n => Ok (n, s) | Abort => Abort | NoFuel => NoFuel end);
      ok ← (if decide (nsize = rsize c) then mret true
            else
              ok ← realloc;
              if (ok : bool) then setc (fun c => c <| rbuf ::= fun b => resize (Z.to_nat nsize) 0 b |> <| rsize := nsize |>);; mret true
              else malloc_failed;; conn_set_state conn_closing;; mret false);
      when ok (setc move_down);;
      mret ok
    else mret true);
  when ok (setc (fun c => c <| ritem := Ptr LRbuf (rcurr c + 24) |>);; conn_set_state conn_nread).

(** The commands that answer nothing when all went well, and what they are otherwise. *)
Definition unquiet (x : bin_cmd) : option bin_cmd :=
  match x with
  | CMD_SETQ => Some CMD_SET | CMD_ADDQ => Some CMD_ADD | CMD_REPLACEQ => Some CMD_REPLACE | CMD_DELETEQ => Some CMD_DELETE
  | CMD_INCREMENTQ => Some CMD_INCREMENT | CMD_DECREMENTQ => Some CMD_DECREMENT | CMD_QUITQ => Some CMD_QUIT
  | CMD_FLUSHQ => Some CMD_FLUSH | CMD_APPENDQ => Some CMD_APPEND | CMD_PREPENDQ => Some CMD_PREPEND | CMD_GETQ => Some CMD_GET
  | CMD_GETKQ => Some CMD_GETK | CMD_GATQ => Some CMD_GAT | CMD_GATKQ => Some CMD_GATK
  | _ => None
  end.

(** What the switch does with a command: answers it, reads [extra] bytes and the
    key first, or finds the lengths wrong. *)
Inductive plan := Answer (m : Mn unit) | ReadKey (next : bin_substates) (extra : Z) | Wrong.
Definition bin_quit : Mn unit :=
  write_bin_response null 0 0 0;;
  go_on conn_closing;;
  nr ← getc noreply;
  when nr (conn_set_state conn_closing).
Definition plan_of (cmd : option bin_cmd) (ext key body : Z) : plan :=
  let provided (b : bool) (p : plan) := if b then p else Wrong in
  let bare := bool_decide (ext = 0 /\ key = 0 /\ body = 0) in
  match cmd with
  | Some CMD_VERSION => provided bare (Answer (write_bin_response (str_ptr version) 0 0 (Z.of_nat (length version))))
  | Some CMD_FLUSH => provided (bool_decide (key = 0 /\ body = ext /\ (ext = 0 \/ ext = 4))) (ReadKey bin_read_flush_exptime ext)
  | Some CMD_NOOP => provided bare (Answer (write_bin_response null 0 0 0))
  | Some CMD_SET | Some CMD_ADD | Some CMD_REPLACE =>
      (* the protocol sends 8 bytes of extras here *)
      provided (bool_decide (ext = 0 /\ key <> 0 /\ key + 8 <= body)) (ReadKey bin_reading_set_header 8)
  | Some CMD_GETQ | Some CMD_GET | Some CMD_GETKQ | Some CMD_GETK =>
      provided (bool_decide (ext = 0 /\ body = key /\ 0 < key)) (ReadKey bin_reading_get_key 0)
  | Some CMD_DELETE => provided (bool_decide (0 < key /\ ext = 0 /\ body = key)) (ReadKey bin_reading_del_header ext)
  | Some CMD_INCREMENT | Some CMD_DECREMENT =>
      provided (bool_decide (0 < key /\ ext = 20 /\ body = key + ext)) (ReadKey bin_reading_incr_header 20)
  | Some CMD_APPEND | Some CMD_PREPEND => provided (bool_decide (0 < key /\ ext = 0)) (ReadKey bin_reading_set_header 0)
  | Some CMD_STAT => provided (bool_decide (ext = 0)) (ReadKey bin_reading_stat 0)
  | Some CMD_QUIT => provided bare (Answer bin_quit)
  | Some CMD_SASL_LIST_MECHS => provided bare (Answer bin_list_sasl_mechs)
  | Some CMD_SASL_AUTH | Some CMD_SASL_STEP => provided (bool_decide (ext = 0 /\ key <> 0)) (ReadKey bin_reading_sasl_auth 0)
  | Some CMD_TOUCH | Some CMD_GAT | Some CMD_GATQ | Some CMD_GATK | Some CMD_GATKQ =>
      provided (bool_decide (ext = 4 /\ key <> 0)) (ReadKey bin_reading_touch_key 4)
  | _ => Answer (write_bin_error UNKNOWN_COMMAND None (s32 body))
  end.

Definition set_quiet : Mn unit :=
  setc (fun c => match cmd_of (c_cmd c) ≫= unquiet with
                 | Some x => c <| noreply := true |> <| c_cmd := cmd_code x |>
                 | None => c <| noreply := false |>
                 end).

Definition dispatch_bin_command : Mn unit :=
  h ← getc binary_header;
  let ext := extlen h in let key := h_keylen h in let body := bodylen h in
  if decide (body < key \/ body < key + ext) then write_bin_error UNKNOWN_COMMAND None 0;; go_on conn_closing
  else
    ok ← (if sasl then authenticated else mret true);
    if negb ok then write_bin_error AUTH_ERROR None 0;; go_on conn_closing
    else if decide (KEY_MAX_LENGTH < key) then setc (fun c => c <| noreply := true |>);; handle_binary_protocol_error
    else
      set_quiet;;
      cmd ← getc c_cmd;
      match plan_of (cmd_of cmd) ext key body with
      | Answer m => m
      | ReadKey next extra => bin_read_key next extra
      | Wrong => handle_binary_protocol_error
      end.

(** ** The rest of the request has arrived *)

Definition complete_nread_binary : Mn unit :=
  c ← getc id;
  massert (bool_decide (0 <= c_cmd c));;
  match c_substate c with
  | bin_reading_set_header =>
      if decide (c_cmd c = cmd_code CMD_APPEND \/ c_cmd c = cmd_code CMD_PREPEND) then process_bin_append_prepend else process_bin_update
  | bin_read_set_value => complete_update_bin
  | bin_reading_get_key | bin_reading_touch_key => process_bin_get_or_touch
  | bin_reading_stat => process_bin_stat
  | bin_reading_del_header => process_bin_delete
  | bin_reading_incr_header => complete_incr_bin
  | bin_read_flush_exptime => process_bin_flush
  | bin_reading_sasl_auth => process_bin_sasl_auth
  | bin_reading_sasl_auth_data => process_bin_complete_sasl_auth
  | bin_no_state | bin_reading_cas_header => massert false
  end.
End binary.
