(* ===== verification/BinaryLaws.v ===== *)
(** * Every binary request is answered with one packet

    What the handlers of the binary protocol leave behind: the header and the
    buffers of a response whose lengths agree, or more to be read, or (for a quiet
    command) nothing; and room in the read buffer for the rest of a request. *)

From S2P Require Import Prelude Decimal Dispatch Conn Iov Machine Serve Commands CommandLaws Binary.
From S2P Require Store Slabs.

(** ** What building a response leaves alone *)

(** A relation that every way through [m] establishes. *)
Definition leaves {S A} (R : S -> S -> Prop) (m : M S A) : Prop := forall s a s', m s = Ok (a, s') -> R s s'.

Section leaves.
Context {S : Type} (R : S -> S -> Prop) `{!PreOrder R}.
Lemma leaves_bind {A B} (m : M S A) (f : A -> M S B) : leaves R m -> (forall a, leaves R (f a)) -> leaves R (m ≫= f).
Proof using All.
  intros Hm Hf s b s'. unfold mbind, M_bind. destruct (m s) as [[a s1]| |] eqn:E; try done. intros E'.
  transitivity s1; [by eapply Hm|by eapply Hf].
Qed.
Lemma leaves_ret {A} (a : A) : leaves R (mret a).
Proof using All. intros s ? s' E. by injection E as _ <-. Qed.
Lemma leaves_gets {A} (f : S -> A) : leaves R (gets f).
Proof using All. intros s ? s' E. by injection E as _ <-. Qed.
Lemma leaves_modify f : (forall s, R s (f s)) -> leaves R (modify f).
Proof. intros Hf s ? s' E. by injection E as _ <-. Qed.
Lemma leaves_nofuel {A} : leaves R (@nofuel S A).
Proof. done. Qed.
End leaves.

Lemma runs_leaves {S A} P (R : S -> S -> Prop) (m : M S A) s Q : leaves R m -> runs P m s Q ->
  runs P m s (fun a s' => Q a s' /\ R s s').
Proof. intros HR. unfold runs. destruct (m s) as [[a s']| |] eqn:E; try done. split; [done|by eapply HR]. Qed.
Lemma runs_weak {S A} (P : Prop) (m : M S A) s Q : runs False m s Q -> runs P m s Q.
Proof. unfold runs. by destruct (m s) as [[a s']| |]. Qed.

(** A connection without its lists of messages and buffers. *)
Definition strip (c : conn) : conn :=
  c <| iov := [] |> <| iov_id := 0 |> <| iovsize := 0 |> <| iovused := 0 |> <| msglist := [] |> <| msgsize := 0 |> <| msgused := 0 |>
    <| msgbytes := 0 |>.
Definition frame {S} (s s' : net S) : Prop := strip (cn s') = strip (cn s) /\ back s' = back s.
#[export] Instance frame_pre {S} : PreOrder (@frame S).
Proof. split; [by intros s|]. intros s1 s2 s3 [E1 F1] [E2 F2]. unfold frame. by rewrite E2, F2. Qed.

Section frame.
Context {S : Type} {B : Backend S} (cfg : conn_cfg).
Ltac fstep := first
  [ apply leaves_bind; [typeclasses eauto| |intros ?] | apply leaves_ret; typeclasses eauto | apply leaves_gets; typeclasses eauto
  | apply leaves_modify; intros []; done | apply leaves_nofuel
  | match goal with
    | |- leaves _ (if decide ?p then _ else _) => destruct (decide p)
    | |- leaves _ (if ?b then _ else _) => destruct b
    end ].
Lemma realloc_frame : leaves frame (realloc (S := S)).
Proof. unfold realloc. repeat fstep. Qed.
Lemma grow_msglist_frame : leaves frame (grow_msglist (S := S)).
Proof. unfold grow_msglist. repeat (fstep || apply realloc_frame). Qed.
Lemma ensure_iov_frame : leaves frame (ensure_iov_space (S := S)).
Proof. unfold ensure_iov_space. repeat (fstep || apply realloc_frame). Qed.
Lemma add_frame fuel : leaves frame (add_msghdr_n (S := S) cfg fuel) /\
  forall buf len, leaves frame (add_iov_udp (S := S) cfg fuel buf len).
Proof.
  induction fuel as [|fuel [IH1 IH2]]; [by split|]. split.
  - cbn [add_msghdr_n]. repeat (fstep || apply grow_msglist_frame || apply IH2).
  - intros buf len. cbn [add_iov_udp]. unfold push_iov. repeat (fstep || apply ensure_iov_frame || apply IH1 || apply IH2).
Qed.
Lemma add_iov_frame buf len : leaves frame (add_iov (S := S) cfg buf len).
Proof. unfold add_iov, push_iov. repeat (fstep || apply ensure_iov_frame || apply add_frame). Qed.
End frame.

(** ** Packets *)

(** What a handler may rely on and keeps: the request in the read buffer, what
    of it is in the connection, the sizes. *)
Definition req_of (c : conn) := (binary_header c, c_opaque c, noreply c, rcurr c, rsize c, wsize c, c_protocol c).

(** The header's first 16 bytes: all but the cas. *)
Definition head16 (c : conn) (st : bin_status) (ext key body : Z) : list Z :=
  take 16 (response_header (opcode (binary_header c)) key ext (status_code st) body (c_opaque c) 0).

Section packets.
Context {S : Type} {B : Backend S} (cfg : conn_cfg).
Hypothesis limits : 2 <= IOV_MAX cfg /\ 0 <= UDP_HEADER_SIZE cfg < UDP_MAX_PAYLOAD_SIZE cfg.

Lemma frame_fields (s s' : net S) : strip (cn s') = strip (cn s) ->
  wbuf (cn s') = wbuf (cn s) /\ wsize (cn s') = wsize (cn s) /\ req_of (cn s') = req_of (cn s).
Proof. intros F. pose proof (f_equal (fun c => (wbuf c, wsize c, req_of c)) F) as E. rewrite !pair_equal_spec in E. by destruct E as [[? ?] ?]. Qed.

(** A response whose header is [h], with [k] bytes behind its 24 so far. *)
Record building (h : list Z) (k : Z) (s : net S) : Prop := {
  bd_resp : resp cfg s;
  bd_used : 0 < msgused (cn s);
  bd_size : Z.of_nat (length (wbuf (cn s))) = wsize (cn s);
  bd_room : 274 <= wsize (cn s);
  bd_head : take 16 (wbuf (cn s)) = h;
  bd_bufs : exists hd body, payload (cn s) = hd ++ body /\ covers (Ptr LWbuf 0) 24 hd /\ total body = k }.

(** The fields a response consists of. *)
Definition lists (c : conn) :=
  (iov c, iov_id c, iovsize c, iovused c, (msglist c, msgsize c, msgused c, msgbytes c), c_transport c).
Definition wire (c : conn) := (lists c, wbuf c, wsize c).
Lemma resp_lists (s s' : net S) : lists (cn s') = lists (cn s) -> reallocs s' = reallocs s -> resp cfg s ->
  resp cfg s' /\ msgused (cn s') = msgused (cn s) /\ payload (cn s') = payload (cn s).
Proof.
  destruct s as [c], s' as [c']. destruct c, c'. unfold lists. simpl. intros E ->.
  injection E as -> -> -> -> -> -> -> -> ->. intros [M [] F]. repeat (split; try done).
Qed.
Lemma building_wire h k (s s' : net S) : wire (cn s') = wire (cn s) -> reallocs s' = reallocs s -> building h k s -> building h k s'.
Proof.
  unfold wire. rewrite !pair_equal_spec. intros [[El Ew] Es] Er [Rs ? ? ? ? ?]. destruct (resp_lists s s') as (? & Eu & Ep); [done|done|done|].
  split; rewrite ?Eu, ?Ep, ?Ew, ?Es; done.
Qed.

(** A connection that can build a response. *)
Record ready_to_write (s : net S) : Prop := {
  rw_mem : mem_ok s;
  rw_arrays : arrays_ok (cn s);
  rw_size : Z.of_nat (length (wbuf (cn s))) = wsize (cn s) }.

Lemma covers_total buf len l : covers buf len l -> total l = len.
Proof. revert buf len. induction l as [|v l IH]; intros buf len; simpl; [done|]. intros (_ & _ & E%IH). lia. Qed.

Lemma building_iov P h k buf len (s : net S) : building h k s -> 0 <= len ->
  runs P (add_iov cfg buf len) s (fun _ s' => building h (k + len) s' /\ frame s s').
Proof using limits.
  intros [Rs Hu Hz Hr Hh (hd & body & Ep & C & Et)] Hlen. apply runs_weak. eapply runs_mono.
  { apply runs_leaves; [apply add_iov_frame|by apply add_iov_appends]. }
  intros r s' [(_ & R' & U' & T & new & Cn & E) F]. split; [|done]. destruct F as [F _].
  destruct (frame_fields _ _ F) as (Ew & Es & _). split; rewrite ?Ew, ?Es; try done. exists hd, (body ++ new). rewrite E, Ep, <- app_assoc. split_and!; try done.
  rewrite total_app, (covers_total _ _ _ Cn). lia.
Qed.

Lemma wbuf_set_write P o bs (s : net S) : 0 <= o -> o + Z.of_nat (length bs) <= wsize (cn s) ->
  runs P (wbuf_set o bs) s (fun _ s' => s' = s <| cn ::= fun c => c <| wbuf ::= fun b => write_bytes b (Z.to_nat o) bs |> |>).
Proof. intros H1 H2. unfold wbuf_set. nsteps. apply runs_massert; [by apply bool_decide_eq_true|]. nsteps. done. Qed.

Lemma write_bytes_front l o bs n : (n <= o)%nat -> (o <= length l)%nat -> take n (write_bytes l o bs) = take n l.
Proof. intros H1 H2. unfold write_bytes. rewrite take_app_le by (rewrite length_take; lia). rewrite take_take. f_equal. lia. Qed.

Lemma building_body P h k o bs (s : net S) : building h k s -> 16 <= o -> o + Z.of_nat (length bs) <= wsize (cn s) ->
  runs P (wbuf_set o bs) s (fun _ s' => building h k s' /\ back s' = back s /\ req_of (cn s') = req_of (cn s)).
Proof.
  intros [Rs ? Hz ? Hh Hb] Ho Hl. eapply runs_mono; [apply wbuf_set_write; lia|]. intros [] s' ->. split; [|done].
  split; try done; simpl.
  - by apply (resp_lists s).
  - rewrite write_bytes_length; lia.
  - rewrite write_bytes_front; [done|lia|lia].
Qed.

Lemma to_be_length n x : length (to_be n x) = n.
Proof. revert x. induction n as [|n IH]; intros x; [done|]. simpl. rewrite length_app, IH. simpl. lia. Qed.
Lemma response_header_length op key ext st body opq cas : length (response_header op key ext st body opq cas) = 24%nat.
Proof. unfold response_header, to_le. rewrite !length_app, length_reverse, !to_be_length. done. Qed.
Lemma response_header_front op key ext st body opq cas :
  take 16 (response_header op key ext st body opq cas) = take 16 (response_header op key ext st body opq 0).
Proof.
  unfold response_header. rewrite !app_assoc.
  rewrite !take_app_le by (unfold to_le; rewrite !length_app, length_reverse, !to_be_length; simpl; lia). done.
Qed.

Lemma add_header P err hl kl bl (s : net S) : ready_to_write s -> 274 <= wsize (cn s) ->
  runs P (add_bin_header cfg err hl kl bl) s (fun _ s' => building (head16 (cn s) err hl kl bl) 0 s' /\ back s' = back s /\
    req_of (cn s') = req_of (cn s)).
Proof using limits.
  intros [Hm (A1 & A2 & A3 & A4) Hz] Hr. unfold add_bin_header. nsteps. cbn [add_bin_header_n]. nsteps. set (s1 := s <| cn ::= _ |>).
  assert (iov_ok (cn s1)) as Ok1 by (split; unfold s1; simpl; done || lia). apply runs_weak.
  eapply runs_mono; [apply runs_leaves; [apply add_frame|by apply (add_msghdr_holds cfg limits 2)]|].
  intros r s2 [(-> & Hm2 & Ok2 & M2 & T2) [F B2]]. rewrite decide_False by (intros D; by apply D).
  change (messages (cn s1)) with (@nil (list iovec)) in M2. simpl in M2.
  destruct (frame_fields _ _ F) as (Ew & Es & Eq). change (wbuf (cn s1)) with (wbuf (cn s)) in Ew.
  change (wsize (cn s1)) with (wsize (cn s)) in Es. change (req_of (cn s1)) with (req_of (cn s)) in Eq.
  assert (resp cfg s2) as R2.
  { split; [done|done|]. rewrite M2, T2. apply Forall_singleton. unfold msg_ok. simpl.
    destruct (IS_UDP _); simpl; (split; [lia|]); [|done]. exists []. split; [done|lia]. }
  assert (payload (cn s2) = []) as P2 by (unfold payload; rewrite M2, T2; simpl; by destruct (IS_UDP _)).
  pose proof (used_of_messages _ [] _ Ok2 M2) as U2. nsteps. eapply runs_mono.
  { apply wbuf_set_write; [done|]. rewrite response_header_length, Es. lia. }
  intros [] s3 E3. assert (lists (cn s3) = lists (cn s2)) as E4 by by rewrite E3.
  destruct (resp_lists s2 s3 E4) as (R3 & U3 & P3); [by rewrite E3|done|]. nsteps.
  apply runs_weak. eapply runs_mono; [apply runs_leaves; [apply add_iov_frame|apply add_iov_appends; [done|done|by rewrite U3|done]]|].
  intros r s4 [(_ & R4 & U4 & _ & new & C & P4) [F4 B4]]. nsteps.
  destruct (frame_fields _ _ F4) as (Ew4 & Es4 & Eq4).
  split; [|split; [by rewrite B4, E3|by rewrite Eq4, E3]].
  rewrite E3 in Ew4, Es4. simpl in Ew4, Es4. split; rewrite ?Ew4, ?Es4, ?Ew, ?Es; try done.
  - rewrite write_bytes_length; [done|]. rewrite response_header_length. lia.
  - unfold write_bytes. change (Z.to_nat 0) with 0%nat. rewrite take_0, app_nil_l, take_app_le by (rewrite response_header_length; lia).
    unfold req_of in Eq. rewrite !pair_equal_spec in Eq. destruct Eq as [[[[[[-> ->] _] _] _] _] _]. by rewrite response_header_front.
  - exists new, []. rewrite P4, P3, P2, app_nil_r. done.
Qed.
End packets.

(** ** What the handlers' environment promises *)

Class BinLaws (S : Type) {B : Backend S} {K : Cache S} {X : Ext S} {Y : BinExt S} (cfg : conn_cfg) (P : Prop) : Prop := {
  bl_key c c' : rcurr c = rcurr c' -> binary_header c = binary_header c' -> binary_get_key c = binary_get_key c';
  bl_request c c' : rcurr c = rcurr c' -> binary_header c = binary_header c' -> binary_get_request c = binary_get_request c';
  (* an item found has a value that ends with a line end, of an int's length *)
  bl_get k u b : match item_get k u b with Ok (it, b') => it <> 0 -> 2 <= it_nbytes b' it < 2 ^ 31 | Abort => P | NoFuel => False end;
  bl_touch k e b : match item_touch k e b with Ok (it, b') => it <> 0 -> 2 <= it_nbytes b' it < 2 ^ 31 | Abort => P | NoFuel => False end;
  bl_delta k i d c : total_op P (add_delta_cas k i d c);
  (* the room behind a chunked value is asserted *)
  bl_close r b : base r <> LNull -> close_chunk r b = None -> P;
  bl_new : total_op P sasl_server_new;
  bl_mechs : ends P sasl_listmech (fun r => Z.of_nat (length r.2) < 2 ^ 32);
  bl_start m d : ends P (sasl_server_start m d) (fun r => Z.of_nat (length r.2) < 2 ^ 32);
  bl_step d : ends P (sasl_server_step d) (fun r => Z.of_nat (length r.2) < 2 ^ 32);
  bl_auth b : total_op P (auth_cmd b);
  bl_version : Z.of_nat (length version) < 2 ^ 32;
  (* with memory at hand, the chunks of a chunked value are added to the response *)
  bl_chunked it n h k (s : net S) : building cfg h k s -> 0 <= n -> item_chunked (back s) it = true ->
    runs P (add_chunked_item_iovs it n) s (fun _ s' => building cfg h (k + n) s' /\ frame s s') }.

Section laws.
Context {S : Type} {B : Backend S} {K : Cache S} {X : Ext S} {Y : BinExt S} (cfg : conn_cfg) (P : Prop) {L : CacheLaws S P}
  {LB : BinLaws S cfg P}.
Hypothesis limits : 2 <= IOV_MAX cfg /\ 0 <= UDP_HEADER_SIZE cfg < UDP_MAX_PAYLOAD_SIZE cfg.
Abbreviation building := (building cfg).

(** One whole packet is ready to be sent: a header that names the request, and
    behind it as many bytes as it says, the extras and the key among them. *)
Definition packet (c0 : conn) (s : net S) : Prop := exists st ext key body,
  0 <= ext /\ 0 <= key /\ ext + key <= body < 2 ^ 32 /\ building (head16 c0 st ext key body) body s.

Definition answered (s0 s : net S) : Prop :=
  packet (cn s0) s /\ c_state (cn s) = conn_mwrite /\ write_and_go (cn s) ∈ [conn_new_cmd; conn_swallow; conn_closing].
(** A quiet command has nothing to say. *)
Definition silent (s0 s : net S) : Prop := noreply (cn s0) = true /\ c_state (cn s) = conn_new_cmd.
(** A value is to be read into an item. *)
Definition reading (s : net S) : Prop :=
  c_state (cn s) = conn_nread /\ c_item (cn s) <> 0 /\ ritem (cn s) = item_data (c_item (cn s)) /\
  c_substate (cn s) ∈ [bin_read_set_value; bin_reading_sasl_auth_data].
Definition settled (s0 s : net S) : Prop := answered s0 s \/ silent s0 s.

(** The state a handler works in before it answers. *)
Record calm (s0 s : net S) : Prop := {
  cm_write : ready_to_write s;
  cm_read : Z.of_nat (length (rbuf (cn s))) = rsize (cn s);
  cm_big : 274 <= wsize (cn s);
  cm_req : req_of (cn s) = req_of (cn s0);
  cm_cmd : c_cmd (cn s) = c_cmd (cn s0) }.

Definition calm_of (c : conn) := (iov c, iovsize c, (msglist c, msgsize c), (wbuf c, rbuf c, req_of c, c_cmd c)).
Lemma calm_same (s0 s s' : net S) : calm_of (cn s') = calm_of (cn s) -> reallocs s' = reallocs s -> calm s0 s -> calm s0 s'.
Proof.
  destruct s as [c], s' as [c']. destruct c, c'. unfold calm_of, req_of. simpl. intros E ->.
  injection E as -> -> -> -> -> -> -> -> -> -> -> -> -> ->. intros [[] ? ? ? ?]. by split.
Qed.

Lemma req_fields c c' : req_of c = req_of c' -> binary_header c = binary_header c' /\ c_opaque c = c_opaque c' /\
  noreply c = noreply c' /\ rcurr c = rcurr c' /\ rsize c = rsize c' /\ wsize c = wsize c' /\ c_protocol c = c_protocol c'.
Proof. unfold req_of. rewrite !pair_equal_spec. tauto. Qed.
Lemma head16_req c c' st ext key body : req_of c = req_of c' -> head16 c st ext key body = head16 c' st ext key body.
Proof. intros E%req_fields. destruct E as (E1 & E2 & _). unfold head16. by rewrite E1, E2. Qed.

(** *** Steps before the answer *)

Lemma b_back {A C} (m : M S A) (k : A -> M (net S) C) R (s0 s : net S) Q : ends P m R -> calm s0 s ->
  (forall a s', R a -> calm s0 s' -> cn s' = cn s -> runs P (k a) s' Q) -> runs P (on_back m ≫= k) s Q.
Proof. intros E C0 HQ. apply runs_bind. eapply on_back_runs; [exact E|]. intros a b Ha. apply HQ; [done| |done]. by apply (calm_same s0 s). Qed.

Lemma b_setc {C} f (k : unit -> M (net S) C) (s0 s : net S) Q : (forall c, calm_of (f c) = calm_of c) -> calm s0 s ->
  (forall s', calm s0 s' -> cn s' = f (cn s) -> back s' = back s -> runs P (k tt) s' Q) -> runs P (setc f ≫= k) s Q.
Proof. intros Hf C0 HQ. nsteps. apply HQ; [|done|done]. apply (calm_same s0 s); [apply Hf|done|done]. Qed.

Lemma b_setting {C} f (k : unit -> M (net S) C) (s0 s : net S) Q : calm s0 s ->
  (forall s', calm s0 s' -> cn s' = cn s -> runs P (k tt) s' Q) -> runs P (set_setting f ≫= k) s Q.
Proof. intros C0 HQ. apply runs_bind, runs_modify, HQ; [|done]. by apply (calm_same s0 s). Qed.

Lemma b_with_back {C} f (k : unit -> M (net S) C) (s0 s : net S) Q : calm s0 s ->
  (match f (back s) with Ok _ => True | Abort => P | NoFuel => False end) ->
  (forall s', calm s0 s' -> cn s' = cn s -> runs P (k tt) s' Q) -> runs P (with_back f ≫= k) s Q.
Proof.
  intros C0 Hf HQ. apply runs_bind. unfold with_back, runs. destruct (f (back s)); [|done|done].
  apply HQ; [|done]. by apply (calm_same s0 s).
Qed.
Lemma b_release {C} it (k : unit -> M (net S) C) (s0 s : net S) Q : calm s0 s ->
  (forall s', calm s0 s' -> cn s' = cn s -> runs P (k tt) s' Q) -> runs P (release it ≫= k) s Q.
Proof using All. intros C0. apply b_with_back; [done|]. apply cl_remove. Qed.

Lemma b_get {C} key u (k : Z -> M (net S) C) (s0 s : net S) Q : calm s0 s ->
  (forall it s', (it <> 0 -> 2 <= it_nbytes (back s') it < 2 ^ 31) -> calm s0 s' -> cn s' = cn s -> runs P (k it) s' Q) ->
  runs P (on_back (item_get key u) ≫= k) s Q.
Proof using All.
  intros C0 HQ. apply runs_bind. unfold on_back, runs. pose proof (bl_get key u (back s)) as G.
  destruct (item_get key u (back s)) as [[it b]| |]; [|done|done]. apply HQ; [done| |done]. by apply (calm_same s0 s).
Qed.
Lemma b_touch {C} key e (k : Z -> M (net S) C) (s0 s : net S) Q : calm s0 s ->
  (forall it s', (it <> 0 -> 2 <= it_nbytes (back s') it < 2 ^ 31) -> calm s0 s' -> cn s' = cn s -> runs P (k it) s' Q) ->
  runs P (on_back (item_touch key e) ≫= k) s Q.
Proof using All.
  intros C0 HQ. apply runs_bind. unfold on_back, runs. pose proof (bl_touch key e (back s)) as G.
  destruct (item_touch key e (back s)) as [[it b]| |]; [|done|done]. apply HQ; [done| |done]. by apply (calm_same s0 s).
Qed.

(** The request lies in the read buffer, with [n] bytes after its header. *)
Definition in_buffer (c : conn) (n : Z) : Prop :=
  0 <= binary_get_request c /\ binary_get_request c + 24 + n <= rsize c /\
  0 <= binary_get_key c /\ binary_get_key c + h_keylen (binary_header c) <= rsize c /\
  0 <= h_keylen (binary_header c) <= KEY_MAX_LENGTH.

Lemma calm_places (s0 s : net S) : calm s0 s -> binary_get_key (cn s) = binary_get_key (cn s0) /\
  binary_get_request (cn s) = binary_get_request (cn s0).
Proof using All. intros [_ _ _ (Eh & _ & _ & Er & _)%req_fields _]. split; [by apply bl_key|by apply bl_request]. Qed.

Lemma rbuf_bytes o n (s0 s : net S) : calm s0 s -> 0 <= o -> 0 <= n -> o + n <= rsize (cn s0) ->
  runs P (rbuf_at o n) s (fun bs s' => s' = s /\ Z.of_nat (length bs) = n).
Proof.
  intros [_ Hr _ (_ & _ & _ & _ & Es & _)%req_fields _] Ho Hn Hl. unfold rbuf_at. nsteps. apply runs_massert.
  { apply bool_decide_eq_true. rewrite Es. done. }
  nsteps. split; [done|]. rewrite slice_length; lia.
Qed.
Lemma b_key {C} m (k : list Z -> M (net S) C) (s0 s : net S) Q : calm s0 s -> in_buffer (cn s0) m ->
  (forall key, Z.of_nat (length key) = h_keylen (binary_header (cn s0)) -> runs P (k key) s Q) -> runs P (request_key ≫= k) s Q.
Proof using All.
  intros C0 (_ & _ & H1 & H2 & H3) HQ. unfold request_key. nsteps.
  destruct (calm_places _ _ C0) as [-> _]. destruct (req_fields _ _ (cm_req _ _ C0)) as (-> & _).
  eapply runs_mono; [apply (rbuf_bytes _ _ s0); [exact C0|done|lia|done]|]. intros bs s' [-> Hb]. by apply HQ.
Qed.
Lemma bytes_spec m o n (s0 s : net S) : calm s0 s -> in_buffer (cn s0) m -> 0 <= o -> 0 <= n -> o + n <= 24 + m ->
  runs P (request_bytes o n) s (fun bs s' => s' = s /\ Z.of_nat (length bs) = n).
Proof using All.
  intros C0 (H1 & H2 & _) Ho Hn Hl. unfold request_bytes. nsteps.
  destruct (calm_places _ _ C0) as [_ ->]. apply (rbuf_bytes _ _ s0); [exact C0|lia|lia|lia].
Qed.
Lemma b_bytes {C} m o n (k : list Z -> M (net S) C) (s0 s : net S) Q : calm s0 s -> in_buffer (cn s0) m -> 0 <= o -> 0 <= n ->
  o + n <= 24 + m -> (forall bs, runs P (k bs) s Q) -> runs P (request_bytes o n ≫= k) s Q.
Proof using All.
  intros C0 Hi Ho Hn Hl HQ. apply runs_bind. eapply runs_mono; [by apply (bytes_spec m _ _ s0)|]. intros bs s' [-> _]. apply HQ.
Qed.
Lemma b_fix {C} m o n (k : Z -> M (net S) C) (s0 s : net S) Q : calm s0 s -> in_buffer (cn s0) m -> 0 <= o -> 0 <= n ->
  o + n <= 24 + m -> (forall x s', calm s0 s' -> cn s' = (cn s) <| rbuf := rbuf (cn s') |> -> runs P (k x) s' Q) ->
  runs P (fix_order o n ≫= k) s Q.
Proof using All.
  intros C0 Hi Ho Hn Hl HQ. unfold fix_order. nsteps.
  eapply runs_mono; [by apply (bytes_spec m _ _ s0)|]. intros bs s' [-> Hb].
  pose proof (req_fields _ _ (cm_req _ _ C0)) as (_ & _ & _ & _ & Es & _).
  destruct Hi as (H1 & H2 & _). nsteps. unfold rbuf_set. nsteps. apply runs_massert.
  { apply bool_decide_eq_true. destruct (calm_places _ _ C0) as [_ ->]. rewrite length_reverse, Es. lia. }
  nsteps. apply HQ; [|done]. destruct (calm_places _ _ C0) as [_ ->]. destruct C0 as [[] ? ? ? ?]. repeat (split; try done).
  simpl. rewrite write_bytes_length; [done|]. rewrite length_reverse. lia.
Qed.

Lemma b_wbuf {C} o bs (k : unit -> M (net S) C) (s0 s : net S) Q : calm s0 s -> 0 <= o -> o + Z.of_nat (length bs) <= 274 ->
  (forall s', calm s0 s' -> back s' = back s -> cn s' = (cn s) <| wbuf := wbuf (cn s') |> -> runs P (k tt) s' Q) ->
  runs P (wbuf_set o bs ≫= k) s Q.
Proof.
  intros C0 Ho Hl HQ. pose proof (cm_big _ _ C0). apply runs_bind. eapply runs_mono; [apply wbuf_set_write; lia|].
  intros [] s' ->. apply HQ; [|done|done]. destruct C0 as [[] ? ? ? ?]. repeat (split; try done).
  simpl. rewrite write_bytes_length; lia.
Qed.

Lemma calm_back {A} (m : M S A) R (s0 s : net S) : ends P m R -> calm s0 s -> runs P (on_back m) s (fun _ => calm s0).
Proof. intros E C0. eapply on_back_runs; [exact E|]. intros a b _. by apply (calm_same s0 s). Qed.

(** *** The answers *)

(** The last touch: where to go when all is sent. *)
Definition goes_on (f : conn -> conn) : Prop := forall c, wire (f c) = wire c /\ c_state (f c) = c_state c /\ req_of (f c) = req_of c /\
  write_and_go (f c) ∈ [conn_new_cmd; conn_swallow; conn_closing].

Lemma building_end h k f (s : net S) : building h k s -> goes_on f ->
  runs P (conn_set_state conn_mwrite;; setc f) s (fun _ s' => building h k s' /\ c_state (cn s') = conn_mwrite /\
    write_and_go (cn s') ∈ [conn_new_cmd; conn_swallow; conn_closing] /\ req_of (cn s') = req_of (cn s)).
Proof.
  intros Bd Hf. unfold conn_set_state. nsteps. apply runs_massert; [done|]. nsteps. apply runs_when.
  - intros _. nsteps. destruct (Hf ((cn s) <| c_state := conn_mwrite |>)) as (Ew & Es & Er & Hg).
    split; [by apply (building_wire _ _ _ s)|done].
  - intros E%bool_decide_eq_false%dec_stable. nsteps. destruct (Hf (cn s)) as (Ew & Es & Er & Hg).
    split; [by apply (building_wire _ _ _ s)|]. split; [|done]. simpl. by rewrite Es.
Qed.

Lemma answer_req st ext key body f (s0 s : net S) d : calm s0 s -> 0 <= ext -> 0 <= key -> ext + key <= body < 2 ^ 32 -> goes_on f ->
  runs P (add_bin_header cfg st ext key body;;
    (if decide (0 < body) then _ ← add_iov cfg d body; mret tt else mret tt);;
    conn_set_state conn_mwrite;; setc f) s (fun _ s' => answered s0 s' /\ req_of (cn s') = req_of (cn s0)).
Proof using All.
  intros C0 He Hk Hb Hg. pose proof (head16_req _ _ st ext key body (cm_req _ _ C0)) as Eh. destruct C0 as [W _ Hbig Er _].
  apply runs_bind. eapply runs_mono; [apply add_header; [done|done|lia]|]. intros [] s1 (B1 & _ & R1). rewrite Eh in B1.
  apply runs_bind. apply (runs_mono _ _ _ (fun _ s2 => building (head16 (cn s0) st ext key body) body s2 /\ req_of (cn s2) = req_of (cn s1))).
  - case_decide; [|nsteps; by assert (body = 0) as -> by lia]. apply runs_bind. eapply runs_mono; [apply building_iov; [done|exact B1|lia]|].
    intros r s2 [B2 [F _]]. nsteps. rewrite Z.add_0_l in B2. split; [done|by apply frame_fields].
  - intros [] s2 [B2 R2]. eapply runs_mono; [by apply building_end|]. intros [] s3 (B3 & E3 & G3 & R3). split; [|congruence]. split; [|done].
    by exists st, ext, key, body.
Qed.
Lemma answer st ext key body f (s0 s : net S) d : calm s0 s -> 0 <= ext -> 0 <= key -> ext + key <= body < 2 ^ 32 -> goes_on f ->
  runs P (add_bin_header cfg st ext key body;;
    (if decide (0 < body) then _ ← add_iov cfg d body; mret tt else mret tt);;
    conn_set_state conn_mwrite;; setc f) s (fun _ => answered s0).
Proof using All. intros. eapply runs_mono; [by apply answer_req|]. by intros [] s' [? _]. Qed.

Lemma write_error st str swallow (s0 s : net S) : calm s0 s ->
  match str with Some l => Z.of_nat (length l) < 2 ^ 32 | None => error_text st <> None end ->
  runs P (write_bin_error cfg st str swallow) s (fun _ => answered s0).
Proof using All.
  intros C0 Hl. set (text := match str with Some l => l | None => lit (default "" (error_text st)) end).
  assert (Z.of_nat (length text) < 2 ^ 32) as Ht by (unfold text; destruct str; [done|]; by destruct st).
  unfold write_bin_error. apply runs_bind. apply (runs_mono _ _ _ (fun l s' => l = text /\ s' = s)).
  { unfold text. destruct str; [by nsteps|]. by destruct (error_text st). }
  intros l s1 [-> ->]. destruct (decide (0 < swallow)).
  - eapply answer; [done|done|done|lia|]. intros c. split_and!; [done|done|done|set_solver].
  - eapply answer; [done|done|done|lia|]. intros c. split_and!; [done|done|done|set_solver].
Qed.

Lemma write_response d hl kl dl (s0 s : net S) : calm s0 s -> 0 <= hl -> 0 <= kl -> hl + kl <= dl < 2 ^ 32 ->
  runs P (write_bin_response cfg d hl kl dl) s (fun _ => settled s0).
Proof using All.
  intros C0 Hh Hk Hd. unfold write_bin_response. nsteps. destruct (negb (noreply (cn s)) || _) eqn:En.
  - eapply runs_mono; [eapply answer; [done|done|done|lia|]|intros [] ?; by left].
    intros c. split_and!; [done|done|done|set_solver].
  - eapply runs_mono; [by apply set_state_spec|]. intros [] s' (_ & E & _). right.
    apply orb_false_iff in En as [En%negb_false_iff _]. split; [|by rewrite E].
    destruct (req_fields _ _ (cm_req _ _ C0)) as (_ & _ & <- & _). done.
Qed.

Lemma oom_answer l (s0 s : net S) : calm s0 s -> c_protocol (cn s) = binary_prot -> Z.of_nat (length l) < 2 ^ 32 ->
  runs P (bin_out_of_memory cfg l) s (fun _ => answered s0).
Proof using All.
  intros C0 Ep Hl. unfold bin_out_of_memory. nsteps. rewrite decide_True by done. apply write_error; [done|].
  destruct (decide _); [|done]. rewrite length_drop. lia.
Qed.

Lemma miss_answer key (s0 s : net S) : calm s0 s -> Z.of_nat (length key) <= KEY_MAX_LENGTH ->
  runs P (write_bin_miss_response cfg key) s (fun _ => answered s0).
Proof using All.
  intros C0 Hl. unfold KEY_MAX_LENGTH in Hl. unfold write_bin_miss_response. case_decide as Hk; [|by apply write_error].
  pose proof (head16_req _ _ KEY_ENOENT 0 (Z.of_nat (length key)) (Z.of_nat (length key)) (cm_req _ _ C0)) as Eh. destruct C0 as [W _ Hbig Er _].
  apply runs_bind. eapply runs_mono; [apply add_header; [done|done|lia]|]. intros [] s1 (B1 & _ & E1). rewrite Eh in B1.
  destruct (req_fields _ _ E1) as (_ & _ & _ & _ & _ & Es & _).
  apply runs_bind. eapply runs_mono; [eapply building_body; [exact B1|lia|lia]|]. intros [] s2 (B2 & _ & _).
  apply runs_bind. eapply runs_mono; [apply building_iov; [done|exact B2|lia]|]. intros r s3 [B3 _]. rewrite Z.add_0_l in B3.
  eapply runs_mono; [eapply building_end; [exact B3|]|].
  - intros c. split_and!; [done|done|done|set_solver].
  - intros [] s4 (B4 & E4 & G4 & _). split; [|done]. eexists _, _, _, _. split; [|split; [|split; [|exact B4]]]; lia.
Qed.

(** *** Steps after the answer *)

(** What the answer is made of; a predicate of it alone survives the clearing up. *)
Definition out_of (s : net S) := (wire (cn s), reallocs s, c_state (cn s), write_and_go (cn s)).
Definition sealed (T : net S -> Prop) : Prop := forall s s', out_of s' = out_of s -> T s -> T s'.
Lemma answered_sealed s0 : sealed (answered s0).
Proof.
  intros s s'. unfold out_of. rewrite !pair_equal_spec. intros (((Ew & Er) & Es) & Eg) ((st & ext & key & body & H1 & H2 & H3 & Bd) & A & G).
  split; [|by rewrite Es, Eg]. exists st, ext, key, body. split_and!; try done; try lia. by apply (building_wire _ _ _ s).
Qed.
Lemma settled_sealed s0 : sealed (settled s0).
Proof.
  intros s s' E [A|[N A]]; [left; by apply (answered_sealed s0 s)|right]. split; [done|].
  unfold out_of in E. rewrite !pair_equal_spec in E. destruct E as (((_ & _) & ->) & _). done.
Qed.

Lemma a_back {A} (m : M S A) R T (s : net S) : sealed T -> ends P m R -> T s -> runs P (on_back m) s (fun _ => T).
Proof. intros HT E Hs. eapply on_back_runs; [exact E|]. intros a b _. by apply (HT s). Qed.
Lemma a_release it T (s : net S) : sealed T -> T s -> runs P (release it) s (fun _ => T).
Proof using All.
  intros HT Hs. unfold release, with_back, runs. pose proof (cl_remove it (back s)) as R.
  destruct (item_remove it (back s)); [|done|done]. by apply (HT s).
Qed.
Lemma answered_go (s0 s : net S) f : (forall c, wire (f c) = wire c /\ c_state (f c) = c_state c) ->
  (forall c, write_and_go c ∈ [conn_new_cmd; conn_swallow; conn_closing] -> write_and_go (f c) ∈ [conn_new_cmd; conn_swallow; conn_closing]) ->
  answered s0 s -> answered s0 (s <| cn ::= f |>).
Proof.
  intros Hf Hg ((st & ext & key & body & H1 & H2 & H3 & Bd) & A & G). destruct (Hf (cn s)) as [Ew Es]. split.
  - exists st, ext, key, body. split_and!; try done; try lia. by apply (building_wire _ _ _ s).
  - split; [by rewrite <- A; simpl; rewrite Es|]. by apply Hg.
Qed.

(** One step of a handler before its answer. *)
Ltac ops := eauto using cl_get, cl_touch, cl_alloc, cl_unlink, cl_set_cas, cl_store, cl_delta, cl_cas_id, cl_count,
       cl_record_get, cl_record_set, cl_record_delete, bl_delta, bl_new, bl_mechs, bl_start, bl_step, bl_auth.
Ltac bstep :=
  match goal with
  | |- runs _ (on_back (item_get _ _) ≫= _) _ _ => eapply b_get; [eassumption|intros ? ? ? ? ?; cbv beta]
  | |- runs _ (on_back (item_touch _ _) ≫= _) _ _ => eapply b_touch; [eassumption|intros ? ? ? ? ?; cbv beta]
  | |- runs _ (on_back _ ≫= _) _ _ => eapply b_back; [ops|eassumption|intros ? ? ? ? ?; cbv beta]
  | |- runs _ (tally ?x ≫= _) _ _ => eapply (b_back (count x)); [apply cl_count|eassumption|intros [] ? _ ? ?; cbv beta]
  | |- runs _ (with_back (fun _ => Ok _) ≫= _) _ _ => eapply b_with_back; [eassumption|done|intros ? ? ?]
  | |- runs _ (release _ ≫= _) _ _ => eapply b_release; [eassumption|intros ? ? ?]
  | |- runs _ (set_setting _ ≫= _) _ _ => eapply b_setting; [eassumption|intros ? ? ?]
  | |- runs _ (setc _ ≫= _) _ _ => eapply b_setc; [done|eassumption|intros ? ? ? ?]
  | |- runs _ (request_key ≫= _) _ _ => eapply b_key; [eassumption|eassumption|intros ? ?]
  | |- runs _ (request_bytes _ _ ≫= _) _ _ => eapply b_bytes; [eassumption|eassumption|lia|lia|lia|intros ?]
  | |- runs _ (wbuf_set _ _ ≫= _) _ _ => eapply b_wbuf; [eassumption|lia|try (rewrite to_be_length; lia)|intros ? ? ? ?]
  | |- runs _ (fix_order _ _ ≫= _) _ _ => eapply b_fix; [eassumption|eassumption|lia|lia|lia|intros ? ? ? ?]
  | |- runs _ ((_ ≫= _) ≫= _) _ _ => apply runs_assoc
  | |- runs _ (setting _ ≫= _) _ _ => apply runs_bind, runs_gets; cbv beta
  | |- runs _ (field _ ≫= _) _ _ => apply runs_bind, runs_gets; cbv beta
  | |- runs _ (is_cmd _ ≫= _) _ _ => apply runs_bind, runs_gets; cbv beta
  | |- runs _ (getc _ ≫= _) _ _ => apply runs_bind, runs_gets; cbv beta
  | |- runs _ (gets _ ≫= _) _ _ => apply runs_bind, runs_gets; cbv beta
  | |- runs _ (mret _ ≫= _) _ _ => apply runs_bind, runs_ret; cbv beta
  | |- runs _ (write_bin_error _ _ _ _) _ (fun _ => answered _) => solve [apply write_error; [assumption|done]]
  | |- runs _ (write_bin_error _ _ _ _) _ (fun _ => settled _) => eapply runs_mono; [apply write_error; [eassumption|done]|intros [] ?; by left]
  | |- runs _ (write_bin_response _ _ _ _ _) _ (fun _ => settled _) => solve [apply write_response; [assumption|lia..]]
  | |- runs _ (if decide ?p then _ else _) _ _ => destruct (decide p)
  | |- runs _ (if ?b then _ else _) _ _ => let E := fresh "Eb" in destruct b eqn:E
  | |- runs _ ((if decide ?p then _ else _) ≫= _) _ _ => destruct (decide p)
  | |- runs _ ((if ?b then _ else _) ≫= _) _ _ => let E := fresh "Eb" in destruct b eqn:E
  | |- runs _ (when ?b _ ≫= _) _ _ => destruct b; cbn [when]
  | |- runs _ (when ?b _) _ _ => destruct b; cbn [when]
  | |- runs _ (match ?o with None => _ | Some _ => _ end) _ _ => destruct o
  end.
Ltac bsteps := repeat (bstep; cbn zeta).

(** An answer, then clearing up. *)
Lemma a_error {C} st str sw (k : unit -> M (net S) C) (s0 s : net S) Q : calm s0 s ->
  match str with Some l => Z.of_nat (length l) < 2 ^ 32 | None => error_text st <> None end ->
  (forall s', answered s0 s' -> runs P (k tt) s' Q) -> runs P (write_bin_error cfg st str sw ≫= k) s Q.
Proof using All. intros C0 Hl HQ. apply runs_bind. eapply runs_mono; [by apply write_error|]. intros [] s' Ha. by apply HQ. Qed.
Lemma a_response {C} d hl kl dl (k : unit -> M (net S) C) (s0 s : net S) Q : calm s0 s -> 0 <= hl -> 0 <= kl -> hl + kl <= dl < 2 ^ 32 ->
  (forall s', settled s0 s' -> runs P (k tt) s' Q) -> runs P (write_bin_response cfg d hl kl dl ≫= k) s Q.
Proof using All. intros C0 H1 H2 H3 HQ. apply runs_bind. eapply runs_mono; [by apply write_response|]. intros [] s' Ha. by apply HQ. Qed.
Lemma answered_settled (s0 s : net S) : answered s0 s -> settled s0 s.
Proof. by left. Qed.
Ltac clear_up :=
  repeat match goal with
  | H : answered ?s0 ?s |- runs _ _ ?s (fun _ => settled ?s0) => apply answered_settled in H
  | |- runs _ (write_bin_error _ _ _ _ ≫= _) _ _ => eapply a_error; [eassumption|by repeat case_decide|intros ? ?]
  | |- runs _ (write_bin_response _ _ _ _ _ ≫= _) _ _ => eapply a_response; [eassumption|lia|lia|lia|intros ? ?]
  | H : settled ?s0 ?s |- runs _ (release _) ?s (fun _ => settled ?s0) => apply a_release; [apply settled_sealed|exact H]
  | H : settled ?s0 ?s |- runs _ (tally _) ?s (fun _ => settled ?s0) => eapply a_back; [apply settled_sealed|apply cl_count|exact H]
  | H : settled ?s0 ?s |- runs _ (on_back _) ?s (fun _ => settled ?s0) => eapply a_back; [apply settled_sealed|ops|exact H]
  end.

Section handlers.
Context (s0 : net S) (C0 : calm s0 s0).

Lemma process_bin_flush_ok : in_buffer (cn s0) (extlen (binary_header (cn s0))) ->
  runs P (process_bin_flush cfg) s0 (fun _ => settled s0).
Proof using All.
  intros Hi. unfold process_bin_flush. bsteps.
Qed.
Lemma process_bin_delete_ok : in_buffer (cn s0) 0 -> runs P (process_bin_delete cfg) s0 (fun _ => settled s0).
Proof using All.
  intros Hi. unfold process_bin_delete. bsteps; clear_up.
Qed.

Context (Hp : c_protocol (cn s0) = binary_prot).
Lemma calm_binary s : calm s0 s -> c_protocol (cn s) = binary_prot.
Proof using All. intros [_ _ _ E%req_fields _]. destruct E as (_ & _ & _ & _ & _ & _ & ->). done. Qed.
Lemma incr_initial_ok key initial expiration s : calm s0 s ->
  runs P (incr_initial cfg key initial expiration) s (fun _ => settled s0).
Proof using All.
  intros C1. unfold incr_initial. bsteps; [|by eapply runs_mono; [apply oom_answer; [done|by apply calm_binary|done]|intros [] ?; by left]].
  destruct a0 as [[] cas]; bsteps; clear_up.
Qed.
Lemma complete_incr_ok : in_buffer (cn s0) 20 -> runs P (complete_incr_bin cfg) s0 (fun _ => settled s0).
Proof using All.
  intros Hi. unfold complete_incr_bin. bsteps. apply runs_bind, runs_massert; [apply bool_decide_eq_true; pose proof (cm_big _ _ C0); lia|]. bsteps. destruct a as [[[] tmp] cas]; bsteps; clear_up.
  - by eapply runs_mono; [apply oom_answer; [done|by apply calm_binary|done]|intros [] ?; by left].
  - by apply incr_initial_ok.
Qed.

Lemma finish_value_ok {C} it (k : unit -> M (net S) C) s Q : calm s0 s -> base (ritem (cn s)) <> LNull ->
  (forall s', calm s0 s' -> runs P (k tt) s' Q) -> runs P (finish_value it ≫= k) s Q.
Proof using All.
  intros C1 Hr HQ. unfold finish_value. bsteps; cbn [negb]; bsteps; [by apply HQ|].
  apply runs_bind, runs_massert; [by rewrite bool_decide_false|]. eapply b_with_back; [done| |intros; by apply HQ].
  destruct (close_chunk (ritem (cn s)) (back s)) eqn:E; [done|]. by eapply bl_close.
Qed.
Lemma complete_update_ok : base (ritem (cn s0)) <> LNull -> runs P (complete_update_bin cfg) s0 (fun _ => settled s0).
Proof using All.
  intros Hr. unfold complete_update_bin. bsteps. eapply finish_value_ok; [done|congruence|]. intros s1 C1. bsteps.
  assert (forall s2, settled s0 s2 -> runs P (it ← getc c_item; release it;; setc (fun c => c <| c_item := 0 |>)) s2 (fun _ => settled s0)) as Hend.
  { intros s2 Hs. nsteps. eapply runs_mono; [by apply a_release; [apply settled_sealed|]|]. intros [] s3 Hs3. nsteps. by apply (settled_sealed s0 s3). }
  destruct a as [[] cas]; bsteps; clear_up; by apply Hend.
Qed.

Lemma response_flags_ok it s h k : building h k s -> runs P (response_flags it) s (fun l s' => length l = 4%nat /\ s' = s).
Proof.
  intros _. unfold response_flags, setting, field. nsteps. split; [|done]. repeat case_match; rewrite ?to_be_length; done.
Qed.

(** The bytes behind the header of a hit: flags, key and value. *)
Lemma hit_body_ok (key value : bool) nkey nbytes it h s : building h 0 s -> 0 <= nkey -> 2 <= nbytes ->
  runs P (cas ← field (fun b => it_cas b it);
    wbuf_set 16 (to_be 8 cas);;
    flags ← response_flags it;
    wbuf_set 24 flags;;
    _ ← add_iov cfg (Ptr LWbuf 24) 4;
    (if key then _ ← add_iov cfg (item_key it) nkey; mret tt else mret tt);;
    chunked ← field (fun b => item_chunked b it);
    (if value then
       _ ← (if negb chunked then add_iov cfg (item_data it) (nbytes - 2) else add_chunked_item_iovs it (nbytes - 2)); mret tt
     else mret tt);;
    conn_set_state conn_mwrite;;
    setc (fun c => c <| write_and_go := conn_new_cmd |> <| c_item := it |>)) s
  (fun _ s' => building h (4 + (if key then nkey else 0) + (if value then nbytes - 2 else 0)) s' /\ c_state (cn s') = conn_mwrite /\
    write_and_go (cn s') ∈ [conn_new_cmd; conn_swallow; conn_closing]).
Proof using All.
  intros B0 Hk Hn. unfold field. nsteps. pose proof (bd_room _ _ _ _ B0). eapply runs_mono; [eapply building_body; [exact B0|lia|rewrite to_be_length; lia]|].
  intros [] s1 (B1 & _ & _). nsteps. eapply runs_mono; [by eapply response_flags_ok|]. intros l s2 [Hl ->]. nsteps.
  pose proof (bd_room _ _ _ _ B1). eapply runs_mono; [eapply building_body; [exact B1|lia|rewrite Hl; lia]|].
  intros [] s2 (B2 & _ & _). nsteps. eapply runs_mono; [apply building_iov; [done|exact B2|lia]|]. intros r s3 [B3 _]. nsteps.
  apply (runs_mono _ _ _ (fun _ s4 => building h (4 + (if key then nkey else 0)) s4)).
  { destruct key; nsteps; [|done]. eapply runs_mono; [apply building_iov; [done|exact B3|lia]|]. intros r' s4 [B4 _]. nsteps. exact B4. }
  intros [] s4 B4. nsteps. apply (runs_mono _ _ _ (fun _ s5 => building h (4 + (if key then nkey else 0) + (if value then nbytes - 2 else 0)) s5)).
  { destruct value; nsteps; [|by rewrite Z.add_0_r]. destruct (item_chunked (back s4) it) eqn:Ec; cbn [negb].
    - eapply runs_mono; [apply bl_chunked; [exact B4|lia|exact Ec]|]. intros r' s5 [B5 _]. nsteps. exact B5.
    - eapply runs_mono; [apply building_iov; [done|exact B4|lia]|]. intros r' s5 [B5 _]. nsteps. exact B5. }
  intros [] s5 B5. eapply runs_mono; [eapply building_end; [exact B5|]|by intros [] s6 (? & ? & ? & _)].
  intros c. split_and!; [done|done|done|set_solver].
Qed.

Lemma bin_hit_ok (touch key : bool) nkey it s : calm s0 s -> 0 <= nkey <= KEY_MAX_LENGTH -> 2 <= it_nbytes (back s) it < 2 ^ 31 ->
  (key = true -> c_cmd (cn s0) <> cmd_code CMD_TOUCH) ->
  runs P (bin_hit cfg touch key (negb (bool_decide (c_cmd (cn s0) = cmd_code CMD_TOUCH))) nkey it) s (fun _ => answered s0).
Proof using All.
  intros C1 Hk Hn Ht. unfold KEY_MAX_LENGTH in Hk. unfold bin_hit. do 2 bstep. apply runs_bind.
  apply (runs_mono _ _ _ (fun _ s1 => calm s0 s1)).
  { destruct touch; bstep; (eapply calm_back; [apply cl_count|done]). }
  intros [] s1 C2. bstep. rewrite (cm_cmd _ _ C2). cbn zeta. apply runs_bind.
  pose proof (cm_req _ _ C2) as Eq. destruct C2 as [W _ Hbig _ _].
  eapply runs_mono; [by apply add_header|]. intros [] s2 (B2 & _ & _).
  rewrite (head16_req _ _ _ _ _ _ Eq) in B2. set (n := it_nbytes (back s) it) in *.
  eapply runs_mono; [apply hit_body_ok; [exact B2|lia|lia]|]. intros [] s3 (B3 & E3 & G3). split; [|done].
  match type of B3 with building (head16 _ _ _ ?kl ?bl) ?t _ => assert (bl = t /\ 0 <= kl /\ 4 + kl <= t < 2 ^ 32) as (Eb & H1 & H2) end.
  { destruct (bool_decide (c_cmd (cn s0) = _)) eqn:Ec, key; cbn [negb andb]; try (apply bool_decide_eq_true in Ec; by destruct Ht).
    all: unfold wrap; rewrite ?Z.mod_small by (rewrite ?Z.mod_small; lia); lia. }
  rewrite Eb in B3. by eexists SUCCESS, 4, _, _.
Qed.

Lemma bin_miss_ok (touch key : bool) k s : calm s0 s -> Z.of_nat (length k) <= KEY_MAX_LENGTH ->
  runs P (bin_miss cfg touch key k) s (fun _ => settled s0).
Proof using All.
  intros C1 Hk. unfold bin_miss. apply runs_bind. apply (runs_mono _ _ _ (fun _ => calm s0)).
  { destruct touch; bstep; (eapply calm_back; [apply cl_count|done]). }
  intros [] s1 C2. bstep. destruct (noreply (cn s1)) eqn:En.
  - eapply runs_mono; [by apply set_state_spec|]. intros [] s' (_ & E & _). right. split; [|by rewrite E].
    destruct (req_fields _ _ (cm_req _ _ C2)) as (_ & _ & <- & _). done.
  - eapply runs_mono; [apply miss_answer; [done|]|intros [] ?; by left]. by destruct key.
Qed.

(** The commands that change the expiration time. *)
Definition touching (cmd : Z) : bool :=
  bool_decide (cmd = cmd_code CMD_TOUCH) || bool_decide (cmd = cmd_code CMD_GAT) || bool_decide (cmd = cmd_code CMD_GATK).

Lemma found_ok (touch : bool) k it s : calm s0 s -> 0 <= Z.of_nat (length k) <= KEY_MAX_LENGTH ->
  (it <> 0 -> 2 <= it_nbytes (back s) it < 2 ^ 31) ->
  let one x := bool_decide (c_cmd (cn s0) = cmd_code x) in
  runs P ((if decide (it <> 0) then bin_hit cfg touch (one CMD_GETK || one CMD_GATK) (negb (one CMD_TOUCH)) (Z.of_nat (length k)) it
           else bin_miss cfg touch (one CMD_GETK || one CMD_GATK) k);;
    detail ← setting detail_enabled;
    when detail (on_back (record_get k (bool_decide (it <> 0))))) s (fun _ => settled s0).
Proof using All.
  intros C1 Hk Hn one. apply runs_bind. apply (runs_mono _ _ _ (fun _ => settled s0)).
  - case_decide; [|apply bin_miss_ok; [done|lia]]. eapply runs_mono; [apply bin_hit_ok; auto|intros [] ?; by left].
    intros E E'. unfold one in E. rewrite E' in E. done.
  - intros [] s1 Hs. unfold setting. nsteps. apply runs_when; [intros _|done]. eapply a_back; [apply settled_sealed|apply cl_record_get|done].
Qed.

Lemma get_or_touch_ok : in_buffer (cn s0) (if touching (c_cmd (cn s0)) then 4 else 0) ->
  runs P (process_bin_get_or_touch cfg) s0 (fun _ => settled s0).
Proof using All.
  intros Hi. pose proof Hi as (_ & _ & _ & _ & Hlen). unfold process_bin_get_or_touch. bstep. bstep. cbn zeta.
  fold (touching (c_cmd (cn s0))). destruct (touching (c_cmd (cn s0))); repeat first [solve [apply found_ok; done || lia] | bstep].
Qed.

Lemma read_value_ok it vlen s : it <> 0 -> runs P (read_value it vlen) s (fun _ => reading).
Proof using All.
  intros Hit. unfold read_value. nsteps. eapply runs_mono; [by apply set_state_spec|]. intros [] s1 (_ & E & _). nsteps.
  unfold reading. simpl. rewrite E. split_and!; try done. set_solver.
Qed.

Lemma value_refused_ok nkey flags vlen oom s : calm s0 s -> (String.length oom < 100)%nat ->
  runs P (value_refused cfg nkey flags vlen oom) s (fun _ => answered s0).
Proof using All.
  intros C1 Ho. unfold value_refused, field. nsteps. destruct (item_size_ok _ _ _ _); cbn [negb]; [|by apply write_error].
  apply runs_bind. eapply runs_mono.
  - apply oom_answer; [done|by apply calm_binary|]. assert (forall x : string, length (lit x) = String.length x) as -> by (intros x; induction x; simpl; auto). lia.
  - intros [] s1 Ha. nsteps. by apply answered_go.
Qed.
Lemma refused_end s : answered s0 s -> runs P (go_on conn_swallow) s (fun _ => answered s0).
Proof using All. intros Ha. unfold go_on. nsteps. apply answered_go; [done|intros; set_solver|done]. Qed.

Definition outcome (s : net S) : Prop := settled s0 s \/ reading s.

Lemma then_read it vlen cmd s : it <> 0 ->
  runs P (set_cmd cmd;; cas ← field (fun b => it_cas b it);
    (if decide (cas <> 0) then set_cmd Store.NREAD_CAS else mret tt);; read_value it vlen) s (fun _ => outcome).
Proof using All.
  intros Hit. unfold set_cmd, field. nsteps. apply (runs_mono _ _ _ (fun _ _ => True)).
  - case_decide; by nsteps.
  - intros [] s1 _. eapply runs_mono; [by apply read_value_ok|]. intros [] s2 Hr. by right.
Qed.

(** For set the old value goes when the new one is refused. *)
Lemma drop_old_ok key s : answered s0 s ->
  runs P (for_set ← is_cmd CMD_SET;
    when for_set (old ← on_back (item_get key false); when (bool_decide (old <> 0)) (on_back (item_unlink old);; release old));;
    go_on conn_swallow) s (fun _ => outcome).
Proof using All.
  intros Ha. unfold is_cmd. nsteps. apply (runs_mono _ _ _ (fun _ => answered s0)).
  - apply runs_when; [intros _|done]. apply runs_bind.
    eapply runs_mono; [eapply a_back; [apply answered_sealed|apply cl_get|done]|]. intros it s1 H1.
    apply runs_when; [intros _|done]. apply runs_bind.
    eapply runs_mono; [eapply a_back; [apply answered_sealed|apply cl_unlink|exact H1]|]. intros [] s2 H2. apply a_release; [apply answered_sealed|exact H2].
  - intros [] s1 H1. eapply runs_mono; [by apply refused_end|]. intros [] s2 H2. by left; left.
Qed.

Lemma process_bin_update_ok : in_buffer (cn s0) 8 -> c_cmd (cn s0) ∈ cmd_code <$> [CMD_SET; CMD_ADD; CMD_REPLACE] ->
  runs P (process_bin_update cfg) s0 (fun _ => outcome).
Proof using All.
  intros Hi Hc. unfold process_bin_update.
  repeat first [solve [apply then_read; done] | bstep; cbn zeta].
  all: try match goal with |- runs _ (massert false ≫= _) ?s _ => exfalso;
    match goal with C1 : calm s0 s |- _ => rewrite (cm_cmd _ _ C1) in * end; set_solver end.
  all: apply runs_bind; eapply runs_mono; [apply value_refused_ok; [done|simpl; lia]|].
  all: intros [] s1 Ha; by apply drop_old_ok.
Qed.

Lemma process_bin_append_ok : in_buffer (cn s0) 0 -> c_cmd (cn s0) ∈ cmd_code <$> [CMD_APPEND; CMD_PREPEND] ->
  runs P (process_bin_append_prepend cfg) s0 (fun _ => outcome).
Proof using All.
  intros Hi Hc. unfold process_bin_append_prepend.
  repeat first [bstep; cbn zeta].
  all: try match goal with |- runs _ (massert false ≫= _) ?s _ => exfalso;
    match goal with C1 : calm s0 s |- _ => rewrite (cm_cmd _ _ C1) in * end; set_solver end.
  all: try (unfold set_cmd; nsteps; eapply runs_mono; [by apply read_value_ok|intros [] ? ?; by right]).
  all: apply runs_bind; eapply runs_mono; [apply value_refused_ok; [done|simpl; lia]|].
  all: intros [] s1 Ha; eapply runs_mono; [by apply refused_end|intros [] ? ?; by left; left].
Qed.

Lemma error_swallowed st swallow s : calm s0 s -> error_text st <> None ->
  runs P (write_bin_error cfg st None swallow;; go_on conn_swallow) s (fun _ => answered s0).
Proof using All. intros C1 Ht. eapply a_error; [done|done|]. intros s1 Ha. by apply refused_end. Qed.

Lemma process_bin_sasl_auth_ok : in_buffer (cn s0) 0 -> extlen (binary_header (cn s0)) = 0 ->
  runs P (process_bin_sasl_auth cfg) s0 (fun _ => outcome).
Proof using All.
  intros Hi He. unfold process_bin_sasl_auth, sasl_lengths. bsteps.
  - eapply runs_mono; [by apply write_error|intros [] ? ?; by left; left].
  - apply runs_bind, runs_massert; [by apply bool_decide_eq_true|]. bsteps.
    + eapply runs_mono; [by apply error_swallowed|intros [] ? ?; by left; left].
    + eapply runs_mono; [by apply error_swallowed|intros [] ? ?; by left; left].
    + match goal with E : bool_decide (_ = 0) || _ = false |- _ => apply orb_false_iff in E as [Ea%bool_decide_eq_false _] end.
      nsteps. eapply runs_mono; [by apply set_state_spec|]. intros [] s1 (_ & E1 & _). nsteps. right. unfold reading. simpl. rewrite E1.
      match goal with E2 : cn _ = _ |- _ => rewrite E2; simpl end. split_and!; try done. set_solver.
Qed.

Lemma init_sasl_ok {C} (k : unit -> M (net S) C) s Q : calm s0 s -> (forall s', calm s0 s' -> c_item (cn s') = c_item (cn s) -> runs P (k tt) s' Q) ->
  runs P (init_sasl_conn ≫= k) s Q.
Proof using All.
  intros C1 HQ. unfold init_sasl_conn. bsteps; (apply HQ; [done|]); repeat match goal with E : cn ?x = _ |- context [cn ?x] => rewrite E end; done.
Qed.

Lemma sasl_answer_ok result out s : calm s0 s -> Z.of_nat (length out) < 2 ^ 32 ->
  runs P (sasl_answer cfg result out) s (fun _ => settled s0).
Proof using All.
  intros C1 Hl. unfold sasl_answer. bsteps; clear_up.
  eapply runs_mono; [eapply answer; [done|done|done|lia|]|intros [] ?; by left]. intros c. split_and!; [done|done|done|set_solver].
Qed.

Lemma complete_sasl_ok : sasl = true -> c_item (cn s0) <> 0 -> c_cmd (cn s0) ∈ cmd_code <$> [CMD_SASL_AUTH; CMD_SASL_STEP] ->
  runs P (process_bin_complete_sasl_auth cfg) s0 (fun _ => settled s0).
Proof using All.
  intros Hs Hit Hc. unfold process_bin_complete_sasl_auth, sasl_lengths. apply runs_bind, runs_massert; [done|]. bsteps.
  apply runs_bind, runs_massert; [by rewrite bool_decide_false|]. apply init_sasl_ok; [done|]. intros s1 C1 _. bsteps.
  - eapply a_error; [done|done|]. intros s2 Ha. apply runs_bind. eapply runs_mono; [by apply refused_end|]. intros [] s3 Hs3.
    eapply a_back; [apply settled_sealed|apply cl_unlink|by left].
  - destruct a as [result out]. bsteps. by apply sasl_answer_ok.
  - destruct a as [result out]. bsteps. by apply sasl_answer_ok.
  - exfalso. apply bool_decide_eq_false in Eb, Eb0. rewrite (cm_cmd _ _ C1) in *. set_solver.
Qed.
End handlers.

(** What the dispatch of the header has made sure of, for each thing that may be read. *)
Definition request_ready (c : conn) : Prop :=
  match c_substate c with
  | bin_reading_set_header =>
      c_cmd c ∈ cmd_code <$> [CMD_APPEND; CMD_PREPEND] /\ in_buffer c 0 \/
      c_cmd c ∈ cmd_code <$> [CMD_SET; CMD_ADD; CMD_REPLACE] /\ in_buffer c 8
  | bin_read_set_value => base (ritem c) <> LNull
  | bin_reading_get_key | bin_reading_touch_key => in_buffer c (if touching (c_cmd c) then 4 else 0)
  | bin_reading_del_header => in_buffer c 0
  | bin_reading_incr_header => in_buffer c 20
  | bin_read_flush_exptime => in_buffer c (extlen (binary_header c))
  | bin_reading_sasl_auth => in_buffer c 0 /\ extlen (binary_header c) = 0
  | bin_reading_sasl_auth_data => sasl = true /\ c_item c <> 0 /\ c_cmd c ∈ cmd_code <$> [CMD_SASL_AUTH; CMD_SASL_STEP]
  | bin_reading_stat | bin_no_state | bin_reading_cas_header => False
  end.

(** C19. Every request of the binary protocol but stat is answered with one whole
    packet: with memory at hand, when what the handler waited for has been read,
    complete_nread_binary returns, and either a response is ready to be sent, a 24-byte header with the
    opcode and the opaque of the request, whose body length is the length of the
    buffers gathered behind it and covers its extras and key; or the command was
    a quiet one and nothing is sent; or a value is to be read into an item first.
    It aborts only where the store does. *)
Theorem binary_request_answered (s : net S) : calm s s -> c_protocol (cn s) = binary_prot -> 0 <= c_cmd (cn s) -> request_ready (cn s) ->
  runs P (complete_nread_binary cfg) s (fun _ s' => answered s s' \/ silent s s' \/ reading s').
Proof using All.
  intros C0 Hp Hc Hr. apply (runs_mono _ _ _ (fun _ => outcome s)); [|unfold outcome, settled; intros _ s1; tauto].
  assert (forall m : M (net S) unit, runs P m s (fun _ => settled s) -> runs P m s (fun _ => outcome s)) as Hs
    by (intros m Hm; eapply runs_mono; [exact Hm|intros ? ?; by left]).
  unfold complete_nread_binary. nsteps. apply runs_massert; [by apply bool_decide_eq_true|].
  unfold request_ready in Hr. destruct (c_substate (cn s)); try done.
  - destruct Hr as [[Hin Hi]|[Hin Hi]].
    + rewrite decide_True; [by apply process_bin_append_ok|]. apply elem_of_cons in Hin as [?|Hin%list_elem_of_singleton]; auto.
    + rewrite decide_False; [by apply process_bin_update_ok|]. simpl in Hin. rewrite !elem_of_cons, elem_of_nil in Hin. simpl. lia.
  - by apply Hs, complete_update_ok.
  - by apply Hs, get_or_touch_ok.
  - by apply Hs, process_bin_delete_ok.
  - by apply Hs, complete_incr_ok.
  - by apply Hs, process_bin_flush_ok.
  - destruct Hr. by apply process_bin_sasl_auth_ok.
  - destruct Hr as (? & ? & ?). by apply Hs, complete_sasl_ok.
  - by apply Hs, get_or_touch_ok.
Qed.

(** ** The dispatch of a header *)

Lemma grow_to_ok fuel size nsize : 0 < nsize -> size <= 2 ^ 62 -> size <= nsize * 2 ^ Z.of_nat fuel ->
  exists n, grow_to (Datatypes.S fuel) size nsize = Ok n /\ size <= n /\ nsize <= n.
Proof.
  revert nsize. induction fuel as [|fuel IH]; intros nsize Hn Hz Hs; cbn [grow_to].
  - rewrite decide_False by (simpl in Hs; lia). exists nsize. split; [done|]. simpl in Hs. lia.
  - case_decide; [|exists nsize; split; [done|lia]]. unfold wrap. rewrite Z.mod_small by lia.
    destruct (IH (nsize * 2)) as (n & E & ? & ?); [lia|done| |exists n; split; [done|lia]].
    rewrite Nat2Z.inj_succ, Z.pow_succ_r in Hs by lia. lia.
Qed.

Lemma slice_resize_any (l : list Z) n a b : (b <= length l)%nat -> (b <= n)%nat -> slice (resize n 0 l) a b = slice l a b.
Proof.
  intros H1 H2. unfold slice. destruct (decide (b <= a)%nat); [by replace (b - a)%nat with 0%nat by lia; rewrite !take_0|].
  destruct (decide (n <= length l)%nat).
  - rewrite resize_le by done. rewrite skipn_firstn_comm, take_take. f_equal. lia.
  - rewrite resize_ge by lia. rewrite drop_app_le by lia. rewrite take_app_le by (rewrite length_drop; lia). done.
Qed.

(** The rest of the request fits behind its header, which is kept as all that was read. *)
Definition awaits (s s' : net S) : Prop :=
  c_state (cn s') = conn_nread /\ ritem (cn s') = Ptr LRbuf (rcurr (cn s') + 24) /\ 0 <= rlbytes (cn s') /\
  rcurr (cn s') + 24 + rlbytes (cn s') <= rsize (cn s') /\ buf_ok (cn s') /\ unread (cn s') = unread (cn s) /\
  rbytes (cn s') = rbytes (cn s).

Lemma resized_ok c n : buf_ok c -> rsize c <= n ->
  let c' := c <| rbuf ::= fun b => resize (Z.to_nat n) 0 b |> <| rsize := n |> in buf_ok c' /\ unread c' = unread c.
Proof.
  intros [] Hn c'. split; [split; simpl; rewrite ?length_resize; lia|]. unfold unread. simpl. apply slice_resize_any; lia.
Qed.

Lemma bin_read_key_ok next extra (s : net S) : mem_ok s -> buf_ok (cn s) -> 0 <= c_keylen (cn s) + extra <= 2 ^ 20 ->
  runs P (bin_read_key next extra) s (fun _ s' => awaits s s' /\ rlbytes (cn s') = c_keylen (cn s) + extra /\ c_substate (cn s') = next).
Proof using All.
  intros Hm Hb Hl. unfold bin_read_key. nsteps. set (s1 := s <| cn ::= _ |>).
  assert (buf_ok (cn s1) /\ unread (cn s1) = unread (cn s) /\ rbytes (cn s1) = rbytes (cn s) /\ rlbytes (cn s1) = c_keylen (cn s) + extra /\
    c_substate (cn s1) = next) as (B1 & U1 & R1 & L1 & N1) by (unfold s1; simpl; destruct Hb; repeat (split; try done)).
  assert (mem_ok s1) as M1 by done. clearbody s1.
  apply (runs_mono _ _ _ (fun ok s2 => ok = true /\ buf_ok (cn s2) /\ unread (cn s2) = unread (cn s) /\ rbytes (cn s2) = rbytes (cn s) /\
    rlbytes (cn s2) = c_keylen (cn s) + extra /\ c_substate (cn s2) = next /\ rcurr (cn s2) + 24 + rlbytes (cn s2) <= rsize (cn s2))).
  - case_decide as Hgrow; [|nsteps; split_and!; try done; lia]. apply runs_bind. unfold runs at 1.
    destruct (grow_to_ok 63 (rlbytes (cn s1) + 24) (rsize (cn s1))) as (n & -> & Hn1 & Hn2); [by destruct B1|lia|destruct B1; lia|].
    apply runs_bind. apply (runs_mono _ _ _ (fun ok s2 => ok = true /\ buf_ok (cn s2) /\ unread (cn s2) = unread (cn s1) /\ rbytes (cn s2) = rbytes (cn s1) /\
      rlbytes (cn s2) = rlbytes (cn s1) /\ c_substate (cn s2) = c_substate (cn s1) /\ rsize (cn s2) = n)).
    { case_decide; [nsteps; by split_and!|]. nsteps. rewrite (mem_hd _ M1). nsteps. destruct (resized_ok _ n B1 Hn2). by split_and!. }
    intros ok s2 (-> & B2 & U2 & R2 & L2 & N2 & E2). destruct (move_down_ok _ B2) as (B3 & U3 & C3 & R3 & S3). cbn [when]. nsteps.
    assert (rlbytes (move_down (cn s2)) = rlbytes (cn s2) /\ c_substate (move_down (cn s2)) = c_substate (cn s2)) as [L3 N3]
      by (unfold move_down; by case_decide).
    simpl. rewrite C3, S3, L3, N3, U3, R3. split_and!; try done; try congruence. lia.
  - intros ok s2 (-> & B2 & U2 & R2 & L2 & N2 & F2). cbn [when]. nsteps. eapply runs_mono; [by apply set_state_spec|].
    intros [] s3 (_ & E3 & _). unfold awaits. rewrite E3. simpl. destruct B2. repeat (split; try done); try lia.
Qed.

(** The answer to a refused header, after which the connection closes. *)
Definition refused (s0 s : net S) : Prop := answered s0 s /\ write_and_go (cn s) = conn_closing.

Lemma error_closing st (s0 s : net S) : calm s0 s -> error_text st <> None ->
  runs P (write_bin_error cfg st None 0;; go_on conn_closing) s (fun _ => refused s0).
Proof using All.
  intros C0 Ht. eapply a_error; [done|done|]. intros s1 Ha. unfold go_on. nsteps. split; [|done].
  apply answered_go; [done|intros; set_solver|done].
Qed.

Lemma list_mechs_ok (s0 : net S) : calm s0 s0 -> c_protocol (cn s0) = binary_prot ->
  runs P (bin_list_sasl_mechs cfg) s0 (fun _ => settled s0).
Proof using All.
  intros C0 Hp. unfold bin_list_sasl_mechs. destruct (negb sasl).
  - bsteps.
  - eapply init_sasl_ok; [exact C0|exact Hp|exact C0|]. intros s1 C1 _. bstep. destruct a as [result mechs]. bsteps.
    apply write_response; simpl in *; done || lia.
Qed.

(** quit: the answer and the end, or the end. *)
Lemma bin_quit_ok (s0 : net S) : calm s0 s0 ->
  runs P (bin_quit cfg) s0 (fun _ s' => answered s0 s' \/ noreply (cn s0) = true /\ c_state (cn s') ∈ [conn_new_cmd; conn_closing]).
Proof using All.
  intros C0. unfold bin_quit, go_on. apply runs_bind.
  apply (runs_mono _ _ _ (fun _ s1 => answered s0 s1 /\ req_of (cn s1) = req_of (cn s0) \/ silent s0 s1)).
  - unfold write_bin_response. nsteps. destruct (negb (noreply (cn s0)) || _) eqn:En.
    + eapply runs_mono; [eapply answer_req; [done|done|done|lia|]|intros [] s1 ?; by left]. intros c. split_and!; [done|done|done|set_solver].
    + eapply runs_mono; [by apply set_state_spec|]. intros [] s1 (_ & E & _). right. apply orb_false_iff in En as [En%negb_false_iff _].
      split; [done|by rewrite E].
  - intros [] s1 H1. nsteps. assert (noreply (cn s1) = true -> noreply (cn s0) = true) as Hq.
    { intros E. destruct H1 as [[_ (_ & _ & E1 & _)%req_fields]|[? _]]; congruence. }
    change (noreply (cn (s1 <| cn ::= _ |>))) with (noreply (cn s1)). destruct (noreply (cn s1)) eqn:En; cbn [when].
    + eapply runs_mono; [by apply set_state_spec|]. intros [] s2 (_ & E & _). right. rewrite E. split; [by apply Hq|set_solver].
    + nsteps. destruct H1 as [[Ha _]|[Hn Es]]; [left; apply answered_go; [done|intros; set_solver|done]|right]. split; [done|simpl; rewrite Es; set_solver].
Qed.

Lemma answered_base (s0 s1 s : net S) : binary_header (cn s1) = binary_header (cn s0) -> c_opaque (cn s1) = c_opaque (cn s0) ->
  answered s1 s -> answered s0 s.
Proof.
  intros E1 E2 ((st & ext & key & body & H) & A). split; [|done]. exists st, ext, key, body. unfold head16 in *. by rewrite <- E1, <- E2.
Qed.

(** What a command without extras and value may come to. *)
Definition dispatched (s s' : net S) : Prop :=
  answered s s' \/ awaits s s' \/
  is_Some (cmd_of (c_cmd (cn s)) ≫= unquiet) /\ c_state (cn s') ∈ [conn_new_cmd; conn_closing].

Definition header_ok (c : conn) : Prop :=
  let h := binary_header c in
  0 <= extlen h < 2 ^ 8 /\ 0 <= h_keylen h < 2 ^ 16 /\ 0 <= bodylen h < 2 ^ 32 /\ c_keylen c = h_keylen h.

Lemma plan_ok (s : net S) cmd ext key body : calm s s -> c_protocol (cn s) = binary_prot -> buf_ok (cn s) ->
  0 <= ext < 2 ^ 8 -> 0 <= key < 2 ^ 16 -> c_keylen (cn s) = key ->
  runs P (match plan_of cfg cmd ext key body with
          | Answer m => m | ReadKey next extra => bin_read_key next extra | Wrong => handle_binary_protocol_error cfg end) s
    (fun _ s' => answered s s' \/ awaits s s' \/ noreply (cn s) = true /\ c_state (cn s') ∈ [conn_new_cmd; conn_closing]).
Proof using All.
  intros C0 Hp Hb He Hk El. set (Q := fun _ : unit => _).
  assert (forall (m : M (net S) unit), runs P m s (fun _ => settled s) -> runs P m s Q) as Hset.
  { intros m Hm. eapply runs_mono; [exact Hm|]. intros [] s' [?|[? E]]; unfold Q; [by left|right; right]. split; [done|rewrite E; set_solver]. }
  assert (runs P (handle_binary_protocol_error cfg) s Q) as Hw
    by (eapply runs_mono; [by apply (error_closing EINVAL)|]; intros [] s' [? _]; by left).
  assert (forall next extra, 0 <= extra < 2 ^ 8 -> runs P (bin_read_key next extra) s Q) as Hr.
  { intros next extra Hx. eapply runs_mono; [apply bin_read_key_ok; [by destruct C0 as [[]]|done|lia]|]. intros [] s' (? & _). by right; left. }
  assert (forall dl : list Z, Z.of_nat (length dl) < 2 ^ 32 -> runs P (write_bin_response cfg (str_ptr dl) 0 0 (Z.of_nat (length dl))) s Q) as Ha
    by (intros dl Hl; apply Hset, write_response; done || lia).
  assert (runs P (bin_quit cfg) s Q) as Hq by (eapply runs_mono; [by apply bin_quit_ok|]; unfold Q; intros [] s' [?|?]; auto).
  assert (runs P (write_bin_error cfg UNKNOWN_COMMAND None (s32 body)) s Q) as Hu
    by (eapply runs_mono; [by apply write_error|]; intros [] s' ?; by left).
  destruct cmd as [[]|]; cbn [plan_of]; try case_bool_decide; try exact Hw; try exact Hq;
    try (apply Hr; lia); try exact Hu; try (apply Hset, write_response; done || lia).
  - apply Ha, bl_version.
  - by apply Hset, list_mechs_ok.
Qed.

Definition open_commands : list bin_cmd := [CMD_SASL_LIST_MECHS; CMD_SASL_AUTH; CMD_SASL_STEP; CMD_VERSION].
(** A header that must not be served: its lengths contradict each other, its key
    is too long, or the client has not authenticated where it has to. *)
Definition inadmissible (c : conn) : Prop :=
  let h := binary_header c in
  bodylen h < h_keylen h + extlen h \/ KEY_MAX_LENGTH < h_keylen h \/
  sasl = true /\ is_authenticated c = false /\ c_cmd c ∉ cmd_code <$> open_commands.

Lemma set_quiet_ok {C} (k : unit -> M (net S) C) (s : net S) Q : calm s s ->
  (forall s1, calm s1 s1 -> binary_header (cn s1) = binary_header (cn s) -> c_opaque (cn s1) = c_opaque (cn s) ->
    c_protocol (cn s1) = c_protocol (cn s) -> c_keylen (cn s1) = c_keylen (cn s) -> input_of (cn s1) = input_of (cn s) ->
    (noreply (cn s1) = true -> is_Some (cmd_of (c_cmd (cn s)) ≫= unquiet)) -> runs P (k tt) s1 Q) ->
  runs P (set_quiet ≫= k) s Q.
Proof.
  intros C0 HQ. unfold set_quiet. nsteps. destruct C0 as [[] ? ? ? ?].
  match goal with |- runs P (k tt) ?s1 Q => change s1 with (s <| cn := match cmd_of (c_cmd (cn s)) ≫= unquiet with
    | Some x => (cn s) <| noreply := true |> <| c_cmd := cmd_code x |> | None => (cn s) <| noreply := false |> end |>) end.
  destruct (cmd_of (c_cmd (cn s)) ≫= unquiet); apply HQ; try done; by repeat (split; try done).
Qed.

Lemma awaits_base (s0 s1 s : net S) : input_of (cn s1) = input_of (cn s0) -> awaits s1 s -> awaits s0 s.
Proof.
  intros E (? & ? & ? & ? & ? & U & R). unfold awaits. pose proof (input_of_unread _ _ E) as E1.
  split_and!; try done; [congruence|]. unfold input_of in E. rewrite R. congruence.
Qed.

(** C20. The dispatch of a request's header loses nothing of what was read: with
    memory at hand dispatch_bin_command returns, and either a whole packet answers
    the request; or the connection waits for its extras and key, for which there
    is room behind the header in the read buffer, however little there was before,
    and the unread bytes are what they were; or the command is a quiet one and the
    connection goes on or closes.  A header that is inadmissible, among them every
    command of a client that has not authenticated where SASL is on, is only
    answered with an error, behind which the connection closes. *)
Theorem binary_dispatch (s : net S) : calm s s -> c_protocol (cn s) = binary_prot -> buf_ok (cn s) -> header_ok (cn s) ->
  runs P (dispatch_bin_command cfg) s (fun _ s' => dispatched s s' /\ (inadmissible (cn s) -> refused s s')).
Proof using All.
  intros C0 Hp Hb (Hx & Hk & Hl & El). unfold dispatch_bin_command, inadmissible. nsteps.
  set (h := binary_header (cn s)) in *.
  assert (forall (m : M (net S) unit), runs P m s (fun _ => refused s) ->
    runs P m s (fun _ s' => dispatched s s' /\ (inadmissible (cn s) -> refused s s'))) as Href
    by (intros m Hm; eapply runs_mono; [exact Hm|]; intros [] s' Hs; split; [left; apply Hs|done]).
  case_decide as Hlen; [by apply Href, error_closing|]. apply runs_bind.
  apply (runs_mono _ _ _ (fun ok s1 => s1 = s /\ (ok = true ->
    ~ (sasl = true /\ is_authenticated (cn s) = false /\ c_cmd (cn s) ∉ cmd_code <$> open_commands)))).
  { destruct sasl eqn:Es; [|nsteps; split; [done|by intros _ [? _]]]. unfold authenticated. apply runs_bind, runs_massert; [done|]. nsteps.
    split; [done|]. intros [Hin%bool_decide_eq_true|Ha]%orb_true_iff (_ & E & Hn); [done|congruence]. }
  intros ok s1 [-> Hok]. destruct ok; cbn [negb]; [|by apply Href, error_closing]. case_decide as Hkey.
  - nsteps. set (s1 := s <| cn ::= _ |>). assert (calm s1 s1) as C1 by (destruct C0 as [[] ? ? ? ?]; by repeat (split; try done)).
    eapply runs_mono; [by apply (error_closing EINVAL)|]. intros [] s' [Ha Hg].
    assert (answered s s') as Ha' by by apply (answered_base s s1). split; [by left|]. by split.
  - apply set_quiet_ok; [done|]. intros s1 C1 E1 E2 E3 E4 E5 Hq. nsteps.
    eapply runs_mono; [apply plan_ok; [done|congruence|by apply (input_of_ok (cn s))|done|done|unfold h in *; congruence]|].
    intros [] s' D. split.
    + unfold dispatched. destruct D as [D|[D|[D ?]]]; [left; by apply (answered_base s s1)|right; left; by apply (awaits_base s s1)|right; right]. auto.
    + intros [?|[?|Hs]]; [lia|lia|]. by destruct (Hok eq_refl).
Qed.

(** set, add and replace with the 8 bytes of extras that the protocol requires (the
    flags and the expiration time) are refused, and the connection closes. *)
Theorem set_with_extras_refused (s : net S) : calm s s -> c_protocol (cn s) = binary_prot -> sasl = false ->
  c_cmd (cn s) ∈ cmd_code <$> [CMD_SET; CMD_ADD; CMD_REPLACE] -> extlen (binary_header (cn s)) = 8 ->
  h_keylen (binary_header (cn s)) + 8 <= bodylen (binary_header (cn s)) -> h_keylen (binary_header (cn s)) <= KEY_MAX_LENGTH ->
  runs P (dispatch_bin_command cfg) s (fun _ s' => refused s s').
Proof using All.
  intros C0 Hp Hs Hc Hx Hl Hk. unfold dispatch_bin_command. rewrite Hs. nsteps. rewrite Hx. rewrite decide_False by lia. nsteps. cbn [negb].
  rewrite decide_False by lia. unfold set_quiet. nsteps. set (s1 := s <| cn ::= _ |>).
  assert (exists x, c_cmd (cn s) = cmd_code x /\ (x = CMD_SET \/ x = CMD_ADD \/ x = CMD_REPLACE)) as (x & Ex & Hx').
  { simpl in Hc. rewrite !elem_of_cons, elem_of_nil in Hc. destruct Hc as [?|[?|[?|[]]]]; [exists CMD_SET|exists CMD_ADD|exists CMD_REPLACE]; auto. }
  assert (cn s1 = (cn s) <| noreply := false |>) as E1
    by (unfold s1; simpl; rewrite Ex; by destruct Hx' as [-> |[-> | ->]]).
  assert (calm s1 s1) as C1 by (destruct C0 as [[] ? ? ? ?]; split; [split|..]; rewrite ?E1; done).
  replace (plan_of cfg (cmd_of (c_cmd (cn s1))) 8 (h_keylen (binary_header (cn s))) (bodylen (binary_header (cn s)))) with (@Wrong S)
    by (rewrite E1; simpl; rewrite Ex; by destruct Hx' as [-> |[-> | ->]]).
  eapply runs_mono; [by apply (error_closing EINVAL)|]. intros [] s' [Ha Hg]. split; [|done].
  apply (answered_base s s1); [by rewrite E1..|done].
Qed.
End laws.

(** ** The small store behind the binary commands *)

(** The handlers of the real program, of both protocols; the rest as [R] has it. *)
Definition handlers {S} `{Backend S, Cache S, Ext S, BinExt S} (cfg : conn_cfg) (R : Handlers S) : Handlers S := {|
  Machine.process_command := Commands.process_command cfg;
  Machine.complete_nread_ascii := Commands.complete_nread_ascii cfg;
  Machine.complete_nread_binary := Binary.complete_nread_binary cfg;
  Machine.dispatch_bin_command := Binary.dispatch_bin_command cfg;
  Machine.write_bin_error := fun l => Binary.write_bin_error cfg ENOMEM (Some l) 0;
  read_into_chunked_item := @read_into_chunked_item S R;
  Machine.build_udp_headers := @Machine.build_udp_headers S R; transmit := @transmit S R |}.

Module BinToy.
Import Toy.
(** The key lies before rcurr, and before it the extras and the header. *)
#[export] Instance bin : BinExt store := {
  binary_get_key c := rcurr c - h_keylen (binary_header c);
  binary_get_request c := rcurr c - h_keylen (binary_header c) - extlen (binary_header c) - 24;
  add_delta_cas _ _ _ _ := mret (Store.DELTA_ITEM_NOT_FOUND, [], 0);
  it_cas _ _ := 0; it_suffix _ _ := []; it_key s it := e_key (ent s it); close_chunk _ s := Some s;
  sasl := false; sasl_server_new := mret 0; sasl_listmech := mret (0, lit "PLAIN"); sasl_server_start _ _ := mret (0, []);
  sasl_server_step _ := mret (0, []); auth_cmd _ := mret tt; process_bin_stat := conn_set_state conn_new_cmd }.
Definition cfg : conn_cfg := ConnCfg 4 1400 8 300 600 8 4 8 4 8 4 20 10 false 2 4 16.
#[export] Instance bin_laws : BinLaws store cfg False.
Proof.
  split; intros; try done; try (by intros b).
  - simpl. congruence.
  - simpl. congruence.
  - simpl. unfold find_item, gets. simpl. by case_decide.
  - simpl. unfold find_item, gets. simpl. by case_decide.
Qed.

Definition env : new_env := NewEnv true true true false 16 binary_prot 0 8 4.
Definition fresh : conn := conn_init env conn_new_cmd 0 tcp_transport (conn_alloc cfg env 5 64).
Definition with_conn (c : conn) : net store :=
  {| cn := c; reallocs := []; event_ok := []; reads := []; datagrams := []; accepts := []; fcntls := []; use_accept4 := true;
     malloc_fails := 0; bytes_read := 0; conn_yields := 0; curr_conns := 1; reserved_fds := 0; rejected_conns := 0;
     allow_new_conns := true; now := 0; back := MkStore [Entry (lit "a") 0 (lit "hi" ++ crlf) true] [] [] conf0;
     calls := []; received := []; taken := [] |}.
Definition both : Handlers store := handlers cfg rest.
(** A connection that reads [bs] and what it sends. *)
Definition converse (bs : list Z) : net store :=
  match @drive_machine store backend both cfg 100 ((with_conn fresh) <| reads := match bs with [] => [] | b :: bs => [RdData b bs] end |>) with
  | Ok (_, s) => match @drive_machine store backend both cfg 100 s with Ok (_, s) => s | _ => s end
  | _ => with_conn fresh
  end.
Definition request (op keylen ext body : Z) (rest : list Z) : list Z :=
  [128; op] ++ to_be 2 keylen ++ [ext; 0; 0; 0] ++ to_be 4 body ++ [1; 2; 3; 4] ++ replicate 8 0 ++ rest.

(** The connection with [bs] in a read buffer of 64 bytes, [at_] bytes behind its
    beginning, and the header parsed. *)
Definition holding (at_ : Z) (bs : list Z) (st : conn_states) (sub : bin_substates) : net store :=
  let h := parse_header bs in
  with_conn (fresh <| rbuf := write_bytes (replicate 64 0) (Z.to_nat at_) bs |> <| rcurr := at_ |> <| rbytes := Z.of_nat (length bs) |>
    <| c_state := st |> <| c_substate := sub |> <| binary_header := h |> <| c_cmd := opcode h |> <| c_keylen := h_keylen h |>
    <| c_opaque := h_opaque h |>).
(** getk of a key that is there, all read; and the header of a get with a key of
    200 bytes, at the end of the buffer. *)
Definition getk : net store :=
  (holding 0 (request 12 1 0 1 (lit "a")) conn_nread bin_reading_get_key) <| cn ::= fun c => c <| rcurr := 25 |> <| rbytes := 0 |> |>.
Definition long_get : net store := holding 40 (request 0 200 0 200 []) conn_parse_cmd bin_no_state.
Definition set_extras : net store := holding 0 (request 1 1 8 11 []) conn_parse_cmd bin_no_state.
Lemma getk_calm : calm getk getk.
Proof. split; [split|..]; try reflexivity; vm_compute; repeat constructor; intros; discriminate. Qed.
Lemma long_get_calm : calm long_get long_get.
Proof. split; [split|..]; try reflexivity; vm_compute; repeat constructor; intros; discriminate. Qed.
Lemma set_extras_calm : calm set_extras set_extras.
Proof. split; [split|..]; try reflexivity; vm_compute; repeat constructor; intros; discriminate. Qed.
Lemma limits : 2 <= IOV_MAX cfg /\ 0 <= UDP_HEADER_SIZE cfg < UDP_MAX_PAYLOAD_SIZE cfg.
Proof. simpl. lia. Qed.
End BinToy.
Import Toy BinToy.

(** getk finds the value; set with its extras is refused and the connection closed,
    the rest of the request unread. *)
Example getk_then_bytes : sent (back (converse (request 12 1 0 1 (lit "a")))) =
  response_header 12 1 4 0 7 67305985 0 ++ [0; 0; 0; 0] ++ lit "a" ++ lit "hi".
Proof. vm_compute. reflexivity. Qed.
Example set_then_closed : let s := converse (request 1 1 8 11 (replicate 8 0 ++ lit "bxy")) in
  c_state (cn s) = conn_closed /\ rbytes (cn s) = 11 /\
  sent (back s) = response_header 1 0 0 4 17 67305985 0 ++ lit "Invalid arguments".
Proof. vm_compute. split_and!; reflexivity. Qed.

Lemma binary_request_answered_witness :
  runs False (Binary.complete_nread_binary BinToy.cfg) getk (fun _ s' => answered BinToy.cfg getk s' \/ silent getk s' \/ reading s').
Proof.
  apply (binary_request_answered BinToy.cfg False limits getk).
  - exact getk_calm.
  - reflexivity.
  - discriminate.
  - vm_compute. split_and!; discriminate.
Defined.

Lemma binary_dispatch_witness :
  runs False (Binary.dispatch_bin_command BinToy.cfg) long_get (fun _ s' => dispatched BinToy.cfg long_get s' /\
    (inadmissible (cn long_get) -> refused BinToy.cfg long_get s')) /\
  match Binary.dispatch_bin_command BinToy.cfg long_get with
  | Ok (_, s') => rsize (cn long_get) = 64 /\ rsize (cn s') = 256 /\ rcurr (cn s') = 0 /\ rlbytes (cn s') = 200 /\ ritem (cn s') = Ptr LRbuf 24
  | _ => False
  end.
Proof.
  split; [|vm_compute; split_and!; reflexivity].
  apply (binary_dispatch BinToy.cfg False limits long_get).
  - exact long_get_calm.
  - reflexivity.
  - split; vm_compute; split_and?; reflexivity || discriminate.
  - vm_compute. split_and!; reflexivity || discriminate.
Defined.

Lemma set_with_extras_refused_witness :
  runs False (Binary.dispatch_bin_command BinToy.cfg) set_extras (fun _ s' => refused BinToy.cfg set_extras s').
Proof.
  apply (set_with_extras_refused BinToy.cfg False limits set_extras).
  - exact set_extras_calm.
  - reflexivity.
  - reflexivity.
  - vm_compute. left.
  - reflexivity.
  - discriminate.
  - discriminate.
Defined.
